(** * FileZilla 3 socket core: a shallow embedding of [socket.cpp]

    The development follows the C++ source: the dispatcher queue is a list
    of events compacted in place, the owner-facing [CSocket] and its worker
    [CSocketThread] are records threaded through every operation, and the
    blocking system calls ([select], [connect], [recv], [getnameinfo], ...)
    are answered by explicit environment arguments. *)

From Stdlib Require Import ZArith Lia String Ascii.
From stdpp Require Import base list.

Local Open Scope Z_scope.

(** ** Platform constants

    The numeric values of the [errno], [EAI_*], [WSA*] and [AF_*] macros come
    from the system headers.  [ERRORDECL(c, desc)] expands to
    [{ c, _T(#c), desc }], so an entry of the error table is determined by
    the macro's spelling and by the value the platform gives it. *)

Record platform := Platform {
  msw : bool;                      (* __WXMSW__ *)
  macro_defined : string -> bool;  (* #ifdef on the optional macros *)
  macro_value : string -> Z        (* the value a macro expands to *)
}.

(** ** Events and the dispatcher queue *)

(** Object identities stand for the [CSocketEventHandler*] and
    [CSocketEventSource*] pointers.  [SendEvent] asserts that the handler
    of a queued event is not null, and every construction site passes the
    socket itself as source. *)
Definition handler := nat.
Definition source := nat.

Inductive EventType :=
| hostaddress
| connection_next
| connection
| read
| write
| close.

Record CSocketEvent := Event {
  m_pSource : source;
  m_type : EventType;
  m_data : option string;
  m_error : Z;
  m_pSocketEventHandler : handler
}.

#[global] Instance EventType_eq_dec : EqDecision EventType.
Proof. solve_decision. Defined.

(** The two constructors of [CSocketEvent]. *)
Definition CSocketEvent_data (h : handler) (s : source) (t : EventType)
    (data : string) : CSocketEvent :=
  Event s t (Some data) 0 h.

Definition CSocketEvent_error (h : handler) (s : source) (t : EventType)
    (error : Z) : CSocketEvent :=
  Event s t None error h.

Module Dispatcher.

Abbreviation queue := (list CSocketEvent).

(** [m_pending_events.push_back(evt)]; the wake-up of the event loop that
    follows is outside the model. *)
Definition SendEvent (evt : CSocketEvent) (q : queue) : queue :=
  q ++ [evt].

(** The loop shared by both [RemovePending] overloads: [iter] walks the
    list, [remaining] is the write cursor; a kept element is stored at
    [remaining], which then advances.  [n] counts the elements still to
    visit. *)
Fixpoint compact (keep : CSocketEvent -> bool) (n : nat) (q : queue)
    (remaining iter : nat) : queue * nat :=
  match n with
  | O => (q, remaining)
  | S n' =>
      match q !! iter with
      | None => (q, remaining)
      | Some e =>
          if keep e
          then compact keep n' (<[remaining := e]> q) (S remaining) (S iter)
          else compact keep n' q remaining (S iter)
      end
  end.

(** [m_pending_events.erase(remaining, m_pending_events.end())] *)
Definition erase_to_end (remaining : nat) (q : queue) : queue :=
  take remaining q.

Definition remove_if_not (keep : CSocketEvent -> bool) (q : queue) : queue :=
  let '(q', remaining) := compact keep (length q) q 0%nat 0%nat in
  erase_to_end remaining q'.

(** [RemovePending(const CSocketEventHandler* pHandler)]; the argument may
    be a null pointer. *)
Definition RemovePending_handler (pHandler : option handler) (q : queue)
    : queue :=
  remove_if_not
    (fun e => negb (bool_decide (Some (m_pSocketEventHandler e) = pHandler))) q.

(** [RemovePending(const CSocketEventSource* pSource)] *)
Definition RemovePending_source (pSource : source) (q : queue) : queue :=
  remove_if_not (fun e => negb (bool_decide (m_pSource e = pSource))) q.

(** [UpdatePending]: entries of another source or another handler are
    skipped, the others get both fields overwritten. *)
Definition UpdatePending (pOldHandler : option handler) (pOldSource : source)
    (pNewHandler : handler) (pNewSource : source) (q : queue) : queue :=
  map (fun evt =>
         if negb (bool_decide (m_pSource evt = pOldSource))
            || negb (bool_decide (Some (m_pSocketEventHandler evt) = pOldHandler))
         then evt
         else Event pNewSource (m_type evt) (m_data evt) (m_error evt)
                    pNewHandler)
      q.

End Dispatcher.

(** ** Strings: [wxString] helpers and [printf] conversions *)

Local Open Scope string_scope.

(** [wxString::Find(wxUniChar)]: index of the first occurrence, or
    [wxNOT_FOUND] (-1). *)
Fixpoint Find (ch : ascii) (s : string) : Z :=
  match s with
  | EmptyString => -1
  | String c s' =>
      if Ascii.eqb c ch then 0
      else let r := Find ch s' in if (r =? -1)%Z then -1 else r + 1
  end.

(** [wxString::Truncate(len)]: keeps the first [len] characters. *)
Definition Truncate (len : Z) (s : string) : string :=
  substring 0 (Z.to_nat len) s.

Definition digit_char (d : Z) : ascii := ascii_of_nat (48 + Z.to_nat d).

(** Digits of a non-negative number, most significant first.  A 32-bit
    value has at most ten digits, so nine further divisions suffice. *)
Fixpoint utoa_digits (fuel : nat) (n : Z) (acc : string) : string :=
  let acc' := String (digit_char (n mod 10)) acc in
  match fuel with
  | O => acc'
  | S f => if (n / 10 =? 0)%Z then acc' else utoa_digits f (n / 10) acc'
  end.

(** The conversion [%u] of an [unsigned int]. *)
Definition format_u (n : Z) : string := utoa_digits 9 n "".

(** The conversion [%d] of an [int]. *)
Definition format_d (n : Z) : string :=
  if (n <? 0)%Z then String "-" (format_u (- n)) else format_u n.

(** ** Error mapping *)

Section ErrorMapping.

Variable P : platform.

Definition macro (name : string) : Z := macro_value P name.

Definition EINVAL := macro "EINVAL".
Definition EISCONN := macro "EISCONN".
Definition EINPROGRESS := macro "EINPROGRESS".
Definition EAGAIN := macro "EAGAIN".
Definition ECONNABORTED := macro "ECONNABORTED".
Definition AF_UNSPEC := macro "AF_UNSPEC".
Definition AF_INET := macro "AF_INET".
Definition AF_INET6 := macro "AF_INET6".

(** [ConvertMSWErrorCode]: the [switch] as a chain of comparisons, in the
    order of its [case] labels. *)
Definition ConvertMSWErrorCode (error : Z) : Z :=
  if (error =? macro "WSAECONNREFUSED")%Z then macro "ECONNREFUSED"
  else if (error =? macro "WSAECONNABORTED")%Z then macro "ECONNABORTED"
  else if (error =? macro "WSAEINVAL")%Z then macro "EAI_BADFLAGS"
  else if (error =? macro "WSANO_RECOVERY")%Z then macro "EAI_FAIL"
  else if (error =? macro "WSAEAFNOSUPPORT")%Z then macro "EAI_FAMILY"
  else if (error =? macro "WSA_NOT_ENOUGH_MEMORY")%Z then macro "EAI_MEMORY"
  else if (error =? macro "WSANO_DATA")%Z then macro "EAI_NODATA"
  else if (error =? macro "WSAHOST_NOT_FOUND")%Z then macro "EAI_NONAME"
  else if (error =? macro "WSATYPE_NOT_FOUND")%Z then macro "EAI_SERVICE"
  else if (error =? macro "WSAESOCKTNOSUPPORT")%Z then macro "EAI_SOCKTYPE"
  else if (error =? macro "WSAEWOULDBLOCK")%Z then macro "EAGAIN"
  else if (error =? macro "WSAEMFILE")%Z then macro "EMFILE"
  else if (error =? macro "WSAEINTR")%Z then macro "EINTR"
  else if (error =? macro "WSAEFAULT")%Z then macro "EFAULT"
  else if (error =? macro "WSAEACCES")%Z then macro "EACCES"
  else if (error =? macro "WSAETIMEDOUT")%Z then macro "ETIMEDOUT"
  else if (error =? macro "WSAECONNRESET")%Z then macro "ECONNRESET"
  else error.

(** The error code a failed socket call leaves behind: [errno], or
    [ConvertMSWErrorCode(WSAGetLastError())] on Windows. *)
Definition last_error (raw : Z) : Z :=
  if msw P then ConvertMSWErrorCode raw else raw.

Record Error_table := ErrorEntry {
  code : Z;
  name : string;
  description : string
}.

(** [ERRORDECL(c, desc)] *)
Definition ERRORDECL (c desc : string) : Error_table :=
  ErrorEntry (macro c) c desc.

(** Preprocessor conditions around entries of the table. *)
Inductive guard := unconditional | ifndef_msw | ifdef_msw | ifdef_self.

Definition guard_holds (g : guard) (c : string) : bool :=
  match g with
  | unconditional => true
  | ifndef_msw => negb (msw P)
  | ifdef_msw => msw P
  | ifdef_self => macro_defined P c
  end.

Definition error_decls : list (guard * string * string) :=
  [ (unconditional, "EACCES", "Permission denied");
    (unconditional, "EADDRINUSE", "Local address in use");
    (unconditional, "EAFNOSUPPORT", "The specified address family is not supported");
    (unconditional, "EINPROGRESS", "Operation in progress");
    (unconditional, "EINVAL", "Invalid argument passed");
    (unconditional, "EMFILE", "Process file table overflow");
    (unconditional, "ENFILE", "System limit of open files exceeded");
    (unconditional, "ENOBUFS", "Out of memory");
    (unconditional, "ENOMEM", "Out of memory");
    (unconditional, "EPERM", "Permission denied");
    (unconditional, "EPROTONOSUPPORT", "Protocol not supported");
    (unconditional, "EAGAIN", "Resource temporarily unavailable");
    (unconditional, "EALREADY", "Operation already in progress");
    (unconditional, "EBADF", "Bad file descriptor");
    (unconditional, "ECONNREFUSED", "Connection refused by server");
    (unconditional, "EFAULT", "Socket address outside address space");
    (unconditional, "EINTR", "Interrupted by signal");
    (unconditional, "EISCONN", "Socket already connected");
    (unconditional, "ENETUNREACH", "Network unreachable");
    (unconditional, "ENOTSOCK", "File descriptor not a socket");
    (unconditional, "ETIMEDOUT", "Connection attempt timed out");
    (unconditional, "EHOSTUNREACH", "No route to host");
    (unconditional, "ENOTCONN", "Socket not connected");
    (unconditional, "ENETRESET", "Connection reset by network");
    (unconditional, "EOPNOTSUPP", "Operation not supported");
    (unconditional, "ESHUTDOWN", "Socket has been shut down");
    (unconditional, "EMSGSIZE", "Message too large");
    (unconditional, "ECONNABORTED", "Connection aborted");
    (unconditional, "ECONNRESET", "Connection reset by peer");
    (unconditional, "EPIPE", "Local endpoint has been closed");
    (ifndef_msw, "EAI_ADDRFAMILY", "Network host does not have any network addresses in the requested address family");
    (unconditional, "EAI_AGAIN", "Temporary failure in name resolution");
    (unconditional, "EAI_BADFLAGS", "Invalid value for ai_flags");
    (ifdef_self, "EAI_BADHINTS", "Invalid value for hints");
    (unconditional, "EAI_FAIL", "Nonrecoverable failure in name resolution");
    (unconditional, "EAI_FAMILY", "The ai_family member is not supported");
    (unconditional, "EAI_MEMORY", "Memory allocation failure");
    (ifdef_self, "EAI_NODATA", "No address associated with nodename");
    (unconditional, "EAI_NONAME", "Neither nodename nor servname provided, or not known");
    (ifdef_self, "EAI_OVERFLOW", "Argument buffer overflow");
    (ifdef_self, "EAI_PROTOCOL", "Resolved protocol is unknown");
    (unconditional, "EAI_SERVICE", "The servname parameter is not supported for ai_socktype");
    (unconditional, "EAI_SOCKTYPE", "The ai_socktype member is not supported");
    (ifndef_msw, "EAI_SYSTEM", "Other system error");
    (ifdef_msw, "WSANOTINITIALISED", "Not initialized, need to call WSAStartup");
    (ifdef_msw, "WSAENETDOWN", "System's network subsystem has failed");
    (ifdef_msw, "WSAEPROTOTYPE", "Protocol not supported on given socket type");
    (ifdef_msw, "WSAESOCKTNOSUPPORT", "Socket type not supported for address family");
    (ifdef_msw, "WSAEADDRNOTAVAIL", "Cannot assign requested address");
    (ifdef_msw, "ERROR_NETNAME_DELETED", "The specified network name is no longer available") ].

(** The entries the preprocessor keeps, without the closing sentinel. *)
Definition error_entries : list Error_table :=
  flat_map (fun d => let '(g, c, desc) := d in
                     if guard_holds g c then [ERRORDECL c desc] else [])
           error_decls.

(** The closing [{ 0, 0, 0 }]; its null strings are never read. *)
Definition sentinel : Error_table := ErrorEntry 0 "" "".

Definition error_table : list Error_table := error_entries ++ [sentinel].

(** [for (int i = 0; error_table[i].code; ++i)
      { if (error != error_table[i].code) continue; return ...; }]
    The scan ends at the first entry whose code is zero. *)
Fixpoint scan_table (error : Z) (tbl : list Error_table)
    : option Error_table :=
  match tbl with
  | [] => None
  | e :: rest =>
      if (code e =? 0)%Z then None
      else if negb (error =? code e)%Z then scan_table error rest
      else Some e
  end.

(** [wxGetTranslation]: the message catalogue is external. *)
Variable wxGetTranslation : string -> string.

Definition GetErrorString (error : Z) : string :=
  match scan_table error error_table with
  | Some e => name e
  | None => format_d error
  end.

Definition GetErrorDescription (error : Z) : string :=
  match scan_table error error_table with
  | Some e => name e ++ " - " ++ wxGetTranslation (description e)
  | None => format_d error
  end.

End ErrorMapping.

(** ** Address formatting *)

(** A socket address together with what [getnameinfo] answers for it under
    [NI_NUMERICHOST | NI_NUMERICSERV]: the return code and the two
    buffers. *)
Record sockaddr := SockAddr {
  sa_family : Z;
  ni_result : Z;
  hostbuf : string;
  portbuf : string
}.

Definition AddressToString (P : platform) (addr : sockaddr)
    (with_port strip_zone_index : bool) : string :=
  if negb (ni_result addr =? 0)%Z then ""
  else
    let host := hostbuf addr in
    let port := portbuf addr in
    let host :=
      if (sa_family addr =? AF_INET6 P)%Z then
        let host :=
          if strip_zone_index then
            let pos := Find "%" host in
            if negb (pos =? -1)%Z then Truncate pos host else host
          else host in
        if with_port then "[" ++ host ++ "]" else host
      else host in
    if with_port then host ++ ":" ++ port else host.

(** The part of a host name before its first ['%'], as the specification
    words it: everything from ['%'] to the end is removed. *)
Fixpoint before_percent (s : string) : string :=
  match s with
  | EmptyString => EmptyString
  | String c s' => if Ascii.eqb c "%" then EmptyString
                   else String c (before_percent s')
  end.

(** ** Heap buffers

    [new char[n]] gives [n] cells; a store outside of them is undefined
    behaviour, which the model reports as [None]. *)

Abbreviation buffer := (list ascii).

Definition new_char (n : nat) : buffer := replicate n zero.

Definition store (i : nat) (c : ascii) (b : buffer) : option buffer :=
  if decide (i < length b)%nat then Some (<[i := c]> b) else None.

(** Copies the characters of [s] and the terminating NUL to [b], starting
    at index [i]. *)
Fixpoint write_cstring (s : string) (i : nat) (b : buffer) : option buffer :=
  match s with
  | EmptyString => store i zero b
  | String c s' =>
      match store i c b with
      | Some b' => write_cstring s' (S i) b'
      | None => None
      end
  end.

(** The C string held by a buffer: the characters before the first NUL. *)
Fixpoint c_str (b : buffer) : string :=
  match b with
  | [] => EmptyString
  | c :: b' => if Ascii.eqb c zero then EmptyString else String c (c_str b')
  end.

(** [new char[strlen(buf) + 1]] filled by [strcpy]: the characters of
    [buf] before its first NUL. *)
Fixpoint strcpy (buf : string) : string :=
  match buf with
  | EmptyString => EmptyString
  | String c buf' =>
      if Ascii.eqb c zero then EmptyString else String c (strcpy buf')
  end.

(** [m_pPort = new char[6]; sprintf(m_pPort, "%u", m_port); m_pPort[5] = 0;] *)
Definition format_port (m_port : Z) : option buffer :=
  match write_cstring (format_u m_port) 0 (new_char 6) with
  | Some b => store 5 zero b
  | None => None
  end.

Local Close Scope string_scope.

(** ** The socket and its worker *)

Definition WAIT_CONNECT : Z := 0x01.
Definition WAIT_READ : Z := 0x02.
Definition WAIT_WRITE : Z := 0x04.
Definition WAIT_ACCEPT : Z := 0x08.
Definition WAIT_CLOSE : Z := 0x10.
Definition WAIT_EVENTCOUNT : nat := 5.

Inductive SocketState :=
| none
| listening
| connecting
| connected
| closing
| closed.

#[global] Instance SocketState_eq_dec : EqDecision SocketState.
Proof. solve_decision. Defined.

(** [address_family] is an unscoped [enum]; a caller can pass any integer,
    which is what the [default:] label of [Connect] is for. *)
Definition unspec : Z := 0.
Definition ipv4 : Z := 1.
Definition ipv6 : Z := 2.

(** What the operations do to the outside, in program order. *)
Inductive effect :=
| Lock                (* m_sync.Lock() of the worker *)
| Unlock              (* m_sync.Unlock() *)
| Signal              (* m_condition.Signal() *)
| WakeupPosted        (* WSASetEvent, or a byte written to m_pipe[1] *)
| CloseFd (fd : Z)    (* close / closesocket *)
| MilliSleep (ms : Z)
| ThreadRun           (* Create() and Run() succeeded *)
| ThreadJoin          (* wxThread::Wait() and delete *)
| ThreadDelete        (* delete of a worker that never ran *)
| ReadCallback.       (* m_synchronous_read_cb->cb() *)

Record CSocketThread := Thread {
  m_pSocket : bool;           (* the back pointer is set *)
  m_pHost : option string;
  m_pPort : option string;
  m_pipe : bool;              (* m_pipe[0] != -1, resp. a valid m_sync_event *)
  m_started : bool;
  m_quit : bool;
  m_finished : bool;
  m_waiting : Z;
  m_triggered : Z;
  m_triggered_errors : list Z;
  m_threadwait : bool
}.

Definition set_m_pSocket (v : bool) (t : CSocketThread) :=
  let 'Thread _ a b c d e f g h i j := t in Thread v a b c d e f g h i j.
Definition set_m_pHost (v : option string) (t : CSocketThread) :=
  let 'Thread a _ b c d e f g h i j := t in Thread a v b c d e f g h i j.
Definition set_m_pPort (v : option string) (t : CSocketThread) :=
  let 'Thread a b _ c d e f g h i j := t in Thread a b v c d e f g h i j.
Definition set_m_pipe (v : bool) (t : CSocketThread) :=
  let 'Thread a b c _ d e f g h i j := t in Thread a b c v d e f g h i j.
Definition set_m_started (v : bool) (t : CSocketThread) :=
  let 'Thread a b c d _ e f g h i j := t in Thread a b c d v e f g h i j.
Definition set_m_quit (v : bool) (t : CSocketThread) :=
  let 'Thread a b c d e _ f g h i j := t in Thread a b c d e v f g h i j.
Definition set_m_waiting (v : Z) (t : CSocketThread) :=
  let 'Thread a b c d e f g _ h i j := t in Thread a b c d e f g v h i j.
Definition set_m_triggered (v : Z) (t : CSocketThread) :=
  let 'Thread a b c d e f g h _ i j := t in Thread a b c d e f g h v i j.
Definition set_m_triggered_errors (v : list Z) (t : CSocketThread) :=
  let 'Thread a b c d e f g h i _ j := t in Thread a b c d e f g h i v j.
Definition set_m_threadwait (v : bool) (t : CSocketThread) :=
  let 'Thread a b c d e f g h i j _ := t in Thread a b c d e f g h i j v.

(** The state of [CSocketThread::CSocketThread()]. *)
Definition new_CSocketThread : CSocketThread :=
  Thread false None None false false false false 0 0
         (replicate WAIT_EVENTCOUNT 0) false.

(** The [CSocket] object, the dispatcher it sends to, the global list
    [waiting_socket_threads] and the effects performed so far. *)
Record world := World {
  this : source;
  m_pEvtHandler : option handler;
  m_fd : Z;
  m_state : SocketState;
  m_pSocketThread : option CSocketThread;
  m_host : string;
  m_port : Z;
  m_family : Z;
  m_synchronous_read_cb : bool;
  m_pending_events : list CSocketEvent;
  waiting_socket_threads : list CSocketThread;
  effects : list effect
}.

Definition set_m_pEvtHandler (v : option handler) (w : world) :=
  let 'World a _ b c d e f g h i j k := w in World a v b c d e f g h i j k.
Definition set_m_fd (v : Z) (w : world) :=
  let 'World a b _ c d e f g h i j k := w in World a b v c d e f g h i j k.
Definition set_m_state (v : SocketState) (w : world) :=
  let 'World a b c _ d e f g h i j k := w in World a b c v d e f g h i j k.
Definition set_m_pSocketThread (v : option CSocketThread) (w : world) :=
  let 'World a b c d _ e f g h i j k := w in World a b c d v e f g h i j k.
Definition set_m_host (v : string) (w : world) :=
  let 'World a b c d e _ f g h i j k := w in World a b c d e v f g h i j k.
Definition set_m_port (v : Z) (w : world) :=
  let 'World a b c d e f _ g h i j k := w in World a b c d e f v g h i j k.
Definition set_m_family (v : Z) (w : world) :=
  let 'World a b c d e f g _ h i j k := w in World a b c d e f g v h i j k.
Definition set_m_pending_events (v : list CSocketEvent) (w : world) :=
  let 'World a b c d e f g h i _ j k := w in World a b c d e f g h i v j k.
Definition set_waiting_socket_threads (v : list CSocketThread) (w : world) :=
  let 'World a b c d e f g h i j _ k := w in World a b c d e f g h i j v k.
Definition set_effects (v : list effect) (w : world) :=
  let 'World a b c d e f g h i j k _ := w in World a b c d e f g h i j k v.

Definition perform (e : effect) (w : world) : world :=
  set_effects (effects w ++ [e]) w.

(** [dispatcher_.SendEvent(evt)] *)
Definition send (evt : CSocketEvent) (w : world) : world :=
  set_m_pending_events (Dispatcher.SendEvent evt (m_pending_events w)) w.

(** ** The environment of the system calls *)

(** A pointer tested as a condition. *)
Definition non_null {A} (p : option A) : bool :=
  match p with Some _ => true | None => false end.

Definition has_bit (mask bit : Z) : bool := negb (Z.land mask bit =? 0).
Definition clear_bit (mask bit : Z) : Z := Z.land mask (Z.lnot bit).

(** How a piece of the worker ends: blocked for good in a wait (the
    interference supplied has run out), stopped by a dereference of
    [m_pSocket] while it is null, or returned. *)
Inductive outcome (A : Type) :=
| blocked
| null_dereference
| returned (a : A).

Arguments blocked {A}.
Arguments null_dereference {A}.
Arguments returned {A} a.

(** What the owner does to the shared objects while the worker has released
    the mutex. *)
Abbreviation interference :=
  (CSocketThread -> world -> CSocketThread * world).

(** A call [f] of the owner on the socket made while the worker has
    released the mutex: both sides work on the one [CSocketThread]
    object. *)
Definition owner_calls (f : world -> world) : interference :=
  fun t w =>
    let w := f (set_m_pSocketThread (Some t) w) in
    (default t (m_pSocketThread w), w).

(** *** [CSocketThread::DoWait], the [select] variant *)

(** What one [select] call reports: its return value, [errno], which of
    the socket's two conditions are ready, and the answer of the
    [getsockopt(SO_ERROR)] that follows a completed connect (return value,
    the error stored, [errno]). *)
Record select_result := Select {
  sel_res : Z;
  sel_errno : Z;
  ready_read : bool;
  ready_write : bool;
  so_error : Z * Z * Z
}.

Definition EINTR (P : platform) : Z := macro P "EINTR".

Module Select.

(** The body of the [for (;;)] loop of [DoWait] on a platform other than
    Windows, between [FD_ZERO] and the end of the loop.  [meanwhile] is
    what the owner does to the shared objects while the mutex is released
    around [select].  The result is [Some b] for [return b] and [None] when
    the loop goes round again; draining the wakeup pipe does not show in the
    state. *)
Definition DoWait_body (P : platform)
    (meanwhile : CSocketThread -> world -> CSocketThread * world)
    (sel : select_result) (t : CSocketThread) (w : world)
    : option bool * CSocketThread * world :=
  let in_readfds := negb (has_bit (m_waiting t) WAIT_CONNECT) in
  let in_writefds := has_bit (m_waiting t) (Z.lor WAIT_WRITE WAIT_CONNECT) in
  let w := perform Unlock w in
  let '(t, w) := meanwhile t w in
  let w := perform Lock w in
  if m_quit t || negb (m_pSocket t) || (m_fd w =? -1) then (Some false, t, w)
  else if sel_res sel =? 0 then (None, t, w)
  else if sel_res sel =? -1 then
    if sel_errno sel =? EINTR P then (None, t, w) else (Some false, t, w)
  else
    let readable := in_readfds && ready_read sel in
    let writable := in_writefds && ready_write sel in
    let trigger := fun (bit : Z) (t : CSocketThread) =>
      set_m_waiting (clear_bit (m_waiting t) bit)
        (set_m_triggered (Z.lor (m_triggered t) bit) t) in
    let t :=
      if has_bit (m_waiting t) WAIT_CONNECT then
        if writable then
          let '(res, error, errno) := so_error sel in
          let error := if negb (res =? 0) then errno else error in
          let t := set_m_triggered (Z.lor (m_triggered t) WAIT_CONNECT) t in
          let t := set_m_triggered_errors
                     (<[0%nat := error]> (m_triggered_errors t)) t in
          set_m_waiting (clear_bit (m_waiting t) WAIT_CONNECT) t
        else t
      else if has_bit (m_waiting t) WAIT_ACCEPT then
        if readable then trigger WAIT_ACCEPT t else t
      else if has_bit (m_waiting t) WAIT_READ then
        if readable then trigger WAIT_READ t else t
      else t in
    let t :=
      if has_bit (m_waiting t) WAIT_WRITE then
        if writable then trigger WAIT_WRITE t else t
      else t in
    if negb (m_triggered t =? 0) || (m_waiting t =? 0)
    then (Some true, t, w) else (None, t, w).

End Select.

(** *** The events [WSAEnumNetworkEvents] reports *)

(** The return value of [WSAEnumNetworkEvents] and, for each of the five
    network events the worker looks at, whether its bit is set in
    [lNetworkEvents], with the entry of [iErrorCode] that belongs to it. *)
Record network_events := NetworkEvents {
  enum_res : Z;
  fd_connect : option Z;
  fd_read : option Z;
  fd_write : option Z;
  fd_accept : option Z;
  fd_close : option Z
}.

(** One pass through the [for (;;)] loop of [DoWait]: what the owner does
    to the shared objects while the worker has released the mutex and
    blocks, and what the readiness call reports when it returns ([select]
    and [getsockopt], resp. [WSAEnumNetworkEvents] on Windows). *)
Record wait_round := WaitRound {
  wait_owner : interference;
  selected : select_result;
  enumerated : network_events
}.

(** One entry of the list [getaddrinfo] returns, with the answers the
    system gives while this address is tried. *)
Record addrinfo := AddrInfo {
  ai_addr : sockaddr;
  sys_socket : Z * Z;        (* socket(): descriptor or -1, error code *)
  sys_connect : Z * Z;       (* connect(): return value, error code *)
  waits : list wait_round    (* the passes of DoWait while it connects *)
}.

(** What the owner thread does to the shared objects while the worker has
    released the mutex in [DoConnect]: before the worker reads
    [m_pSocket->m_family] for the hints, and from then on while
    [getaddrinfo] runs; and what that call returns. *)
Record resolution := Resolution {
  before_hints : interference;
  meanwhile : interference;
  gai_result : Z;
  addressList : list addrinfo
}.

(** Answers needed by [CSocket::Connect]. *)
Record connect_env := ConnectEnv {
  mb_str : string -> option string;  (* wxString::mb_str, null on failure *)
  primitive_errno : Z;               (* pipe() / WSACreateEvent(): 0 if fine *)
  create_ok : bool;                  (* wxThread::Create() *)
  idle_after_sleep : bool            (* m_threadwait seen after wxMilliSleep *)
}.

(** ** [CSocketThread] *)

Module SocketThread.

(** [SetSocket(pSocket, already_locked)] *)
Definition SetSocket (pSocket already_locked : bool) (t : CSocketThread)
    (w : world) : CSocketThread * world :=
  let w := if already_locked then w else perform Lock w in
  let t := set_m_pSocket pSocket t in
  let t := set_m_pHost None t in
  let t := set_m_pPort None t in
  let t := set_m_waiting 0 t in
  (t, if already_locked then w else perform Unlock w).

(** [WakeupThread(already_locked)]: cancels select or idle wait. *)
Definition WakeupThread (already_locked : bool) (t : CSocketThread)
    (w : world) : CSocketThread * world :=
  let w := if already_locked then w else perform Lock w in
  let unlock := fun w => if already_locked then w else perform Unlock w in
  if negb (m_started t) || m_finished t then (t, unlock w)
  else if m_threadwait t then
    (set_m_threadwait false t, unlock (perform Signal w))
  else (t, unlock (perform WakeupPosted w)).

Definition Start (P : platform) (env : connect_env) (t : CSocketThread)
    (w : world) : Z * CSocketThread * world :=
  if m_started t then
    let w := perform Lock w in
    let t := set_m_waiting 0 t in
    let '(t, w) := WakeupThread true t w in
    (0, t, perform Unlock w)
  else
    let t := set_m_started true t in
    if negb (m_pipe t) && negb (primitive_errno env =? 0) then
      ((if msw P then 1 else primitive_errno env), t, w)
    else
      let t := set_m_pipe true t in
      if negb (create_ok env) then (1, t, w)
      else (0, t, perform ThreadRun w).

(** [Connect()]: stages host and port for the worker.  [None] stands for
    a store outside of the six bytes of [m_pPort]. *)
Definition Connect (P : platform) (env : connect_env) (t : CSocketThread)
    (w : world) : option (Z * CSocketThread * world) :=
  match mb_str env (m_host w) with
  | None => Some (EINVAL P, set_m_pPort None (set_m_pHost None t), w)
  | Some buf =>
      let t := set_m_pHost (Some (strcpy buf)) t in
      match format_port (m_port w) with
      | None => None
      | Some b =>
          let t := set_m_pPort (Some (c_str b)) t in
          let '(_, t, w) := Start P env t w in
          Some (0, t, w)
      end
  end.

(** [Lock()]: obtains the lock in all cases, [false] if the thread should
    quit. *)
Definition Lock_ (t : CSocketThread) (w : world) : bool * world :=
  (negb (m_quit t || negb (m_pSocket t)), perform Lock w).

(** [if (m_waiting & WAIT_X) { if (events.lNetworkEvents & FD_X) { ... } }]
    of the Windows variant of [DoWait], for the event [bit] whose error goes
    to [m_triggered_errors[slot]]. *)
Definition trigger_event (P : platform) (bit : Z) (slot : nat)
    (reported : option Z) (t : CSocketThread) : CSocketThread :=
  if has_bit (m_waiting t) bit then
    match reported with
    | Some error =>
        let t := set_m_triggered (Z.lor (m_triggered t) bit) t in
        let t := set_m_triggered_errors
                   (<[slot := ConvertMSWErrorCode P error]>
                      (m_triggered_errors t)) t in
        set_m_waiting (clear_bit (m_waiting t) bit) t
    | None => t
    end
  else t.

(** The body of the [for (;;)] loop of [DoWait] on Windows, between
    [WSAEventSelect] and the end of the loop.  [meanwhile] is what the
    owner does to the shared objects while the mutex is released around
    [WSAWaitForMultipleEvents], [ev] what [WSAEnumNetworkEvents] reports
    afterwards.  The result is [Some b] for [return b] and [None] when the
    loop goes round again. *)
Definition DoWait_events (P : platform) (meanwhile : interference)
    (ev : network_events) (t : CSocketThread) (w : world)
    : option bool * CSocketThread * world :=
  let w := perform Unlock w in
  let '(t, w) := meanwhile t w in
  let w := perform Lock w in
  if m_quit t || negb (m_pSocket t) then (Some false, t, w)
  else if negb (enum_res ev =? 0) then (Some false, t, w)
  else
    let t := trigger_event P WAIT_CONNECT 0%nat (fd_connect ev) t in
    let t := trigger_event P WAIT_READ 1%nat (fd_read ev) t in
    let t := trigger_event P WAIT_WRITE 2%nat (fd_write ev) t in
    let t := trigger_event P WAIT_ACCEPT 3%nat (fd_accept ev) t in
    let t := trigger_event P WAIT_CLOSE 4%nat (fd_close ev) t in
    if negb (m_triggered t =? 0) || (m_waiting t =? 0)
    then (Some true, t, w) else (None, t, w).

(** One pass through the loop of [DoWait], as compiled for [P]. *)
Definition DoWait_round (P : platform) (r : wait_round) (t : CSocketThread)
    (w : world) : option bool * CSocketThread * world :=
  if msw P then DoWait_events P (wait_owner r) (enumerated r) t w
  else Select.DoWait_body P (wait_owner r) (selected r) t w.

(** The [for (;;)] loop of [DoWait]: every pass starts with a use of
    [m_pSocket->m_fd] and takes the next entry of [rounds]; the entries not
    used are returned with the result.  [blocked]: the worker is still
    waiting when the passes supplied are used up. *)
Fixpoint DoWait_rounds (P : platform) (rounds : list wait_round)
    (t : CSocketThread) (w : world) {struct rounds}
    : outcome (bool * CSocketThread * world * list wait_round) :=
  if negb (m_pSocket t) then null_dereference
  else
    match rounds with
    | [] => blocked
    | r :: rounds' =>
        match DoWait_round P r t w with
        | (Some res, t, w) => returned (res, t, w, rounds')
        | (None, t, w) => DoWait_rounds P rounds' t w
        end
    end.

(** [DoWait(wait)] *)
Definition DoWait (P : platform) (wait : Z) (rounds : list wait_round)
    (t : CSocketThread) (w : world)
    : outcome (bool * CSocketThread * world * list wait_round) :=
  let t := set_m_waiting (Z.lor (m_waiting t) wait) t in
  DoWait_rounds P rounds t w.

(** [do { wait_successful = DoWait(WAIT_CONNECT);
         if ((m_triggered & WAIT_CONNECT)) break; }
    while (wait_successful);]
    [calls] bounds the number of calls of [DoWait]; a call that returns has
    used at least one pass, so that one call more than there are passes is
    never reached. *)
Fixpoint wait_connect (P : platform) (calls : nat) (rounds : list wait_round)
    (t : CSocketThread) (w : world)
    : outcome (bool * CSocketThread * world * list wait_round) :=
  match calls with
  | O => blocked
  | S calls' =>
      match DoWait P WAIT_CONNECT rounds t w with
      | blocked => blocked
      | null_dereference => null_dereference
      | returned (wait_successful, t, w, rounds) =>
          if has_bit (m_triggered t) WAIT_CONNECT
          then returned (wait_successful, t, w, rounds)
          else if wait_successful then wait_connect P calls' rounds t w
          else returned (wait_successful, t, w, rounds)
      end
  end.

(** The event both failure paths of [TryConnectHost] send. *)
Definition send_failure (ai_next : bool) (res : Z) (w : world) : world :=
  match m_pEvtHandler w with
  | Some h =>
      send (CSocketEvent_error h (this w)
              (if ai_next then connection_next else connection) res) w
  | None => w
  end.

(** [TryConnectHost(addr)]; [ai_next] tells whether [addr->ai_next] is
    set.  Returns 1 once connected, 0 if this address failed, -1 if the
    wait was cancelled.  The function starts with a use of
    [m_pSocket->m_pEvtHandler]; the options set on the new descriptor
    before [connect] are not part of the state kept here. *)
Definition TryConnectHost (P : platform) (addr : addrinfo) (ai_next : bool)
    (t : CSocketThread) (w : world) : outcome (Z * CSocketThread * world) :=
  if negb (m_pSocket t) then null_dereference
  else
  let w :=
    match m_pEvtHandler w with
    | Some h =>
        send (CSocketEvent_data h (this w) hostaddress
                (AddressToString P (ai_addr addr) true false)) w
    | None => w
    end in
  let '(fd, socket_errno) := sys_socket addr in
  if fd =? -1 then
    let res := last_error P socket_errno in
    returned (0, t, send_failure ai_next res w)
  else
    let '(res, connect_errno) := sys_connect addr in
    let res :=
      if res =? -1 then
        if msw P then
          if connect_errno =? macro P "WSAEWOULDBLOCK" then EINPROGRESS P
          else ConvertMSWErrorCode P connect_errno
        else connect_errno
      else res in
    let waited :=
      if res =? EINPROGRESS P then
        let w := set_m_fd fd w in
        match wait_connect P (S (length (waits addr))) (waits addr) t w with
        | blocked => blocked
        | null_dereference => null_dereference
        | returned (wait_successful, t, w, _) =>
            if negb wait_successful then
              let w := perform (CloseFd fd) w in
              let w := if m_pSocket t then set_m_fd (-1) w else w in
              returned (inl (-1, t, w))
            else
              let t := set_m_triggered
                         (clear_bit (m_triggered t) WAIT_CONNECT) t in
              returned (inr (nth 0 (m_triggered_errors t) 0, t, w))
        end
      else returned (inr (res, t, w)) in
    match waited with
    | blocked => blocked
    | null_dereference => null_dereference
    | returned (inl r) => returned r
    | returned (inr (res, t, w)) =>
        if negb (res =? 0) then
          let w := send_failure ai_next res w in
          let w := set_m_fd (-1) w in
          let w := perform (CloseFd fd) w in
          returned (0, t, w)
        else
          let w := set_m_fd fd w in
          let w := set_m_state connected w in
          let w :=
            match m_pEvtHandler w with
            | Some h => send (CSocketEvent_error h (this w) connection 0) w
            | None => w
            end in
          let t := set_m_waiting
                     (Z.lor (m_waiting t) (Z.lor WAIT_READ WAIT_WRITE)) t in
          returned (1, t, w)
    end.

(** [for (addr = addressList; addr; addr = addr->ai_next)]: the result
    is [Some b] when the loop body returned [b], and [None] when the loop
    ran off the end of the list. *)
Fixpoint connect_loop (P : platform) (l : list addrinfo)
    (t : CSocketThread) (w : world)
    : outcome (option bool * CSocketThread * world) :=
  match l with
  | [] => returned (None, t, w)
  | addr :: l' =>
      match TryConnectHost P addr (negb (bool_decide (l' = []))) t w with
      | blocked => blocked
      | null_dereference => null_dereference
      | returned (res, t, w) =>
          if res =? -1 then
            returned (Some false, t,
                      if m_pSocket t then set_m_state closed w else w)
          else if negb (res =? 0) then returned (Some true, t, w)
          else connect_loop P l' t w
      end
  end.

(** The loop over the resolved addresses and the statements after it. *)
Definition try_addresses (P : platform) (l : list addrinfo)
    (t : CSocketThread) (w : world)
    : outcome (bool * CSocketThread * world) :=
  match connect_loop P l t w with
  | blocked => blocked
  | null_dereference => null_dereference
  | returned (Some b, t, w) => returned (b, t, w)
  | returned (None, t, w) =>
      let w :=
        match m_pEvtHandler w with
        | Some h =>
            send (CSocketEvent_error h (this w) connection (ECONNABORTED P)) w
        | None => w
        end in
      returned (false, t, set_m_state closed w)
  end.

(** [DoConnect()]: only called while locked.  Between [m_sync.Unlock()]
    and [Lock()] the owner runs freely; in between the worker reads
    [m_pSocket->m_family] for the hints of [getaddrinfo], without the
    mutex. *)
Definition DoConnect (P : platform) (r : resolution) (t : CSocketThread)
    (w : world) : outcome (bool * CSocketThread * world) :=
  match m_pHost t, m_pPort t with
  | Some pHost, Some pPort =>
      let t := set_m_pHost None t in
      let t := set_m_pPort None t in
      let w := perform Unlock w in
      let '(t, w) := before_hints r t w in
      if negb (m_pSocket t) then null_dereference
      else
        let '(t, w) := meanwhile r t w in
        let '(locked, w) := Lock_ t w in
        if negb locked then
          returned (false, t, if m_pSocket t then set_m_state closed w else w)
        else if negb (bool_decide (m_state w = connecting))
                || bool_decide (m_pHost t <> None) then
          returned (false, t, w)
        else if negb (gai_result r =? 0) then
          let res := if msw P then ConvertMSWErrorCode P (gai_result r)
                     else gai_result r in
          let w :=
            match m_pEvtHandler w with
            | Some h => send (CSocketEvent_error h (this w) connection res) w
            | None => w
            end in
          returned (false, t, set_m_state closed w)
        else try_addresses P (addressList r) t w
  | _, _ =>
      if negb (m_pSocket t) then null_dereference
      else returned (false, t, set_m_state closed w)
  end.

(** [SendCloseEvent()]; [peek] is what [recv(m_fd, &buf, 1, MSG_PEEK)]
    returns on the Windows path. *)
Definition SendCloseEvent (P : platform) (peek : Z) (t : CSocketThread)
    (w : world) : CSocketThread * world :=
  if negb (m_pSocket t) then (t, w)
  else
    match m_pEvtHandler w with
    | None => (t, w)
    | Some h =>
        if msw P && (nth 4 (m_triggered_errors t) 0 =? 0) && (peek >? 0) then
          if negb (has_bit (m_waiting t) WAIT_READ) then (t, w)
          else (t, send (CSocketEvent_error h (this w) read 0) w)
        else
          let evt := CSocketEvent_error h (this w) close
                       (nth 4 (m_triggered_errors t) 0) in
          let t := set_m_triggered (clear_bit (m_triggered t) WAIT_CLOSE) t in
          (t, send evt w)
    end.

Definition SendEvents (P : platform) (peek : Z) (t : CSocketThread)
    (w : world) : CSocketThread * world :=
  if negb (m_pSocket t) then (t, w)
  else
    match m_pEvtHandler w with
    | None => (t, w)
    | Some h =>
        let '(t, w) :=
          if has_bit (m_triggered t) WAIT_READ then
            let w := if m_synchronous_read_cb w then perform ReadCallback w
                     else w in
            let w := send (CSocketEvent_error h (this w) read
                             (nth 1 (m_triggered_errors t) 0)) w in
            (set_m_triggered (clear_bit (m_triggered t) WAIT_READ) t, w)
          else (t, w) in
        let '(t, w) :=
          if has_bit (m_triggered t) WAIT_WRITE then
            let w := send (CSocketEvent_error h (this w) write
                             (nth 2 (m_triggered_errors t) 0)) w in
            (set_m_triggered (clear_bit (m_triggered t) WAIT_WRITE) t, w)
          else (t, w) in
        let '(t, w) :=
          if has_bit (m_triggered t) WAIT_ACCEPT then
            let w := send (CSocketEvent_error h (this w) connection
                             (nth 3 (m_triggered_errors t) 0)) w in
            (set_m_triggered (clear_bit (m_triggered t) WAIT_ACCEPT) t, w)
          else (t, w) in
        if has_bit (m_triggered t) WAIT_CLOSE then SendCloseEvent P peek t w
        else (t, w)
    end.

End SocketThread.

(** ** [CSocket] *)

Module Socket.

Import SocketThread.

(** The state of [CSocket::CSocket(pEvtHandler, dispatcher)]. *)
Definition new_CSocket (self : source) (pEvtHandler : option handler)
    (pending : list CSocketEvent) : world :=
  World self pEvtHandler (-1) none None EmptyString 0 0 false pending [] [].

(** The walk of [Cleanup(force)] over [waiting_socket_threads]: a worker
    that has finished (or any worker, when forced) is joined, deleted and
    erased from the list. *)
Fixpoint Cleanup_walk (force : bool) (l : list CSocketThread) (w : world)
    : list CSocketThread * world :=
  match l with
  | [] => ([], w)
  | pThread :: l' =>
      if negb force && negb (m_finished pThread) then
        let '(kept, w) := Cleanup_walk force l' w in (pThread :: kept, w)
      else Cleanup_walk force l' (perform ThreadJoin w)
  end.

Definition Cleanup (force : bool) (w : world) : bool * world :=
  let '(kept, w) := Cleanup_walk force (waiting_socket_threads w) w in
  (false, set_waiting_socket_threads kept w).

Definition DetachThread (w : world) : world :=
  match m_pSocketThread w with
  | None => w
  | Some t =>
      let w := perform Lock w in
      let '(t, w) := SetSocket false true t w in
      let w :=
        if m_finished t then
          let '(_, w) := WakeupThread true t w in
          perform ThreadJoin (perform Unlock w)
        else if negb (m_started t) then
          perform ThreadDelete (perform Unlock w)
        else
          let t := set_m_quit true t in
          let '(t, w) := WakeupThread true t w in
          let w := perform Unlock w in
          set_waiting_socket_threads (waiting_socket_threads w ++ [t]) w in
      let w := set_m_pSocketThread None w in
      snd (Cleanup false w)
  end.

(** The [switch (family)] of [Connect]: the value stored in [m_family],
    or [None] for the [default:] label. *)
Definition family_switch (P : platform) (family : Z) : option Z :=
  if family =? unspec then Some (AF_UNSPEC P)
  else if family =? ipv4 then Some (AF_INET P)
  else if family =? ipv6 then Some (AF_INET6 P)
  else None.

(** The block of [Connect] that deals with a worker that is already
    running: nudge it, sleep, and detach it if it is still inside a
    blocking call. *)
Definition preempt_worker (env : connect_env) (w : world) : world :=
  match m_pSocketThread w with
  | Some t =>
      if m_started t then
        let w := perform Lock w in
        if negb (m_threadwait t) then
          let '(t, w) := WakeupThread true t w in
          let w := perform Unlock w in
          let w := perform (MilliSleep 100) w in
          let w := perform Lock w in
          let t := set_m_threadwait (idle_after_sleep env) t in
          let w := set_m_pSocketThread (Some t) w in
          if negb (m_threadwait t) then DetachThread (perform Unlock w)
          else perform Unlock w
        else perform Unlock w
      else w
  | None => w
  end.

(** [Connect(host, port, family)].  The result is [None] only if the
    worker's [Connect] stores outside of its port buffer. *)
Definition Connect (P : platform) (env : connect_env) (host : string)
    (port : Z) (family : Z) (w : world) : option (Z * world) :=
  if negb (bool_decide (m_state w = none)) then Some (EISCONN P, w)
  else if (port <? 1) || (port >? 65535) then Some (EINVAL P, w)
  else
    match family_switch P family with
    | None => Some (EINVAL P, w)
    | Some af =>
        let w := set_m_family af w in
        let w := preempt_worker env w in
        let '(t, w) :=
          match m_pSocketThread w with
          | Some t => (t, w)
          | None => SetSocket true false new_CSocketThread w
          end in
        let w := set_m_state connecting w in
        let w := set_m_host host w in
        let w := set_m_port port w in
        match SocketThread.Connect P env t w with
        | None => None
        | Some (res, t, w) =>
            if negb (res =? 0) then
              let w := set_m_state none w in
              let w := perform ThreadDelete w in
              Some (res, set_m_pSocketThread None w)
            else Some (EINPROGRESS P, set_m_pSocketThread (Some t) w)
        end
    end.

(** [SetEventHandler(pEvtHandler)]; [peek] answers the [recv] of
    [SendCloseEvent] should [SendEvents] get that far. *)
Definition SetEventHandler (P : platform) (peek : Z)
    (pEvtHandler : option handler) (w : world) : world :=
  let w := if non_null (m_pSocketThread w) then perform Lock w else w in
  let w :=
    match pEvtHandler with
    | None =>
        set_m_pending_events
          (Dispatcher.RemovePending_handler (m_pEvtHandler w)
             (m_pending_events w)) w
    | Some new =>
        if non_null (m_pEvtHandler w) then
          set_m_pending_events
            (Dispatcher.UpdatePending (m_pEvtHandler w) (this w) new (this w)
               (m_pending_events w)) w
        else w
    end in
  let w := set_m_pEvtHandler pEvtHandler w in
  match m_pSocketThread w with
  | None => w
  | Some t =>
      let '(t, w) :=
        match pEvtHandler with
        | Some new =>
            if bool_decide (m_state w = connected) then
              if msw P then
                let w :=
                  if negb (has_bit (m_waiting t) WAIT_WRITE) then
                    send (CSocketEvent_error new (this w) write 0) w
                  else w in
                let w := send (CSocketEvent_error new (this w) read 0) w in
                if has_bit (m_waiting t) WAIT_WRITE then
                  let t := set_m_waiting (clear_bit (m_waiting t) WAIT_READ) t in
                  WakeupThread true t w
                else (t, w)
              else
                let t := set_m_waiting
                           (Z.lor (m_waiting t) (Z.lor WAIT_READ WAIT_WRITE)) t in
                WakeupThread true t w
            else if bool_decide (m_state w = closing) then
              SendEvents P peek t w
            else (t, w)
        | None => (t, w)
        end in
      perform Unlock (set_m_pSocketThread (Some t) w)
  end.

Definition Close (w : world) : Z * world :=
  let fd := m_fd w in
  let w :=
    match m_pSocketThread w with
    | Some t =>
        let w := perform Lock w in
        let w := set_m_fd (-1) w in
        let t := set_m_pHost None t in
        let t := set_m_pPort None t in
        let '(t, w) := if negb (m_threadwait t) then WakeupThread true t w
                       else (t, w) in
        set_m_pSocketThread (Some t) w
    | None => set_m_fd (-1) w
    end in
  let w := if negb (fd =? -1) then perform (CloseFd fd) w else w in
  let w := set_m_state none w in
  let w :=
    match m_pSocketThread w with
    | Some t =>
        let t := set_m_triggered 0 t in
        let t := set_m_triggered_errors (replicate WAIT_EVENTCOUNT 0) t in
        perform Unlock (set_m_pSocketThread (Some t) w)
    | None => w
    end in
  let w :=
    if non_null (m_pEvtHandler w) then
      set_m_pending_events
        (Dispatcher.RemovePending_handler (m_pEvtHandler w)
           (m_pending_events w)) w
    else w in
  (0, w).

(** The re-arming both [Read] and [Write] do once the call reported
    [EAGAIN]. *)
Definition arm (bit : Z) (w : world) : world :=
  match m_pSocketThread w with
  | Some t =>
      let w := perform Lock w in
      let '(t, w) :=
        if negb (has_bit (m_waiting t) bit) then
          WakeupThread true (set_m_waiting (Z.lor (m_waiting t) bit) t) w
        else (t, w) in
      perform Unlock (set_m_pSocketThread (Some t) w)
  | None => w
  end.

(** [Read], [Peek] and [Write] take the answer of [recv] resp. [send]:
    the return value and the error code the call left behind.  They give
    back the return value and the value stored in [error]. *)
Definition Read (P : platform) (sys : Z * Z) (w : world) : Z * Z * world :=
  let '(res, raw) := sys in
  if res =? -1 then
    let error := last_error P raw in
    if error =? EAGAIN P then (res, error, arm WAIT_READ w)
    else (res, error, w)
  else (res, 0, w).

Definition Peek (P : platform) (sys : Z * Z) (w : world) : Z * Z * world :=
  let '(res, raw) := sys in
  if res =? -1 then (res, last_error P raw, w)
  else (res, 0, w).

Definition Write (P : platform) (sys : Z * Z) (w : world) : Z * Z * world :=
  let '(res, raw) := sys in
  if res =? -1 then
    let error := last_error P raw in
    if error =? EAGAIN P then (res, error, arm WAIT_WRITE w)
    else (res, error, w)
  else (res, 0, w).

End Socket.

(** ** Two concrete platforms

    The values are those of the GNU C library on Linux and of the Windows
    SDK headers; they serve to run the definitions on concrete inputs. *)

Definition macro_lookup (tbl : list (string * Z)) (name : string) : Z :=
  match List.find (fun p => String.eqb (fst p) name) tbl with
  | Some p => snd p
  | None => 0
  end.

Local Open Scope string_scope.

Definition linux_macros : list (string * Z) :=
  [ ("EPERM", 1); ("EINTR", 4); ("EBADF", 9); ("EAGAIN", 11); ("ENOMEM", 12);
    ("EACCES", 13); ("EFAULT", 14); ("EINVAL", 22); ("ENFILE", 23);
    ("EMFILE", 24); ("EPIPE", 32); ("ENOTSOCK", 88); ("EMSGSIZE", 90);
    ("EPROTONOSUPPORT", 93); ("EOPNOTSUPP", 95); ("EAFNOSUPPORT", 97);
    ("EADDRINUSE", 98); ("ENETUNREACH", 101); ("ENETRESET", 102);
    ("ECONNABORTED", 103); ("ECONNRESET", 104); ("ENOBUFS", 105);
    ("EISCONN", 106); ("ENOTCONN", 107); ("ESHUTDOWN", 108);
    ("ETIMEDOUT", 110); ("ECONNREFUSED", 111); ("EHOSTUNREACH", 113);
    ("EALREADY", 114); ("EINPROGRESS", 115);
    ("EAI_BADFLAGS", -1); ("EAI_NONAME", -2); ("EAI_AGAIN", -3);
    ("EAI_FAIL", -4); ("EAI_NODATA", -5); ("EAI_FAMILY", -6);
    ("EAI_SOCKTYPE", -7); ("EAI_SERVICE", -8); ("EAI_ADDRFAMILY", -9);
    ("EAI_MEMORY", -10); ("EAI_SYSTEM", -11); ("EAI_OVERFLOW", -12);
    ("AF_UNSPEC", 0); ("AF_INET", 2); ("AF_INET6", 10) ]%Z.

Definition linux : platform :=
  Platform false
    (fun c => String.eqb c "EAI_NODATA" || String.eqb c "EAI_OVERFLOW")
    (macro_lookup linux_macros).

Definition windows_macros : list (string * Z) :=
  [ ("EPERM", 1); ("EINTR", 4); ("EBADF", 9); ("EAGAIN", 11); ("ENOMEM", 12);
    ("EACCES", 13); ("EFAULT", 14); ("EINVAL", 22); ("ENFILE", 23);
    ("EMFILE", 24); ("EPIPE", 32);
    ("WSA_NOT_ENOUGH_MEMORY", 8); ("ERROR_NETNAME_DELETED", 64);
    ("WSAEINTR", 10004); ("WSAEACCES", 10013); ("WSAEFAULT", 10014);
    ("WSAEINVAL", 10022); ("WSAEMFILE", 10024); ("WSAEWOULDBLOCK", 10035);
    ("EINPROGRESS", 10036); ("EALREADY", 10037); ("ENOTSOCK", 10038);
    ("EMSGSIZE", 10040); ("WSAEPROTOTYPE", 10041);
    ("EPROTONOSUPPORT", 10043); ("WSAESOCKTNOSUPPORT", 10044);
    ("EOPNOTSUPP", 10045); ("EAFNOSUPPORT", 10047);
    ("WSAEAFNOSUPPORT", 10047); ("EADDRINUSE", 10048);
    ("WSAEADDRNOTAVAIL", 10049); ("WSAENETDOWN", 10050);
    ("ENETUNREACH", 10051); ("ENETRESET", 10052);
    ("ECONNABORTED", 10053); ("WSAECONNABORTED", 10053);
    ("ECONNRESET", 10054); ("WSAECONNRESET", 10054); ("ENOBUFS", 10055);
    ("EISCONN", 10056); ("ENOTCONN", 10057); ("ESHUTDOWN", 10058);
    ("ETIMEDOUT", 10060); ("WSAETIMEDOUT", 10060);
    ("ECONNREFUSED", 10061); ("WSAECONNREFUSED", 10061);
    ("EHOSTUNREACH", 10065); ("WSANOTINITIALISED", 10093);
    ("WSATYPE_NOT_FOUND", 10109); ("WSAHOST_NOT_FOUND", 11001);
    ("WSATRY_AGAIN", 11002); ("WSANO_RECOVERY", 11003); ("WSANO_DATA", 11004);
    ("EAI_AGAIN", 11002); ("EAI_BADFLAGS", 10022); ("EAI_FAIL", 11003);
    ("EAI_FAMILY", 10047); ("EAI_MEMORY", 8); ("EAI_NODATA", 11001);
    ("EAI_NONAME", 11001); ("EAI_SERVICE", 10109); ("EAI_SOCKTYPE", 10044);
    ("AF_UNSPEC", 0); ("AF_INET", 2); ("AF_INET6", 23) ]%Z.

Definition windows : platform :=
  Platform true (fun c => String.eqb c "EAI_NODATA")
    (macro_lookup windows_macros).

(** A BSD system whose [netdb.h] has no [EAI_ADDRFAMILY]: the fix-up at the
    top of [socket.cpp] defines it as [EAI_FAMILY]. *)
Definition freebsd_macros : list (string * Z) :=
  [ ("EPERM", 1); ("EINTR", 4); ("EBADF", 9); ("ENOMEM", 12); ("EACCES", 13);
    ("EFAULT", 14); ("EINVAL", 22); ("ENFILE", 23); ("EMFILE", 24);
    ("EPIPE", 32); ("EAGAIN", 35); ("EINPROGRESS", 36); ("EALREADY", 37);
    ("ENOTSOCK", 38); ("EMSGSIZE", 40); ("EPROTONOSUPPORT", 43);
    ("EOPNOTSUPP", 45); ("EAFNOSUPPORT", 47); ("EADDRINUSE", 48);
    ("ENETUNREACH", 51); ("ENETRESET", 52); ("ECONNABORTED", 53);
    ("ECONNRESET", 54); ("ENOBUFS", 55); ("EISCONN", 56); ("ENOTCONN", 57);
    ("ESHUTDOWN", 58); ("ETIMEDOUT", 60); ("ECONNREFUSED", 61);
    ("EHOSTUNREACH", 65);
    ("EAI_AGAIN", 2); ("EAI_BADFLAGS", 3); ("EAI_FAIL", 4); ("EAI_FAMILY", 5);
    ("EAI_ADDRFAMILY", 5); ("EAI_MEMORY", 6); ("EAI_NONAME", 8);
    ("EAI_SERVICE", 9); ("EAI_SOCKTYPE", 10); ("EAI_SYSTEM", 11);
    ("EAI_BADHINTS", 12); ("EAI_PROTOCOL", 13); ("EAI_OVERFLOW", 14);
    ("AF_UNSPEC", 0); ("AF_INET", 2); ("AF_INET6", 28) ]%Z.

Definition freebsd : platform :=
  Platform false
    (fun c => String.eqb c "EAI_BADHINTS" || String.eqb c "EAI_PROTOCOL"
              || String.eqb c "EAI_OVERFLOW")
    (macro_lookup freebsd_macros).

Local Close Scope string_scope.

(** ** Specification-side definitions and sample configurations *)

(** What the specification says happens to a queued event when the handler
    of socket [self] changes from [old] to [new]. *)
Definition retargeted (old : option handler) (self : source) (new : handler)
    (e : CSocketEvent) : CSocketEvent :=
  if decide (m_pSource e = self /\ Some (m_pSocketEventHandler e) = old)
  then Event (m_pSource e) (m_type e) (m_data e) (m_error e) new
  else e.

(** Events the socket [self] sends to handler [h]. *)
Definition sent_to (h : handler) (self : source) (e : CSocketEvent) : Prop :=
  m_pSocketEventHandler e = h /\ m_pSource e = self.

(** A system in which everything works: the host converts, the wakeup
    primitive and the thread can be created. *)
Definition fine_env : connect_env := ConnectEnv Some 0 true true.

(** A connected socket with descriptor 7, a worker waiting in [select], a
    triggered read, and two queued events. *)
Definition busy_socket : world :=
  World 1%nat (Some 2%nat) 7 connected
    (Some (Thread true None None true true false false 0x12 0x02
             [0; 0; 0; 0; 0] false))
    "example.org" 21 0 false
    [ Event 1%nat read None 0 2%nat; Event 9%nat read None 0 3%nat ] [] [].

(** A connected socket whose worker waits for nothing but a close. *)
Definition drained_socket : world :=
  World 1%nat (Some 2%nat) 7 connected
    (Some (Thread true None None true true false false 0 0
             [0; 0; 0; 0; 0] false))
    "example.org" 21 0 false [] [] [].

(** A socket in state closing on Windows: the close has been triggered
    without error, the owner has not asked for Read again. *)
Definition closing_thread : CSocketThread :=
  Thread true None None true true false false 0 WAIT_CLOSE
         [0; 0; 0; 0; 0] false.

Definition closing_socket : world :=
  World 1%nat (Some 2%nat) 7 closing (Some closing_thread)
    "example.org" 21 0 false [] [] [].

(** The events of a run of the loop in which address [i] failed with
    error [errs !! i]. *)
Fixpoint failure_events (P : platform) (h : handler) (self : source)
    (l : list addrinfo) (errs : list Z) : list CSocketEvent :=
  match l, errs with
  | addr :: l', err :: errs' =>
      CSocketEvent_data h self hostaddress
        (AddressToString P (ai_addr addr) true false)
      :: CSocketEvent_error h self
           (if bool_decide (l' = []) then connection else connection_next) err
      :: failure_events P h self l' errs'
  | _, _ => []
  end.

(** The descriptors closed by a sequence of effects, in order. *)
Definition closed_descriptors (effs : list effect) : list Z :=
  omap (fun e => match e with CloseFd fd => Some fd | _ => None end) effs.

(** The owner leaves the shared objects alone. *)
Definition no_interference (m : interference) : Prop :=
  forall (t : CSocketThread) (w : world), m t w = (t, w).

(** Whatever the owner does, it closes no descriptor. *)
Definition closes_nothing (m : interference) : Prop :=
  forall (t : CSocketThread) (w : world),
    exists effs, effects (snd (m t w)) = effects w ++ effs
                 /\ closed_descriptors effs = [].

(** The error with which a pass of [DoWait] sees a pending connect end, if
    it does: with [select], the descriptor is reported writable and the
    error is what [getsockopt(SO_ERROR)] stores, or [errno] if that call
    fails; on Windows, [FD_CONNECT] is reported and the error is its entry
    of [iErrorCode], converted. *)
Definition completes (P : platform) (r : wait_round) : option Z :=
  if msw P then
    if enum_res (enumerated r) =? 0
    then ConvertMSWErrorCode P <$> fd_connect (enumerated r)
    else None
  else
    let sel := selected r in
    if (sel_res sel =? 0) || (sel_res sel =? -1) || negb (ready_write sel)
    then None
    else
      let '(res, error, errno) := so_error sel in
      Some (if res =? 0 then error else errno).

(** The error of the first pass that sees the connect end. *)
Fixpoint awaited_error (P : platform) (rounds : list wait_round) : Z :=
  match rounds with
  | [] => 0
  | r :: rounds' =>
      match completes P r with
      | Some error => error
      | None => awaited_error P rounds'
      end
  end.

(** A pass in which the readiness call itself fails and [DoWait] gives up:
    [select] fails with an error other than [EINTR], resp.
    [WSAEnumNetworkEvents] fails. *)
Definition gives_up (P : platform) (r : wait_round) : bool :=
  if msw P then negb (enum_res (enumerated r) =? 0)
  else (sel_res (selected r) =? -1)
       && negb (sel_errno (selected r) =? EINTR P).

(** The passes lead to one that sees the connect end, and the readiness
    call does not fail before. *)
Fixpoint settles (P : platform) (rounds : list wait_round) : bool :=
  match rounds with
  | [] => false
  | r :: rounds' =>
      match completes P r with
      | Some _ => true
      | None => negb (gives_up P r) && settles P rounds'
      end
  end.

(** What [connect] reports for an address: its return value, or the error
    it fails with, [EINPROGRESS] standing for a connect under way. *)
Definition connect_result (P : platform) (addr : addrinfo) : Z :=
  let '(res, connect_errno) := sys_connect addr in
  if res =? -1 then
    if msw P then
      if connect_errno =? macro P "WSAEWOULDBLOCK" then EINPROGRESS P
      else ConvertMSWErrorCode P connect_errno
    else connect_errno
  else res.

(** The error with which the attempt on one address ends: that of
    [socket()]; else that of [connect]; or, for a connect under way, the
    error found once it has ended.  0 stands for a connection. *)
Definition attempt_error (P : platform) (addr : addrinfo) : Z :=
  if fst (sys_socket addr) =? -1 then last_error P (snd (sys_socket addr))
  else if connect_result P addr =? EINPROGRESS P
       then awaited_error P (waits addr)
       else connect_result P addr.

(** No owner interferes while the worker waits for any of the addresses. *)
Definition owner_stays_away (l : list addrinfo) : Prop :=
  Forall (fun addr =>
            Forall (fun r => no_interference (wait_owner r)) (waits addr)) l.

(** No owner closes a descriptor while the worker waits for any of the
    addresses. *)
Definition owner_closes_nothing (l : list addrinfo) : Prop :=
  Forall (fun addr =>
            Forall (fun r => closes_nothing (wait_owner r)) (waits addr)) l.

(** The owner lets go of the worker while the worker has released the
    mutex: [DetachThread] of the socket, after which the worker, if it still
    runs, is the last entry of [waiting_socket_threads]. *)
Definition owner_detaches : interference :=
  fun t w =>
    let w := Socket.DetachThread (set_m_pSocketThread (Some t) w) in
    (default t (last (waiting_socket_threads w)), w).

(** The attempt on an address fails: [socket()] gives no descriptor, or
    the attempt ends with an error, a connect under way being seen to
    end. *)
Definition attempt_fails (P : platform) (addr : addrinfo) : Prop :=
  fst (sys_socket addr) = -1
  \/ attempt_error P addr <> 0
     /\ (connect_result P addr = EINPROGRESS P ->
         settles P (waits addr) = true).

(** A pass in which the owner does nothing and the readiness call reports
    [sel], resp. [ev]. *)
Definition lone_round (sel : select_result) (ev : network_events)
    : wait_round :=
  WaitRound (fun t w => (t, w)) sel ev.

(** [select] returns empty-handed; [select] reports the descriptor
    writable with the pending error [error]. *)
Definition nothing_ready : select_result := Select 0 0 false false (0, 0, 0).
Definition connect_ended (error : Z) : select_result :=
  Select 1 0 false true (0, error, 0).
Definition no_events : network_events :=
  NetworkEvents 0 None None None None None.

(** A worker about to resolve 127.0.0.1, port 1, where nobody listens: the
    only address is refused at once. *)
Definition refused : addrinfo :=
  AddrInfo (SockAddr 2 0 "127.0.0.1" "1") (5, 0) (-1, 111) [].

(** An address whose connect is under way and is then refused: the first
    [select] returns empty-handed, the second reports the descriptor
    writable with the pending error [ECONNREFUSED]. *)
Definition slow_refused : addrinfo :=
  AddrInfo (SockAddr 2 0 "127.0.0.1" "1") (5, 0) (-1, 115)
    [ lone_round nothing_ready no_events;
      lone_round (connect_ended 111) no_events ].

(** An address whose connect is under way when the owner calls [Close]. *)
Definition closed_while_connecting : addrinfo :=
  AddrInfo (SockAddr 2 0 "127.0.0.1" "1") (5, 0) (-1, 115)
    [ WaitRound (owner_calls (fun w => snd (Socket.Close w)))
        (connect_ended 0) no_events ].

Definition resolving_thread : CSocketThread :=
  Thread true (Some "127.0.0.1"%string) (Some "1"%string) true true false false
         0 0 [0; 0; 0; 0; 0] false.

Definition connecting_socket : world :=
  World 1%nat (Some 2%nat) (-1) connecting (Some resolving_thread)
    "127.0.0.1" 1 0 false [] [] [].

Definition undisturbed (addrs : list addrinfo) : resolution :=
  Resolution (fun t w => (t, w)) (fun t w => (t, w)) 0 addrs.

(** ** Delivery and teardown *)

(** The calls through which handlers, sockets and workers reach the queue
    of the dispatcher. *)
Inductive dispatcher_call :=
| call_SendEvent (evt : CSocketEvent)
| call_RemovePending_handler (pHandler : option handler)
| call_RemovePending_source (pSource : source)
| call_UpdatePending (pOldHandler : option handler) (pOldSource : source)
    (pNewHandler : handler) (pNewSource : source).

(** One wake of the event loop: what other threads did to the queue since
    the wake before, and what [OnSocketEvent] of the handler, together with
    the other threads in the meantime, does to it once the event has been
    handed over. *)
Record wakeup := Wakeup {
  before : list dispatcher_call;
  OnSocketEvent : CSocketEvent -> list dispatcher_call
}.

Module EventLoop.

Definition call (c : dispatcher_call) (q : list CSocketEvent)
    : list CSocketEvent :=
  match c with
  | call_SendEvent evt => Dispatcher.SendEvent evt q
  | call_RemovePending_handler pHandler =>
      Dispatcher.RemovePending_handler pHandler q
  | call_RemovePending_source pSource =>
      Dispatcher.RemovePending_source pSource q
  | call_UpdatePending pOldHandler pOldSource pNewHandler pNewSource =>
      Dispatcher.UpdatePending pOldHandler pOldSource pNewHandler pNewSource q
  end.

Definition calls (cs : list dispatcher_call) (q : list CSocketEvent)
    : list CSocketEvent :=
  fold_left (fun q c => call c q) cs q.

(** [CSocketEventDispatcher::operator()]: with an empty queue nothing
    happens; otherwise the front event is popped, the lock is released and
    the event is handed to [OnSocketEvent] of its handler.  The result is
    the event delivered, if any, the calls made during the callback and the
    queue left. *)
Definition deliver (OnSocketEvent : CSocketEvent -> list dispatcher_call)
    (q : list CSocketEvent)
    : option CSocketEvent * list dispatcher_call * list CSocketEvent :=
  match q with
  | [] => (None, [], q)
  | evt :: q' =>
      let cs := OnSocketEvent evt in
      (Some evt, cs, calls cs q')
  end.

(** A run of wakes, one call of [operator()] each: the events delivered,
    in order, all calls made to the dispatcher, in order, and the queue
    left. *)
Fixpoint wakes (ws : list wakeup) (q : list CSocketEvent)
    : list CSocketEvent * list dispatcher_call * list CSocketEvent :=
  match ws with
  | [] => ([], [], q)
  | w :: ws' =>
      let q := calls (before w) q in
      let '(evt, cs, q) := deliver (OnSocketEvent w) q in
      let '(d, cs', q) := wakes ws' q in
      (match evt with Some e => e :: d | None => d end,
       before w ++ cs ++ cs', q)
  end.

(** The producer side: the events of [evs] sent one after the other. *)
Definition send_all (evs q : list CSocketEvent) : list CSocketEvent :=
  fold_left (fun q evt => Dispatcher.SendEvent evt q) evs q.

End EventLoop.

(** The events sent by a sequence of calls, in order. *)
Definition sends (cs : list dispatcher_call) : list CSocketEvent :=
  omap (fun c => match c with call_SendEvent evt => Some evt | _ => None end)
       cs.

(** What an event carries apart from its addressee. *)
Definition payload (e : CSocketEvent) : EventType * option string * Z :=
  (m_type e, m_data e, m_error e).

Definition removes (c : dispatcher_call) : Prop :=
  match c with
  | call_RemovePending_handler _ | call_RemovePending_source _ => True
  | _ => False
  end.

Definition retargets (c : dispatcher_call) : Prop :=
  match c with
  | call_UpdatePending _ _ _ _ => True
  | _ => False
  end.

(** The call puts an event for handler [h] into the queue, or may turn a
    queued event into one. *)
Definition reaches (h : handler) (c : dispatcher_call) : Prop :=
  match c with
  | call_SendEvent evt => m_pSocketEventHandler evt = h
  | call_UpdatePending _ _ pNewHandler _ => pNewHandler = h
  | _ => False
  end.

(** A handler that closes its socket when a connection fails, as
    [CRealControlSocket::OnSocketEvent] does through [OnClose]: [Close]
    removes the queued events of the handler. *)
Definition closes_on_failure (evt : CSocketEvent) : list dispatcher_call :=
  match m_type evt with
  | connection =>
      if m_error evt =? 0 then []
      else [call_RemovePending_handler (Some (m_pSocketEventHandler evt))]
  | _ => []
  end.

Module Teardown.

(** [CSocket::~CSocket()], followed by the destructor of its base class
    [CSocketEventSource], which calls [dispatcher_.RemovePending(this)]. *)
Definition destroy_CSocket (w : world) : world :=
  let w := if negb (bool_decide (m_state w = none)) then snd (Socket.Close w)
           else w in
  let w := Socket.DetachThread w in
  set_m_pending_events
    (Dispatcher.RemovePending_source (this w) (m_pending_events w)) w.

(** [CSocketEventHandler::~CSocketEventHandler()] *)
Definition destroy_CSocketEventHandler (h : handler) (q : list CSocketEvent)
    : list CSocketEvent :=
  Dispatcher.RemovePending_handler (Some h) q.

End Teardown.

(** ** Descriptors *)

(** The descriptors [socket()] hands out while the addresses [l] are
    tried. *)
Definition opened (l : list addrinfo) : list Z :=
  filter (fun fd => fd <> -1) ((fun addr => fst (sys_socket addr)) <$> l).

(** An address that accepts the connection at once, on descriptor 6. *)
Definition accepting : addrinfo :=
  AddrInfo (SockAddr 2 0 "127.0.0.1" "21") (6, 0) (0, 0) [].

(** ** Decimal numerals *)

(** The number a string of decimal digits denotes, the way [getaddrinfo]
    reads a numeric service. *)
Fixpoint decimal_value (s : string) : Z :=
  match s with
  | EmptyString => 0
  | String c s' =>
      (Z.of_nat (nat_of_ascii c) - 48) * 10 ^ Z.of_nat (String.length s')
      + decimal_value s'
  end.

(** The entries the scan of the error table can reach: those in front of
    the first entry whose code is 0. *)
Fixpoint reachable (tbl : list Error_table) : list Error_table :=
  match tbl with
  | [] => []
  | e :: rest => if code e =? 0 then [] else e :: reachable rest
  end.

(** The decimal rendering of an integer: an optional minus sign in front of
    decimal digits that denote the absolute value, without a leading
    zero. *)
Definition is_digit (c : ascii) : Prop :=
  (48 <= nat_of_ascii c <= 57)%nat.

Definition unsigned_decimal (s : string) (n : Z) : Prop :=
  s <> EmptyString
  /\ Forall is_digit (list_ascii_of_string s)
  /\ (forall s', s = String "0" s' -> s' = EmptyString)
  /\ decimal_value s = n.

Definition decimal_rendering (s : string) (n : Z) : Prop :=
  if n <? 0 then exists d, s = String "-" d /\ unsigned_decimal d (- n)
  else unsigned_decimal s n.

(** ** [CSocket]: the listening side and the socket options *)

Definition EALREADY (P : platform) : Z := macro P "EALREADY".

(** One entry of the list [getaddrinfo] returns for a passive socket, with
    the answers the system gives while [Listen] tries it. *)
Record bindinfo := BindInfo {
  bi_socket : Z * Z;   (* socket(): descriptor or -1, error code left behind *)
  bi_bind : Z * Z      (* bind(): return value, error code left behind *)
}.

Module CSocket.

Import SocketThread Socket.

(** The [for] loop of [Listen] over the address list; [res] is the local
    of that name.  The result of [SetNonblocking] is discarded by the
    source and does not show in the state. *)
Fixpoint bind_loop (P : platform) (l : list bindinfo) (res : Z) (w : world)
    : Z * world :=
  match l with
  | [] => (res, w)
  | addr :: l' =>
      let '(fd, socket_errno) := bi_socket addr in
      let w := set_m_fd fd w in
      let res := last_error P socket_errno in
      if fd =? -1 then bind_loop P l' res w
      else
        let '(res, bind_errno) := bi_bind addr in
        if res =? 0 then (res, w)
        else
          let res := last_error P bind_errno in
          let w := perform (CloseFd fd) w in
          let w := set_m_fd (-1) w in
          bind_loop P l' res w
  end.

(** [Listen(family, port)].  [getaddrinfo] maps the service string to its
    return value and the address list, [listen_res] is what [listen]
    returns.  The result is [None] only if [sprintf] stores outside of the
    six bytes of [portstring]. *)
Definition Listen (P : platform) (env : connect_env) (family port : Z)
    (getaddrinfo : string -> Z * list bindinfo) (listen_res : Z) (w : world)
    : option (Z * world) :=
  if negb (bool_decide (m_state w = none)) then Some (EALREADY P, w)
  else if (port <? 0) || (port >? 65535) then Some (EINVAL P, w)
  else
    match family_switch P family with
    | None => Some (EINVAL P, w)
    | Some af =>
        let w := set_m_family af w in
        match write_cstring (format_d port) 0 (new_char 6) with
        | None => None
        | Some portstring =>
            let '(res, addressList) := getaddrinfo (c_str portstring) in
            if negb (res =? 0) then
              Some ((if msw P then ConvertMSWErrorCode P res else res), w)
            else
              let '(res, w) := bind_loop P addressList res w in
              if m_fd w =? -1 then Some (res, w)
              else
                let res := listen_res in
                if negb (res =? 0) then
                  let res := if msw P then ConvertMSWErrorCode P res
                             else res in
                  let w := perform (CloseFd (m_fd w)) w in
                  Some (res, set_m_fd (-1) w)
                else
                  let w := set_m_state listening w in
                  let '(t, w) := SetSocket true false new_CSocketThread w in
                  let t := set_m_waiting WAIT_ACCEPT t in
                  let '(_, t, w) := Start P env t w in
                  Some (0, set_m_pSocketThread (Some t) w)
        end
    end.

End CSocket.

(** The descriptors [socket()] hands out while [Listen] tries the
    addresses [l]. *)
Definition bound (l : list bindinfo) : list Z :=
  filter (fun fd => fd <> -1) ((fun addr => fst (bi_socket addr)) <$> l).

(** The address gives [Listen] a descriptor and lets it be bound. *)
Definition binds (addr : bindinfo) : bool :=
  negb (fst (bi_socket addr) =? -1) && (fst (bi_bind addr) =? 0).

(** An address [Listen] can bind, on descriptor 8, and one whose port is
    taken, on descriptor 7. *)
Definition bindable : bindinfo := BindInfo (8, 0) (0, 0).
Definition taken : bindinfo := BindInfo (7, 0) (-1, 98).

(** A resolver that answers every service with the same two addresses. *)
Definition two_addresses (service : string) : Z * list bindinfo :=
  (0, [taken; bindable]).

(** ** [CRealControlSocket]: the send buffer *)

(** What the control socket does to the outside, in program order. *)
Inductive control_effect :=
| StopWatchStart          (* m_stopWatch.Start() *)
| SetActive_send          (* SetActive(CFileZillaEngine::send) *)
| LogError (msg : string) (* LogMessage(MessageType::Error, ...) *)
| SocketClose             (* m_pSocket->Close() *)
| ControlDoClose.         (* CControlSocket::DoClose(FZ_REPLY_DISCONNECTED) *)

(** The members the send path works on.  A block obtained from
    [new char[n]] is the list of its [n] bytes; [wire] collects the bytes
    the backend has accepted. *)
Record sender := Sender {
  m_pSendBuffer : option (list Byte.byte);
  m_nSendBufferLen : Z;
  m_pBackend : bool;
  m_timer : Z;
  wire : list Byte.byte;
  control_log : list control_effect
}.

Definition set_m_pSendBuffer (v : option (list Byte.byte)) (s : sender) :=
  let 'Sender _ a b c d e := s in Sender v a b c d e.
Definition set_m_nSendBufferLen (v : Z) (s : sender) :=
  let 'Sender a _ b c d e := s in Sender a v b c d e.
Definition set_m_pBackend (v : bool) (s : sender) :=
  let 'Sender a b _ c d e := s in Sender a b v c d e.
Definition set_m_timer (v : Z) (s : sender) :=
  let 'Sender a b c _ d e := s in Sender a b c v d e.
Definition set_wire (v : list Byte.byte) (s : sender) :=
  let 'Sender a b c d _ e := s in Sender a b c d v e.
Definition set_control_log (v : list control_effect) (s : sender) :=
  let 'Sender a b c d e _ := s in Sender a b c d e v.

Definition note (e : control_effect) (s : sender) : sender :=
  set_control_log (control_log s ++ [e]) s.

(** [memcpy(dst, src, n)] reads the first [n] bytes of the block [src]; a
    null [src] has no byte to read.  [None]: the read leaves the block. *)
Definition memcpy_source (src : option (list Byte.byte)) (n : Z)
    : option (list Byte.byte) :=
  let block := default [] src in
  if (0 <=? n) && (n <=? Z.of_nat (length block))
  then Some (take (Z.to_nat n) block) else None.

Module RealControlSocket.

(** [CControlSocket::SetWait(wait)]; [AddTimer] is what [AddTimer(1000,
    false)] returns. *)
Definition SetWait (wait : bool) (AddTimer : Z) (s : sender) : sender :=
  if wait then
    if negb (m_timer s =? -1) then s
    else set_m_timer AddTimer (note StopWatchStart s)
  else if negb (m_timer s =? -1) then set_m_timer (-1) s
  else s.

(** The part of [ResetSocket] that concerns the members of [sender]. *)
Definition ResetSocket (s : sender) : sender :=
  let s := note SocketClose s in
  let s :=
    if non_null (m_pSendBuffer s)
    then set_m_nSendBufferLen 0 (set_m_pSendBuffer None s) else s in
  set_m_pBackend false s.

(** [CRealControlSocket::DoClose()] *)
Definition DoClose (s : sender) : sender :=
  note ControlDoClose (ResetSocket s).

(** [m_pBackend->Write(buffer, len, error)] answers [(written, error)];
    the backend has then taken the first [written] bytes. *)
Definition backend_write (buffer : list Byte.byte) (answer : Z * Z)
    (s : sender) : sender :=
  set_wire (wire s ++ take (Z.to_nat (fst answer)) buffer) s.

(** [Send(buffer, len)], the message being the [len] bytes at [buffer].
    The outer [None]: a [memcpy] read outside of its source block. *)
Definition Send (P : platform) (AddTimer : Z) (answer : Z * Z)
    (buffer : list Byte.byte) (s : sender) : option (bool * sender) :=
  let len := Z.of_nat (length buffer) in
  let s := SetWait true AddTimer s in
  if non_null (m_pSendBuffer s) then
    let tmp := m_pSendBuffer s in
    match memcpy_source tmp (m_nSendBufferLen s),
          memcpy_source (Some buffer) len with
    | Some old, Some new =>
        let s := set_m_pSendBuffer (Some (old ++ new)) s in
        Some (true, set_m_nSendBufferLen (m_nSendBufferLen s + len) s)
    | _, _ => None
    end
  else
    let '(written, error) := answer in
    let s := backend_write buffer answer s in
    if (written <? 0) && negb (error =? EAGAIN P) then
      let s := note (LogError "Could not write to socket") s in
      let s := note (LogError "Disconnected from server") s in
      Some (false, DoClose s)
    else
      let written := if written <? 0 then 0 else written in
      let s := if negb (written =? 0) then note SetActive_send s else s in
      if written <? len then
        let tmp := m_pSendBuffer s in
        match memcpy_source tmp (m_nSendBufferLen s),
              memcpy_source (Some buffer) (len - written) with
        | Some old, Some new =>
            let s := set_m_pSendBuffer (Some (old ++ new)) s in
            Some (true,
                  set_m_nSendBufferLen (m_nSendBufferLen s + len - written) s)
        | _, _ => None
        end
      else Some (true, s).

(** [memmove(block, block + written, n)] *)
Definition memmove_front (block : list Byte.byte) (written n : Z)
    : option (list Byte.byte) :=
  if (0 <=? written) && (0 <=? n)
     && (written + n <=? Z.of_nat (length block))
  then Some (take (Z.to_nat n) (drop (Z.to_nat written) block)
             ++ drop (Z.to_nat n) block)
  else None.

(** [OnSend()]; [connecting] tells whether the current command is
    [Command::connect]. *)
Definition OnSend (P : platform) (connecting : bool) (answer : Z * Z)
    (s : sender) : option sender :=
  match m_pSendBuffer s with
  | None => Some s
  | Some block =>
      if m_nSendBufferLen s =? 0 then Some (set_m_pSendBuffer None s)
      else
        match memcpy_source (Some block) (m_nSendBufferLen s) with
        | None => None
        | Some data =>
            let '(written, error) := answer in
            let s := backend_write data answer s in
            if written <? 0 then
              if negb (error =? EAGAIN P) then
                let s := note (LogError "Could not write to socket") s in
                let s := if negb connecting
                         then note (LogError "Disconnected from server") s
                         else s in
                Some (DoClose s)
              else Some s
            else
              let s := if negb (written =? 0) then note SetActive_send s
                       else s in
              if written =? m_nSendBufferLen s then
                Some (set_m_pSendBuffer None (set_m_nSendBufferLen 0 s))
              else
                match memmove_front block written
                        (m_nSendBufferLen s - written) with
                | None => None
                | Some block' =>
                    let s := set_m_pSendBuffer (Some block') s in
                    Some (set_m_nSendBufferLen
                            (m_nSendBufferLen s - written) s)
                end
        end
  end.

End RealControlSocket.

(** The bytes waiting in the send buffer. *)
Definition pending (s : sender) : list Byte.byte :=
  take (Z.to_nat (m_nSendBufferLen s)) (default [] (m_pSendBuffer s)).

(** The length field describes the block: a null buffer goes with length
    0, otherwise the length is within the block. *)
Definition sender_wf (s : sender) : Prop :=
  match m_pSendBuffer s with
  | None => m_nSendBufferLen s = 0
  | Some block => 0 <= m_nSendBufferLen s <= Z.of_nat (length block)
  end.

(** A control socket with four bytes buffered in a block of six. *)
Definition buffered_sender : sender :=
  Sender (Some [Byte.x55; Byte.x53; Byte.x45; Byte.x52; Byte.x00; Byte.x00])
         4 true 3 [Byte.x41] [].

(** A control socket with nothing buffered. *)
Definition idle_sender : sender := Sender None 0 true (-1) [] [].

(** ** [CControlSocket]: the cache locks

    [m_lockInfoList] is shared by all control sockets.  The classes
    [CServer] and [CServerPath] and the enumeration [locking_reason] enter
    only through their comparison operators. *)

Section LockCache.

Context {CServer CServerPath locking_reason : Type}.
Context `{!EqDecision CServer, !EqDecision CServerPath,
          !EqDecision locking_reason}.

Record t_lockInfo := LockInfo {
  directory : CServerPath;
  pControlSocket : nat;
  waiting : bool;
  reason : locking_reason;
  lockcount : Z
}.

(** What the lock functions read of a control socket; [m_pCurOpData] is
    the [holdsLock] flag of the current operation, if there is one. *)
Record CControlSocket := ControlSocket {
  m_pCurrentServer : option CServer;
  m_pCurOpData : option bool
}.

(** The list, the objects behind the [pControlSocket] pointers, and the
    control sockets a [CObtainLockEvent] has been sent to, in order. *)
Record lock_world := LockWorld {
  m_lockInfoList : list t_lockInfo;
  instances : nat -> CControlSocket;
  obtain_lock_events : list nat
}.

Definition set_waiting (v : bool) (e : t_lockInfo) : t_lockInfo :=
  LockInfo (directory e) (pControlSocket e) v (reason e) (lockcount e).
Definition set_lockcount (v : Z) (e : t_lockInfo) : t_lockInfo :=
  LockInfo (directory e) (pControlSocket e) (waiting e) (reason e) v.

Definition set_holdsLock (self : nat) (v : bool) (w : lock_world)
    : lock_world :=
  LockWorld (m_lockInfoList w)
    (fun p => if bool_decide (p = self)
              then ControlSocket (m_pCurrentServer (instances w self)) (Some v)
              else instances w p)
    (obtain_lock_events w).

Definition set_m_lockInfoList (v : list t_lockInfo) (w : lock_world)
    : lock_world :=
  LockWorld v (instances w) (obtain_lock_events w).

(** [GetLockStatus()]: the position of the entry of [self], or [None] for
    [m_lockInfoList.end()]. *)
Fixpoint GetLockStatus (self : nat) (l : list t_lockInfo) : option nat :=
  match l with
  | [] => None
  | info :: l' =>
      if bool_decide (pControlSocket info = self) then Some 0%nat
      else S <$> GetLockStatus self l'
  end.

(** The loop over the entries in front of one's own, as [TryLockCache],
    [IsLocked] and [ObtainLockFromEvent] have it: [Some true] when it
    reaches its [return], [None] when it dereferences a null
    [m_pCurrentServer]. *)
Fixpoint held_by_other (server : option CServer) (d : CServerPath)
    (r : locking_reason) (inst : nat -> CControlSocket)
    (front : list t_lockInfo) : option bool :=
  match front with
  | [] => Some false
  | iter :: rest =>
      match server, m_pCurrentServer (inst (pControlSocket iter)) with
      | Some mine, Some other =>
          if negb (bool_decide (mine = other))
          then held_by_other server d r inst rest
          else if negb (bool_decide (d = directory iter))
          then held_by_other server d r inst rest
          else if negb (bool_decide (r = reason iter))
          then held_by_other server d r inst rest
          else Some true
      | _, _ => None
      end
  end.

(** [TryLockCache(reason, directory)].  [None]: a null [m_pCurOpData] or
    [m_pCurrentServer] is dereferenced. *)
Definition TryLockCache (self : nat) (r : locking_reason) (d : CServerPath)
    (w : lock_world) : option (bool * lock_world) :=
  match m_pCurOpData (instances w self) with
  | None => None
  | Some holdsLock =>
      let '(own, l) :=
        match GetLockStatus self (m_lockInfoList w) with
        | None =>
            (length (m_lockInfoList w),
             m_lockInfoList w ++ [LockInfo d self true r 0])
        | Some own => (own, m_lockInfoList w)
        end in
      match l !! own with
      | None => None
      | Some info =>
          if negb (lockcount info =? 0) then
            if negb holdsLock then
              Some (true,
                    set_m_lockInfoList
                      (<[own := set_lockcount (lockcount info + 1) info]> l)
                      (set_holdsLock self true w))
            else Some (true, set_m_lockInfoList l w)
          else
            let w := set_holdsLock self true (set_m_lockInfoList l w) in
            match held_by_other (m_pCurrentServer (instances w self)) d r
                    (instances w) (take own l) with
            | None => None
            | Some true => Some (false, w)
            | Some false =>
                Some (true,
                      set_m_lockInfoList
                        (<[own := set_waiting false
                                    (set_lockcount (lockcount info + 1) info)]>
                           l) w)
            end
      end
  end.

(** [IsLocked(reason, directory)] *)
Definition IsLocked (self : nat) (r : locking_reason) (d : CServerPath)
    (w : lock_world) : option bool :=
  match GetLockStatus self (m_lockInfoList w) with
  | Some _ => Some true
  | None =>
      held_by_other (m_pCurrentServer (instances w self)) d r (instances w)
        (m_lockInfoList w)
  end.

(** The loop of [UnlockCache] that looks for another instance waiting for
    the lock: the control socket the event goes to. *)
Fixpoint next_waiter (server : CServer) (d : CServerPath)
    (r : locking_reason) (inst : nat -> CControlSocket)
    (l : list t_lockInfo) : option nat :=
  match l with
  | [] => None
  | lockInfo :: rest =>
      match m_pCurrentServer (inst (pControlSocket lockInfo)) with
      | None => next_waiter server d r inst rest
      | Some other =>
          if negb (bool_decide (server = other))
          then next_waiter server d r inst rest
          else if negb (bool_decide (directory lockInfo = d))
          then next_waiter server d r inst rest
          else if negb (bool_decide (reason lockInfo = r))
          then next_waiter server d r inst rest
          else Some (pControlSocket lockInfo)
      end
  end.

(** [UnlockCache()] *)
Definition UnlockCache (self : nat) (w : lock_world) : lock_world :=
  match m_pCurOpData (instances w self) with
  | None | Some false => w
  | Some true =>
      let w := set_holdsLock self false w in
      match GetLockStatus self (m_lockInfoList w) with
      | None => w
      | Some i =>
          match m_lockInfoList w !! i with
          | None => w
          | Some iter =>
              let iter' :=
                if negb (waiting iter)
                then set_lockcount (lockcount iter - 1) iter else iter in
              if negb (waiting iter) && negb (lockcount iter' =? 0) then
                set_m_lockInfoList (<[i := iter']> (m_lockInfoList w)) w
              else
                let w := set_m_lockInfoList (delete i (m_lockInfoList w)) w in
                match m_pCurrentServer (instances w self) with
                | None => w
                | Some server =>
                    match next_waiter server (directory iter) (reason iter)
                            (instances w) (m_lockInfoList w) with
                    | Some other =>
                        LockWorld (m_lockInfoList w) (instances w)
                          (obtain_lock_events w ++ [other])
                    | None => w
                    end
                end
          end
      end
  end.

(** [ObtainLockFromEvent()]; [lock_unknown] is the enumerator of that
    name.  The outer [None]: a null [m_pCurrentServer] is dereferenced. *)
Definition ObtainLockFromEvent (lock_unknown : locking_reason) (self : nat)
    (w : lock_world) : option (locking_reason * lock_world) :=
  match m_pCurOpData (instances w self) with
  | None => Some (lock_unknown, w)
  | Some _ =>
      match GetLockStatus self (m_lockInfoList w) with
      | None => Some (lock_unknown, w)
      | Some own =>
          match m_lockInfoList w !! own with
          | None => Some (lock_unknown, w)
          | Some info =>
              if negb (waiting info) then Some (lock_unknown, w)
              else
                match held_by_other (m_pCurrentServer (instances w self))
                        (directory info) (reason info) (instances w)
                        (take own (m_lockInfoList w)) with
                | None => None
                | Some true => Some (lock_unknown, w)
                | Some false =>
                    Some (reason info,
                          set_m_lockInfoList
                            (<[own := set_lockcount (lockcount info + 1)
                                        (set_waiting false info)]>
                               (m_lockInfoList w)) w)
                end
          end
      end
  end.

(** [IsWaitingForLock()] *)
Definition IsWaitingForLock (self : nat) (w : lock_world) : bool :=
  match GetLockStatus self (m_lockInfoList w) with
  | None => false
  | Some own =>
      match m_lockInfoList w !! own with
      | Some info => waiting info
      | None => false
      end
  end.

(** What a lock is taken on: the server of the control socket, the
    directory and the reason. *)
Definition lock_key (inst : nat -> CControlSocket) (e : t_lockInfo)
    : option CServer * CServerPath * locking_reason :=
  (m_pCurrentServer (inst (pControlSocket e)), directory e, reason e).

(** The state the lock functions maintain: one entry per control socket,
    each with a current server; an entry waits exactly when its count is
    zero, and counts are not negative; an entry that holds its lock has no
    entry with the same key in front of it. *)
Record lock_invariant (w : lock_world) : Prop := LockInvariant {
  one_entry : NoDup (pControlSocket <$> m_lockInfoList w);
  has_server :
    forall e, e ∈ m_lockInfoList w ->
              m_pCurrentServer (instances w (pControlSocket e)) <> None;
  counted :
    forall e, e ∈ m_lockInfoList w ->
              if waiting e then lockcount e = 0 else 0 < lockcount e;
  exclusive :
    forall (i j : nat) (e1 e2 : t_lockInfo),
      m_lockInfoList w !! i = Some e1 ->
      m_lockInfoList w !! j = Some e2 ->
      (i < j)%nat -> waiting e2 = false ->
      lock_key (instances w) e1 <> lock_key (instances w) e2
}.

End LockCache.

(** Two control sockets on the same server that want the same directory
    for the same reason: the first holds the lock, the second waits.
    Servers, directories and reasons are numbered. *)
Definition two_lockers : @lock_world nat nat nat :=
  LockWorld [ LockInfo 3%nat 1%nat false 1%nat 1; LockInfo 3%nat 2%nat true 1%nat 0 ]
            (fun _ => ControlSocket (Some 7%nat) (Some true)) [].

(** ** [CControlSocket]: the transfer status *)

(** [wxFileOffset] is a signed 64-bit integer; an addition that leaves its
    range is undefined, which the model reports as [None]. *)
Definition wxFileOffset_add (a b : Z) : option Z :=
  let s := a + b in
  if (- 2 ^ 63 <=? s) && (s <? 2 ^ 63) then Some s else None.

Record CTransferStatus := TransferStatus {
  list_ : bool;              (* the member [list] *)
  totalSize : Z;
  startOffset : Z;
  currentOffset : Z;
  madeProgress : bool;
  started : option Z         (* [wxDateTime], unset until the start time *)
}.

(** The members the status functions work on, and the argument of each
    [CTransferStatusNotification] handed to the engine, in order: [None]
    for the null pointer, otherwise the copy of the status. *)
Record transfer := Transfer {
  m_pTransferStatus : option CTransferStatus;
  m_transferStatusSendState : Z;
  notifications : list (option CTransferStatus)
}.

Module TransferStatus.

Definition ResetTransferStatus (t : transfer) : transfer :=
  Transfer None 0 (notifications t ++ [None]).

Definition InitTransferStatus (totalSize startOffset : Z) (list : bool)
    (t : transfer) : transfer :=
  let startOffset := if startOffset <? 0 then 0 else startOffset in
  Transfer
    (Some (TransferStatus list totalSize startOffset startOffset false None))
    (m_transferStatusSendState t) (notifications t).

(** [Now] is what [wxDateTime::Now()] returns. *)
Definition SetTransferStatusStartTime (Now : Z) (t : transfer) : transfer :=
  match m_pTransferStatus t with
  | None => t
  | Some s =>
      Transfer
        (Some (TransferStatus (list_ s) (totalSize s) (startOffset s)
                 (currentOffset s) (madeProgress s) (Some Now)))
        (m_transferStatusSendState t) (notifications t)
  end.

Definition SetTransferStatusMadeProgress (t : transfer) : transfer :=
  match m_pTransferStatus t with
  | None => t
  | Some s =>
      Transfer
        (Some (TransferStatus (list_ s) (totalSize s) (startOffset s)
                 (currentOffset s) true (started s)))
        (m_transferStatusSendState t) (notifications t)
  end.

Definition UpdateTransferStatus (transferredBytes : Z) (t : transfer)
    : option transfer :=
  match m_pTransferStatus t with
  | None => Some t
  | Some s =>
      match wxFileOffset_add (currentOffset s) transferredBytes with
      | None => None
      | Some offset =>
          let s := TransferStatus (list_ s) (totalSize s) (startOffset s)
                     offset (madeProgress s) (started s) in
          Some (Transfer (Some s) 2
                  (if m_transferStatusSendState t =? 0
                   then notifications t ++ [Some s] else notifications t))
      end
  end.

(** [GetTransferStatus(status, changed)]: the return value, what is
    assigned to [status] ([None]: it is left alone) and to [changed]. *)
Definition GetTransferStatus (t : transfer)
    : bool * option CTransferStatus * bool * transfer :=
  match m_pTransferStatus t with
  | None => (false, None, false, Transfer None 0 (notifications t))
  | Some s =>
      if m_transferStatusSendState t =? 2
      then (true, Some s, true, Transfer (Some s) 1 (notifications t))
      else (true, Some s, false, Transfer (Some s) 0 (notifications t))
  end.

(** A run of [UpdateTransferStatus] calls, one per byte count. *)
Fixpoint updates (bs : list Z) (t : transfer) : option transfer :=
  match bs with
  | [] => Some t
  | b :: bs' =>
      match UpdateTransferStatus b t with
      | Some t' => updates bs' t'
      | None => None
      end
  end.

End TransferStatus.

(** The sum of a list of byte counts. *)
Definition total (bs : list Z) : Z := foldr Z.add 0 bs.

(** The status [s] after [n] more bytes. *)
Definition advanced (n : Z) (s : CTransferStatus) : CTransferStatus :=
  TransferStatus (list_ s) (totalSize s) (startOffset s) (currentOffset s + n)
    (madeProgress s) (started s).

(** ** [CControlSocket::SetFileExistsAction] *)

Module FileExists.

Inductive OverwriteAction :=
| overwrite
| overwriteNewer
| overwriteSize
| overwriteSizeOrNewer
| resume
| rename
| skip
| other_action (n : Z).     (* any value the [default:] label catches *)

(** A [wxDateTime] is [None] while it is not valid, otherwise its
    position on the time line. *)
Definition IsEarlierThan (a b : Z) : bool := a <? b.
Definition IsLaterThan (a b : Z) : bool := a >? b.

Module Notification.
Record CFileExistsNotification := FileExistsNotification {
  overwriteAction : OverwriteAction;
  localTime : option Z;
  remoteTime : option Z;
  download : bool;
  localSize : Z;
  remoteSize : Z;
  newName : string
}.
End Notification.

Module OpData.
Record CFileTransferOpData := FileTransferOpData {
  download : bool;
  localFile : string;
  remoteFile : string;
  localFileSize : Z;
  remoteFileSize : Z;
  fileTime : option Z;
  resume_ : bool               (* the member [resume] *)
}.
End OpData.

Import Notification.

(** What the function does besides changing the operation data. *)
Inductive action :=
| LogIgnored            (* no or invalid operation in progress *)
| LogSkipDownload
| LogSkipUpload
| LogUnknownAction
| SendNextCommand
| ResetOperation_OK
| ResetOperation_INTERNALERROR.

#[global] Instance action_eq_dec : EqDecision action.
Proof. solve_decision. Defined.

(** The answers the [rename] case needs from outside: the new local
    path, the size of the local file if it is one, the entry of the
    directory cache if one matches with its case, and whether
    [CheckOverwriteFile()] returns [FZ_REPLY_OK]. *)
Record rename_env := RenameEnv {
  SetFullName : string -> string -> string;
  GetFileInfo : string -> option Z;
  LookupFile : string -> option (Z * option Z);
  CheckOverwriteFile : OpData.CFileTransferOpData -> bool
}.

Definition valid (t : option Z) : bool :=
  match t with Some _ => true | None => false end.

(** The comparison of the two times; only evaluated when both are
    valid. *)
Definition earlier (n : CFileExistsNotification) : bool :=
  match localTime n, remoteTime n with
  | Some l, Some r => IsEarlierThan l r
  | _, _ => false
  end.
Definition later (n : CFileExistsNotification) : bool :=
  match localTime n, remoteTime n with
  | Some l, Some r => IsLaterThan l r
  | _, _ => false
  end.

(** The [else] branch the three comparing cases share. *)
Definition skip_transfer (pData : OpData.CFileTransferOpData) : list action :=
  [ if OpData.download pData then LogSkipDownload else LogSkipUpload;
    ResetOperation_OK ].

(** [SetFileExistsAction(pFileExistsNotification)]; [m_pCurOpData] is the
    current operation if it is a transfer. *)
Definition SetFileExistsAction (env : rename_env)
    (n : CFileExistsNotification)
    (m_pCurOpData : option OpData.CFileTransferOpData)
    : bool * list action * option OpData.CFileTransferOpData :=
  match m_pCurOpData with
  | None => (false, [LogIgnored], m_pCurOpData)
  | Some pData =>
      match overwriteAction n with
      | overwrite => (true, [SendNextCommand], Some pData)
      | overwriteNewer =>
          if negb (valid (localTime n)) || negb (valid (remoteTime n))
          then (true, [SendNextCommand], Some pData)
          else if download n && earlier n
          then (true, [SendNextCommand], Some pData)
          else if negb (download n) && later n
          then (true, [SendNextCommand], Some pData)
          else (true, skip_transfer pData, Some pData)
      | overwriteSize =>
          if negb (localSize n =? remoteSize n) || (localSize n =? -1)
          then (true, [SendNextCommand], Some pData)
          else (true, skip_transfer pData, Some pData)
      | overwriteSizeOrNewer =>
          if negb (valid (localTime n)) || negb (valid (remoteTime n))
          then (true, [SendNextCommand], Some pData)
          else if negb (localSize n =? remoteSize n) || (localSize n =? -1)
          then (true, [SendNextCommand], Some pData)
          else if download n && earlier n
          then (true, [SendNextCommand], Some pData)
          else if negb (download n) && later n
          then (true, [SendNextCommand], Some pData)
          else (true, skip_transfer pData, Some pData)
      | resume =>
          let 'OpData.FileTransferOpData dl lf rf lsz rsz ft rs := pData in
          let rs :=
            if dl && negb (lsz =? -1) then true
            else if negb dl && negb (rsz =? -1) then true
            else rs in
          (true, [SendNextCommand],
           Some (OpData.FileTransferOpData dl lf rf lsz rsz ft rs))
      | rename =>
          let 'OpData.FileTransferOpData dl lf rf lsz rsz ft rs := pData in
          if dl then
            let lf := SetFullName env lf (newName n) in
            let lsz := match GetFileInfo env lf with
                       | Some size => size
                       | None => -1
                       end in
            let pData := OpData.FileTransferOpData dl lf rf lsz rsz ft rs in
            (true,
             (if CheckOverwriteFile env pData then [SendNextCommand] else []),
             Some pData)
          else
            let rf := newName n in
            match LookupFile env rf with
            | Some (size, date) =>
                let ft := match date with Some _ => date | None => ft end in
                let pData :=
                  OpData.FileTransferOpData dl lf rf lsz size ft rs in
                (true,
                 (if negb (CheckOverwriteFile env pData) then []
                  else [SendNextCommand]),
                 Some pData)
            | None =>
                (true, [SendNextCommand],
                 Some (OpData.FileTransferOpData dl lf rf lsz (-1) None rs))
            end
      | skip => (true, skip_transfer pData, Some pData)
      | other_action _ =>
          (false, [LogUnknownAction; ResetOperation_INTERNALERROR],
           Some pData)
      end
  end.

(** Whether the transfer goes ahead. *)
Definition proceeds (r : bool * list action
                         * option OpData.CFileTransferOpData) : bool :=
  bool_decide (SendNextCommand ∈ snd (fst r)).

End FileExists.

(** The notification [n] with another action chosen. *)
Definition with_action (a : FileExists.OverwriteAction)
    (n : FileExists.Notification.CFileExistsNotification)
    : FileExists.Notification.CFileExistsNotification :=
  FileExists.Notification.FileExistsNotification a
    (FileExists.Notification.localTime n)
    (FileExists.Notification.remoteTime n)
    (FileExists.Notification.download n)
    (FileExists.Notification.localSize n)
    (FileExists.Notification.remoteSize n)
    (FileExists.Notification.newName n).

(** ** [CSocket]: flags and buffer sizes *)

Definition flag_nodelay : Z := 0x01.
Definition flag_keepalive : Z := 0x02.

Inductive sockopt_name :=
| TCP_NODELAY | SO_KEEPALIVE | SO_RCVBUF | SO_SNDBUF | SO_NOSIGPIPE.

(** The options of one descriptor as the system holds them, and the
    [setsockopt] calls made on it, in order. *)
Record sockopts := SockOpts {
  nodelay : Z;
  keepalive : Z;
  rcvbuf : Z;
  sndbuf : Z;
  calls : list (sockopt_name * Z)
}.

(** One [setsockopt(fd, ..., name, &value, sizeof(value))]: the system
    answers with the return value and the error code; the option changes
    if the call succeeds.  Of [SO_NOSIGPIPE] only the call is recorded. *)
Definition setsockopt (answer : sockopt_name -> Z -> Z * Z)
    (name : sockopt_name) (value : Z) (k : sockopts) : Z * Z * sockopts :=
  let '(res, err) := answer name value in
  let k := SockOpts (nodelay k) (keepalive k) (rcvbuf k) (sndbuf k)
             (calls k ++ [(name, value)]) in
  if negb (res =? 0) then (res, err, k)
  else
    (res, err,
     match name with
     | TCP_NODELAY =>
         SockOpts value (keepalive k) (rcvbuf k) (sndbuf k) (calls k)
     | SO_KEEPALIVE =>
         SockOpts (nodelay k) value (rcvbuf k) (sndbuf k) (calls k)
     | SO_RCVBUF =>
         SockOpts (nodelay k) (keepalive k) value (sndbuf k) (calls k)
     | SO_SNDBUF =>
         SockOpts (nodelay k) (keepalive k) (rcvbuf k) value (calls k)
     | SO_NOSIGPIPE => k
     end).

(** The members [m_flags] and [m_buffer_sizes] of a [CSocket]. *)
Record socket_options := SocketOptions {
  m_flags : Z;
  m_buffer_sizes : Z * Z
}.

Module Options.

(** [DoSetFlags(fd, flags, flags_mask)] on the descriptor whose options
    are [k]. *)
Definition DoSetFlags (P : platform) (answer : sockopt_name -> Z -> Z * Z)
    (flags flags_mask : Z) (k : sockopts) : Z * sockopts :=
  let first :=
    if has_bit flags_mask flag_nodelay then
      let value := if has_bit flags flag_nodelay then 1 else 0 in
      let '(res, err, k) := setsockopt answer TCP_NODELAY value k in
      if negb (res =? 0) then inl (last_error P err, k) else inr k
    else inr k in
  match first with
  | inl r => r
  | inr k =>
      if has_bit flags_mask flag_keepalive then
        let value := if has_bit flags flag_keepalive then 1 else 0 in
        let '(res, err, k) := setsockopt answer SO_KEEPALIVE value k in
        if negb (res =? 0) then (last_error P err, k) else (0, k)
      else (0, k)
  end.

(** [SetFlags(flags)] *)
Definition SetFlags (P : platform) (answer : sockopt_name -> Z -> Z * Z)
    (flags : Z) (o : socket_options) (w : world) (k : sockopts)
    : socket_options * world * sockopts :=
  let w := if non_null (m_pSocketThread w) then perform Lock w else w in
  let k := if negb (m_fd w =? -1)
           then snd (DoSetFlags P answer flags (Z.lxor flags (m_flags o)) k)
           else k in
  let o := SocketOptions flags (m_buffer_sizes o) in
  let w := if non_null (m_pSocketThread w) then perform Unlock w else w in
  (o, w, k).

(** [DoSetBufferSizes(fd, size_read, size_write)] *)
Definition DoSetBufferSizes (P : platform)
    (answer : sockopt_name -> Z -> Z * Z) (size_read size_write : Z)
    (k : sockopts) : Z * sockopts :=
  let first :=
    if negb (size_read =? -1) then
      let '(res, err, k) := setsockopt answer SO_RCVBUF size_read k in
      if negb (res =? 0) then inl (last_error P err, k) else inr k
    else inr k in
  match first with
  | inl r => r
  | inr k =>
      if negb (size_write =? -1) then
        let '(res, err, k) := setsockopt answer SO_SNDBUF size_write k in
        if negb (res =? 0) then (last_error P err, k) else (0, k)
      else (0, k)
  end.

(** [SetBufferSizes(size_read, size_write)] *)
Definition SetBufferSizes (P : platform)
    (answer : sockopt_name -> Z -> Z * Z) (size_read size_write : Z)
    (o : socket_options) (w : world) (k : sockopts)
    : socket_options * world * sockopts :=
  let w := if non_null (m_pSocketThread w) then perform Lock w else w in
  let o := SocketOptions (m_flags o) (size_read, size_write) in
  let k := if negb (m_fd w =? -1)
           then snd (DoSetBufferSizes P answer size_read size_write k)
           else k in
  let w := if non_null (m_pSocketThread w) then perform Unlock w else w in
  (o, w, k).

End Options.

(** The flags as the descriptor has them. *)
Definition flags_in_effect (flags : Z) (k : sockopts) : Prop :=
  nodelay k = (if has_bit flags flag_nodelay then 1 else 0)
  /\ keepalive k = (if has_bit flags flag_keepalive then 1 else 0).

(** The calls [SetFlags] owes the descriptor when the flags go from [old]
    to [new]. *)
Definition flag_updates (old new : Z) : list (sockopt_name * Z) :=
  (if xorb (has_bit old flag_nodelay) (has_bit new flag_nodelay)
   then [(TCP_NODELAY, if has_bit new flag_nodelay then 1 else 0)] else [])
  ++ (if xorb (has_bit old flag_keepalive) (has_bit new flag_keepalive)
      then [(SO_KEEPALIVE, if has_bit new flag_keepalive then 1 else 0)]
      else []).

(** ** The worker that waits with [select] *)

(** What the [select] variant of the worker maintains: no close is
    triggered, and no error is recorded for anything but a connect. *)
Definition select_quiet (t : CSocketThread) : Prop :=
  has_bit (m_triggered t) WAIT_CLOSE = false
  /\ forall i : nat, (1 <= i)%nat -> nth i (m_triggered_errors t) 0 = 0.

(** Interference that keeps a quiet worker quiet. *)
Definition stays_quiet (m : interference) : Prop :=
  forall (t : CSocketThread) (w : world),
    select_quiet t -> select_quiet (fst (m t w)).

(** ** [CSocketThread::IdleLoop] and the loops of [CSocketThread::Entry] *)

Module Worker.

(** The [while] loop of [IdleLoop]; [wakes] holds what the owner did before
    each return of [m_condition.Wait()].  [None]: the worker waits for
    good. *)
Fixpoint IdleLoop_while (wakes : list interference) (t : CSocketThread)
    (w : world) : option (bool * CSocketThread * world) :=
  if negb (m_pSocket t) || ((m_waiting t =? 0) && negb (non_null (m_pHost t)))
  then
    match wakes with
    | [] => None
    | wake :: wakes' =>
        let t := set_m_threadwait true t in
        let '(t, w) := wake t w in
        if m_quit t then Some (false, t, w)
        else IdleLoop_while wakes' t w
    end
  else Some (true, t, w).

Definition IdleLoop (wakes : list interference) (t : CSocketThread)
    (w : world) : option (bool * CSocketThread * world) :=
  if m_quit t then Some (false, t, w) else IdleLoop_while wakes t w.

(** The [for (;;)] loop of [DoWait] around [select]: each round starts with
    [FD_SET(m_pSocket->m_fd, ...)]. *)
Fixpoint DoWait_rounds (P : platform)
    (rounds : list (interference * select_result)) (t : CSocketThread)
    (w : world) {struct rounds} : outcome (bool * CSocketThread * world) :=
  if negb (m_pSocket t) then null_dereference
  else
    match rounds with
    | [] => blocked
    | (meanwhile, sel) :: rounds' =>
        match Select.DoWait_body P meanwhile sel t w with
        | (Some res, t, w) => returned (res, t, w)
        | (None, t, w) => DoWait_rounds P rounds' t w
        end
    end.

Definition DoWait (P : platform) (wait : Z)
    (rounds : list (interference * select_result)) (t : CSocketThread)
    (w : world) : outcome (bool * CSocketThread * world) :=
  let t := set_m_waiting (Z.lor (m_waiting t) wait) t in
  DoWait_rounds P rounds t w.

(** One turn of [while (IdleLoop()) { ... }] in [Entry] for a listening
    socket; [true] when the loop goes on, [false] when it is left. *)
Definition listen_round (P : platform) (idle : list interference)
    (rounds : list (interference * select_result)) (peek : Z)
    (t : CSocketThread) (w : world)
    : outcome (bool * CSocketThread * world) :=
  match IdleLoop idle t w with
  | None => blocked
  | Some (false, t, w) => returned (false, t, w)
  | Some (true, t, w) =>
      if negb (m_pSocket t) then null_dereference
      else if m_fd w =? -1 then returned (false, set_m_waiting 0 t, w)
      else
        match DoWait P 0 rounds t w with
        | blocked => blocked
        | null_dereference => null_dereference
        | returned (res, t, w) =>
            if negb res then returned (false, t, w)
            else
              let '(t, w) := SocketThread.SendEvents P peek t w in
              returned (true, t, w)
        end
  end.

(** One turn of the second [while (IdleLoop()) { ... }] in [Entry], for a
    socket that is not listening, on a platform other than Windows. *)
Definition serve_round (P : platform) (idle : list interference)
    (rounds : list (interference * select_result)) (peek : Z)
    (t : CSocketThread) (w : world)
    : outcome (bool * CSocketThread * world) :=
  match IdleLoop idle t w with
  | None => blocked
  | Some (false, t, w) => returned (false, t, w)
  | Some (true, t, w) =>
      if negb (m_pSocket t) then null_dereference
      else if m_fd w =? -1 then returned (false, set_m_waiting 0 t, w)
      else
        match DoWait P 0 rounds t w with
        | blocked => blocked
        | null_dereference => null_dereference
        | returned (res, t, w) =>
            let w := if has_bit (m_triggered t) WAIT_CLOSE && m_pSocket t
                     then set_m_state closing w else w in
            if negb res then returned (false, t, w)
            else
              let '(t, w) := SocketThread.SendEvents P peek t w in
              returned (true, t, w)
        end
  end.

End Worker.

(** Interference that keeps a quiet worker quiet and does not move the
    socket to closing. *)
Definition keeps_quiet (m : interference) : Prop :=
  forall t w,
    select_quiet t -> m_state w <> closing ->
    select_quiet (fst (m t w)) /\ m_state (snd (m t w)) <> closing.

(** A connected socket whose worker has nothing to wait for. *)
Definition idle_thread : CSocketThread :=
  Thread true None None true true false false 0 0 [0; 0; 0; 0; 0] false.

Definition idle_socket : world :=
  World 1%nat (Some 2%nat) 7 connected (Some idle_thread)
    "example.org" 21 0 false [] [] [].

(** [select] reports the descriptor readable and writable. *)
Definition ready : select_result := Select 1 0 true true (0, 0, 0).

(** A worker with a socket and nothing to do: running, not told to quit,
    no host staged, nothing awaited and nothing triggered. *)
Definition resting (t : CSocketThread) : Prop :=
  m_started t = true /\ m_finished t = false /\ m_quit t = false
  /\ m_pSocket t = true /\ m_pHost t = None
  /\ m_waiting t = 0 /\ m_triggered t = 0.

(** The owner's [Read] or [Write] that finds the socket not ready. *)
Definition retry (P : platform) (reading : bool) (raw : Z) (w : world)
    : world :=
  snd (if reading then Socket.Read P (-1, raw) w
       else Socket.Write P (-1, raw) w).

(** ** [CSocket::Accept] *)

Module Acceptor.

Import SocketThread.

(** [Accept(error)] on a socket whose members [m_buffer_sizes] are in [o];
    [accepted] is the answer of [accept] (the descriptor and the error
    code it left behind), [fresh] the identity of the object [new CSocket]
    creates, [k] the options of the accepted descriptor.  The result is the
    accepted socket (with the dispatcher's queue, [waiting_socket_threads]
    and the effects as they are when [Accept] returns), the value of
    [error] and the listening socket.  [SetNonblocking] does not show in
    the state.  [SO_NOSIGPIPE] is set where the platform has it and has no
    [MSG_NOSIGNAL]; the result of that call is discarded. *)
Definition Accept (P : platform) (env : connect_env)
    (answer : sockopt_name -> Z -> Z * Z) (o : socket_options)
    (accepted : Z * Z) (fresh : source) (error : Z) (k : sockopts)
    (w : world) : option world * Z * sockopts * world :=
  let w :=
    match m_pSocketThread w with
    | Some t =>
        let w := perform Lock w in
        let t := set_m_waiting (Z.lor (m_waiting t) WAIT_ACCEPT) t in
        let '(t, w) := WakeupThread true t w in
        perform Unlock (set_m_pSocketThread (Some t) w)
    | None => w
    end in
  let '(fd, raw) := accepted in
  if fd =? -1 then (None, last_error P raw, k, w)
  else
    let k :=
      if macro_defined P "SO_NOSIGPIPE"
         && negb (macro_defined P "MSG_NOSIGNAL")
      then snd (setsockopt answer SO_NOSIGPIPE 1 k)
      else k in
    let k := snd (Options.DoSetBufferSizes P answer (fst (m_buffer_sizes o))
                    (snd (m_buffer_sizes o)) k) in
    let pSocket := Socket.new_CSocket fresh None (m_pending_events w) in
    let pSocket :=
      set_effects (effects w)
        (set_waiting_socket_threads (waiting_socket_threads w) pSocket) in
    let pSocket := set_m_state connected pSocket in
    let pSocket := set_m_fd fd pSocket in
    let '(t, pSocket) := SetSocket true false new_CSocketThread pSocket in
    let t := set_m_waiting (Z.lor WAIT_READ WAIT_WRITE) t in
    let '(_, t, pSocket) := Start P env t pSocket in
    (Some (set_m_pSocketThread (Some t) pSocket), error, k,
     set_effects (effects pSocket) w).

End Acceptor.

(** The listening socket after the owner's [Accept]. *)
Definition accepts (P : platform) (env : connect_env)
    (answer : sockopt_name -> Z -> Z * Z) (o : socket_options)
    (accepted : Z * Z) (fresh : source) (k : sockopts) (w : world) : world :=
  snd (Acceptor.Accept P env answer o accepted fresh 0 k w).

(** A listening socket whose worker has nothing to wait for. *)
Definition listening_socket : world :=
  World 1%nat (Some 2%nat) 7 listening (Some idle_thread)
    "" 21 0 false [] [] [].

(** A descriptor's options before any call, and a system that grants every
    [setsockopt]. *)
Definition default_sockopts : sockopts := SockOpts 0 0 87380 16384 [].
Definition granted : sockopt_name -> Z -> Z * Z := fun _ _ => (0, 0).

(** ** [CControlSocket::ParsePwdReply] *)

Definition dquote : ascii := "034"%char.
Definition squote : ascii := "039"%char.
Definition space : ascii := "032"%char.

(** [wxString::Find(ch, true)]: index of the last occurrence, or
    [wxNOT_FOUND]. *)
Fixpoint Find_fromEnd (ch : ascii) (s : string) : Z :=
  match s with
  | EmptyString => -1
  | String c s' =>
      let r := Find_fromEnd ch s' in
      if r =? -1 then (if Ascii.eqb c ch then 0 else -1) else r + 1
  end.

(** [wxString::Mid(nFirst, nCount)]; [None] is the default [npos], the
    rest of the string. *)
Definition Mid (nFirst : Z) (nCount : option Z) (s : string) : string :=
  let rest := substring (Z.to_nat nFirst) (String.length s) s in
  match nCount with
  | None => rest
  | Some n => substring 0 (Z.to_nat n) rest
  end.

(** [wxString::Left(nCount)] *)
Definition Left (nCount : Z) (s : string) : string :=
  substring 0 (Z.to_nat nCount) s.

(** [reply.Replace(old, new)] with a pair of double quotes for [old] and
    one double quote for [new]: every occurrence met from the left is
    replaced, and the search goes on behind it. *)
Fixpoint Replace_dquotes (s : string) : string :=
  match s with
  | EmptyString => EmptyString
  | String a t =>
      match t with
      | EmptyString => s
      | String b s' =>
          if Ascii.eqb a dquote && Ascii.eqb b dquote
          then String dquote (Replace_dquotes s')
          else String a (Replace_dquotes t)
      end
  end.

Inductive pwd_message :=
| Broken_single_quoted        (* Debug_Info: single-quoted path *)
| Broken_no_quoted_path       (* Debug_Info: trying first token as path *)
| Server_returned_empty_path  (* Error *)
| Failed_to_parse_path        (* Error *)
| Assuming_default_path.      (* Debug_Warning *)

(** The methods of [CServerPath] that [ParsePwdReply] calls on
    [m_CurrentPath]. *)
Record path_class (CServerPath : Type) := PathClass {
  SetType : CServerPath -> CServerPath;
  SetPath : CServerPath -> string -> bool * CServerPath;
  path_empty : CServerPath -> bool
}.

Arguments SetType {CServerPath}.
Arguments SetPath {CServerPath}.
Arguments path_empty {CServerPath}.

Module PwdReply.

(** The part of [ParsePwdReply] in front of [m_CurrentPath.SetType]: the
    text that is handed to [SetPath], and the messages logged. *)
Definition path_text (reply : string) (unquoted : bool)
    : string * list pwd_message :=
  if unquoted then (reply, [])
  else
    let pos1 := Find dquote reply in
    let pos2 := Find_fromEnd dquote reply in
    let '(pos1, pos2, log) :=
      if (pos1 =? -1) || (pos1 >=? pos2) then
        let pos1 := Find squote reply in
        let pos2 := Find_fromEnd squote reply in
        (pos1, pos2,
         if negb (pos1 =? -1) && (pos1 <? pos2)
         then [Broken_single_quoted] else [])
      else (pos1, pos2, []) in
    if (pos1 =? -1) || (pos1 >=? pos2) then
      let log := log ++ [Broken_no_quoted_path] in
      let pos1 := Find space reply in
      if negb (pos1 =? -1) then
        let reply := Mid (pos1 + 1) None reply in
        let pos2 := Find space reply in
        if negb (pos2 =? -1) then (Left pos2 reply, log) else (reply, log)
      else (EmptyString, log)
    else
      let reply := Mid (pos1 + 1) (Some (pos2 - pos1 - 1)) reply in
      (Replace_dquotes reply, log).

(** [ParsePwdReply(reply, unquoted, defaultPath)]: the result, the new
    [m_CurrentPath] and the messages; [None] when [m_pCurrentServer] is
    null. *)
Definition ParsePwdReply {CServerPath : Type} (C : path_class CServerPath)
    (m_pCurrentServer : bool) (reply : string) (unquoted : bool)
    (defaultPath : CServerPath) (m_CurrentPath : CServerPath)
    : option (bool * CServerPath * list pwd_message) :=
  let '(reply, log) := path_text reply unquoted in
  if negb m_pCurrentServer then None
  else
    let m_CurrentPath := SetType C m_CurrentPath in
    let '(parsed, m_CurrentPath) :=
      if String.eqb reply EmptyString then (false, m_CurrentPath)
      else SetPath C m_CurrentPath reply in
    if negb parsed then
      let log :=
        log ++ [if String.eqb reply EmptyString
                then Server_returned_empty_path else Failed_to_parse_path] in
      if negb (path_empty C defaultPath) then
        Some (true, defaultPath, log ++ [Assuming_default_path])
      else Some (false, m_CurrentPath, log)
    else Some (true, m_CurrentPath, log).

End PwdReply.

(** How a server writes a directory name into the reply to PWD: every
    double quote in it is doubled. *)
Fixpoint doubled_quotes (p : string) : string :=
  match p with
  | EmptyString => EmptyString
  | String c p' =>
      if Ascii.eqb c dquote
      then String dquote (String dquote (doubled_quotes p'))
      else String c (doubled_quotes p')
  end.

(** Directory names as character lists with the paths they denote. *)
Definition text_paths : path_class string :=
  PathClass string (fun p => p)
    (fun p s => if String.prefix "/"%string s then (true, s)
                else (false, EmptyString))
    (fun p => String.eqb p EmptyString).

(** ** Proofs about the dispatcher *)

Section CompactLoop.

Variable keep : CSocketEvent -> bool.

Lemma compact_invariant (n : nat) :
  forall (q : Dispatcher.queue) (remaining iter : nat),
    (remaining <= iter)%nat ->
    (iter + n = length q)%nat ->
    let r := Dispatcher.compact keep n q remaining iter in
    take (snd r) (fst r)
    = take remaining q ++ List.filter keep (drop iter q).
Proof.
  induction n as [|n IH]; intros q remaining iter Hle Hlen; simpl.
  - rewrite drop_ge by lia. simpl. by rewrite app_nil_r.
  - destruct (q !! iter) as [e|] eqn:He.
    2:{ apply lookup_ge_None in He. lia. }
    rewrite (drop_S _ _ _ He). simpl.
    destruct (keep e) eqn:Hk.
    + rewrite IH by (rewrite ?length_insert; lia).
      assert (Hr : (remaining < length q)%nat)
        by (apply lookup_lt_Some in He; lia).
      rewrite (take_S_r _ _ e)
        by (apply list_lookup_insert_eq; exact Hr).
      rewrite take_insert_ge by lia.
      rewrite drop_insert_lt by lia.
      by rewrite <- app_assoc.
    + by rewrite IH by lia.
Qed.

Lemma remove_if_not_filter (q : Dispatcher.queue) :
  Dispatcher.remove_if_not keep q = List.filter keep q.
Proof.
  unfold Dispatcher.remove_if_not, Dispatcher.erase_to_end.
  pose proof (compact_invariant (length q) q 0 0 (le_n _) eq_refl) as H.
  destruct (Dispatcher.compact keep (length q) q 0 0) as [q' r].
  simpl in H. by rewrite H, drop_0.
Qed.

End CompactLoop.

Lemma List_filter_stdpp {A} (P : A -> Prop) `{!forall x, Decision (P x)}
    (f : A -> bool) (l : list A) :
  (forall x, f x = bool_decide (P x)) ->
  List.filter f l = filter P l.
Proof.
  intros Hf. induction l as [|x l IH]; [done|].
  simpl. rewrite filter_cons, Hf, IH.
  destruct (decide (P x)) as [Hx|Hx].
  - by rewrite bool_decide_eq_true_2.
  - by rewrite bool_decide_eq_false_2.
Qed.

Lemma RemovePending_handler_filter (pHandler : option handler)
    (q : list CSocketEvent) :
  Dispatcher.RemovePending_handler pHandler q
  = filter (fun e => Some (m_pSocketEventHandler e) <> pHandler) q.
Proof.
  unfold Dispatcher.RemovePending_handler. rewrite remove_if_not_filter.
  apply List_filter_stdpp. intros e.
  symmetry. apply bool_decide_not.
Qed.

Lemma RemovePending_source_filter (pSource : source) (q : list CSocketEvent) :
  Dispatcher.RemovePending_source pSource q
  = filter (fun e => m_pSource e <> pSource) q.
Proof.
  unfold Dispatcher.RemovePending_source. rewrite remove_if_not_filter.
  apply List_filter_stdpp. intros e.
  symmetry. apply bool_decide_not.
Qed.

(** C9. [RemovePending(handler)] leaves in the queue exactly the events
    whose handler differs from the given one, and [RemovePending(source)]
    exactly those whose source differs from the given one; in both cases
    the events that stay keep their multiplicity and their relative order:
    the new queue is the old one filtered, hence a subsequence of it. *)
Theorem RemovePending_exact (pHandler : option handler) (pSource : source)
    (q : list CSocketEvent) :
  let by_handler := Dispatcher.RemovePending_handler pHandler q in
  let by_source := Dispatcher.RemovePending_source pSource q in
  by_handler = filter (fun e => Some (m_pSocketEventHandler e) <> pHandler) q
  /\ by_source = filter (fun e => m_pSource e <> pSource) q
  /\ (forall e, e ∈ by_handler <->
                e ∈ q /\ Some (m_pSocketEventHandler e) <> pHandler)
  /\ (forall e, e ∈ by_source <-> e ∈ q /\ m_pSource e <> pSource)
  /\ by_handler `sublist_of` q
  /\ by_source `sublist_of` q.
Proof.
  cbv zeta.
  rewrite RemovePending_handler_filter, RemovePending_source_filter.
  split; [reflexivity|]. split; [reflexivity|].
  split; [intros e; rewrite list_elem_of_filter; tauto|].
  split; [intros e; rewrite list_elem_of_filter; tauto|].
  split; apply sublist_filter.
Qed.

Example RemovePending_handler_run :
  Dispatcher.RemovePending_handler (Some 7%nat)
    [ Event 1%nat read None 0 7%nat; Event 1%nat write None 0 8%nat;
      Event 2%nat close None 0 7%nat; Event 2%nat read None 0 9%nat ]
  = [ Event 1%nat write None 0 8%nat; Event 2%nat read None 0 9%nat ].
Proof. reflexivity. Qed.

(** ** Proofs about [SetEventHandler] *)

Lemma UpdatePending_retargeted (old : option handler) (self : source)
    (new : handler) (q : list CSocketEvent) :
  Dispatcher.UpdatePending old self new self q
  = retargeted old self new <$> q.
Proof.
  unfold Dispatcher.UpdatePending. apply list_fmap_ext. intros _ e _.
  unfold retargeted.
  destruct (decide (m_pSource e = self /\ Some (m_pSocketEventHandler e) = old))
    as [[Hs Hh]|Hn].
  - rewrite !bool_decide_eq_true_2 by done. simpl. by rewrite Hs.
  - destruct (decide (m_pSource e = self)) as [Hs|Hs].
    + rewrite (bool_decide_eq_true_2 _ Hs). simpl.
      rewrite bool_decide_eq_false_2 by tauto. done.
    + by rewrite (bool_decide_eq_false_2 _ Hs).
Qed.

Lemma retargeted_no_handler (self : source) (new : handler)
    (q : list CSocketEvent) :
  retargeted None self new <$> q = q.
Proof.
  rewrite <- (list_fmap_id q) at 2. apply list_fmap_ext. intros _ e _.
  unfold retargeted, id.
  destruct (decide _) as [[_ H]|_]; [discriminate H|reflexivity].
Qed.

Ltac open_state :=
  repeat match goal with
         | w : world |- _ => destruct w
         | t : CSocketThread |- _ => destruct t
         end;
  simpl in *.

Ltac appended :=
  unfold Dispatcher.SendEvent;
  first
    [ exists []; split; [by rewrite app_nil_r | constructor]
    | eexists; split;
      [ rewrite <- ?app_assoc; reflexivity
      | repeat constructor ] ].

Lemma SendEvents_appends (P : platform) (peek : Z) (t : CSocketThread)
    (w : world) (h : handler) :
  m_pEvtHandler w = Some h ->
  exists sent,
    m_pending_events (snd (SocketThread.SendEvents P peek t w))
    = m_pending_events w ++ sent
    /\ Forall (sent_to h (this w)) sent.
Proof.
  intros Hh. unfold SocketThread.SendEvents, SocketThread.SendCloseEvent.
  open_state. subst.
  destruct m_pSocket0; simpl; [|appended].
  repeat match goal with
         | |- context [if ?b then _ else _] => destruct b; simpl
         end; appended.
Qed.

Lemma WakeupThread_pending (b : bool) (t : CSocketThread) (w : world) :
  m_pending_events (snd (SocketThread.WakeupThread b t w)) = m_pending_events w.
Proof.
  unfold SocketThread.WakeupThread. open_state.
  repeat match goal with
         | |- context [if ?b then _ else _] => destruct b; simpl
         end; reflexivity.
Qed.

Lemma WakeupThread_frame (b : bool) (t : CSocketThread) (w : world) :
  exists effs, snd (SocketThread.WakeupThread b t w) = set_effects effs w.
Proof.
  unfold SocketThread.WakeupThread. open_state.
  repeat match goal with
         | |- context [if ?b then _ else _] => destruct b; simpl
         end; eexists; reflexivity.
Qed.

Lemma SendEvents_frame (P : platform) (peek : Z) (t : CSocketThread)
    (w : world) :
  exists q effs,
    snd (SocketThread.SendEvents P peek t w)
    = set_effects effs (set_m_pending_events q w).
Proof.
  unfold SocketThread.SendEvents, SocketThread.SendCloseEvent. open_state.
  repeat match goal with
         | |- context [if ?b then _ else _] => destruct b; simpl
         | |- context [match ?o with Some _ => _ | None => _ end] =>
             destruct o; simpl
         end; do 2 eexists; reflexivity.
Qed.

Lemma SetEventHandler_pending (P : platform) (peek : Z) (new : handler)
    (w : world) :
  exists sent,
    m_pending_events (Socket.SetEventHandler P peek (Some new) w)
    = (retargeted (m_pEvtHandler w) (this w) new <$> m_pending_events w)
      ++ sent
    /\ Forall (sent_to new (this w)) sent.
Proof.
  unfold Socket.SetEventHandler.
  rewrite UpdatePending_retargeted.
  destruct w as [self old fd st thr host port fam cb q reap effs]. simpl.
  destruct thr as [t|], old as [old|]; simpl;
    rewrite ?retargeted_no_handler; try appended.
  all: destruct (bool_decide (st = connected)) eqn:Hc.
  all: try (destruct (bool_decide (st = closing)) eqn:Hcl; [|appended]).
  all: try match goal with
      | |- context [SocketThread.SendEvents ?P ?k ?t ?w] =>
          destruct (SendEvents_appends P k t w new) as (sent & Hs & Hall);
          [ reflexivity | ];
          destruct (SocketThread.SendEvents P k t w) as [t' w'];
          destruct w'; simpl in *; subst;
          exists sent; split; [reflexivity|exact Hall]
      end.
  all: destruct (msw P); simpl;
      repeat match goal with
             | |- context [has_bit ?a ?b] => destruct (has_bit a b); simpl
             end;
      match goal with
      | |- context [SocketThread.WakeupThread ?b ?t ?w] =>
          pose proof (WakeupThread_pending b t w) as Hw;
          destruct (SocketThread.WakeupThread b t w) as [t' w']
      | _ => idtac
      end; try (destruct w'; simpl in *; subst); appended.
Qed.

(** C3. After [SetEventHandler(new)] with a non-null [new], every event
    that was queued for this socket and the previous handler sits at its
    old position with the new handler in place of the old one; every other
    queued event is untouched; and, the new handler being another one than
    the previous, no queued event of this socket names the previous handler
    any more. *)
Theorem SetEventHandler_retargets (P : platform) (peek : Z) (new : handler)
    (w : world) :
  let w' := Socket.SetEventHandler P peek (Some new) w in
  let old := m_pEvtHandler w in
  (forall (i : nat) (e : CSocketEvent),
      m_pending_events w !! i = Some e ->
      m_pSource e = this w -> Some (m_pSocketEventHandler e) = old ->
      m_pending_events w' !! i
      = Some (Event (this w) (m_type e) (m_data e) (m_error e) new))
  /\ (forall (i : nat) (e : CSocketEvent),
      m_pending_events w !! i = Some e ->
      m_pSource e <> this w \/ Some (m_pSocketEventHandler e) <> old ->
      m_pending_events w' !! i = Some e)
  /\ (old <> Some new ->
      forall e : CSocketEvent,
        e ∈ m_pending_events w' ->
        m_pSource e = this w -> Some (m_pSocketEventHandler e) <> old)
  /\ m_pEvtHandler w' = Some new.
Proof.
  cbv zeta.
  destruct (SetEventHandler_pending P peek new w) as (sent & Hq & Hsent).
  assert (Hat : forall (i : nat) (e : CSocketEvent),
             m_pending_events w !! i = Some e ->
             m_pending_events (Socket.SetEventHandler P peek (Some new) w) !! i
             = Some (retargeted (m_pEvtHandler w) (this w) new e)).
  { intros i e He. rewrite Hq.
    rewrite lookup_app_l
      by (rewrite length_fmap; eapply lookup_lt_Some; exact He).
    by rewrite list_lookup_fmap, He. }
  split; [|split; [|split]].
  - intros i e He Hs Hh. rewrite (Hat i e He). unfold retargeted.
    rewrite decide_True by done. by rewrite Hs.
  - intros i e He Hne. rewrite (Hat i e He). unfold retargeted.
    rewrite decide_False by tauto. done.
  - intros Hnew e He Hs. rewrite Hq in He.
    apply elem_of_app in He as [He|He].
    + apply list_elem_of_fmap in He as (e0 & -> & _).
      revert Hs. unfold retargeted.
      destruct (decide _) as [[Hs0 Hh0]|Hn]; simpl; intros Hs.
      * intros Heq. apply Hnew. by rewrite <- Heq.
      * tauto.
    + rewrite Forall_forall in Hsent. destruct (Hsent e He) as [Hh _].
      intros Heq. apply Hnew. by rewrite <- Heq, Hh.
  - unfold Socket.SetEventHandler.
    destruct w as [self old fd st thr host port fam cb q reap effs]. simpl.
    destruct thr as [t|], old as [old|]; simpl; try reflexivity.
    all: destruct (bool_decide (st = connected));
      [|destruct (bool_decide (st = closing))]; try reflexivity.
    all: try match goal with
         | |- context [SocketThread.SendEvents ?P ?k ?t ?w] =>
             destruct (SendEvents_frame P k t w) as (q' & effs' & Hf);
             destruct (SocketThread.SendEvents P k t w) as [t' w'];
             simpl in Hf; subst w'; reflexivity
         end.
    all: destruct (msw P); simpl;
      repeat match goal with
             | |- context [has_bit ?a ?b] => destruct (has_bit a b); simpl
             end;
      try reflexivity;
      match goal with
      | |- context [SocketThread.WakeupThread ?b ?t ?w] =>
          destruct (WakeupThread_frame b t w) as (effs' & Hf);
          destruct (SocketThread.WakeupThread b t w) as [t' w'];
          simpl in Hf; subst w'; reflexivity
      end.
Qed.

Lemma SetEventHandler_retargets_witness :
  let w := World 5%nat (Some 1%nat) 3 connected None EmptyString 21 0 false
             [ Event 5%nat read None 0 1%nat; Event 6%nat read None 0 1%nat;
               Event 5%nat write None 0 2%nat ] [] [] in
  let w' := Socket.SetEventHandler linux 0 (Some 3%nat) w in
  m_pending_events w' !! 0%nat = Some (Event 5%nat read None 0 3%nat)
  /\ m_pending_events w' !! 1%nat = Some (Event 6%nat read None 0 1%nat)
  /\ Some (m_pSocketEventHandler (Event 5%nat read None 0 3%nat))
     <> Some 1%nat.
Proof.
  intros w w'.
  destruct (SetEventHandler_retargets linux 0 3%nat w) as (Ha & Hb & Hc & _).
  split; [|split].
  - exact (Ha 0%nat (Event 5%nat read None 0 1%nat) eq_refl eq_refl eq_refl).
  - apply (Hb 1%nat (Event 6%nat read None 0 1%nat) eq_refl).
    left. discriminate.
  - apply (Hc ltac:(discriminate) (Event 5%nat read None 0 3%nat)).
    + apply list_elem_of_here.
    + reflexivity.
Defined.

(** ** Proofs about the error strings *)

Lemma utoa_digits_nonempty (fuel : nat) :
  forall (n : Z) (acc : string), utoa_digits fuel n acc <> EmptyString.
Proof.
  induction fuel as [|f IH]; intros n acc; simpl; [discriminate|].
  destruct (n / 10 =? 0); [discriminate|apply IH].
Qed.

Lemma format_d_nonempty (n : Z) : format_d n <> EmptyString.
Proof.
  unfold format_d, format_u.
  destruct (n <? 0); [discriminate|apply utoa_digits_nonempty].
Qed.

Lemma append_nonempty (a : string) (c : ascii) (b : string) :
  (a ++ String c b)%string <> EmptyString.
Proof. destruct a; discriminate. Qed.

Lemma digit_char_value (d : Z) :
  0 <= d < 10 -> Z.of_nat (nat_of_ascii (digit_char d)) - 48 = d.
Proof.
  intros Hd. unfold digit_char. rewrite nat_ascii_embedding by lia. lia.
Qed.

Lemma digit_char_not_NUL (d : Z) : 0 <= d < 10 -> digit_char d <> zero.
Proof.
  intros Hd He. pose proof (digit_char_value d Hd) as Hv.
  rewrite He in Hv. change (nat_of_ascii zero) with 0%nat in Hv. lia.
Qed.

Lemma utoa_digits_value (fuel : nat) :
  forall (n : Z) (acc : string),
    0 <= n < 10 ^ Z.of_nat (S fuel) ->
    decimal_value (utoa_digits fuel n acc)
    = n * 10 ^ Z.of_nat (String.length acc) + decimal_value acc.
Proof.
  induction fuel as [|f IH]; intros n acc Hn.
  - simpl in *. rewrite digit_char_value by (apply Z.mod_pos_bound; lia).
    rewrite Z.mod_small by lia. reflexivity.
  - cbn [utoa_digits].
    assert (Hm : 0 <= n mod 10 < 10) by (apply Z.mod_pos_bound; lia).
    destruct (n / 10 =? 0) eqn:Hq.
    + apply Z.eqb_eq in Hq. cbn [decimal_value].
      rewrite digit_char_value by done.
      pose proof (Z.div_mod n 10 ltac:(lia)) as Hdm. rewrite Hq in Hdm.
      replace (n mod 10) with n by lia. reflexivity.
    + rewrite IH.
      * cbn [decimal_value String.length]. rewrite digit_char_value by done.
        rewrite Nat2Z.inj_succ, Z.pow_succ_r by lia.
        pose proof (Z.div_mod n 10 ltac:(lia)) as Hdm. nia.
      * split; [apply Z.div_pos; lia|].
        apply Z.div_lt_upper_bound; [lia|].
        rewrite <- Z.pow_succ_r by lia.
        replace (Z.succ (Z.of_nat (S f))) with (Z.of_nat (S (S f))) by lia.
        apply Hn.
Qed.

Lemma format_u_value (n : Z) :
  0 <= n < 10 ^ 10 -> decimal_value (format_u n) = n.
Proof.
  intros Hn. unfold format_u. rewrite utoa_digits_value by exact Hn.
  simpl. lia.
Qed.

Section ScanTable.

Variable P : platform.
Variable error : Z.

(** A code that no entry carries is not found, whatever follows the
    entries. *)
Lemma scan_table_absent (entries rest : list (Error_table)) :
  (error ∉ code <$> entries) ->
  scan_table error (entries ++ sentinel :: rest) = None.
Proof.
  induction entries as [|e entries IH]; intros Hno; simpl; [reflexivity|].
  rewrite fmap_cons in Hno. apply not_elem_of_cons in Hno as [Hne Hno].
  destruct (code e =? 0); [reflexivity|].
  destruct (error =? code e) eqn:He; simpl.
  - apply Z.eqb_eq in He. contradiction.
  - by apply IH.
Qed.

(** A code that some entry carries is found at the first entry carrying
    it, provided no entry before it has the terminating code 0. *)
Lemma scan_table_present (entries rest : list Error_table) :
  Forall (fun e => code e <> 0) entries ->
  (error ∈ code <$> entries) ->
  exists pre e post,
    entries = pre ++ e :: post
    /\ (error ∉ code <$> pre)
    /\ code e = error
    /\ scan_table error (entries ++ rest) = Some e.
Proof.
  induction entries as [|e entries IH]; intros Hnz Hin.
  - by apply elem_of_nil in Hin.
  - apply Forall_cons in Hnz as [Hnz0 Hnz].
    rewrite fmap_cons in Hin. simpl.
    apply Z.eqb_neq in Hnz0. rewrite Hnz0.
    destruct (error =? code e) eqn:He; simpl.
    + apply Z.eqb_eq in He.
      exists [], e, entries. repeat split; [apply not_elem_of_nil|done].
    + apply Z.eqb_neq in He.
      apply elem_of_cons in Hin as [Hin|Hin]; [contradiction|].
      destruct (IH Hnz Hin) as (pre & e' & post & -> & Hpre & Hc & Hs).
      exists (e :: pre), e', post. repeat split; try done.
      rewrite fmap_cons. apply not_elem_of_cons. done.
Qed.

End ScanTable.

Lemma error_entries_ERRORDECL (P : platform) (e : Error_table) :
  e ∈ error_entries P -> code e = macro P (name e).
Proof.
  intros Hin. unfold error_entries in Hin. apply list_elem_of_In in Hin.
  apply in_flat_map in Hin as (d & _ & Hin).
  destruct d as [[g c] desc].
  destruct (guard_holds P g c); [|by destruct Hin].
  by destruct Hin as [<-|[]].
Qed.

Lemma reachable_nonzero (tbl : list Error_table) :
  Forall (fun e => code e <> 0) (reachable tbl).
Proof.
  induction tbl as [|e tbl IH]; cbn [reachable]; [constructor|].
  destruct (code e =? 0) eqn:Hz; [constructor|].
  constructor; [by apply Z.eqb_neq|exact IH].
Qed.

Lemma reachable_all (tbl : list Error_table) :
  Forall (fun e => code e <> 0) tbl -> reachable tbl = tbl.
Proof.
  induction 1 as [|e tbl He _ IH]; cbn [reachable]; [done|].
  apply Z.eqb_neq in He. by rewrite He, IH.
Qed.

Lemma reachable_elem_of (tbl : list Error_table) (e : Error_table) :
  e ∈ reachable tbl -> e ∈ tbl.
Proof.
  induction tbl as [|x tbl IH]; cbn [reachable]; [done|].
  destruct (code x =? 0); [by intros ?%elem_of_nil|].
  intros [->|Hin]%elem_of_cons; [apply list_elem_of_here|].
  by apply list_elem_of_further, IH.
Qed.

(** The scan sees the table only up to the first code 0. *)
Lemma scan_table_reachable (error : Z) (entries rest : list Error_table) :
  scan_table error (entries ++ sentinel :: rest)
  = scan_table error (reachable entries ++ sentinel :: rest).
Proof.
  induction entries as [|e entries IH]; [done|].
  cbn [app reachable scan_table].
  destruct (code e =? 0) eqn:Hz; [done|].
  cbn [app scan_table]. rewrite Hz. by rewrite IH.
Qed.

(** The digits [%u] writes. *)
Lemma digit_char_is_digit (d : Z) : 0 <= d < 10 -> is_digit (digit_char d).
Proof.
  intros Hd. pose proof (digit_char_value d Hd). unfold is_digit. lia.
Qed.

Lemma utoa_digits_digits (fuel : nat) :
  forall (n : Z) (acc : string),
    Forall is_digit (list_ascii_of_string acc) ->
    Forall is_digit (list_ascii_of_string (utoa_digits fuel n acc)).
Proof.
  induction fuel as [|f IH]; intros n acc Hacc; cbn [utoa_digits].
  - cbn. constructor; [|exact Hacc].
    apply digit_char_is_digit, Z.mod_pos_bound. lia.
  - assert (Hacc' : Forall is_digit
                      (list_ascii_of_string
                         (String (digit_char (n mod 10)) acc))).
    { cbn. constructor; [|exact Hacc].
      apply digit_char_is_digit, Z.mod_pos_bound. lia. }
    destruct (n / 10 =? 0); [exact Hacc'|by apply IH].
Qed.

Lemma utoa_digits_head (fuel : nat) :
  forall (n : Z) (acc : string),
    0 <= n < 10 ^ Z.of_nat (S fuel) ->
    exists d rest,
      utoa_digits fuel n acc = String (digit_char d) rest
      /\ 0 <= d < 10
      /\ (d = 0 -> n = 0 /\ rest = acc).
Proof.
  induction fuel as [|f IH]; intros n acc Hn; cbn [utoa_digits].
  - exists (n mod 10), acc. split; [done|].
    split; [apply Z.mod_pos_bound; lia|].
    change (10 ^ Z.of_nat 1) with 10 in Hn.
    rewrite Z.mod_small by lia. done.
  - destruct (n / 10 =? 0) eqn:Hq.
    + apply Z.eqb_eq in Hq.
      pose proof (Z.div_mod n 10 ltac:(lia)) as Hdm. rewrite Hq in Hdm.
      exists (n mod 10), acc. split; [done|].
      split; [apply Z.mod_pos_bound; lia|]. intros H0. split; [lia|done].
    + apply Z.eqb_neq in Hq.
      destruct (IH (n / 10) (String (digit_char (n mod 10)) acc))
        as (d & rest & Heq & Hd & H0).
      * split; [apply Z.div_pos; lia|].
        apply Z.div_lt_upper_bound; [lia|].
        rewrite <- Z.pow_succ_r by lia.
        replace (Z.succ (Z.of_nat (S f))) with (Z.of_nat (S (S f))) by lia.
        apply Hn.
      * exists d, rest. split; [exact Heq|]. split; [exact Hd|].
        intros Hz. destruct (H0 Hz) as [Hdiv _]. contradiction.
Qed.

Lemma format_u_unsigned_decimal (n : Z) :
  0 <= n < 10 ^ 10 -> unsigned_decimal (format_u n) n.
Proof.
  intros Hn. unfold format_u.
  split; [apply utoa_digits_nonempty|].
  split; [apply utoa_digits_digits; constructor|].
  split; [|by apply format_u_value].
  intros s' Hs.
  destruct (utoa_digits_head 9 n EmptyString Hn) as (d & rest & Heq & Hd & H0).
  rewrite Heq in Hs. injection Hs as Hc <-.
  pose proof (digit_char_value d Hd) as Hv. rewrite Hc in Hv.
  change (nat_of_ascii "0") with 48%nat in Hv.
  apply H0. lia.
Qed.

(** What [%d] writes for an [int] is its decimal rendering. *)
Lemma format_d_rendering (n : Z) :
  - 2 ^ 31 <= n < 2 ^ 31 -> decimal_rendering (format_d n) n.
Proof.
  intros Hn. unfold decimal_rendering, format_d.
  destruct (n <? 0) eqn:Hneg.
  - apply Z.ltb_lt in Hneg. eexists. split; [reflexivity|].
    apply format_u_unsigned_decimal. lia.
  - apply Z.ltb_ge in Hneg. apply format_u_unsigned_decimal. lia.
Qed.

(** C7, as amended.  [GetErrorString] and [GetErrorDescription] are defined
    for every integer.  The scan of the table ends at the first entry whose
    code is 0, so only the entries in front of it can be reached; on a
    platform that gives none of the listed macros the value 0 these are all
    entries.  A code carried by a reachable entry yields the symbolic name
    of the first entry that carries it (the spelling of a macro whose value
    is the code), respectively that name, [" - "] and the translated
    description of that entry; an entry behind another one with the same
    code is never returned.  Any other code yields from both functions what
    [%d] writes, which for an [int] is its decimal rendering: the digits of
    its absolute value without leading zero, after a minus sign if it is
    negative.  Hence neither function ever returns the empty string. *)
Theorem GetError_total (P : platform) (wxGetTranslation : string -> string)
    (error : Z) :
  let live := reachable (error_entries P) in
  (Forall (fun e => code e <> 0) (error_entries P) -> live = error_entries P)
  /\ ((error ∈ code <$> live) ->
      exists pre e post,
        live = pre ++ e :: post
        /\ (error ∉ code <$> pre)
        /\ code e = error
        /\ macro P (name e) = error
        /\ GetErrorString P error = name e
        /\ GetErrorDescription P wxGetTranslation error
           = (name e ++ " - " ++ wxGetTranslation (description e))%string)
  /\ ((error ∉ code <$> live) ->
      GetErrorString P error = format_d error
      /\ GetErrorDescription P wxGetTranslation error = format_d error
      /\ (- 2 ^ 31 <= error < 2 ^ 31 ->
          decimal_rendering (GetErrorString P error) error))
  /\ GetErrorString P error <> EmptyString
  /\ GetErrorDescription P wxGetTranslation error <> EmptyString.
Proof.
  cbv zeta. unfold GetErrorString, GetErrorDescription, error_table.
  split; [apply reachable_all|].
  split; [|split; [|split] ].
  - intros Hin. rewrite scan_table_reachable.
    destruct (scan_table_present error (reachable (error_entries P))
                [sentinel] (reachable_nonzero _) Hin)
      as (pre & e & post & Heq & Hpre & Hc & Hs).
    exists pre, e, post. rewrite Hs.
    repeat split; try done.
    rewrite <- Hc. symmetry. apply error_entries_ERRORDECL.
    apply reachable_elem_of.
    rewrite Heq. apply elem_of_app. right. apply list_elem_of_here.
  - intros Hno. rewrite scan_table_reachable.
    rewrite (scan_table_absent error (reachable (error_entries P)) [] Hno).
    split; [done|]. split; [done|]. apply format_d_rendering.
  - destruct (scan_table error (error_entries P ++ [sentinel])) as [e|] eqn:Hs;
      [|apply format_d_nonempty].
    (* a found entry is one of the declared ones, whose name is a macro's
       spelling *)
    assert (Hin : e ∈ error_entries P ++ [sentinel] /\ code e <> 0).
    { clear -Hs. induction (error_entries P ++ [sentinel]) as [|x l IH];
        simpl in Hs; [discriminate|].
      destruct (code x =? 0) eqn:Hz; [discriminate|].
      destruct (error =? code x); simpl in Hs.
      - injection Hs as <-. split; [apply list_elem_of_here|].
        by apply Z.eqb_neq.
      - destruct (IH Hs) as [Hin Hnz].
        split; [by apply list_elem_of_further|done]. }
    destruct Hin as [Hin Hnz].
    apply elem_of_app in Hin as [Hin|Hin].
    + unfold error_entries in Hin. apply list_elem_of_In in Hin.
      apply in_flat_map in Hin as (d & Hd & Hin).
      destruct d as [[g c] desc].
      destruct (guard_holds P g c); [|by destruct Hin].
      destruct Hin as [<-|[]]. simpl.
      (* every declared name is a non-empty literal *)
      clear -Hd. unfold error_decls in Hd. simpl in Hd.
      repeat (destruct Hd as [Hd|Hd]; [injection Hd as <- <- <-; discriminate|]).
      destruct Hd.
    + apply list_elem_of_singleton in Hin. subst e. by simpl in Hnz.
  - destruct (scan_table error (error_entries P ++ [sentinel])) as [e|];
      [apply append_nonempty|apply format_d_nonempty].
Qed.

Lemma linux_codes_nonzero : Forall (fun e => code e <> 0) (error_entries linux).
Proof. apply (bool_decide_unpack _). by vm_compute. Defined.

Lemma GetError_total_witness :
  (111 ∈ code <$> reachable (error_entries linux))
  /\ (exists pre e post,
        reachable (error_entries linux) = pre ++ e :: post
        /\ (111 ∉ code <$> pre)
        /\ code e = 111
        /\ macro linux (name e) = 111
        /\ GetErrorString linux 111 = name e
        /\ GetErrorDescription linux id 111
           = (name e ++ " - " ++ id (description e))%string)
  /\ (12345 ∉ code <$> reachable (error_entries linux))
  /\ decimal_rendering (GetErrorString linux 12345) 12345.
Proof.
  assert (H1 : 111 ∈ code <$> reachable (error_entries linux))
    by (apply (bool_decide_unpack _); by vm_compute).
  assert (H2 : 12345 ∉ code <$> reachable (error_entries linux))
    by (apply (bool_decide_unpack _); by vm_compute).
  split; [exact H1|].
  split; [exact (proj1 (proj2 (GetError_total linux id 111)) H1)|].
  split; [exact H2|].
  refine (proj2 (proj2 (proj1 (proj2 (proj2 (GetError_total linux id 12345)))
                          H2)) _).
  lia.
Defined.

(** The name of an entry that stands behind another entry with the same
    code is never returned: whatever the values of the macros, where
    [EAI_ADDRFAMILY] is defined as [EAI_FAMILY] the code of [EAI_FAMILY]
    does not yield the name [EAI_FAMILY]. *)
Lemma EAI_FAMILY_shadowed (P : platform) :
  msw P = false ->
  macro P "EAI_ADDRFAMILY" = macro P "EAI_FAMILY" ->
  GetErrorString P (macro P "EAI_FAMILY") <> "EAI_FAMILY"%string.
Proof.
  intros Hmsw Heq. unfold GetErrorString, error_table, error_entries.
  set (error := macro P "EAI_FAMILY") in *.
  assert (Hd : forall n, format_d n <> "EAI_FAMILY"%string).
  { intros n. unfold format_d, format_u. destruct (n <? 0); [discriminate|].
    assert (Hhead : forall fuel m acc,
              exists d rest, utoa_digits fuel m acc = String (digit_char d) rest
                             /\ 0 <= d < 10).
    { clear. induction fuel as [|f IH]; intros m acc; cbn [utoa_digits].
      - eexists _, _. split; [reflexivity|]. apply Z.mod_pos_bound. lia.
      - destruct (m / 10 =? 0); [|apply IH].
        eexists _, _. split; [reflexivity|]. apply Z.mod_pos_bound. lia. }
    destruct (Hhead 9%nat n EmptyString) as (d & rest & -> & Hd).
    intros [= Hc _]. pose proof (digit_char_value d Hd) as Hv.
    rewrite Hc in Hv. change (nat_of_ascii "E") with 69%nat in Hv. lia. }
  cbn [error_decls flat_map guard_holds app]. rewrite Hmsw.
  cbn [negb app].
  repeat match goal with
         | |- context [scan_table error (ERRORDECL P ?c ?d :: ?rest)] =>
             change (scan_table error (ERRORDECL P c d :: rest))
               with (if code (ERRORDECL P c d) =? 0 then None
                     else if negb (error =? code (ERRORDECL P c d))
                          then scan_table error rest
                          else Some (ERRORDECL P c d));
             cbn [code name ERRORDECL];
             lazymatch c with
             | "EAI_ADDRFAMILY"%string =>
                 unfold macro in Heq |- *; rewrite Heq;
                 fold (macro P "EAI_FAMILY"); fold error;
                 rewrite Z.eqb_refl; cbn [negb];
                 destruct (error =? 0); [apply Hd|cbn [name]; discriminate]
             | _ =>
                 destruct (macro P c =? 0); [apply Hd|];
                 destruct (error =? macro P c); cbn [negb name];
                 [discriminate|]
             end
         end.
Qed.

(** C7 fails where two entries of the table carry the same code.  On a
    system without [EAI_ADDRFAMILY] the table holds an entry for the code of
    [EAI_FAMILY] under that name, yet both functions answer that code with
    the name of the entry in front of it. *)
Lemma GetErrorString_shadowed :
  msw freebsd = false
  /\ macro freebsd "EAI_ADDRFAMILY" = macro freebsd "EAI_FAMILY"
  /\ Forall (fun e => code e <> 0) (error_entries freebsd)
  /\ ErrorEntry 5 "EAI_FAMILY" "The ai_family member is not supported"
     ∈ error_entries freebsd
  /\ GetErrorString freebsd 5 = "EAI_ADDRFAMILY"%string
  /\ GetErrorString freebsd 5 <> "EAI_FAMILY"%string
  /\ GetErrorDescription freebsd id 5
     = "EAI_ADDRFAMILY - Network host does not have any network addresses in the requested address family"%string.
Proof.
  split; [reflexivity|]. split; [reflexivity|].
  split; [apply (bool_decide_unpack _); by vm_compute|].
  split; [apply list_elem_of_In; vm_compute; tauto|].
  split; [reflexivity|]. split; [discriminate|reflexivity].
Qed.

Example GetErrorString_linux :
  GetErrorString linux 111 = "ECONNREFUSED"%string
  /\ GetErrorString linux (-2) = "EAI_NONAME"%string
  /\ GetErrorString linux 0 = "0"%string
  /\ GetErrorString linux 12345 = "12345"%string
  /\ GetErrorString linux (-2147483648) = "-2147483648"%string
  /\ GetErrorDescription linux id 111
     = "ECONNREFUSED - Connection refused by server"%string.
Proof. repeat split; reflexivity. Qed.

(** On Windows two entries of the table carry the value of
    [WSAESOCKTNOSUPPORT]; the scan stops at the first one. *)
Example GetErrorString_windows_first_match :
  macro windows "WSAESOCKTNOSUPPORT" = 10044
  /\ ErrorEntry 10044 "WSAESOCKTNOSUPPORT"
       "Socket type not supported for address family" ∈ error_entries windows
  /\ GetErrorString windows 10044 = "EAI_SOCKTYPE"%string.
Proof.
  split; [reflexivity|]. split; [|reflexivity].
  apply list_elem_of_In. vm_compute. tauto.
Qed.

(** ** Proofs about the port buffer *)

Lemma utoa_digits_length (fuel : nat) :
  forall (k : nat) (n : Z) (acc : string),
    0 <= n < 10 ^ Z.of_nat (S k) ->
    (String.length (utoa_digits fuel n acc) <= S k + String.length acc)%nat.
Proof.
  induction fuel as [|f IH]; intros k n acc Hn; simpl; [lia|].
  destruct (n / 10 =? 0) eqn:Hq; simpl; [lia|].
  apply Z.eqb_neq in Hq.
  destruct k as [|k].
  - exfalso. apply Hq. apply Z.div_small. simpl in Hn. lia.
  - assert (Hdiv : 0 <= n / 10 < 10 ^ Z.of_nat (S k)).
    { split; [apply Z.div_pos; lia|].
      apply Z.div_lt_upper_bound; [lia|].
      rewrite <- Z.pow_succ_r by lia.
      replace (Z.succ (Z.of_nat (S k))) with (Z.of_nat (S (S k))) by lia.
      apply Hn. }
    specialize (IH k (n / 10) (String (digit_char (n mod 10)) acc) Hdiv).
    simpl in IH. lia.
Qed.

Lemma format_u_port_length (m_port : Z) :
  0 <= m_port <= 65535 -> (String.length (format_u m_port) <= 5)%nat.
Proof.
  intros Hp. unfold format_u.
  pose proof (utoa_digits_length 9 4 m_port EmptyString) as H.
  simpl String.length in H. rewrite Nat.add_0_r in H. apply H.
  change (10 ^ Z.of_nat 5) with 100000. lia.
Qed.

Lemma write_cstring_fits (s : string) :
  forall (i : nat) (b : buffer),
    (i + String.length s < length b)%nat ->
    exists b', write_cstring s i b = Some b' /\ length b' = length b.
Proof.
  induction s as [|c s IH]; intros i b Hfit; simpl in *.
  - unfold store. rewrite decide_True by lia.
    eexists. split; [reflexivity|apply length_insert].
  - unfold store at 1. rewrite decide_True by lia.
    destruct (IH (S i) (<[i := c]> b)) as (b' & Hw & Hl).
    { rewrite length_insert. lia. }
    exists b'. split; [exact Hw|]. by rewrite Hl, length_insert.
Qed.

(** For a port that [CSocket::Connect] lets through, the formatting stays
    inside the six bytes. *)
Lemma format_port_in_bounds (m_port : Z) :
  0 <= m_port <= 65535 ->
  exists b b',
    write_cstring (format_u m_port) 0 (new_char 6) = Some b
    /\ store 5 zero b = Some b'
    /\ format_port m_port = Some b'
    /\ length b' = 6%nat.
Proof.
  intros Hp. pose proof (format_u_port_length m_port Hp) as Hlen.
  destruct (write_cstring_fits (format_u m_port) 0 (new_char 6))
    as (b & Hw & Hl).
  { unfold new_char. rewrite length_replicate. lia. }
  unfold new_char in Hl. rewrite length_replicate in Hl.
  assert (Hs : store 5 zero b = Some (<[5%nat := zero]> b)).
  { unfold store. by rewrite decide_True by lia. }
  exists b, (<[5%nat := zero]> b). unfold format_port. rewrite Hw, Hs.
  split; [reflexivity|]. split; [reflexivity|]. split; [reflexivity|].
  by rewrite length_insert.
Qed.

(** C10. With the port in 1..65535, as [CSocket::Connect] ensures, the
    decimal rendering of the port has at most five characters, so
    [sprintf] stores at most six bytes into the six-byte [m_pPort] and the
    store to [m_pPort[5]] hits the last cell: no store leaves the
    buffer. *)
Theorem Connect_port_buffer_in_bounds (m_port : Z) :
  1 <= m_port <= 65535 ->
  (String.length (format_u m_port) <= 5)%nat
  /\ exists b b',
      write_cstring (format_u m_port) 0 (new_char 6) = Some b
      /\ store 5 zero b = Some b'
      /\ format_port m_port = Some b'
      /\ length b' = 6%nat.
Proof.
  intros Hp. split.
  - apply format_u_port_length. lia.
  - apply format_port_in_bounds. lia.
Qed.

Lemma Connect_port_buffer_in_bounds_witness :
  1 <= 65535 <= 65535
  /\ (String.length (format_u 65535) <= 5)%nat
  /\ exists b b',
      write_cstring (format_u 65535) 0 (new_char 6) = Some b
      /\ store 5 zero b = Some b'
      /\ format_port 65535 = Some b'
      /\ length b' = 6%nat.
Proof.
  assert (H : 1 <= 65535 <= 65535) by lia.
  split; [exact H|]. exact (Connect_port_buffer_in_bounds 65535 H).
Defined.

Example format_port_run :
  (c_str <$> format_port 21) = Some "21"%string
  /\ (c_str <$> format_port 65535) = Some "65535"%string
  /\ format_port 100000 = None.
Proof. repeat split; reflexivity. Qed.

(** ** Proofs about address formatting *)

Lemma Find_Truncate (s : string) :
  (Find "%" s = -1 /\ before_percent s = s)
  \/ (0 <= Find "%" s /\ Truncate (Find "%" s) s = before_percent s).
Proof.
  induction s as [|c s IH]; simpl; [left; done|].
  destruct (Ascii.eqb c "%"); [right; split; [lia|reflexivity]|].
  destruct IH as [[Hf Hb]|[Hf Hb]].
  - left. rewrite Hf. simpl. by rewrite Hb.
  - right. destruct (Find "%" s =? -1) eqn:He; [apply Z.eqb_eq in He; lia|].
    split; [lia|]. unfold Truncate in *.
    replace (Z.to_nat (Find "%" s + 1)) with (S (Z.to_nat (Find "%" s))) by lia.
    simpl. by rewrite Hb.
Qed.

(** [before_percent s] is the longest prefix of [s] without ['%']: what is
    cut off is empty or starts at a ['%']. *)
Lemma before_percent_prefix (s : string) :
  Find "%" (before_percent s) = -1
  /\ exists rest, s = (before_percent s ++ rest)%string
                  /\ (rest = EmptyString
                      \/ exists r, rest = String "%" r).
Proof.
  induction s as [|c s [IHf (rest & IHs & IHr)]]; simpl.
  - split; [reflexivity|]. exists EmptyString. split; [reflexivity|by left].
  - destruct (Ascii.eqb c "%") eqn:Hc; simpl.
    + split; [reflexivity|]. apply Ascii.eqb_eq in Hc. subst c.
      exists (String "%" s). split; [reflexivity|]. right. by exists s.
    + rewrite Hc, IHf. simpl. split; [reflexivity|].
      exists rest. split; [|exact IHr]. by rewrite <- IHs.
Qed.

(** C8. [AddressToString] is empty when the name-info lookup fails.
    Otherwise the host is the looked-up one, cut before its first ['%'] if
    the family is IPv6 and [strip_zone_index] is set, then put in brackets
    if the family is IPv6 and [with_port] is set; the result is that host,
    followed by [':'] and the port if [with_port] is set. *)
Theorem AddressToString_format (P : platform) (addr : sockaddr)
    (with_port strip_zone_index : bool) :
  (ni_result addr <> 0 ->
   AddressToString P addr with_port strip_zone_index = EmptyString)
  /\ (ni_result addr = 0 ->
      let v6 := sa_family addr =? AF_INET6 P in
      let host := if v6 && strip_zone_index
                  then before_percent (hostbuf addr) else hostbuf addr in
      let host := if v6 && with_port
                  then ("[" ++ host ++ "]")%string else host in
      AddressToString P addr with_port strip_zone_index
      = if with_port then (host ++ ":" ++ portbuf addr)%string else host).
Proof.
  unfold AddressToString. split; intros Hres.
  - apply Z.eqb_neq in Hres. by rewrite Hres.
  - rewrite Hres. simpl.
    destruct (sa_family addr =? AF_INET6 P); simpl; [|reflexivity].
    destruct strip_zone_index; simpl; [|reflexivity].
    destruct (Find_Truncate (hostbuf addr)) as [[Hf Hb]|[Hf Hb]].
    + rewrite Hf, Hb. reflexivity.
    + destruct (Find "%" (hostbuf addr) =? -1) eqn:He;
        [apply Z.eqb_eq in He; lia|].
      simpl. by rewrite Hb.
Qed.

Lemma AddressToString_format_witness :
  let addr := SockAddr 10 0 "fe80::1%eth0" "21" in
  ni_result addr = 0
  /\ AddressToString linux addr true true = "[fe80::1]:21"%string
  /\ ni_result (SockAddr 10 (-2) "" "") <> 0
  /\ AddressToString linux (SockAddr 10 (-2) "" "") true true = EmptyString.
Proof.
  intros addr.
  split; [reflexivity|]. split.
  - exact (proj2 (AddressToString_format linux addr true true) eq_refl).
  - assert (H : ni_result (SockAddr 10 (-2) "" "") <> 0) by discriminate.
    split; [exact H|].
    exact (proj1 (AddressToString_format linux (SockAddr 10 (-2) "" "")
                    true true) H).
Defined.

Example AddressToString_run :
  AddressToString linux (SockAddr 2 0 "127.0.0.1" "21") true false
  = "127.0.0.1:21"%string
  /\ AddressToString linux (SockAddr 10 0 "fe80::1%eth0" "21") false true
     = "fe80::1"%string
  /\ AddressToString linux (SockAddr 10 0 "fe80::1%eth0" "21") true false
     = "[fe80::1%eth0]:21"%string
  /\ AddressToString linux (SockAddr 2 0 "10.0.0.1%x" "21") false true
     = "10.0.0.1%x"%string.
Proof. repeat split; reflexivity. Qed.

(** ** Proofs about [Connect] *)

Lemma Start_frame (P : platform) (env : connect_env) (t : CSocketThread)
    (w : world) :
  exists effs, snd (SocketThread.Start P env t w) = set_effects effs w.
Proof.
  unfold SocketThread.Start.
  destruct (m_started t).
  - destruct (WakeupThread_frame true (set_m_waiting 0 t) (perform Lock w))
      as (effs & Hf).
    destruct (SocketThread.WakeupThread true _ _) as [t' w'].
    simpl in Hf. subst w'. destruct w. simpl. eexists. reflexivity.
  - repeat match goal with
           | |- context [if ?b then _ else _] => destruct b; simpl
           end; destruct w; simpl; eexists; reflexivity.
Qed.

Lemma Connect_started (P : platform) (env : connect_env) (t : CSocketThread)
    (w : world) (buf : string) :
  mb_str env (m_host w) = Some buf ->
  0 <= m_port w <= 65535 ->
  exists t' effs,
    SocketThread.Connect P env t w = Some (0, t', set_effects effs w).
Proof.
  intros Hbuf Hport. unfold SocketThread.Connect. rewrite Hbuf.
  destruct (format_port_in_bounds (m_port w) Hport) as (b & b' & _ & _ & Hf & _).
  rewrite Hf.
  match goal with
  | |- context [SocketThread.Start ?P ?e ?t ?w] =>
      destruct (Start_frame P e t w) as (effs & He);
      destruct (SocketThread.Start P e t w) as [[r t'] w']
  end.
  simpl in He. subst w'. by exists t', effs.
Qed.

(** C5. [Connect] checks, in this order, the state, the port and the
    family.  It returns [EISCONN] whenever the state is not [none]; from
    state [none] it returns [EINVAL] for every port outside 1..65535 and,
    the port being fine, for every family other than the three enumerators;
    otherwise, if the host could be staged for the worker, it returns
    [EINPROGRESS] and the socket is in state [connecting]. *)
Theorem Connect_results (P : platform) (env : connect_env) (host : string)
    (port family : Z) (w : world) :
  (m_state w <> none ->
   Socket.Connect P env host port family w = Some (EISCONN P, w))
  /\ (m_state w = none -> port < 1 \/ port > 65535 ->
      Socket.Connect P env host port family w = Some (EINVAL P, w))
  /\ (m_state w = none -> 1 <= port <= 65535 ->
      family <> unspec /\ family <> ipv4 /\ family <> ipv6 ->
      Socket.Connect P env host port family w = Some (EINVAL P, w))
  /\ (m_state w = none -> 1 <= port <= 65535 ->
      family = unspec \/ family = ipv4 \/ family = ipv6 ->
      mb_str env host <> None ->
      exists w',
        Socket.Connect P env host port family w = Some (EINPROGRESS P, w')
        /\ m_state w' = connecting
        /\ m_host w' = host /\ m_port w' = port
        /\ m_pSocketThread w' <> None).
Proof.
  unfold Socket.Connect. split; [|split; [|split]].
  - intros Hst. by rewrite bool_decide_eq_false_2.
  - intros Hst Hport. rewrite bool_decide_eq_true_2 by done. simpl.
    destruct Hport as [Hp|Hp].
    + apply Z.ltb_lt in Hp. by rewrite Hp.
    + apply Z.gtb_gt in Hp. rewrite Hp. by rewrite orb_true_r.
  - intros Hst Hport (Hu & H4 & H6).
    rewrite bool_decide_eq_true_2 by done. simpl.
    replace (port <? 1) with false by (symmetry; apply Z.ltb_ge; lia).
    replace (port >? 65535) with false by (symmetry; rewrite Z.gtb_ltb; apply Z.ltb_ge; lia).
    simpl. unfold Socket.family_switch.
    apply Z.eqb_neq in Hu, H4, H6. by rewrite Hu, H4, H6.
  - intros Hst Hport Hfam Hhost.
    rewrite bool_decide_eq_true_2 by done. simpl.
    replace (port <? 1) with false by (symmetry; apply Z.ltb_ge; lia).
    replace (port >? 65535) with false by (symmetry; rewrite Z.gtb_ltb; apply Z.ltb_ge; lia).
    simpl.
    assert (Hsw : exists af, Socket.family_switch P family = Some af).
    { unfold Socket.family_switch.
      destruct Hfam as [-> | [-> | ->] ]; simpl; eexists; reflexivity. }
    destruct Hsw as (af & ->).
    destruct (mb_str env host) as [buf|] eqn:Hbuf; [|done].
    set (w1 := Socket.preempt_worker env (set_m_family af w)).
    unfold SocketThread.SetSocket.
    destruct (m_pSocketThread w1) as [t|]; simpl.
    all: match goal with
         | |- context [SocketThread.Connect ?P0 ?env0 ?t ?w] =>
             destruct (Connect_started P0 env0 t w buf) as (t' & effs & Hc);
             [ destruct w1; exact Hbuf
             | destruct w1; simpl; lia
             | rewrite Hc ]
         end.
    all: simpl; eexists; split; [reflexivity|]; destruct w1; simpl; done.
Qed.

Lemma Connect_results_witness :
  let w := Socket.new_CSocket 1%nat (Some 2%nat) [] in
  let busy := set_m_state connected w in
  Socket.Connect linux fine_env "::1" 65536 unspec busy = Some (106, busy)
  /\ Socket.Connect linux fine_env "127.0.0.1" 0 unspec w = Some (22, w)
  /\ Socket.Connect linux fine_env "::1" 65536 unspec w = Some (22, w)
  /\ Socket.Connect linux fine_env "::1" 21 7 w = Some (22, w)
  /\ exists w',
      Socket.Connect linux fine_env "127.0.0.1" 21 ipv4 w = Some (115, w')
      /\ m_state w' = connecting
      /\ m_host w' = "127.0.0.1"%string /\ m_port w' = 21
      /\ m_pSocketThread w' <> None.
Proof.
  intros w busy.
  split; [|split; [|split; [|split]]].
  - apply (proj1 (Connect_results linux fine_env "::1" 65536 unspec busy)).
    discriminate.
  - apply (proj1 (proj2 (Connect_results linux fine_env "127.0.0.1" 0 unspec w)));
      [reflexivity|lia].
  - apply (proj1 (proj2 (Connect_results linux fine_env "::1" 65536 unspec w)));
      [reflexivity|lia].
  - apply (proj1 (proj2 (proj2 (Connect_results linux fine_env "::1" 21 7 w))));
      [reflexivity|lia|].
    repeat split; discriminate.
  - apply (proj2 (proj2 (proj2
             (Connect_results linux fine_env "127.0.0.1" 21 ipv4 w))));
      [reflexivity|lia|right; left; reflexivity|discriminate].
Defined.

Example Connect_run :
  let w := Socket.new_CSocket 1%nat (Some 2%nat) [] in
  (fst <$> Socket.Connect linux fine_env "127.0.0.1" 0 unspec w) = Some 22
  /\ (fst <$> Socket.Connect linux fine_env "::1" 65536 unspec w) = Some 22
  /\ (fst <$> Socket.Connect linux fine_env "127.0.0.1" 21 unspec w) = Some 115
  /\ (m_state ∘ snd <$> Socket.Connect linux fine_env "127.0.0.1" 21 unspec w)
     = Some connecting
  /\ (fst <$> Socket.Connect linux (ConnectEnv (fun _ => None) 0 true true)
                "127.0.0.1" 21 unspec w) = Some 22.
Proof. repeat split; reflexivity. Qed.

(** ** Proofs about [Close] *)

Lemma filter_all {A} (P : A -> Prop) `{!forall x, Decision (P x)}
    (l : list A) :
  (forall x, P x) -> filter P l = l.
Proof.
  intros HP. induction l as [|x l IH]; [done|].
  rewrite filter_cons, decide_True by done. by rewrite IH.
Qed.

Lemma RemovePending_handler_twice (h : option handler) (q : list CSocketEvent) :
  Dispatcher.RemovePending_handler h (Dispatcher.RemovePending_handler h q)
  = Dispatcher.RemovePending_handler h q.
Proof.
  rewrite !RemovePending_handler_filter, list_filter_filter.
  apply list_filter_iff. tauto.
Qed.

(** C4. [Close] returns 0 from every configuration and leaves the socket
    in state [none] without descriptor: a descriptor that was held has been
    closed, the worker (if any) has no triggered bits, no recorded errors
    and no staged host or port, and the queue has lost exactly the events
    of the current handler.  A second [Close] returns 0 again, closes
    nothing and changes nothing in that configuration; all it may add is
    another lock, wakeup and unlock of the worker. *)
Theorem Close_idempotent (w : world) :
  exists w1 w2 again,
    Socket.Close w = (0, w1)
    /\ m_state w1 = none
    /\ m_fd w1 = -1
    /\ (m_fd w <> -1 -> CloseFd (m_fd w) ∈ effects w1)
    /\ match m_pSocketThread w with
       | Some _ =>
           exists t1, m_pSocketThread w1 = Some t1
                      /\ m_triggered t1 = 0
                      /\ m_triggered_errors t1 = [0; 0; 0; 0; 0]
                      /\ m_pHost t1 = None /\ m_pPort t1 = None
       | None => m_pSocketThread w1 = None
       end
    /\ m_pending_events w1
       = filter (fun e => Some (m_pSocketEventHandler e) <> m_pEvtHandler w)
                (m_pending_events w)
    /\ Socket.Close w1 = (0, w2)
    /\ w2 = set_effects (effects w1 ++ again) w1
    /\ (forall fd, CloseFd fd ∉ again).
Proof.
  unfold Socket.Close.
  destruct w as [self h fd st thr host port fam cb q reap effs]. simpl.
  assert (Hfd : forall (l r : list effect),
             CloseFd fd ∈ (l ++ [CloseFd fd]) ++ r).
  { intros l r. apply elem_of_app. left. apply elem_of_app. right.
    apply list_elem_of_here. }
  assert (Hno : forall (l : list effect) fd',
             l = [Lock; Unlock] \/ l = [Lock; WakeupPosted; Unlock] \/ l = [] ->
             CloseFd fd' ∉ l).
  { intros l fd' Hl Hin. apply list_elem_of_In in Hin.
    destruct Hl as [-> | [-> | ->] ]; simpl in Hin; intuition discriminate. }
  destruct thr as [t|].
  - destruct t as [sk ph pp pipe started quit finished waiting trig errs tw].
    simpl.
    destruct h as [h|], (fd =? -1) eqn:Hfdeq, tw, started, finished; simpl;
      eexists _, _, _;
      (split; [reflexivity|]); simpl;
      (split; [reflexivity|]);
      (split; [reflexivity|]);
      (split; [intros Hne; first [apply Z.eqb_eq in Hfdeq; contradiction
                                 | apply Hfd]|]);
      (split; [eexists; repeat split; reflexivity|]);
      (split; [first [ rewrite RemovePending_handler_filter; reflexivity
                     | symmetry; by apply filter_all ]|]);
      rewrite ?RemovePending_handler_twice;
      (split; [reflexivity|]);
      (split; [rewrite <- ?app_assoc; simpl; reflexivity|]);
      intros fd'; apply Hno; tauto.
  - simpl.
    destruct h as [h|], (fd =? -1) eqn:Hfdeq; simpl;
      eexists _, _, [];
      (split; [reflexivity|]); simpl;
      (split; [reflexivity|]);
      (split; [reflexivity|]);
      (split; [intros Hne; first [apply Z.eqb_eq in Hfdeq; contradiction
                                 | apply elem_of_app; right;
                                   apply list_elem_of_here]|]);
      (split; [reflexivity|]);
      (split; [first [ rewrite RemovePending_handler_filter; reflexivity
                     | symmetry; by apply filter_all ]|]);
      rewrite ?RemovePending_handler_twice;
      (split; [reflexivity|]);
      (split; [by rewrite app_nil_r|]);
      intros fd'; apply Hno; tauto.
Qed.

Lemma Close_idempotent_witness :
  m_fd busy_socket <> -1
  /\ exists w1 w2,
      Socket.Close busy_socket = (0, w1)
      /\ Socket.Close w1 = (0, w2)
      /\ CloseFd 7 ∈ effects w1.
Proof.
  assert (H : m_fd busy_socket <> -1) by discriminate.
  split; [exact H|].
  destruct (Close_idempotent busy_socket)
    as (w1 & w2 & again & H1 & _ & _ & Hfd & _ & _ & H2 & _).
  exists w1, w2. split; [exact H1|]. split; [exact H2|]. exact (Hfd H).
Defined.

Example Close_run :
  let w1 := snd (Socket.Close busy_socket) in
  let w2 := snd (Socket.Close w1) in
  m_state w1 = none /\ m_fd w1 = -1
  /\ m_pending_events w1 = [ Event 9%nat read None 0 3%nat ]
  /\ effects w1 = [ Lock; WakeupPosted; CloseFd 7; Unlock ]
  /\ effects w2 = [ Lock; WakeupPosted; CloseFd 7; Unlock;
                    Lock; WakeupPosted; Unlock ]
  /\ set_effects [] w2 = set_effects [] w1.
Proof. repeat split; reflexivity. Qed.

(** ** Proofs about [Read], [Peek] and [Write] *)

Lemma has_bit_lor (mask bit : Z) :
  bit <> 0 -> has_bit (Z.lor mask bit) bit = true.
Proof.
  intros Hb. unfold has_bit.
  rewrite Z.land_lor_distr_l, Z.land_diag.
  apply negb_true_iff, Z.eqb_neq. intros H.
  apply Z.lor_eq_0_iff in H. tauto.
Qed.

(** What [arm] does when a worker exists: inside one lock/unlock pair the
    bit is set and the worker woken, unless the bit was set already. *)
Lemma arm_sets_bit (bit : Z) (w : world) (t : CSocketThread) :
  bit <> 0 ->
  m_pSocketThread w = Some t ->
  exists t' wake,
    Socket.arm bit w
    = set_effects (effects w ++ [Lock] ++ wake ++ [Unlock])
        (set_m_pSocketThread (Some t') w)
    /\ has_bit (m_waiting t') bit = true
    /\ (wake = [] \/ wake = [Signal] \/ wake = [WakeupPosted]).
Proof.
  intros Hb Ht. unfold Socket.arm. rewrite Ht.
  destruct (has_bit (m_waiting t) bit) eqn:Hset; simpl.
  - exists t, []. split; [|split; [exact Hset|by left]].
    destruct w; simpl. by rewrite <- app_assoc.
  - unfold SocketThread.WakeupThread.
    destruct t as [sk ph pp pipe started quit finished waiting trig errs tw].
    simpl in *.
    assert (Hbit : has_bit (Z.lor waiting bit) bit = true)
      by (by apply has_bit_lor).
    destruct started, finished, tw; simpl;
      [ eexists _, []
      | eexists _, []
      | eexists _, [Signal]
      | eexists _, [WakeupPosted]
      | eexists _, []
      | eexists _, []
      | eexists _, []
      | eexists _, [] ];
      (split; [destruct w; simpl; rewrite <- ?app_assoc; reflexivity|]);
      (split; [exact Hbit|]); tauto.
Qed.

(** What [arm] does when a worker exists, in full: with the bit already in
    the mask only the lock is taken and released; otherwise the bit is
    or-ed into the mask and [WakeupThread(true)] runs inside the lock. *)
Lemma arm_exact (bit : Z) (w : world) (t : CSocketThread) :
  m_pSocketThread w = Some t ->
  Socket.arm bit w
  = if has_bit (m_waiting t) bit
    then set_effects (effects w ++ [Lock; Unlock]) w
    else
      set_effects
        (effects w ++ [Lock]
         ++ (if negb (m_started t) || m_finished t then []
             else if m_threadwait t then [Signal] else [WakeupPosted])
         ++ [Unlock])
        (set_m_pSocketThread
           (Some (let t' := set_m_waiting (Z.lor (m_waiting t) bit) t in
                  if negb (m_started t) || m_finished t then t'
                  else set_m_threadwait false t')) w).
Proof.
  intros Ht. unfold Socket.arm. rewrite Ht.
  destruct (has_bit (m_waiting t) bit) eqn:Hset; cbn [negb].
  - destruct w; simpl in *. subst. by rewrite <- app_assoc.
  - unfold SocketThread.WakeupThread.
    destruct t as [sk ph pp pipe started quit finished waiting trig errs tw].
    destruct w; simpl.
    destruct started, finished, tw; simpl; rewrite <- ?app_assoc;
      reflexivity.
Qed.




(** ** Proofs about [SendCloseEvent] *)

(** C6, as amended.  On Windows, with socket and handler in place and a
    triggered close without error, [SendCloseEvent] peeks one byte.  If
    data remains and the worker waits for Read, it sends [Read(0)] and
    keeps the close pending; if data remains and the worker does not wait
    for Read, it returns without sending anything, the close still
    pending.  Only when no data remains, or when the close carries an
    error, does it send [Close] with that error code and clear the
    trigger. *)
Theorem SendCloseEvent_windows (P : platform) (peek : Z) (t : CSocketThread)
    (w : world) (h : handler) :
  msw P = true -> m_pSocket t = true -> m_pEvtHandler w = Some h ->
  let err := nth 4 (m_triggered_errors t) 0 in
  let r := SocketThread.SendCloseEvent P peek t w in
  (err = 0 -> peek > 0 -> has_bit (m_waiting t) WAIT_READ = true ->
   fst r = t
   /\ snd r = send (CSocketEvent_error h (this w) read 0) w)
  /\ (err = 0 -> peek > 0 -> has_bit (m_waiting t) WAIT_READ = false ->
      r = (t, w))
  /\ (err <> 0 \/ peek <= 0 ->
      fst r = set_m_triggered (clear_bit (m_triggered t) WAIT_CLOSE) t
      /\ snd r = send (CSocketEvent_error h (this w) close err) w).
Proof.
  intros Hmsw Hsock Hh. cbv zeta.
  unfold SocketThread.SendCloseEvent. rewrite Hmsw, Hsock, Hh. simpl.
  split; [|split].
  - intros He Hp Hr. rewrite He. simpl.
    replace (peek >? 0) with true by (symmetry; apply Z.gtb_gt; lia).
    by rewrite Hr.
  - intros He Hp Hr. rewrite He. simpl.
    replace (peek >? 0) with true by (symmetry; apply Z.gtb_gt; lia).
    by rewrite Hr.
  - intros [He|Hp].
    + apply Z.eqb_neq in He. by rewrite He.
    + replace (peek >? 0) with false
        by (symmetry; rewrite Z.gtb_ltb; apply Z.ltb_ge; lia).
      by rewrite andb_false_r.
Qed.

Lemma SendCloseEvent_windows_witness :
  (msw windows = true /\ m_pSocket closing_thread = true
   /\ m_pEvtHandler closing_socket = Some 2%nat)
  /\ SocketThread.SendCloseEvent windows 1 closing_thread closing_socket
     = (closing_thread, closing_socket)
  /\ snd (SocketThread.SendCloseEvent windows 0 closing_thread closing_socket)
     = send (CSocketEvent_error 2%nat 1%nat close 0) closing_socket.
Proof.
  assert (H : msw windows = true /\ m_pSocket closing_thread = true
              /\ m_pEvtHandler closing_socket = Some 2%nat)
    by (repeat split; reflexivity).
  split; [exact H|]. destruct H as (H1 & H2 & H3). split.
  - apply (proj1 (proj2 (SendCloseEvent_windows windows 1 closing_thread
                           closing_socket 2%nat H1 H2 H3)));
      [reflexivity|lia|reflexivity].
  - apply (proj2 (proj2 (SendCloseEvent_windows windows 0 closing_thread
                           closing_socket 2%nat H1 H2 H3))).
    right. lia.
Defined.

(** C6 fails as stated: the close was triggered without error, a byte is
    still to be read, and the worker sends no event at all, neither the
    synthetic [Read(0)] nor [Close(0)]. *)
Lemma SendCloseEvent_sends_nothing :
  msw windows = true
  /\ has_bit (m_triggered closing_thread) WAIT_CLOSE = true
  /\ nth 4 (m_triggered_errors closing_thread) 0 = 0
  /\ m_pending_events
       (snd (SocketThread.SendCloseEvent windows 1 closing_thread
               closing_socket)) = []
  /\ m_pending_events
       (snd (SocketThread.SendEvents windows 1 closing_thread closing_socket))
     = [].
Proof. repeat split; reflexivity. Qed.

(** ** Facts about the wait masks *)

Lemma has_bit_pow2 (x k : Z) :
  0 <= k -> has_bit x (2 ^ k) = Z.testbit x k.
Proof.
  intros Hk. unfold has_bit.
  destruct (Z.testbit x k) eqn:Hx.
  - apply negb_true_iff, Z.eqb_neq. intros H0.
    assert (Hb : Z.testbit (Z.land x (2 ^ k)) k = true)
      by (rewrite Z.land_spec, Hx, Z.pow2_bits_true by lia; reflexivity).
    rewrite H0, Z.bits_0 in Hb. discriminate.
  - apply negb_false_iff, Z.eqb_eq. apply Z.bits_inj'. intros n Hn.
    rewrite Z.land_spec, Z.bits_0, Z.pow2_bits_eqb by lia.
    destruct (k =? n) eqn:Hkn.
    + apply Z.eqb_eq in Hkn. subst n. by rewrite Hx.
    + apply andb_false_r.
Qed.

Lemma has_bit_lor_other (x j k : Z) :
  0 <= j -> 0 <= k -> j <> k ->
  has_bit (Z.lor x (2 ^ k)) (2 ^ j) = has_bit x (2 ^ j).
Proof.
  intros Hj Hk Hne. rewrite !has_bit_pow2 by done.
  rewrite Z.lor_spec, Z.pow2_bits_eqb by done.
  replace (k =? j) with false by (symmetry; apply Z.eqb_neq; lia).
  apply orb_false_r.
Qed.

Lemma land_lnot_disjoint (b c : Z) :
  Z.land b c = 0 -> Z.land (Z.lnot b) c = c.
Proof.
  intros H. apply Z.bits_inj'. intros n Hn.
  rewrite Z.land_spec, Z.lnot_spec by done.
  assert (Hb : Z.testbit (Z.land b c) n = false)
    by (rewrite H; apply Z.bits_0).
  rewrite Z.land_spec in Hb.
  by destruct (Z.testbit b n), (Z.testbit c n).
Qed.

Lemma has_bit_clear_same (x b : Z) : has_bit (clear_bit x b) b = false.
Proof.
  unfold has_bit, clear_bit.
  rewrite <- Z.land_assoc, (Z.land_comm (Z.lnot b) b), Z.land_lnot_diag.
  by rewrite Z.land_0_r.
Qed.

Lemma has_bit_clear_other (x b c : Z) :
  Z.land b c = 0 -> has_bit (clear_bit x b) c = has_bit x c.
Proof.
  intros H. unfold has_bit, clear_bit.
  by rewrite <- Z.land_assoc, land_lnot_disjoint.
Qed.

Lemma nth_insert_0 (errs : list Z) (e : Z) (i : nat) :
  (1 <= i)%nat -> nth i (<[0%nat := e]> errs) 0 = nth i errs 0.
Proof. intros Hi. destruct i as [|i]; [lia|]. by destruct errs. Qed.

Lemma has_bit_close_lor (x bit : Z) :
  bit = WAIT_CONNECT \/ bit = WAIT_READ \/ bit = WAIT_WRITE
  \/ bit = WAIT_ACCEPT ->
  has_bit (Z.lor x bit) WAIT_CLOSE = has_bit x WAIT_CLOSE.
Proof.
  change WAIT_CLOSE with (2 ^ 4).
  intros [->|[->|[->| ->] ] ];
    [ change WAIT_CONNECT with (2 ^ 0) | change WAIT_READ with (2 ^ 1)
    | change WAIT_WRITE with (2 ^ 2) | change WAIT_ACCEPT with (2 ^ 3) ];
    apply has_bit_lor_other; lia.
Qed.

Lemma closed_descriptors_app (a b : list effect) :
  closed_descriptors (a ++ b) = closed_descriptors a ++ closed_descriptors b.
Proof. unfold closed_descriptors. apply omap_app. Qed.

(** ** Proofs about the try-address loop *)

Lemma has_bit_nonzero (x bit : Z) : has_bit x bit = true -> (x =? 0) = false.
Proof.
  unfold has_bit. intros H. apply Z.eqb_neq. intros ->.
  by rewrite Z.land_0_l in H.
Qed.

Lemma has_bit_write_connect (x : Z) :
  has_bit x WAIT_CONNECT = true ->
  has_bit x (Z.lor WAIT_WRITE WAIT_CONNECT) = true.
Proof.
  unfold has_bit. intros H. apply negb_true_iff, Z.eqb_neq. intros H0.
  apply negb_true_iff, Z.eqb_neq in H. apply H.
  apply Z.bits_inj'. intros n Hn.
  assert (Hb : Z.testbit (Z.land x (Z.lor WAIT_WRITE WAIT_CONNECT)) n = false)
    by (rewrite H0; apply Z.bits_0).
  rewrite Z.land_spec, Z.lor_spec in Hb.
  rewrite Z.land_spec, Z.bits_0.
  destruct (Z.testbit x n), (Z.testbit WAIT_CONNECT n); try done.
  by rewrite orb_true_r in Hb.
Qed.

(** What [trigger_event] leaves alone when it handles another event than
    the connect. *)
Lemma trigger_event_other (P : platform) (k : Z) (slot : nat)
    (reported : option Z) (t : CSocketThread) :
  1 <= k -> (1 <= slot)%nat ->
  let t' := SocketThread.trigger_event P (2 ^ k) slot reported t in
  has_bit (m_triggered t') WAIT_CONNECT = has_bit (m_triggered t) WAIT_CONNECT
  /\ has_bit (m_waiting t') WAIT_CONNECT = has_bit (m_waiting t) WAIT_CONNECT
  /\ nth 0 (m_triggered_errors t') 0 = nth 0 (m_triggered_errors t) 0
  /\ length (m_triggered_errors t') = length (m_triggered_errors t)
  /\ m_pSocket t' = m_pSocket t.
Proof.
  intros Hk Hslot. cbv zeta. unfold SocketThread.trigger_event.
  destruct t as [sk ph pp pipe started quit finished wt trig errs tw].
  cbn [m_waiting m_triggered m_triggered_errors m_pSocket].
  destruct (has_bit wt (2 ^ k)); [|done].
  destruct reported as [error|]; [|done].
  cbn [set_m_waiting set_m_triggered set_m_triggered_errors m_waiting
       m_triggered m_triggered_errors m_pSocket].
  change WAIT_CONNECT with (2 ^ 0).
  split; [apply has_bit_lor_other; lia|].
  split.
  { apply has_bit_clear_other. apply Z.bits_inj'. intros n Hn.
    rewrite Z.land_spec, Z.bits_0, !Z.pow2_bits_eqb by lia.
    destruct (k =? n) eqn:E1; [|done].
    apply Z.eqb_eq in E1. subst n.
    replace (0 =? k) with false by (symmetry; apply Z.eqb_neq; lia). done. }
  split; [|by rewrite length_insert].
  destruct slot as [|slot]; [lia|]. by destruct errs.
Qed.

(** One pass of [DoWait] while a connect is awaited and the owner stays
    away: the pass retakes the lock and does nothing else to the socket; it
    triggers the connect, with its error, exactly when the connect is seen
    to end and the wait is not given up. *)
Lemma DoWait_round_awaiting (P : platform) (r : wait_round)
    (t : CSocketThread) (w : world) :
  no_interference (wait_owner r) ->
  has_bit (m_waiting t) WAIT_CONNECT = true ->
  has_bit (m_triggered t) WAIT_CONNECT = false ->
  exists res t',
    SocketThread.DoWait_round P r t w
    = (res, t', perform Lock (perform Unlock w))
    /\ length (m_triggered_errors t') = length (m_triggered_errors t)
    /\ match completes P r with
       | Some e =>
           res = Some false /\ has_bit (m_triggered t') WAIT_CONNECT = false
           \/ res = Some true
              /\ has_bit (m_triggered t') WAIT_CONNECT = true
              /\ (m_triggered_errors t <> [] ->
                  nth 0 (m_triggered_errors t') 0 = e)
       | None =>
           has_bit (m_triggered t') WAIT_CONNECT = false
           /\ has_bit (m_waiting t') WAIT_CONNECT = true
       end.
Proof.
  intros Hidle Hwt Htr.
  unfold SocketThread.DoWait_round, completes.
  destruct (msw P).
  - unfold SocketThread.DoWait_events. rewrite Hidle.
    destruct (m_quit t || negb (m_pSocket t)).
    { eexists _, _. split; [reflexivity|]. split; [done|].
      destruct (enum_res _ =? 0); [|done].
      destruct (fd_connect _); simpl; [by left|done]. }
    destruct (enum_res (enumerated r) =? 0); cbn [negb];
      [|eexists _, _; split; [reflexivity|]; done].
    set (t0 := SocketThread.trigger_event P WAIT_CONNECT 0 _ t).
    assert (H0 : length (m_triggered_errors t0) = length (m_triggered_errors t)
                 /\ match fd_connect (enumerated r) with
                    | Some e =>
                        has_bit (m_triggered t0) WAIT_CONNECT = true
                        /\ (m_triggered_errors t <> [] ->
                            nth 0 (m_triggered_errors t0) 0
                            = ConvertMSWErrorCode P e)
                    | None =>
                        has_bit (m_triggered t0) WAIT_CONNECT = false
                        /\ has_bit (m_waiting t0) WAIT_CONNECT = true
                    end).
    { subst t0. unfold SocketThread.trigger_event. rewrite Hwt.
      destruct (fd_connect (enumerated r)) as [e|]; [|done].
      destruct t as [sk ph pp pipe started quit finished wt trig errs tw].
      cbn [set_m_waiting set_m_triggered set_m_triggered_errors m_waiting
           m_triggered m_triggered_errors].
      split; [by rewrite length_insert|].
      split; [by apply has_bit_lor|].
      intros Hne. by destruct errs. }
    clearbody t0.
    pose proof (trigger_event_other P 1 1 (fd_read (enumerated r)) t0
                  ltac:(lia) ltac:(lia)) as H1.
    cbv zeta in H1. change (2 ^ 1) with WAIT_READ in H1.
    set (t1 := SocketThread.trigger_event P WAIT_READ 1 _ t0) in *.
    clearbody t1.
    pose proof (trigger_event_other P 2 2 (fd_write (enumerated r)) t1
                  ltac:(lia) ltac:(lia)) as H2.
    cbv zeta in H2. change (2 ^ 2) with WAIT_WRITE in H2.
    set (t2 := SocketThread.trigger_event P WAIT_WRITE 2 _ t1) in *.
    clearbody t2.
    pose proof (trigger_event_other P 3 3 (fd_accept (enumerated r)) t2
                  ltac:(lia) ltac:(lia)) as H3.
    cbv zeta in H3. change (2 ^ 3) with WAIT_ACCEPT in H3.
    set (t3 := SocketThread.trigger_event P WAIT_ACCEPT 3 _ t2) in *.
    clearbody t3.
    pose proof (trigger_event_other P 4 4 (fd_close (enumerated r)) t3
                  ltac:(lia) ltac:(lia)) as H4.
    cbv zeta in H4. change (2 ^ 4) with WAIT_CLOSE in H4.
    set (t4 := SocketThread.trigger_event P WAIT_CLOSE 4 _ t3) in *.
    clearbody t4.
    destruct H0 as (L0 & H0), H1 as (A1 & B1 & C1 & L1 & _),
      H2 as (A2 & B2 & C2 & L2 & _), H3 as (A3 & B3 & C3 & L3 & _),
      H4 as (A4 & B4 & C4 & L4 & _).
    assert (Htrig : has_bit (m_triggered t4) WAIT_CONNECT
                    = has_bit (m_triggered t0) WAIT_CONNECT) by congruence.
    assert (Hwait : has_bit (m_waiting t4) WAIT_CONNECT
                    = has_bit (m_waiting t0) WAIT_CONNECT) by congruence.
    assert (Herr : nth 0 (m_triggered_errors t4) 0
                   = nth 0 (m_triggered_errors t0) 0) by congruence.
    assert (Hlen : length (m_triggered_errors t4)
                   = length (m_triggered_errors t)) by congruence.
    destruct (fd_connect (enumerated r)) as [e|]; simpl.
    + destruct H0 as (H0 & H0e).
      rewrite (has_bit_nonzero (m_triggered t4) WAIT_CONNECT) by congruence.
      eexists _, _. split; [reflexivity|]. split; [done|]. right.
      split; [done|]. split; [congruence|]. intros Hne.
      rewrite Herr. by apply H0e.
    + destruct H0 as (H0 & H0w).
      destruct (negb (m_triggered t4 =? 0) || (m_waiting t4 =? 0));
        eexists _, _; (split; [reflexivity|]); (split; [done|]);
        split; congruence.
  - unfold Select.DoWait_body. rewrite Hidle.
    rewrite (has_bit_write_connect _ Hwt), Hwt.
    destruct t as [sk ph pp pipe started quit finished wt trig errs tw].
    cbn [m_quit m_pSocket m_waiting m_triggered m_triggered_errors] in *.
    cbn [negb andb].
    destruct (quit || negb sk || (m_fd (perform Lock (perform Unlock w)) =? -1)).
    { eexists _, _. split; [reflexivity|]. split; [done|].
      destruct (_ || _); [done|].
      destruct (so_error (selected r)) as [ [gres gerr] gerrno].
      by left. }
    destruct (sel_res (selected r) =? 0); cbn [orb];
      [eexists _, _; split; [reflexivity|]; done|].
    destruct (sel_res (selected r) =? -1); cbn [orb].
    { destruct (sel_errno (selected r) =? EINTR P);
        eexists _, _; (split; [reflexivity|]); done. }
    destruct (so_error (selected r)) as [ [gres gerr] gerrno].
    destruct (ready_write (selected r)); cbn [negb].
    + cbn [set_m_waiting set_m_triggered set_m_triggered_errors m_waiting
           m_triggered m_triggered_errors].
      assert (Hc : has_bit (Z.lor trig WAIT_CONNECT) WAIT_CONNECT = true)
        by (by apply has_bit_lor).
      destruct (has_bit (clear_bit wt WAIT_CONNECT) WAIT_WRITE);
        cbn [set_m_waiting set_m_triggered set_m_triggered_errors m_waiting
             m_triggered m_triggered_errors].
      * assert (Hc2 : has_bit (Z.lor (Z.lor trig WAIT_CONNECT) WAIT_WRITE)
                        WAIT_CONNECT = true).
        { change WAIT_WRITE with (2 ^ 2). change WAIT_CONNECT with (2 ^ 0).
          rewrite has_bit_lor_other by lia. exact Hc. }
        rewrite (has_bit_nonzero _ _ Hc2). cbn [negb orb].
        eexists _, _. split; [reflexivity|].
        cbn [m_triggered m_triggered_errors].
        split; [by rewrite length_insert|]. right.
        split; [done|]. split; [done|]. intros Hne.
        destruct errs; [done|]. simpl. by destruct (gres =? 0).
      * rewrite (has_bit_nonzero _ _ Hc). cbn [negb orb].
        eexists _, _. split; [reflexivity|].
        cbn [m_triggered m_triggered_errors].
        split; [by rewrite length_insert|]. right.
        split; [done|]. split; [done|]. intros Hne.
        destruct errs; [done|]. simpl. by destruct (gres =? 0).
    + cbn [set_m_waiting set_m_triggered set_m_triggered_errors m_waiting
           m_triggered m_triggered_errors andb].
      destruct (has_bit wt WAIT_WRITE);
        cbn [m_waiting m_triggered m_triggered_errors];
        destruct (negb (trig =? 0) || (wt =? 0));
        eexists _, _; (split; [reflexivity|]); done.
Qed.

Lemma perform_frame (effs : list effect) (w : world) :
  fold_left (fun w e => perform e w) effs w
  = set_effects (effects w ++ effs) w.
Proof.
  revert w. induction effs as [|e effs IH]; intros w; simpl.
  - destruct w; simpl. by rewrite app_nil_r.
  - rewrite IH. destruct w; simpl. by rewrite <- app_assoc.
Qed.

(** A call of [DoWait] that returns has used at least one pass. *)
Lemma DoWait_rounds_shorter (P : platform) (rounds : list wait_round) :
  forall (t : CSocketThread) (w : world) (ok : bool) (t' : CSocketThread)
         (w' : world) (rest : list wait_round),
    SocketThread.DoWait_rounds P rounds t w = returned (ok, t', w', rest) ->
    (length rest < length rounds)%nat.
Proof.
  induction rounds as [|r rounds IH]; intros t w ok t' w' rest H; simpl in H.
  { by destruct (negb (m_pSocket t)). }
  destruct (negb (m_pSocket t)); [discriminate|].
  destruct (SocketThread.DoWait_round P r t w) as [ [ [b|] t1] w1].
  - injection H as <- <- <- <-. simpl. lia.
  - apply IH in H. simpl. lia.
Qed.

(** The bound on the calls of [DoWait] in [wait_connect] is never what
    stops the loop: any two bounds above the number of passes give the same
    result. *)
Lemma wait_connect_calls (P : platform) (calls : nat) :
  forall (calls' : nat) (rounds : list wait_round) (t : CSocketThread)
         (w : world),
    (length rounds < calls)%nat -> (length rounds < calls')%nat ->
    SocketThread.wait_connect P calls rounds t w
    = SocketThread.wait_connect P calls' rounds t w.
Proof.
  induction calls as [|calls IH]; intros calls' rounds t w H1 H2; [lia|].
  destruct calls' as [|calls']; [lia|]. simpl.
  unfold SocketThread.DoWait.
  destruct (SocketThread.DoWait_rounds P rounds _ w)
    as [| |[ [ [b t1] w1] rest] ] eqn:Hcall; [done|done|].
  apply DoWait_rounds_shorter in Hcall.
  destruct (has_bit (m_triggered t1) WAIT_CONNECT); [done|].
  destruct b; [|done]. apply IH; lia.
Qed.

(** The passes of one call of [DoWait] while a connect is awaited and the
    owner stays away. *)
Lemma DoWait_rounds_awaiting (P : platform) (rounds : list wait_round) :
  forall (t : CSocketThread) (w : world) (ok : bool) (t' : CSocketThread)
         (w' : world) (rest : list wait_round),
    Forall (fun r => no_interference (wait_owner r)) rounds ->
    has_bit (m_waiting t) WAIT_CONNECT = true ->
    has_bit (m_triggered t) WAIT_CONNECT = false ->
    SocketThread.DoWait_rounds P rounds t w = returned (ok, t', w', rest) ->
    (exists effs, w' = set_effects (effects w ++ effs) w
                  /\ closed_descriptors effs = [])
    /\ length (m_triggered_errors t') = length (m_triggered_errors t)
    /\ Forall (fun r => no_interference (wait_owner r)) rest
    /\ (length rest < length rounds)%nat
    /\ (has_bit (m_triggered t') WAIT_CONNECT = true /\ ok = true
        /\ (m_triggered_errors t <> [] ->
            nth 0 (m_triggered_errors t') 0 = awaited_error P rounds)
        \/ has_bit (m_triggered t') WAIT_CONNECT = false
           /\ (ok = true -> awaited_error P rest = awaited_error P rounds)).
Proof.
  induction rounds as [|r rounds IH];
    intros t w ok t' w' rest Hidle Hwt Htr H; simpl in H.
  { by destruct (negb (m_pSocket t)). }
  destruct (negb (m_pSocket t)); [discriminate|].
  apply Forall_cons in Hidle as [Hr Hidle].
  destruct (DoWait_round_awaiting P r t w Hr Hwt Htr)
    as (res & t1 & Hround & Hlen & Hcase).
  rewrite Hround in H.
  assert (Hw : perform Lock (perform Unlock w)
               = set_effects (effects w ++ [Unlock; Lock]) w)
    by (destruct w; simpl; by rewrite <- app_assoc).
  destruct res as [b|].
  - injection H as <- <- <- <-.
    split; [by exists [Unlock; Lock]|]. split; [done|]. split; [done|].
    split; [simpl; lia|]. simpl.
    destruct (completes P r) as [e|].
    + destruct Hcase as [([= ->] & Hno)|([= ->] & Hyes & He)];
        [right; by split|left; by repeat split].
    + destruct Hcase as (Hno & _). right. by split.
  - destruct (completes P r) as [e|] eqn:Hcomp;
      [by destruct Hcase as [(? & _)|(? & _)]|].
    destruct Hcase as (Hno & Hwait).
    destruct (IH t1 _ ok t' w' rest Hidle Hwait Hno H)
      as ((effs & -> & Hc) & Hlen' & Hrest & Hshort & Hcase').
    split.
    { exists ([Unlock; Lock] ++ effs). rewrite Hw.
      split; [destruct w; simpl; by rewrite <- app_assoc|].
      by rewrite closed_descriptors_app, Hc. }
    split; [congruence|]. split; [done|]. split; [simpl; lia|].
    simpl. rewrite Hcomp.
    destruct Hcase' as [(H1 & H2 & H3)|(H1 & H2)]; [left|right; by split].
    split; [done|]. split; [done|]. intros Hne. apply H3.
    intros Hnil. apply Hne. destruct (m_triggered_errors t); [done|].
    by rewrite Hnil in Hlen.
Qed.

(** The wait loop of [TryConnectHost] while the owner stays away: when it
    ends with a successful wait, the connect has been triggered with the
    error of the first pass that saw it end. *)
Lemma wait_connect_awaiting (P : platform) (calls : nat) :
  forall (rounds : list wait_round) (t : CSocketThread) (w : world)
         (ok : bool) (t' : CSocketThread) (w' : world)
         (rest : list wait_round),
    Forall (fun r => no_interference (wait_owner r)) rounds ->
    has_bit (m_triggered t) WAIT_CONNECT = false ->
    SocketThread.wait_connect P calls rounds t w
    = returned (ok, t', w', rest) ->
    (exists effs, w' = set_effects (effects w ++ effs) w
                  /\ closed_descriptors effs = [])
    /\ length (m_triggered_errors t') = length (m_triggered_errors t)
    /\ (ok = true ->
        has_bit (m_triggered t') WAIT_CONNECT = true
        /\ (m_triggered_errors t <> [] ->
            nth 0 (m_triggered_errors t') 0 = awaited_error P rounds)).
Proof.
  induction calls as [|calls IH];
    intros rounds t w ok t' w' rest Hidle Htr H; simpl in H; [discriminate|].
  unfold SocketThread.DoWait in H.
  set (t0 := set_m_waiting (Z.lor (m_waiting t) WAIT_CONNECT) t) in H.
  assert (Hwt0 : has_bit (m_waiting t0) WAIT_CONNECT = true)
    by (subst t0; destruct t; simpl; by apply has_bit_lor).
  assert (Htr0 : has_bit (m_triggered t0) WAIT_CONNECT = false)
    by (subst t0; by destruct t).
  assert (Herrs0 : m_triggered_errors t0 = m_triggered_errors t)
    by (subst t0; by destruct t).
  destruct (SocketThread.DoWait_rounds P rounds t0 w)
    as [| |[ [ [b t1] w1] rest1] ] eqn:Hcall; [discriminate|discriminate|].
  destruct (DoWait_rounds_awaiting P rounds t0 w b t1 w1 rest1
              Hidle Hwt0 Htr0 Hcall)
    as ((effs & -> & Hc) & Hlen & Hrest & _ & Hcase).
  rewrite Herrs0 in *.
  destruct Hcase as [(Hyes & -> & He)|(Hno & Hsame)].
  - rewrite Hyes in H. injection H as <- <- <- <-.
    split; [by exists effs|]. split; [done|]. done.
  - rewrite Hno in H. destruct b.
    + destruct (IH rest1 t1 _ ok t' w' rest Hrest Hno H)
        as ((effs' & -> & Hc') & Hlen' & Hok).
      split.
      { exists (effs ++ effs').
        split; [destruct w; simpl; by rewrite <- app_assoc|].
        by rewrite closed_descriptors_app, Hc, Hc'. }
      split; [congruence|]. intros ->.
      destruct (Hok eq_refl) as (Hyes & He). split; [done|].
      intros Hne. rewrite <- (Hsame eq_refl). apply He.
      intros Hnil. apply Hne. destruct (m_triggered_errors t); [done|].
      by rewrite Hnil in Hlen.
    + injection H as <- <- <- <-.
      split; [by exists effs|]. split; [done|]. done.
Qed.

Lemma trigger_event_frame (P : platform) (bit : Z) (slot : nat)
    (reported : option Z) (t : CSocketThread) :
  m_quit (SocketThread.trigger_event P bit slot reported t) = m_quit t
  /\ m_pSocket (SocketThread.trigger_event P bit slot reported t)
     = m_pSocket t.
Proof.
  unfold SocketThread.trigger_event.
  destruct (has_bit (m_waiting t) bit); [|done].
  destruct reported; [|done]. by destruct t.
Qed.

(** A pass of [DoWait] does not give up while the worker has its socket
    and its descriptor, is not told to quit, and the readiness call does not
    fail. *)
Lemma DoWait_round_goes_on (P : platform) (r : wait_round)
    (t : CSocketThread) (w : world) :
  no_interference (wait_owner r) ->
  m_quit t = false -> m_pSocket t = true ->
  (msw P = false -> m_fd w <> -1) ->
  gives_up P r = false ->
  exists res t',
    SocketThread.DoWait_round P r t w
    = (res, t', perform Lock (perform Unlock w))
    /\ res <> Some false /\ m_quit t' = false /\ m_pSocket t' = true.
Proof.
  intros Hidle Hq Hs Hfd Hgo.
  unfold SocketThread.DoWait_round, gives_up in *.
  destruct (msw P).
  - unfold SocketThread.DoWait_events. rewrite Hidle, Hq, Hs.
    apply negb_false_iff in Hgo. rewrite Hgo. cbn [orb negb].
    set (t0 := SocketThread.trigger_event P WAIT_CONNECT 0 _ t).
    set (t1 := SocketThread.trigger_event P WAIT_READ 1 _ t0).
    set (t2 := SocketThread.trigger_event P WAIT_WRITE 2 _ t1).
    set (t3 := SocketThread.trigger_event P WAIT_ACCEPT 3 _ t2).
    set (t4 := SocketThread.trigger_event P WAIT_CLOSE 4 _ t3).
    assert (H4 : m_quit t4 = false /\ m_pSocket t4 = true).
    { subst t4 t3 t2 t1 t0.
      repeat match goal with
             | |- context [SocketThread.trigger_event P ?b ?s ?e ?x] =>
                 destruct (trigger_event_frame P b s e x) as [-> ->]
             end.
      by split. }
    clearbody t4. destruct H4 as [Hq4 Hs4].
    destruct (negb (m_triggered t4 =? 0) || (m_waiting t4 =? 0));
      eexists _, _; (split; [reflexivity|]); by repeat split.
  - unfold Select.DoWait_body. rewrite Hidle, Hq, Hs.
    assert (Hhere : (m_fd (perform Lock (perform Unlock w)) =? -1) = false).
    { apply Z.eqb_neq. specialize (Hfd eq_refl). by destruct w. }
    rewrite Hhere. cbn [orb negb].
    destruct (sel_res (selected r) =? 0);
      [eexists _, _; split; [reflexivity|]; by repeat split|].
    destruct (sel_res (selected r) =? -1).
    { simpl in Hgo. apply negb_false_iff in Hgo. rewrite Hgo.
      eexists _, _. split; [reflexivity|]. by repeat split. }
    destruct (so_error (selected r)) as [ [gres gerr] gerrno].
    destruct t as [sk ph pp pipe started quit finished wt trig errs tw].
    simpl in Hq, Hs. subst quit sk.
    cbn [m_quit m_pSocket m_waiting m_triggered m_triggered_errors].
    repeat match goal with
           | |- context [if ?b then _ else _] =>
               destruct b;
               cbn [m_waiting m_triggered m_triggered_errors set_m_waiting
                    set_m_triggered set_m_triggered_errors]
           end;
      eexists _, _; (split; [reflexivity|]); by repeat split.
Qed.

Lemma completes_goes_on (P : platform) (r : wait_round) (e : Z) :
  completes P r = Some e -> gives_up P r = false.
Proof.
  unfold completes, gives_up. destruct (msw P).
  - destruct (enum_res (enumerated r) =? 0); [done|discriminate].
  - destruct (sel_res (selected r) =? 0); [discriminate|].
    by destruct (sel_res (selected r) =? -1).
Qed.

(** A call of [DoWait] returns true once the passes settle. *)
Lemma DoWait_rounds_goes_on (P : platform) (rounds : list wait_round) :
  forall (t : CSocketThread) (w : world),
    Forall (fun r => no_interference (wait_owner r)) rounds ->
    m_quit t = false -> m_pSocket t = true ->
    (msw P = false -> m_fd w <> -1) ->
    has_bit (m_waiting t) WAIT_CONNECT = true ->
    has_bit (m_triggered t) WAIT_CONNECT = false ->
    settles P rounds = true ->
    exists t' w' rest,
      SocketThread.DoWait_rounds P rounds t w = returned (true, t', w', rest)
      /\ m_quit t' = false /\ m_pSocket t' = true /\ m_fd w' = m_fd w
      /\ (has_bit (m_triggered t') WAIT_CONNECT = true
          \/ has_bit (m_triggered t') WAIT_CONNECT = false
             /\ settles P rest = true).
Proof.
  induction rounds as [|r rounds IH];
    intros t w Hidle Hq Hs Hfd Hwt Htr Hset; [discriminate|].
  apply Forall_cons in Hidle as [Hr Hidle].
  simpl. rewrite Hs. cbn [negb].
  destruct (DoWait_round_awaiting P r t w Hr Hwt Htr)
    as (res & t1 & Hround & _ & Hcase).
  simpl in Hset.
  assert (Hgo : gives_up P r = false).
  { destruct (completes P r) as [e|] eqn:Hc;
      [by apply (completes_goes_on P r e)|].
    apply andb_true_iff in Hset as [Hset _]. by apply negb_true_iff. }
  destruct (DoWait_round_goes_on P r t w Hr Hq Hs Hfd Hgo)
    as (res' & t1' & Hround' & Hres & Hq1 & Hs1).
  rewrite Hround in Hround'. injection Hround' as <- <-.
  rewrite Hround.
  assert (Hfd1 : m_fd (perform Lock (perform Unlock w)) = m_fd w)
    by (by destruct w).
  destruct (completes P r) as [e|].
  - destruct Hcase as [(-> & _)|(-> & Hyes & _)]; [done|].
    eexists _, _, _. split; [reflexivity|]. repeat split; try done.
    by left.
  - apply andb_true_iff in Hset as [_ Hset].
    destruct Hcase as (Hno & Hwait).
    destruct res as [ [|]|]; [|done|].
    + eexists _, _, _. split; [reflexivity|]. repeat split; try done.
      right. by split.
    + destruct (IH t1 (perform Lock (perform Unlock w)) Hidle Hq1 Hs1)
        as (t' & w' & rest & Hrun & Hq' & Hs' & Hfd' & Hcase'); try done.
      { intros Hmsw. rewrite Hfd1. by apply Hfd. }
      exists t', w', rest. split; [exact Hrun|].
      repeat split; try done. congruence.
Qed.

(** The wait loop of [TryConnectHost] ends with a successful wait once the
    passes settle. *)
Lemma wait_connect_goes_on (P : platform) (calls : nat) :
  forall (rounds : list wait_round) (t : CSocketThread) (w : world),
    (length rounds < calls)%nat ->
    Forall (fun r => no_interference (wait_owner r)) rounds ->
    m_quit t = false -> m_pSocket t = true ->
    (msw P = false -> m_fd w <> -1) ->
    has_bit (m_triggered t) WAIT_CONNECT = false ->
    settles P rounds = true ->
    exists t' w' rest,
      SocketThread.wait_connect P calls rounds t w
      = returned (true, t', w', rest)
      /\ m_quit t' = false /\ m_pSocket t' = true.
Proof.
  induction calls as [|calls IH];
    intros rounds t w Hlen Hidle Hq Hs Hfd Htr Hset; [lia|].
  simpl. unfold SocketThread.DoWait.
  set (t0 := set_m_waiting (Z.lor (m_waiting t) WAIT_CONNECT) t).
  assert (Hwt0 : has_bit (m_waiting t0) WAIT_CONNECT = true)
    by (subst t0; destruct t; simpl; by apply has_bit_lor).
  assert (Htr0 : has_bit (m_triggered t0) WAIT_CONNECT = false)
    by (subst t0; by destruct t).
  assert (Hq0 : m_quit t0 = false) by (subst t0; by destruct t).
  assert (Hs0 : m_pSocket t0 = true) by (subst t0; by destruct t).
  destruct (DoWait_rounds_goes_on P rounds t0 w Hidle Hq0 Hs0 Hfd Hwt0 Htr0
              Hset)
    as (t1 & w1 & rest & Hrun & Hq1 & Hs1 & Hfd1 & Hcase).
  rewrite Hrun.
  destruct Hcase as [Hyes|(Hno & Hset1)].
  - rewrite Hyes. by eexists _, _, _.
  - rewrite Hno.
    destruct (DoWait_rounds_awaiting P rounds t0 w true t1 w1 rest
                Hidle Hwt0 Htr0 Hrun) as (_ & _ & Hrest & Hshort & _).
    apply (IH rest t1 w1); try done; [lia|].
    intros Hmsw. rewrite Hfd1. by apply Hfd.
Qed.

(** What a failed attempt leaves of the worker, handler or not. *)
Lemma TryConnectHost_failed_worker (P : platform) (addr : addrinfo)
    (ai_next : bool) (t t' : CSocketThread) (w w' : world) :
  Forall (fun r => no_interference (wait_owner r)) (waits addr) ->
  has_bit (m_triggered t) WAIT_CONNECT = false ->
  m_triggered_errors t <> [] ->
  SocketThread.TryConnectHost P addr ai_next t w = returned (0, t', w') ->
  has_bit (m_triggered t') WAIT_CONNECT = false
  /\ m_triggered_errors t' <> [].
Proof.
  intros Hidle Htr Herrs H. unfold SocketThread.TryConnectHost in H.
  destruct (negb (m_pSocket t)); [discriminate|].
  destruct (sys_socket addr) as [fd serr].
  destruct (fd =? -1); [by injection H as <- <-|].
  destruct (sys_connect addr) as [cres cerr].
  match type of H with
  | context [if ?r =? EINPROGRESS P then _ else _] => set (res := r) in H
  end.
  destruct (res =? EINPROGRESS P).
  - destruct (SocketThread.wait_connect P _ (waits addr) t _)
      as [| |[ [ [ok t1] w1] rest] ] eqn:Hwait; [discriminate|discriminate|].
    destruct (wait_connect_awaiting P _ _ _ _ _ _ _ _ Hidle Htr Hwait)
      as (_ & Hlen & _).
    destruct ok; simpl in H; [|inversion H].
    assert (Hne : m_triggered_errors t1 <> []).
    { intros Hnil. apply Herrs. destruct (m_triggered_errors t); [done|].
      by rewrite Hnil in Hlen. }
    assert (Hclear : has_bit (clear_bit (m_triggered t1) WAIT_CONNECT)
                       WAIT_CONNECT = false) by apply has_bit_clear_same.
    destruct t1 as [sk ph pp pipe started quit finished waiting trig errs tw].
    simpl in H, Hne, Hclear.
    destruct (nth 0 errs 0 =? 0); simpl in H; [discriminate|].
    by injection H as <- <-.
  - destruct (res =? 0); simpl in H; [discriminate|].
    by injection H as <- <-.
Qed.

(** An attempt that fails returns 0, the owner staying away. *)
Lemma TryConnectHost_fails (P : platform) (addr : addrinfo) (ai_next : bool)
    (t : CSocketThread) (w : world) :
  attempt_fails P addr ->
  Forall (fun r => no_interference (wait_owner r)) (waits addr) ->
  m_quit t = false -> m_pSocket t = true ->
  has_bit (m_triggered t) WAIT_CONNECT = false ->
  m_triggered_errors t <> [] ->
  exists t' w',
    SocketThread.TryConnectHost P addr ai_next t w = returned (0, t', w')
    /\ m_quit t' = false /\ m_pSocket t' = true.
Proof.
  intros Hfails Hidle Hq Hs Htr Herrs.
  unfold attempt_fails, attempt_error, connect_result in Hfails.
  unfold SocketThread.TryConnectHost. rewrite Hs. cbn [negb].
  set (w0 := match m_pEvtHandler w with
             | Some h => _
             | None => w
             end).
  clearbody w0.
  destruct (sys_socket addr) as [fd serr]. cbn [fst snd] in Hfails.
  destruct (fd =? -1) eqn:Hfd; [by eexists _, _|].
  apply Z.eqb_neq in Hfd.
  destruct Hfails as [Hgone|(Herr & Hset)]; [done|].
  destruct (sys_connect addr) as [cres cerr].
  match goal with
  | |- context [if ?r =? EINPROGRESS P then _ else _] => set (res := r) in *
  end.
  destruct (res =? EINPROGRESS P) eqn:Hres.
  - apply Z.eqb_eq in Hres. specialize (Hset Hres).
    destruct (wait_connect_goes_on P (S (length (waits addr))) (waits addr)
                t (set_m_fd fd w0)) as (t1 & w1 & rest & Hwait & Hq1 & Hs1);
      try done; [lia|by destruct w0|].
    rewrite Hwait. cbn [negb].
    destruct (wait_connect_awaiting P _ _ _ _ _ _ _ _ Hidle Htr Hwait)
      as (_ & _ & Hok).
    destruct (Hok eq_refl) as (_ & He). specialize (He Herrs).
    destruct t1 as [sk ph pp pipe started quit finished waiting trig errs tw].
    simpl in He, Hq1, Hs1. cbn [set_m_triggered m_triggered_errors].
    rewrite He. apply Z.eqb_neq in Herr. rewrite Herr. cbn [negb].
    by eexists _, _.
  - apply Z.eqb_neq in Herr. rewrite Herr. cbn [negb]. by eexists _, _.
Qed.

(** When every address fails, the loop runs off the end of the list. *)
Lemma connect_loop_fails (P : platform) (l : list addrinfo) :
  forall (t : CSocketThread) (w : world),
    Forall (attempt_fails P) l ->
    owner_stays_away l ->
    m_quit t = false -> m_pSocket t = true ->
    has_bit (m_triggered t) WAIT_CONNECT = false ->
    m_triggered_errors t <> [] ->
    exists t1 w1,
      SocketThread.connect_loop P l t w = returned (None, t1, w1).
Proof.
  induction l as [|addr l IH]; intros t w Hfails Hidle Hq Hs Htr Herrs.
  - by eexists _, _.
  - apply Forall_cons in Hfails as [Hf Hfails].
    apply Forall_cons in Hidle as [Ha Hidle].
    destruct (TryConnectHost_fails P addr (negb (bool_decide (l = []))) t w
                Hf Ha Hq Hs Htr Herrs) as (t' & w' & Htry & Hq' & Hs').
    destruct (TryConnectHost_failed_worker P addr _ t t' w w'
                Ha Htr Herrs Htry) as (Htr' & Herrs').
    simpl. rewrite Htry.
    change (0 =? -1) with false. change (0 =? 0) with true. cbn [negb].
    by apply IH.
Qed.

Lemma TryConnectHost_failed (P : platform) (addr : addrinfo) (ai_next : bool)
    (t t' : CSocketThread) (w w' : world) (h : handler) :
  m_pEvtHandler w = Some h ->
  Forall (fun r => no_interference (wait_owner r)) (waits addr) ->
  has_bit (m_triggered t) WAIT_CONNECT = false ->
  m_triggered_errors t <> [] ->
  SocketThread.TryConnectHost P addr ai_next t w = returned (0, t', w') ->
  m_pending_events w'
  = m_pending_events w
    ++ [ CSocketEvent_data h (this w) hostaddress
           (AddressToString P (ai_addr addr) true false);
         CSocketEvent_error h (this w)
           (if ai_next then connection_next else connection)
           (attempt_error P addr) ]
  /\ (fst (sys_socket addr) <> -1 -> attempt_error P addr <> 0)
  /\ m_pEvtHandler w' = Some h /\ this w' = this w
  /\ has_bit (m_triggered t') WAIT_CONNECT = false
  /\ m_triggered_errors t' <> [].
Proof.
  intros Hh Hidle Htr Herrs H. unfold SocketThread.TryConnectHost in H.
  destruct (negb (m_pSocket t)); [discriminate|].
  rewrite Hh in H. unfold attempt_error, connect_result.
  destruct (sys_socket addr) as [fd serr]. cbn [fst snd].
  destruct (fd =? -1) eqn:Hfd.
  { injection H as <- <-. apply Z.eqb_eq in Hfd.
    unfold SocketThread.send_failure, send, Dispatcher.SendEvent.
    destruct w; simpl in *. subst. simpl. rewrite <- app_assoc.
    by repeat split. }
  apply Z.eqb_neq in Hfd.
  destruct (sys_connect addr) as [cres cerr].
  match type of H with
  | context [if ?r =? EINPROGRESS P then _ else _] => set (res := r) in *
  end.
  destruct (res =? EINPROGRESS P).
  - destruct (SocketThread.wait_connect P _ (waits addr) t _)
      as [| |[ [ [ok t1] w1] rest] ] eqn:Hwait; [discriminate|discriminate|].
    destruct (wait_connect_awaiting P _ _ _ _ _ _ _ _ Hidle Htr Hwait)
      as ((effs & -> & _) & Hlen & Hok).
    destruct ok; simpl in H; [|inversion H].
    destruct (Hok eq_refl) as (_ & He). specialize (He Herrs).
    assert (Hne : m_triggered_errors t1 <> []).
    { intros Hnil. apply Herrs. destruct (m_triggered_errors t); [done|].
      by rewrite Hnil in Hlen. }
    assert (Hclear : has_bit (clear_bit (m_triggered t1) WAIT_CONNECT)
                       WAIT_CONNECT = false) by apply has_bit_clear_same.
    destruct t1 as [sk ph pp pipe started quit finished waiting trig errs tw].
    simpl in H, He, Hne, Hclear.
    destruct (nth 0 errs 0 =? 0) eqn:Hz; simpl in H; [discriminate|].
    injection H as <- <-. rewrite <- He.
    apply Z.eqb_neq in Hz.
    unfold SocketThread.send_failure, send, Dispatcher.SendEvent.
    destruct w; simpl in *. subst. simpl. rewrite <- app_assoc.
    by repeat split.
  - destruct (res =? 0) eqn:Hz; simpl in H; [discriminate|].
    injection H as <- <-.
    apply Z.eqb_neq in Hz.
    unfold SocketThread.send_failure, send, Dispatcher.SendEvent.
    destruct w; simpl in *. subst. simpl. rewrite <- app_assoc.
    by repeat split.
Qed.

Lemma TryConnectHost_failed_silent (P : platform) (addr : addrinfo)
    (ai_next : bool) (t t' : CSocketThread) (w w' : world) :
  m_pEvtHandler w = None ->
  Forall (fun r => no_interference (wait_owner r)) (waits addr) ->
  has_bit (m_triggered t) WAIT_CONNECT = false ->
  SocketThread.TryConnectHost P addr ai_next t w = returned (0, t', w') ->
  m_pending_events w' = m_pending_events w /\ m_pEvtHandler w' = None
  /\ has_bit (m_triggered t') WAIT_CONNECT = false.
Proof.
  intros Hh Hidle Htr H. unfold SocketThread.TryConnectHost in H.
  destruct (negb (m_pSocket t)); [discriminate|].
  rewrite Hh in H.
  destruct (sys_socket addr) as [fd serr].
  destruct (fd =? -1).
  { injection H as <- <-. unfold SocketThread.send_failure. by rewrite Hh. }
  destruct (sys_connect addr) as [cres cerr].
  match type of H with
  | context [if ?r =? EINPROGRESS P then _ else _] => set (res := r) in H
  end.
  destruct (res =? EINPROGRESS P).
  - destruct (SocketThread.wait_connect P _ (waits addr) t _)
      as [| |[ [ [ok t1] w1] rest] ] eqn:Hwait; [discriminate|discriminate|].
    destruct (wait_connect_awaiting P _ _ _ _ _ _ _ _ Hidle Htr Hwait)
      as ((effs & -> & _) & _ & _).
    destruct ok; simpl in H; [|inversion H].
    assert (Hclear : has_bit (clear_bit (m_triggered t1) WAIT_CONNECT)
                       WAIT_CONNECT = false) by apply has_bit_clear_same.
    destruct t1 as [sk ph pp pipe started quit finished waiting trig errs tw].
    simpl in H, Hclear.
    destruct (nth 0 errs 0 =? 0) eqn:He; simpl in H; [discriminate|].
    injection H as <- <-. unfold SocketThread.send_failure.
    destruct w; simpl in *. subst. simpl. done.
  - destruct (res =? 0) eqn:He; simpl in H; [discriminate|].
    injection H as <- <-. unfold SocketThread.send_failure.
    destruct w; simpl in *. subst. simpl. done.
Qed.

Lemma connect_loop_step (P : platform) (addr : addrinfo) (l : list addrinfo)
    (t t1 : CSocketThread) (w w1 : world) :
  SocketThread.connect_loop P (addr :: l) t w = returned (None, t1, w1) ->
  exists t' w',
    SocketThread.TryConnectHost P addr (negb (bool_decide (l = []))) t w
    = returned (0, t', w')
    /\ SocketThread.connect_loop P l t' w' = returned (None, t1, w1).
Proof.
  simpl. intros H.
  destruct (SocketThread.TryConnectHost P addr _ t w)
    as [| |[ [res t'] w'] ]; [discriminate|discriminate|].
  destruct (res =? -1); [discriminate|].
  destruct (res =? 0) eqn:He; simpl in H; [|discriminate].
  apply Z.eqb_eq in He. subst res. by exists t', w'.
Qed.

Lemma connect_loop_failed (P : platform) (h : handler) (l : list addrinfo) :
  forall (t t1 : CSocketThread) (w w1 : world),
    m_pEvtHandler w = Some h ->
    owner_stays_away l ->
    has_bit (m_triggered t) WAIT_CONNECT = false ->
    m_triggered_errors t <> [] ->
    SocketThread.connect_loop P l t w = returned (None, t1, w1) ->
    m_pending_events w1
    = m_pending_events w
      ++ failure_events P h (this w) l (attempt_error P <$> l)
    /\ Forall (fun addr => fst (sys_socket addr) <> -1 ->
                           attempt_error P addr <> 0) l
    /\ m_pEvtHandler w1 = Some h /\ this w1 = this w.
Proof.
  induction l as [|addr l IH]; intros t t1 w w1 Hh Hidle Htr Herrs H.
  - injection H as <- <-. by rewrite app_nil_r.
  - apply connect_loop_step in H as (t' & w' & Htry & Hloop).
    apply Forall_cons in Hidle as [Ha Hidle].
    destruct (TryConnectHost_failed P addr _ t t' w w' h Hh Ha Htr Herrs Htry)
      as (Hq & Hnz & Hh' & Hthis & Htr' & Herrs').
    destruct (IH t' t1 w' w1 Hh' Hidle Htr' Herrs' Hloop)
      as (Hq1 & Hall & Hh1 & Hthis1).
    split; [|split; [by constructor|split; [exact Hh1|congruence] ] ].
    rewrite Hq1, Hq, Hthis, <- app_assoc. simpl.
    by destruct (bool_decide (l = [])).
Qed.

Lemma connect_loop_failed_silent (P : platform) (l : list addrinfo) :
  forall (t t1 : CSocketThread) (w w1 : world),
    m_pEvtHandler w = None ->
    owner_stays_away l ->
    has_bit (m_triggered t) WAIT_CONNECT = false ->
    SocketThread.connect_loop P l t w = returned (None, t1, w1) ->
    m_pending_events w1 = m_pending_events w /\ m_pEvtHandler w1 = None.
Proof.
  induction l as [|addr l IH]; intros t t1 w w1 Hh Hidle Htr H.
  - by injection H as <- <-.
  - apply connect_loop_step in H as (t' & w' & Htry & Hloop).
    apply Forall_cons in Hidle as [Ha Hidle].
    destruct (TryConnectHost_failed_silent P addr _ t t' w w' Hh Ha Htr Htry)
      as (Hq & Hh' & Htr').
    destruct (IH t' t1 w' w1 Hh' Hidle Htr' Hloop) as (Hq1 & Hh1).
    split; [congruence|exact Hh1].
Qed.

(** C1, as amended.  While a handler is set and the owner stays away while
    the worker waits, an address whose attempt fails leaves two events in
    the queue: the [HostAddress] of that address and then
    [ConnectionNext(err)] if more addresses remain, [Connection(err)] if it
    was the last one.  Here [err] is the error of that attempt: the error of
    [socket()], or the one [connect] failed with, or, for a connect under
    way, the error found in the first pass of the wait that saw it end; it
    is not 0 when [socket()] gave a descriptor.  Once the loop has tried
    every address without success, [Connection(ECONNABORTED)] is sent if a
    handler is set, whatever was sent during the loop, and the state becomes
    [closed]; without a handler nothing is sent at all.  And the loop does
    get there: when the attempt on every address fails while the worker has
    its socket and is not told to quit, the loop ends and [DoConnect] goes
    on to return false with exactly these events added to the queue. *)
Theorem try_addresses_events (P : platform) :
  (forall (addr : addrinfo) (ai_next : bool) (t t' : CSocketThread)
          (w w' : world) (h : handler),
      m_pEvtHandler w = Some h ->
      Forall (fun r => no_interference (wait_owner r)) (waits addr) ->
      has_bit (m_triggered t) WAIT_CONNECT = false ->
      m_triggered_errors t <> [] ->
      SocketThread.TryConnectHost P addr ai_next t w = returned (0, t', w') ->
      m_pending_events w'
      = m_pending_events w
        ++ [ CSocketEvent_data h (this w) hostaddress
               (AddressToString P (ai_addr addr) true false);
             CSocketEvent_error h (this w)
               (if ai_next then connection_next else connection)
               (attempt_error P addr) ]
      /\ (fst (sys_socket addr) <> -1 -> attempt_error P addr <> 0))
  /\ (forall (l : list addrinfo) (t t1 : CSocketThread) (w w1 : world)
             (h : handler),
      m_pEvtHandler w = Some h ->
      owner_stays_away l ->
      has_bit (m_triggered t) WAIT_CONNECT = false ->
      m_triggered_errors t <> [] ->
      SocketThread.connect_loop P l t w = returned (None, t1, w1) ->
      exists w2,
        SocketThread.try_addresses P l t w = returned (false, t1, w2)
        /\ m_pending_events w2
           = m_pending_events w
             ++ failure_events P h (this w) l (attempt_error P <$> l)
             ++ [ CSocketEvent_error h (this w) connection (ECONNABORTED P) ]
        /\ m_state w2 = closed
        /\ Forall (fun addr => fst (sys_socket addr) <> -1 ->
                               attempt_error P addr <> 0) l)
  /\ (forall (l : list addrinfo) (t t1 : CSocketThread) (w w1 : world),
      m_pEvtHandler w = None ->
      owner_stays_away l ->
      has_bit (m_triggered t) WAIT_CONNECT = false ->
      SocketThread.connect_loop P l t w = returned (None, t1, w1) ->
      exists w2,
        SocketThread.try_addresses P l t w = returned (false, t1, w2)
        /\ m_pending_events w2 = m_pending_events w
        /\ m_state w2 = closed)
  /\ (forall (l : list addrinfo) (t : CSocketThread) (w : world)
             (h : handler),
      m_pEvtHandler w = Some h ->
      Forall (attempt_fails P) l ->
      owner_stays_away l ->
      m_quit t = false -> m_pSocket t = true ->
      has_bit (m_triggered t) WAIT_CONNECT = false ->
      m_triggered_errors t <> [] ->
      exists t1 w2,
        SocketThread.try_addresses P l t w = returned (false, t1, w2)
        /\ m_pending_events w2
           = m_pending_events w
             ++ failure_events P h (this w) l (attempt_error P <$> l)
             ++ [ CSocketEvent_error h (this w) connection (ECONNABORTED P) ]
        /\ m_state w2 = closed).
Proof.
  split; [|split; [|split] ].
  - intros addr ai_next t t' w w' h Hh Hidle Htr Herrs H.
    destruct (TryConnectHost_failed P addr ai_next t t' w w' h
                Hh Hidle Htr Herrs H) as (Hq & Herr & _).
    by split.
  - intros l t t1 w w1 h Hh Hidle Htr Herrs H.
    destruct (connect_loop_failed P h l t t1 w w1 Hh Hidle Htr Herrs H)
      as (Hq & Hall & Hh1 & Hthis).
    eexists. unfold SocketThread.try_addresses. rewrite H, Hh1.
    split; [reflexivity|]. split; [|split; [|exact Hall] ].
    + destruct w1; simpl in *. subst. unfold Dispatcher.SendEvent.
      by rewrite <- app_assoc.
    + by destruct w1.
  - intros l t t1 w w1 Hh Hidle Htr H.
    destruct (connect_loop_failed_silent P l t t1 w w1 Hh Hidle Htr H)
      as (Hq & Hh1).
    eexists. unfold SocketThread.try_addresses. rewrite H, Hh1.
    split; [reflexivity|]. destruct w1; simpl in *. by subst.
  - intros l t w h Hh Hfails Hidle Hq Hs Htr Herrs.
    destruct (connect_loop_fails P l t w Hfails Hidle Hq Hs Htr Herrs)
      as (t1 & w1 & H).
    destruct (connect_loop_failed P h l t t1 w w1 Hh Hidle Htr Herrs H)
      as (Hq1 & _ & Hh1 & Hthis).
    eexists _, _. unfold SocketThread.try_addresses. rewrite H, Hh1.
    split; [reflexivity|]. split; [|by destruct w1].
    destruct w1; simpl in *. subst. unfold Dispatcher.SendEvent.
    by rewrite <- app_assoc.
Qed.

Lemma try_addresses_events_witness :
  exists t1 w1,
    m_pEvtHandler connecting_socket = Some 2%nat
    /\ owner_stays_away [slow_refused]
    /\ has_bit (m_triggered resolving_thread) WAIT_CONNECT = false
    /\ m_triggered_errors resolving_thread <> []
    /\ SocketThread.connect_loop linux [slow_refused] resolving_thread
         connecting_socket = returned (None, t1, w1)
    /\ attempt_error linux slow_refused = 111
    /\ exists w2,
        SocketThread.try_addresses linux [slow_refused] resolving_thread
          connecting_socket = returned (false, t1, w2)
        /\ m_pending_events w2
           = m_pending_events connecting_socket
             ++ failure_events linux 2%nat 1%nat [slow_refused]
                  (attempt_error linux <$> [slow_refused])
             ++ [ CSocketEvent_error 2%nat 1%nat connection
                    (ECONNABORTED linux) ]
        /\ m_state w2 = closed
        /\ Forall (fun addr => fst (sys_socket addr) <> -1 ->
                               attempt_error linux addr <> 0) [slow_refused].
Proof.
  assert (Hh : m_pEvtHandler connecting_socket = Some 2%nat) by reflexivity.
  assert (Hidle : owner_stays_away [slow_refused]).
  { repeat constructor; intros t w; reflexivity. }
  assert (Htr : has_bit (m_triggered resolving_thread) WAIT_CONNECT = false)
    by reflexivity.
  assert (Herrs : m_triggered_errors resolving_thread <> []) by discriminate.
  assert (Hloop : exists t1 w1,
             SocketThread.connect_loop linux [slow_refused] resolving_thread
               connecting_socket = returned (None, t1, w1))
    by (vm_compute; eexists _, _; reflexivity).
  destruct Hloop as (t1 & w1 & Hloop).
  exists t1, w1. split; [exact Hh|]. split; [exact Hidle|].
  split; [exact Htr|]. split; [exact Herrs|]. split; [exact Hloop|].
  split; [reflexivity|].
  exact (proj1 (proj2 (try_addresses_events linux))
           [slow_refused] resolving_thread t1 connecting_socket w1 2%nat
           Hh Hidle Htr Herrs Hloop).
Defined.

Example all_addresses_fail :
  attempt_fails linux refused /\ attempt_fails linux slow_refused
  /\ attempt_error linux <$> [slow_refused; refused] = [111; 111].
Proof.
  split; [right; split; [discriminate|discriminate]|].
  split; [right; split; [discriminate|reflexivity]|reflexivity].
Qed.

(** C1 fails as stated: the last address was refused, so the loop itself
    sent [Connection(ECONNREFUSED)]; all the same the code sends
    [Connection(ECONNABORTED)] after the loop. *)
Lemma ECONNABORTED_follows_Connection :
  (exists t1 w1,
     SocketThread.connect_loop linux [refused] resolving_thread
       connecting_socket = returned (None, t1, w1)
     /\ m_pending_events w1
        = [ Event 1%nat hostaddress (Some "127.0.0.1:1"%string) 0 2%nat;
            Event 1%nat connection None 111 2%nat ])
  /\ (exists t2 w2,
        SocketThread.DoConnect linux (undisturbed [refused]) resolving_thread
          connecting_socket = returned (false, t2, w2)
        /\ m_pending_events w2
           = [ Event 1%nat hostaddress (Some "127.0.0.1:1"%string) 0 2%nat;
               Event 1%nat connection None 111 2%nat;
               Event 1%nat connection None 103 2%nat ]
        /\ m_state w2 = closed).
Proof.
  split; eexists _, _; vm_compute; repeat split; reflexivity.
Qed.

(** Two addresses, the first one refused while connecting, the second one
    accepted at once: the events are those of a sequential fallback. *)
Example DoConnect_fallback_run :
  let first := AddrInfo (SockAddr 10 0 "2001:db8::1" "21") (5, 0) (-1, 115)
                 [ lone_round nothing_ready no_events;
                   lone_round (connect_ended 111) no_events ] in
  let second := AddrInfo (SockAddr 2 0 "127.0.0.1" "21") (6, 0) (0, 0) [] in
  exists t' w',
    SocketThread.DoConnect linux (undisturbed [first; second])
      resolving_thread connecting_socket = returned (true, t', w')
    /\ m_pending_events w'
       = [ Event 1%nat hostaddress (Some "[2001:db8::1]:21"%string) 0 2%nat;
           Event 1%nat connection_next None 111 2%nat;
           Event 1%nat hostaddress (Some "127.0.0.1:21"%string) 0 2%nat;
           Event 1%nat connection None 0 2%nat ]
    /\ m_state w' = connected
    /\ m_fd w' = 6
    /\ closed_descriptors (effects w') = [5].
Proof. eexists _, _. vm_compute. repeat split; reflexivity. Qed.

(** ** Proofs about delivery and teardown *)

Lemma send_all_app (evs : list CSocketEvent) :
  forall q : list CSocketEvent, EventLoop.send_all evs q = q ++ evs.
Proof.
  unfold EventLoop.send_all.
  induction evs as [|evt evs IH]; intros q; simpl; [by rewrite app_nil_r|].
  rewrite IH. unfold Dispatcher.SendEvent. by rewrite <- app_assoc.
Qed.

Lemma UpdatePending_payload (old : option handler) (s : source)
    (h' : handler) (s' : source) (q : list CSocketEvent) :
  payload <$> Dispatcher.UpdatePending old s h' s' q = payload <$> q.
Proof.
  unfold Dispatcher.UpdatePending.
  induction q as [|e q IH]; simpl; [done|].
  f_equal; [by destruct (_ || _)|exact IH].
Qed.

(** What one call does to the payloads queued. *)
Lemma call_payload (c : dispatcher_call) (q : list CSocketEvent) :
  (payload <$> EventLoop.call c q)
    `sublist_of` (payload <$> (q ++ sends [c]))
  /\ (~ removes c ->
      payload <$> EventLoop.call c q = payload <$> (q ++ sends [c]))
  /\ (~ removes c -> ~ retargets c -> EventLoop.call c q = q ++ sends [c]).
Proof.
  destruct c as [evt|pHandler|pSource|old olds new news];
    cbn [EventLoop.call sends omap removes retargets].
  - unfold Dispatcher.SendEvent. by repeat split.
  - rewrite RemovePending_handler_filter. cbn. rewrite app_nil_r.
    split; [apply fmap_sublist, sublist_filter|]. split; tauto.
  - rewrite RemovePending_source_filter. cbn. rewrite app_nil_r.
    split; [apply fmap_sublist, sublist_filter|]. split; tauto.
  - rewrite UpdatePending_payload. cbn. rewrite app_nil_r.
    split; [done|]. split; [done|tauto].
Qed.

Lemma sends_app (a b : list dispatcher_call) :
  sends (a ++ b) = sends a ++ sends b.
Proof. unfold sends. apply omap_app. Qed.

Lemma calls_payload (cs : list dispatcher_call) :
  forall q : list CSocketEvent,
    (payload <$> EventLoop.calls cs q)
      `sublist_of` (payload <$> (q ++ sends cs))
    /\ (Forall (fun c => ~ removes c) cs ->
        payload <$> EventLoop.calls cs q = payload <$> (q ++ sends cs))
    /\ (Forall (fun c => ~ removes c /\ ~ retargets c) cs ->
        EventLoop.calls cs q = q ++ sends cs).
Proof.
  induction cs as [|c cs IH]; intros q.
  - cbn. rewrite app_nil_r. by repeat split.
  - change (c :: cs) with ([c] ++ cs). rewrite sends_app.
    change (EventLoop.calls ([c] ++ cs) q)
      with (EventLoop.calls cs (EventLoop.call c q)).
    destruct (IH (EventLoop.call c q)) as (Hsub & Heq & Hex).
    destruct (call_payload c q) as (Hsub1 & Heq1 & Hex1).
    rewrite app_assoc.
    split; [|split].
    + etransitivity; [exact Hsub|].
      rewrite !fmap_app. apply sublist_app; [|done].
      by rewrite <- fmap_app.
    + intros [Hc Hcs]%Forall_cons. rewrite (Heq Hcs).
      rewrite !fmap_app. f_equal. rewrite <- fmap_app. by apply Heq1.
    + intros [ [Hc Hc'] Hcs]%Forall_cons. rewrite (Hex Hcs).
      f_equal. by apply Hex1.
Qed.

Lemma wakes_payload (ws : list wakeup) :
  forall q : list CSocketEvent,
    (length (fst (fst (EventLoop.wakes ws q))) <= length ws)%nat
    /\ (payload <$> (fst (fst (EventLoop.wakes ws q))
                     ++ snd (EventLoop.wakes ws q)))
         `sublist_of`
         (payload <$> (q ++ sends (snd (fst (EventLoop.wakes ws q)))))
    /\ (Forall (fun c => ~ removes c) (snd (fst (EventLoop.wakes ws q))) ->
        payload <$> (fst (fst (EventLoop.wakes ws q))
                     ++ snd (EventLoop.wakes ws q))
        = payload <$> (q ++ sends (snd (fst (EventLoop.wakes ws q)))))
    /\ (Forall (fun c => ~ removes c /\ ~ retargets c)
          (snd (fst (EventLoop.wakes ws q))) ->
        fst (fst (EventLoop.wakes ws q)) ++ snd (EventLoop.wakes ws q)
        = q ++ sends (snd (fst (EventLoop.wakes ws q)))).
Proof.
  induction ws as [|w ws IH]; intros q.
  - cbn. rewrite app_nil_r. by repeat split.
  - cbn [EventLoop.wakes].
    destruct (calls_payload (before w) q) as (Hb & Hbe & Hbx).
    set (q0 := EventLoop.calls (before w) q) in *.
    destruct q0 as [|evt q1]; cbn [EventLoop.deliver].
    + specialize (IH []). destruct (EventLoop.wakes ws []) as [ [d cs'] left].
      cbn [fst snd length] in *. destruct IH as (Hlen & Hsub & Heq & Hex).
      rewrite !sends_app. change (sends []) with (@nil CSocketEvent).
      cbn [app] in *.
      split; [lia|]. split; [|split].
      * etransitivity; [exact Hsub|]. rewrite !fmap_app.
        by do 2 apply sublist_inserts_l.
      * intros [Hcb Hcs]%Forall_app. rewrite (Heq Hcs).
        specialize (Hbe Hcb). rewrite fmap_app in Hbe.
        symmetry in Hbe. apply app_eq_nil in Hbe as [Hq Hs].
        apply fmap_nil_inv in Hq, Hs. by rewrite Hq, Hs.
      * intros [Hcb Hcs]%Forall_app. rewrite (Hex Hcs).
        specialize (Hbx Hcb). symmetry in Hbx.
        apply app_eq_nil in Hbx as [Hq Hs]. by rewrite Hq, Hs.
    + destruct (calls_payload (OnSocketEvent w evt) q1) as (Hr & Hre & Hrx).
      specialize (IH (EventLoop.calls (OnSocketEvent w evt) q1)).
      destruct (EventLoop.wakes ws _) as [ [d cs'] left].
      cbn [fst snd length] in *. destruct IH as (Hlen & Hsub & Heq & Hex).
      rewrite !sends_app.
      split; [lia|]. split; [|split].
      * rewrite !fmap_app in *. rewrite fmap_cons in *. cbn [app].
        transitivity
          (payload evt
           :: ((payload <$> q1) ++ (payload <$> sends (OnSocketEvent w evt)))
              ++ (payload <$> sends cs')).
        -- apply sublist_skip. etransitivity; [exact Hsub|].
           by apply sublist_app.
        -- rewrite <- (app_assoc (payload <$> q1)).
           rewrite (app_assoc (payload <$> q)).
           change (payload evt :: (payload <$> q1) ++ ?x)
             with ((payload evt :: (payload <$> q1)) ++ x).
           by apply sublist_app.
      * intros [Hcb [Hcr Hcs]%Forall_app]%Forall_app.
        specialize (Hbe Hcb). specialize (Hre Hcr). specialize (Heq Hcs).
        rewrite !fmap_app in *. rewrite fmap_cons in *. cbn [app].
        rewrite (app_assoc (payload <$> q)), <- Hbe. cbn [app]. f_equal.
        by rewrite Heq, Hre, <- app_assoc.
      * intros [Hcb [Hcr Hcs]%Forall_app]%Forall_app.
        specialize (Hbx Hcb). specialize (Hrx Hcr). specialize (Hex Hcs).
        rewrite (app_assoc q), <- Hbx. cbn [app]. f_equal.
        by rewrite Hex, Hrx, <- app_assoc.
Qed.


(** A failed connection whose handler closes the socket: the read event
    queued behind it for the same handler is removed in the callback and
    never delivered, the event of the other handler is. *)
Example dispatcher_fifo_run :
  let q := [ Event 1%nat connection None 111 2%nat;
             Event 1%nat read None 0 2%nat;
             Event 9%nat read None 0 3%nat ] in
  EventLoop.wakes [ Wakeup [] closes_on_failure; Wakeup [] closes_on_failure;
                    Wakeup [] closes_on_failure ] q
  = ([ Event 1%nat connection None 111 2%nat; Event 9%nat read None 0 3%nat ],
     [ call_RemovePending_handler (Some 2%nat) ], []).
Proof. vm_compute. reflexivity. Qed.

Lemma Cleanup_walk_frame (force : bool) (l : list CSocketThread) :
  forall w : world,
    exists effs,
      snd (Socket.Cleanup_walk force l w) = set_effects (effects w ++ effs) w
      /\ Forall (fun e => e = ThreadJoin) effs.
Proof.
  induction l as [|pThread l IH]; intros w; simpl.
  - exists []. split; [|constructor]. destruct w; simpl. by rewrite app_nil_r.
  - destruct (negb force && negb (m_finished pThread)).
    + destruct (IH w) as (effs & Heq & Hall).
      destruct (Socket.Cleanup_walk force l w) as [kept w'].
      simpl in *. by exists effs.
    + destruct (IH (perform ThreadJoin w)) as (effs & Heq & Hall).
      exists (ThreadJoin :: effs). split; [|by constructor].
      rewrite Heq. destruct w; simpl. by rewrite <- app_assoc.
Qed.

Lemma Cleanup_walk_kept (force : bool) (l : list CSocketThread) :
  forall w : world,
    fst (Socket.Cleanup_walk force l w)
    = List.filter (fun t => negb force && negb (m_finished t)) l.
Proof.
  induction l as [|pThread l IH]; intros w; simpl; [reflexivity|].
  destruct (negb force && negb (m_finished pThread)).
  - specialize (IH w). destruct (Socket.Cleanup_walk force l w) as [kept w'].
    simpl in *. by rewrite IH.
  - apply IH.
Qed.

Lemma Cleanup_walk_joins (force : bool) (l : list CSocketThread) :
  forall w : world,
    length (effects (snd (Socket.Cleanup_walk force l w)))
    = (length (effects w)
       + length (List.filter (fun t => force || m_finished t) l))%nat.
Proof.
  induction l as [|pThread l IH]; intros w; simpl; [lia|].
  destruct force, (m_finished pThread); simpl.
  - rewrite IH. destruct w; simpl. rewrite length_app. simpl. lia.
  - rewrite IH. destruct w; simpl. rewrite length_app. simpl. lia.
  - rewrite IH. destruct w; simpl. rewrite length_app. simpl. lia.
  - specialize (IH w). destruct (Socket.Cleanup_walk false l w) as [kept w'].
    simpl in *. exact IH.
Qed.

(** X2. [Cleanup(force)] always returns [false].  With [force] it joins
    every worker of the waiting list and leaves the list empty; without, it
    joins exactly the workers that have finished and keeps the others in
    their order.  It does nothing else: the effects it adds are joins, one
    per worker removed, and the socket is untouched. *)
Theorem Cleanup_reaps (force : bool) (w : world) :
  let r := Socket.Cleanup force w in
  fst r = false
  /\ waiting_socket_threads (snd r)
     = List.filter (fun t => negb force && negb (m_finished t))
         (waiting_socket_threads w)
  /\ (force = true -> waiting_socket_threads (snd r) = [])
  /\ exists joins,
      snd r = set_effects (effects w ++ joins)
                (set_waiting_socket_threads (waiting_socket_threads (snd r)) w)
      /\ Forall (fun e => e = ThreadJoin) joins
      /\ (length joins + length (waiting_socket_threads (snd r))
          = length (waiting_socket_threads w))%nat.
Proof.
  cbv zeta. unfold Socket.Cleanup.
  pose proof (Cleanup_walk_kept force (waiting_socket_threads w) w) as Hk.
  pose proof (Cleanup_walk_joins force (waiting_socket_threads w) w) as Hj.
  destruct (Cleanup_walk_frame force (waiting_socket_threads w) w)
    as (joins & Hw & Hall).
  destruct (Socket.Cleanup_walk force (waiting_socket_threads w) w)
    as [kept w'].
  simpl in *. subst kept w'.
  assert (Hkept : waiting_socket_threads
                    (set_waiting_socket_threads
                       (List.filter (fun t => negb force && negb (m_finished t))
                          (waiting_socket_threads w))
                       (set_effects (effects w ++ joins) w))
                  = List.filter (fun t => negb force && negb (m_finished t))
                      (waiting_socket_threads w))
    by (destruct w; reflexivity).
  split; [reflexivity|]. split; [exact Hkept|]. split.
  - intros ->. rewrite Hkept. clear.
    generalize (waiting_socket_threads w).
    induction l as [|t l IH]; simpl; [reflexivity|exact IH].
  - exists joins. rewrite Hkept. split; [by destruct w|]. split; [exact Hall|].
    assert (Hlen : length (effects (set_effects (effects w ++ joins) w))
                   = (length (effects w) + length joins)%nat)
      by (destruct w; simpl; by rewrite length_app).
    rewrite Hlen in Hj.
    assert (Hpart : forall l : list CSocketThread,
               (length (List.filter (fun t => force || m_finished t) l)
                + length (List.filter
                            (fun t => negb force && negb (m_finished t)) l)
                = length l)%nat).
    { clear. induction l as [|t l IH]; simpl; [reflexivity|].
      destruct force, (m_finished t); simpl in *; lia. }
    specialize (Hpart (waiting_socket_threads w)). lia.
Qed.

Lemma Cleanup_frame (force : bool) (w : world) :
  exists joins,
    snd (Socket.Cleanup force w)
    = set_effects (effects w ++ joins)
        (set_waiting_socket_threads
           (List.filter (fun t => negb force && negb (m_finished t))
              (waiting_socket_threads w)) w)
    /\ Forall (fun e => e = ThreadJoin) joins.
Proof.
  unfold Socket.Cleanup.
  pose proof (Cleanup_walk_kept force (waiting_socket_threads w) w) as Hk.
  destruct (Cleanup_walk_frame force (waiting_socket_threads w) w)
    as (joins & Hw & Hall).
  destruct (Socket.Cleanup_walk force (waiting_socket_threads w) w)
    as [kept w'].
  simpl in *. subst kept w'. exists joins. split; [by destruct w|exact Hall].
Qed.

(** The worker as [SetSocket(0)] leaves it. *)
Lemma DetachThread_cases (w : world) (t : CSocketThread) :
  m_pSocketThread w = Some t ->
  let t0 := set_m_waiting 0
              (set_m_pPort None (set_m_pHost None (set_m_pSocket false t))) in
  let kept := List.filter (fun t => negb (m_finished t))
                (waiting_socket_threads w) in
  exists own joins,
    Forall (fun e => e = ThreadJoin) joins
    /\ ((m_finished t = true /\ own = [Lock; Unlock; ThreadJoin]
         /\ Socket.DetachThread w
            = set_effects (effects w ++ own ++ joins)
                (set_waiting_socket_threads kept (set_m_pSocketThread None w)))
        \/ (m_finished t = false /\ m_started t = false
            /\ own = [Lock; Unlock; ThreadDelete]
            /\ Socket.DetachThread w
               = set_effects (effects w ++ own ++ joins)
                   (set_waiting_socket_threads kept
                      (set_m_pSocketThread None w)))
        \/ (m_finished t = false /\ m_started t = true
            /\ own = [Lock; (if m_threadwait t then Signal else WakeupPosted);
                      Unlock]
            /\ Socket.DetachThread w
               = set_effects (effects w ++ own ++ joins)
                   (set_waiting_socket_threads
                      (kept ++ [set_m_threadwait false (set_m_quit true t0)])
                      (set_m_pSocketThread None w)))).
Proof.
  intros Ht. cbv zeta. unfold Socket.DetachThread. rewrite Ht.
  unfold SocketThread.SetSocket, SocketThread.WakeupThread.
  destruct t as [sk ph pp pipe started quit finished waiting trig errs tw].
  destruct w as [self h fd st thr host port fam cb q reap effs].
  simpl in *.
  destruct finished, started, tw; simpl;
    match goal with
    | |- context [Socket.Cleanup false ?w1] =>
        destruct (Cleanup_frame false w1) as (joins & -> & Hall)
    end; simpl;
    eexists _, joins; (split; [exact Hall|]);
    first
      [ left; split; [reflexivity|]; split; [reflexivity|];
        rewrite <- ?app_assoc; reflexivity
      | right; left; split; [reflexivity|]; split; [reflexivity|];
        split; [reflexivity|]; rewrite <- ?app_assoc; reflexivity
      | right; right; split; [reflexivity|]; split; [reflexivity|];
        split; [reflexivity|];
        rewrite List.filter_app; simpl; rewrite <- ?app_assoc; reflexivity ].
Qed.

(** X3. [DetachThread] never drops a worker that may still run.  The
    socket loses its worker and keeps its state, descriptor, handler and
    queue.  The worker meets one of three fates: if it had finished it is
    joined; if it was never started it is deleted; otherwise it is marked to
    quit, its back pointer, staged host and port and waiting mask cleared,
    it is woken (through the condition if it idles, through the wakeup
    primitive if not) and appended to the waiting list, where the
    [Cleanup(false)] that follows leaves it.  That [Cleanup] joins finished
    workers of the waiting list and does nothing else. *)
Theorem DetachThread_worker_fate (w : world) (t : CSocketThread) :
  m_pSocketThread w = Some t ->
  let w' := Socket.DetachThread w in
  let kept := List.filter (fun t => negb (m_finished t))
                (waiting_socket_threads w) in
  m_pSocketThread w' = None
  /\ (this w', m_pEvtHandler w', m_fd w', m_state w', m_pending_events w')
     = (this w, m_pEvtHandler w, m_fd w, m_state w, m_pending_events w)
  /\ exists joins,
      Forall (fun e => e = ThreadJoin) joins
      /\ (m_finished t = true ->
          effects w' = effects w ++ [Lock; Unlock; ThreadJoin] ++ joins
          /\ waiting_socket_threads w' = kept)
      /\ (m_finished t = false -> m_started t = false ->
          effects w' = effects w ++ [Lock; Unlock; ThreadDelete] ++ joins
          /\ waiting_socket_threads w' = kept)
      /\ (m_finished t = false -> m_started t = true ->
          exists t',
            effects w'
            = effects w
              ++ [Lock; (if m_threadwait t then Signal else WakeupPosted);
                  Unlock] ++ joins
            /\ waiting_socket_threads w' = kept ++ [t']
            /\ m_quit t' = true /\ m_pSocket t' = false
            /\ m_pHost t' = None /\ m_pPort t' = None /\ m_waiting t' = 0
            /\ m_finished t' = false /\ m_started t' = true).
Proof.
  intros Ht. cbv zeta.
  destruct (DetachThread_cases w t Ht) as (own & joins & Hall & Hcases).
  destruct Hcases as [(Hf & -> & ->) | [(Hf & Hs & -> & ->) | (Hf & Hs & -> & ->)] ].
  - split; [by destruct w|]. split; [by destruct w|].
    exists joins. split; [exact Hall|].
    split; [|split; [intros H; congruence|intros H; congruence] ].
    intros _. by destruct w.
  - split; [by destruct w|]. split; [by destruct w|].
    exists joins. split; [exact Hall|].
    split; [intros H; congruence|]. split; [|intros _ H; congruence].
    intros _ _. by destruct w.
  - split; [by destruct w|]. split; [by destruct w|].
    exists joins. split; [exact Hall|].
    split; [intros H; congruence|]. split; [intros _ H; congruence|].
    intros _ _. eexists. split; [by destruct w|]. split; [by destruct w|].
    destruct t as [sk ph pp pipe started quit finished waiting trig errs tw].
    simpl in *. by subst.
Qed.

Lemma DetachThread_worker_fate_witness :
  m_pSocketThread busy_socket
  = Some (Thread true None None true true false false 0x12 0x02
            [0; 0; 0; 0; 0] false)
  /\ m_pSocketThread (Socket.DetachThread busy_socket) = None
  /\ m_fd (Socket.DetachThread busy_socket) = 7.
Proof.
  assert (H : m_pSocketThread busy_socket
              = Some (Thread true None None true true false false 0x12 0x02
                        [0; 0; 0; 0; 0] false)) by reflexivity.
  split; [exact H|].
  destruct (DetachThread_worker_fate busy_socket _ H) as (H1 & H2 & _).
  split; [exact H1|].
  exact (f_equal (fun p : source * option handler * Z * SocketState
                          * list CSocketEvent => snd (fst (fst p))) H2).
Defined.

Example DetachThread_run :
  let w' := Socket.DetachThread busy_socket in
  effects w' = [Lock; WakeupPosted; Unlock]
  /\ (m_quit <$> waiting_socket_threads w') = [true]
  /\ Socket.DetachThread w' = w'.
Proof. vm_compute. repeat split; reflexivity. Qed.

Lemma Close_frame (w : world) :
  exists thr effs,
    Socket.Close w
    = (0, set_effects (effects w ++ effs)
            (set_m_pending_events
               (filter (fun e => Some (m_pSocketEventHandler e)
                                 <> m_pEvtHandler w) (m_pending_events w))
               (set_m_pSocketThread thr
                  (set_m_state none (set_m_fd (-1) w)))))
    /\ (m_fd w <> -1 -> CloseFd (m_fd w) ∈ effs)
    /\ (m_pSocketThread w = None -> thr = None).
Proof.
  unfold Socket.Close.
  destruct w as [self h fd st thr host port fam cb q reap effs]. simpl.
  assert (Hq : (if non_null h
                then Dispatcher.RemovePending_handler h q else q)
               = filter (fun e => Some (m_pSocketEventHandler e) <> h) q).
  { destruct h; simpl; [apply RemovePending_handler_filter|].
    symmetry. by apply filter_all. }
  destruct thr as [t|]; simpl.
  - unfold SocketThread.WakeupThread.
    destruct t as [sk ph pp pipe started quit finished waiting trig errs tw].
    simpl.
    destruct h as [h|], (fd =? -1) eqn:Hfd, tw, started, finished; simpl in *;
      rewrite <- ?Hq;
      eexists _, _;
      (split; [rewrite <- ?app_assoc; simpl; reflexivity|]);
      (split; [|discriminate]);
      intros Hne;
      first [ apply Z.eqb_eq in Hfd; contradiction
            | apply list_elem_of_In; simpl; tauto ].
  - destruct h as [h|], (fd =? -1) eqn:Hfd; simpl in *; rewrite <- ?Hq;
      [ exists None, [] | exists None, [CloseFd fd]
      | exists None, [] | exists None, [CloseFd fd] ];
      (split; [rewrite ?app_nil_r; reflexivity|]);
      (split; [|reflexivity]);
      intros Hne;
      first [ apply Z.eqb_eq in Hfd; contradiction
            | apply list_elem_of_here ].
Qed.

Lemma DetachThread_frame (w : world) :
  exists reap effs,
    Socket.DetachThread w
    = set_effects (effects w ++ effs)
        (set_waiting_socket_threads reap (set_m_pSocketThread None w)).
Proof.
  destruct (m_pSocketThread w) as [t|] eqn:Ht.
  - destruct (DetachThread_cases w t Ht) as (own & joins & _ & Hcases).
    destruct Hcases as [(_ & _ & ->) | [(_ & _ & _ & ->) | (_ & _ & _ & ->)] ];
      eexists _, _; reflexivity.
  - unfold Socket.DetachThread. rewrite Ht.
    exists (waiting_socket_threads w), [].
    destruct w; simpl in *. subst. by rewrite app_nil_r.
Qed.

(** X4. Destroying a socket leaves nothing of it behind: no queued event
    has the socket as source, no worker is attached, and a descriptor held
    by a socket that was not in state [none] has been closed.  The queue
    loses exactly the events of this source and, unless the socket already
    was in state [none], those of its current handler; the events kept stay
    in order. *)
Theorem destroy_CSocket_clean (w : world) :
  let w' := Teardown.destroy_CSocket w in
  m_pending_events w'
  = filter (fun e => m_pSource e <> this w
                     /\ (m_state w = none
                         \/ Some (m_pSocketEventHandler e) <> m_pEvtHandler w))
           (m_pending_events w)
  /\ (forall e, e ∈ m_pending_events w' -> m_pSource e <> this w)
  /\ m_pSocketThread w' = None
  /\ (m_state w <> none -> m_fd w <> -1 ->
      CloseFd (m_fd w) ∈ effects w' /\ m_fd w' = -1).
Proof.
  cbv zeta. unfold Teardown.destroy_CSocket.
  destruct (bool_decide (m_state w = none)) eqn:Hst;
    cbn [negb].
  - apply bool_decide_eq_true_1 in Hst.
    destruct (DetachThread_frame w) as (reap & effs & ->).
    rewrite RemovePending_source_filter.
    destruct w; simpl in *. split; [|split; [|split] ].
    + apply list_filter_iff. tauto.
    + intros e He. apply list_elem_of_filter in He. tauto.
    + reflexivity.
    + intros Hne. contradiction.
  - apply bool_decide_eq_false_1 in Hst.
    destruct (Close_frame w) as (thr & effs & Hc & Hclosed & _). rewrite Hc.
    cbn [snd].
    match goal with
    | |- context [Socket.DetachThread ?w1] =>
        destruct (DetachThread_frame w1) as (reap & effs' & ->)
    end.
    rewrite RemovePending_source_filter.
    destruct w; simpl in *. split; [|split; [|split] ].
    + rewrite list_filter_filter. apply list_filter_iff. tauto.
    + intros e He. apply list_elem_of_filter in He. tauto.
    + reflexivity.
    + intros _ Hfd. split; [|reflexivity].
      apply elem_of_app. left. apply elem_of_app. right. by apply Hclosed.
Qed.

Example destroy_CSocket_run :
  let w' := Teardown.destroy_CSocket busy_socket in
  m_pending_events w' = [ Event 9%nat read None 0 3%nat ]
  /\ effects w' = [ Lock; WakeupPosted; CloseFd 7; Unlock;
                    Lock; WakeupPosted; Unlock ]
  /\ (m_quit <$> waiting_socket_threads w') = [true].
Proof. vm_compute. repeat split; reflexivity. Qed.

Lemma call_avoids (h : handler) (c : dispatcher_call)
    (q : list CSocketEvent) :
  ~ reaches h c ->
  Forall (fun e => m_pSocketEventHandler e <> h) q ->
  Forall (fun e => m_pSocketEventHandler e <> h) (EventLoop.call c q).
Proof.
  intros Hc Hq.
  destruct c as [evt|pHandler|pSource|old olds new news];
    cbn [EventLoop.call reaches] in *.
  - unfold Dispatcher.SendEvent. apply Forall_app. split; [done|].
    by repeat constructor.
  - rewrite RemovePending_handler_filter. apply Forall_forall.
    intros e [_ He]%list_elem_of_filter. revert e He. by apply Forall_forall.
  - rewrite RemovePending_source_filter. apply Forall_forall.
    intros e [_ He]%list_elem_of_filter. revert e He. by apply Forall_forall.
  - unfold Dispatcher.UpdatePending. apply Forall_map.
    eapply Forall_impl; [exact Hq|]. intros e He. cbn.
    by destruct (_ || _).
Qed.

Lemma calls_avoid (h : handler) (cs : list dispatcher_call) :
  forall q : list CSocketEvent,
    Forall (fun c => ~ reaches h c) cs ->
    Forall (fun e => m_pSocketEventHandler e <> h) q ->
    Forall (fun e => m_pSocketEventHandler e <> h) (EventLoop.calls cs q).
Proof.
  induction cs as [|c cs IH]; intros q Hcs Hq; [done|].
  apply Forall_cons in Hcs as [Hc Hcs].
  apply (IH _ Hcs). by apply call_avoids.
Qed.

Lemma wakes_avoid (h : handler) (ws : list wakeup) :
  forall q : list CSocketEvent,
    Forall (fun c => ~ reaches h c) (snd (fst (EventLoop.wakes ws q))) ->
    Forall (fun e => m_pSocketEventHandler e <> h) q ->
    Forall (fun e => m_pSocketEventHandler e <> h)
      (fst (fst (EventLoop.wakes ws q)) ++ snd (EventLoop.wakes ws q)).
Proof.
  induction ws as [|w ws IH]; intros q Hcs Hq; [done|].
  cbn [EventLoop.wakes] in *.
  pose proof (calls_avoid h (before w) q) as Hb.
  destruct (EventLoop.calls (before w) q) as [|evt q1];
    cbn [EventLoop.deliver] in *.
  - specialize (IH []). destruct (EventLoop.wakes ws []) as [ [d cs'] left].
    cbn [fst snd] in *. apply Forall_app in Hcs as [_ Hcs].
    by apply IH.
  - pose proof (calls_avoid h (OnSocketEvent w evt) q1) as Hr.
    specialize (IH (EventLoop.calls (OnSocketEvent w evt) q1)).
    destruct (EventLoop.wakes ws _) as [ [d cs'] left].
    cbn [fst snd] in *.
    apply Forall_app in Hcs as [Hcb [Hcr Hcs]%Forall_app].
    apply Forall_cons in Hb as [Hevt Hq1]; [|done..].
    cbn [app]. apply Forall_cons. split; [done|].
    apply IH; [done|]. by apply Hr.
Qed.

(** X5. The destructor of a handler removes the handler's events from
    the queue, and nothing more than that.  The events queued when it ran
    never reach the handler: over any run of wakes in which no call sends
    an event to the handler or re-addresses one to it, no event delivered
    or left queued is for the handler.  But the destructor does not detach
    the sockets that name the handler: [SendEvents] of a worker whose
    socket still has it as [m_pEvtHandler] queues an event for the
    destroyed handler, which the next wake hands to it. *)
Theorem destroyed_handler_unreachable (h : handler) (q : list CSocketEvent) :
  Teardown.destroy_CSocketEventHandler h q
  = filter (fun e => m_pSocketEventHandler e <> h) q
  /\ (forall ws : list wakeup,
        let '(delivered, cs, queued) :=
          EventLoop.wakes ws (Teardown.destroy_CSocketEventHandler h q) in
        Forall (fun c => ~ reaches h c) cs ->
        Forall (fun e => m_pSocketEventHandler e <> h) (delivered ++ queued))
  /\ (forall (P : platform) (peek : Z) (t : CSocketThread) (w : world)
             (react : CSocketEvent -> list dispatcher_call),
        m_pEvtHandler w = Some h ->
        m_pSocket t = true ->
        has_bit (m_triggered t) WAIT_READ = true ->
        m_pending_events w = Teardown.destroy_CSocketEventHandler h q ->
        exists rest,
          m_pending_events (snd (SocketThread.SendEvents P peek t w))
          = m_pending_events w
            ++ CSocketEvent_error h (this w) read
                 (nth 1 (m_triggered_errors t) 0) :: rest
          /\ (m_pending_events w = [] ->
              fst (fst (EventLoop.deliver react
                          (m_pending_events
                             (snd (SocketThread.SendEvents P peek t w)))))
              = Some (CSocketEvent_error h (this w) read
                        (nth 1 (m_triggered_errors t) 0)))).
Proof.
  assert (Hd : Teardown.destroy_CSocketEventHandler h q
               = filter (fun e => m_pSocketEventHandler e <> h) q).
  { unfold Teardown.destroy_CSocketEventHandler.
    rewrite RemovePending_handler_filter.
    apply list_filter_iff. intros e. split; congruence. }
  split; [exact Hd|]. split.
  - intros ws. pose proof (wakes_avoid h ws
                             (Teardown.destroy_CSocketEventHandler h q)) as H.
    destruct (EventLoop.wakes ws _) as [ [delivered cs] left].
    cbn [fst snd] in H. intros Hcs. apply H; [exact Hcs|].
    rewrite Hd. apply Forall_forall. intros e He.
    apply list_elem_of_filter in He. tauto.
  - intros P peek t w react Hh Hs Hr _.
    assert (Hsent : exists rest,
              m_pending_events (snd (SocketThread.SendEvents P peek t w))
              = m_pending_events w
                ++ CSocketEvent_error h (this w) read
                     (nth 1 (m_triggered_errors t) 0) :: rest).
    { unfold SocketThread.SendEvents, SocketThread.SendCloseEvent.
      destruct t as [sk ph pp pipe started quit finished wt trig errs tw].
      destruct w as [self hd fd st thr host port fam cb pend reap effs].
      cbn [m_pEvtHandler m_pSocket m_triggered] in Hh, Hs, Hr. subst.
      cbn -[has_bit clear_bit nth]. rewrite Hr.
      unfold send, Dispatcher.SendEvent.
      repeat match goal with
             | |- context [if ?b then _ else _] =>
                 destruct b; cbn -[has_bit clear_bit nth]
             end;
        rewrite <- ?app_assoc; cbn [app]; eexists; reflexivity. }
    destruct Hsent as (rest & Hsent). exists rest. split; [exact Hsent|].
    intros Hempty. rewrite Hsent, Hempty. reflexivity.
Qed.

Lemma destroyed_handler_unreachable_witness :
  let q := [ Event 1%nat read None 0 2%nat; Event 9%nat read None 0 3%nat ] in
  let '(delivered, cs, queued) :=
    EventLoop.wakes [ Wakeup [] closes_on_failure ]
      (Teardown.destroy_CSocketEventHandler 2%nat q) in
  Forall (fun e => m_pSocketEventHandler e <> 2%nat) (delivered ++ queued).
Proof.
  cbv zeta.
  pose proof (proj1 (proj2 (destroyed_handler_unreachable 2%nat
                              [ Event 1%nat read None 0 2%nat;
                                Event 9%nat read None 0 3%nat ]))
                [ Wakeup [] closes_on_failure ]) as H.
  destruct (EventLoop.wakes _ _) as [ [delivered cs] left] eqn:Hrun.
  apply H. vm_compute in Hrun. injection Hrun as <- <- <-. constructor.
Defined.

Lemma UpdatePending_length (old : option handler) (s : source)
    (h' : handler) (s' : source) (q : list CSocketEvent) :
  length (Dispatcher.UpdatePending old s h' s' q) = length q.
Proof. unfold Dispatcher.UpdatePending. apply length_map. Qed.

Lemma map_fixed {A : Type} (f : A -> A) (l : list A) :
  map f l = l <-> forall x, x ∈ l -> f x = x.
Proof.
  induction l as [|a l IH]; cbn [map].
  - split; [by intros _ x ?%elem_of_nil|done].
  - split.
    + intros H. injection H as Ha Hl.
      intros x [->|Hx]%elem_of_cons; [done|].
      by apply (proj1 IH Hl).
    + intros H. f_equal; [apply H, list_elem_of_here|].
      apply (proj2 IH). intros x Hx. by apply H, list_elem_of_further.
Qed.

(** X6. Whatever is queued, re-parenting the queued events of source [s]
    and handler [h] to [s'] and [h'] changes neither the number of events
    nor their order, types, data and error codes.  Re-parenting and then
    re-parenting back restores the queue exactly when no event of [s'] for
    [h'] was queued before (or the two pairs are the same): such an event
    comes back as an event of [s] for [h]. *)
Theorem UpdatePending_round_trip (h h' : handler) (s s' : source)
    (q : list CSocketEvent) :
  (fun e => (m_type e, m_data e, m_error e))
    <$> Dispatcher.UpdatePending (Some h) s h' s' q
  = (fun e => (m_type e, m_data e, m_error e)) <$> q
  /\ length (Dispatcher.UpdatePending (Some h) s h' s' q) = length q
  /\ (Dispatcher.UpdatePending (Some h') s' h s
        (Dispatcher.UpdatePending (Some h) s h' s' q) = q
      <-> forall e, e ∈ q ->
            m_pSource e = s' /\ m_pSocketEventHandler e = h' ->
            s = s' /\ h = h').
Proof.
  split; [|split; [apply UpdatePending_length|] ].
  - unfold Dispatcher.UpdatePending.
    induction q as [|e q IH]; simpl; [done|].
    f_equal; [by destruct (_ || _)|exact IH].
  - unfold Dispatcher.UpdatePending. rewrite map_map, map_fixed.
    split; intros H e He; specialize (H e He);
      destruct e as [src ty data err hd]; simpl in *.
    + intros [-> ->].
      repeat (case_bool_decide; simpl in *; simplify_eq); done.
    + repeat (case_bool_decide; simpl in *; simplify_eq); try done;
        destruct (H (conj eq_refl eq_refl)) as [? ?]; by subst.
Qed.

Lemma UpdatePending_round_trip_witness :
  let q := [ Event 1%nat read None 0 2%nat; Event 5%nat write None 0 2%nat ] in
  Dispatcher.UpdatePending (Some 3%nat) 4%nat 2%nat 1%nat
    (Dispatcher.UpdatePending (Some 2%nat) 1%nat 3%nat 4%nat q) = q.
Proof.
  cbv zeta.
  refine (proj2 (proj2 (proj2 (UpdatePending_round_trip 2%nat 3%nat 1%nat
                                 4%nat _))) _).
  intros e He [Hs _].
  apply list_elem_of_In in He. simpl in He.
  destruct He as [<-|[<-|[] ] ]; simpl in Hs; discriminate.
Defined.

(** ** Proofs about the wait masks *)

(** X7. On a platform other than Windows, [SendEvents] of an attached
    worker whose socket has a handler sends one event for each of the
    triggered conditions read, write, accept and close, in that order and
    with the error recorded for the condition; afterwards none of the four
    is triggered any more, a triggered connect is left alone, and a second
    [SendEvents] sends nothing. *)
Theorem SendEvents_delivers_once (P : platform) (peek : Z)
    (t : CSocketThread) (w : world) (h : handler) :
  msw P = false ->
  m_pSocket t = true ->
  m_pEvtHandler w = Some h ->
  let r := SocketThread.SendEvents P peek t w in
  let ev := fun (ty : EventType) (i : nat) (bit : Z) =>
              if has_bit (m_triggered t) bit
              then [ CSocketEvent_error h (this w) ty
                       (nth i (m_triggered_errors t) 0) ]
              else [] in
  m_pending_events (snd r)
  = m_pending_events w ++ ev read 1%nat WAIT_READ ++ ev write 2%nat WAIT_WRITE
      ++ ev connection 3%nat WAIT_ACCEPT ++ ev close 4%nat WAIT_CLOSE
  /\ (forall bit, bit ∈ [WAIT_READ; WAIT_WRITE; WAIT_ACCEPT; WAIT_CLOSE] ->
      has_bit (m_triggered (fst r)) bit = false)
  /\ has_bit (m_triggered (fst r)) WAIT_CONNECT
     = has_bit (m_triggered t) WAIT_CONNECT
  /\ SocketThread.SendEvents P peek (fst r) (snd r) = r.
Proof.
  intros Hmsw Hsock Hh. cbv zeta.
  destruct t as [sk ph pp pipe started quit finished waiting trig errs tw].
  destruct w as [self hd fd st thr host port fam cb q reap effs].
  simpl in Hsock, Hh. subst sk hd.
  unfold SocketThread.SendEvents, SocketThread.SendCloseEvent.
  cbn [m_pSocket m_pEvtHandler m_triggered negb]. rewrite Hmsw.
  cbn [andb].
  destruct cb;
    destruct (has_bit trig WAIT_READ) eqn:Hr;
    destruct (has_bit trig WAIT_WRITE) eqn:Hw;
    destruct (has_bit trig WAIT_ACCEPT) eqn:Ha;
    destruct (has_bit trig WAIT_CLOSE) eqn:Hc;
    repeat (cbn -[has_bit clear_bit nth];
            rewrite ?has_bit_clear_other by reflexivity;
            rewrite ?has_bit_clear_same;
            rewrite ?Hr, ?Hw, ?Ha, ?Hc).
  all: split; [by rewrite <- ?app_assoc, ?app_nil_r|].
  all: split; [|split; reflexivity].
  all: intros bit Hbit;
    repeat (apply elem_of_cons in Hbit as [->|Hbit]);
    try (by apply elem_of_nil in Hbit);
    rewrite ?has_bit_clear_other by reflexivity;
    rewrite ?has_bit_clear_same; done.
Qed.

Lemma SendEvents_delivers_once_witness :
  let t := Thread true None None true true false false 0 0x17
             [0; 11; 0; 0; 104] false in
  m_pending_events (snd (SocketThread.SendEvents linux 0 t busy_socket))
  = m_pending_events busy_socket
    ++ [ Event 1%nat read None 11 2%nat; Event 1%nat write None 0 2%nat;
         Event 1%nat close None 104 2%nat ]
  /\ m_triggered (fst (SocketThread.SendEvents linux 0 t busy_socket)) = 1.
Proof.
  cbv zeta. split; [|reflexivity].
  exact (proj1 (SendEvents_delivers_once linux 0
                  (Thread true None None true true false false 0 0x17
                     [0; 11; 0; 0; 104] false)
                  busy_socket 2%nat eq_refl eq_refl eq_refl)).
Defined.

Lemma arm_again (bit : Z) (w : world) (t : CSocketThread) :
  m_pSocketThread w = Some t ->
  has_bit (m_waiting t) bit = true ->
  Socket.arm bit w = set_effects (effects w ++ [Lock; Unlock]) w.
Proof.
  intros Ht Hbit. unfold Socket.arm. rewrite Ht, Hbit.
  destruct w; simpl in *. subst. by rewrite <- app_assoc.
Qed.

(** X8. A streak of [Read] calls that all report [EAGAIN] wakes the worker
    at most once: after the first such call the worker waits for
    readability, and every further one only takes and releases the worker's
    lock, leaving the socket and its worker as they are.  The same holds
    for [Write] and writability. *)
Theorem EAGAIN_rearms_once (P : platform) (raw raw' : Z) (w : world)
    (t : CSocketThread) :
  m_pSocketThread w = Some t ->
  last_error P raw = EAGAIN P ->
  last_error P raw' = EAGAIN P ->
  let r1 := snd (Socket.Read P (-1, raw) w) in
  let w1 := snd (Socket.Write P (-1, raw) w) in
  (exists t1, m_pSocketThread r1 = Some t1
              /\ has_bit (m_waiting t1) WAIT_READ = true)
  /\ snd (Socket.Read P (-1, raw') r1)
     = set_effects (effects r1 ++ [Lock; Unlock]) r1
  /\ (exists t1, m_pSocketThread w1 = Some t1
                 /\ has_bit (m_waiting t1) WAIT_WRITE = true)
  /\ snd (Socket.Write P (-1, raw') w1)
     = set_effects (effects w1 ++ [Lock; Unlock]) w1.
Proof.
  intros Ht Hraw Hraw'. cbv zeta.
  unfold Socket.Read, Socket.Write. cbn [Z.eqb Pos.eqb].
  rewrite Hraw, Hraw', Z.eqb_refl. cbn [snd].
  destruct (arm_sets_bit WAIT_READ w t) as (tr & wr & Hr & Hbr & _);
    [done|exact Ht|].
  destruct (arm_sets_bit WAIT_WRITE w t) as (tw & ww & Hw & Hbw & _);
    [done|exact Ht|].
  assert (Htr : m_pSocketThread (Socket.arm WAIT_READ w) = Some tr)
    by (rewrite Hr; by destruct w).
  assert (Htw : m_pSocketThread (Socket.arm WAIT_WRITE w) = Some tw)
    by (rewrite Hw; by destruct w).
  split; [by exists tr|]. split; [by apply (arm_again _ _ tr)|].
  split; [by exists tw|]. by apply (arm_again _ _ tw).
Qed.

Lemma EAGAIN_rearms_once_witness :
  let r1 := snd (Socket.Read linux (-1, 11) drained_socket) in
  effects r1 = [Lock; WakeupPosted; Unlock]
  /\ snd (Socket.Read linux (-1, 11) r1)
     = set_effects (effects r1 ++ [Lock; Unlock]) r1.
Proof.
  cbv zeta. split; [reflexivity|].
  refine (proj1 (proj2 (EAGAIN_rearms_once linux 11 11 drained_socket _
                          eq_refl eq_refl eq_refl))).
Defined.

(** ** Proofs about the resolution step and the descriptors *)

(** X9. A connection attempt that was overtaken while [getaddrinfo] ran is
    abandoned without a trace, provided the socket was still attached when
    the worker, having released the mutex, read [m_pSocket->m_family] for
    the hints.  If, once the lock is taken again, the worker has been told
    to quit or lost its socket, or the socket is no longer connecting, or a
    new host has been staged, [DoConnect] returns false without sending an
    event, creating or closing a descriptor or touching [m_fd]; no address
    is tried, whatever the resolution returned.  The state is left alone,
    except that a worker told to quit that still has its socket marks it
    closed.  A socket detached before the read of [m_family], however, is
    used through a null pointer. *)
Theorem DoConnect_overtaken (P : platform) (r : resolution)
    (t ta : CSocketThread) (w wa : world) (host port : string) :
  m_pHost t = Some host ->
  m_pPort t = Some port ->
  before_hints r (set_m_pPort None (set_m_pHost None t)) (perform Unlock w)
  = (ta, wa) ->
  (m_pSocket ta = false ->
   SocketThread.DoConnect P r t w = null_dereference)
  /\ (forall (t1 : CSocketThread) (w1 : world),
      m_pSocket ta = true ->
      meanwhile r ta wa = (t1, w1) ->
      m_quit t1 = true \/ m_pSocket t1 = false \/ m_state w1 <> connecting
      \/ m_pHost t1 <> None ->
      exists st,
        SocketThread.DoConnect P r t w
        = returned (false, t1, set_m_state st (perform Lock w1))
        /\ (st = m_state w1
            \/ st = closed /\ m_pSocket t1 = true /\ m_quit t1 = true)).
Proof.
  intros Hh Hp Hb. unfold SocketThread.DoConnect. rewrite Hh, Hp, Hb.
  split; [by intros ->|].
  intros t1 w1 -> Hm Hcase. cbn [negb]. rewrite Hm.
  unfold SocketThread.Lock_.
  destruct (m_quit t1) eqn:Hq; destruct (m_pSocket t1) eqn:Hs; simpl.
  - exists closed. split; [reflexivity|]. by right.
  - exists (m_state w1). split; [by destruct w1|]. by left.
  - exists (m_state w1). destruct Hcase as [|[|[Hst|Hh1] ] ]; try done.
    + rewrite bool_decide_eq_false_2 by (by destruct w1). simpl.
      split; [by destruct w1|]. by left.
    + rewrite (bool_decide_eq_true_2 (m_pHost t1 <> None)) by done.
      rewrite orb_true_r. split; [by destruct w1|]. by left.
  - exists (m_state w1). split; [by destruct w1|]. by left.
Qed.

Lemma DoConnect_overtaken_witness :
  let closed_meanwhile :=
    Resolution (fun t w => (t, w))
      (owner_calls (fun w => snd (Socket.Close w))) 0 [refused] in
  let detached_early :=
    Resolution owner_detaches (fun t w => (t, w)) 0 [refused] in
  (exists t' w',
     SocketThread.DoConnect linux closed_meanwhile resolving_thread
       connecting_socket = returned (false, t', w')
     /\ m_pending_events w' = [] /\ m_state w' = none
     /\ closed_descriptors (effects w') = [])
  /\ SocketThread.DoConnect linux detached_early resolving_thread
       connecting_socket = null_dereference.
Proof.
  cbv zeta. split.
  - destruct (proj2 (DoConnect_overtaken linux
              (Resolution (fun t w => (t, w))
                 (owner_calls (fun w => snd (Socket.Close w))) 0 [refused])
              resolving_thread _ connecting_socket _
              "127.0.0.1"%string "1"%string eq_refl eq_refl eq_refl)
              _ _ eq_refl eq_refl)
      as (st & Hrun & Hst).
    + right. right. left. discriminate.
    + eexists _, _. split; [exact Hrun|].
      destruct Hst as [->|(_ & _ & Hq)];
        [repeat split; reflexivity|discriminate].
  - refine (proj1 (DoConnect_overtaken linux
              (Resolution owner_detaches (fun t w => (t, w)) 0 [refused])
              resolving_thread _ connecting_socket _
              "127.0.0.1"%string "1"%string eq_refl eq_refl eq_refl) _).
    reflexivity.
Defined.

(** X10. When [getaddrinfo] fails and nothing overtook the attempt,
    [DoConnect] returns false, marks the socket closed and reports the
    failure exactly once: a single Connection event with the resolver's
    error (converted on Windows) if a handler is set, nothing otherwise; no
    HostAddress event is sent and no descriptor is created. *)
Theorem DoConnect_resolution_failed (P : platform) (r : resolution)
    (t ta t1 : CSocketThread) (w wa w1 : world) (host port : string) :
  m_pHost t = Some host ->
  m_pPort t = Some port ->
  before_hints r (set_m_pPort None (set_m_pHost None t)) (perform Unlock w)
  = (ta, wa) ->
  m_pSocket ta = true ->
  meanwhile r ta wa = (t1, w1) ->
  m_quit t1 = false -> m_pSocket t1 = true ->
  m_state w1 = connecting -> m_pHost t1 = None ->
  gai_result r <> 0 ->
  let res := if msw P then ConvertMSWErrorCode P (gai_result r)
             else gai_result r in
  SocketThread.DoConnect P r t w
  = returned (false, t1,
              set_m_state closed
                (set_m_pending_events
                   (m_pending_events w1
                    ++ match m_pEvtHandler w1 with
                       | Some h => [Event (this w1) connection None res h]
                       | None => []
                       end)
                   (perform Lock w1))).
Proof.
  intros Hh Hp Hb Hsa Hm Hq Hs Hst Hh1 Hgai. cbv zeta.
  unfold SocketThread.DoConnect.
  rewrite Hh, Hp, Hb, Hsa. cbn [negb]. rewrite Hm.
  unfold SocketThread.Lock_. rewrite Hq, Hs. simpl.
  rewrite (bool_decide_eq_true_2 (m_state _ = connecting))
    by (by destruct w1).
  rewrite (bool_decide_eq_false_2 (m_pHost t1 <> None)) by (by intros []).
  simpl. apply Z.eqb_neq in Hgai. rewrite Hgai. simpl.
  destruct w1 as [self hd fd st thr hst prt fam cb q reap effs]. simpl in *.
  destruct hd; simpl; [reflexivity|]. by rewrite app_nil_r.
Qed.

Lemma DoConnect_resolution_failed_witness :
  SocketThread.DoConnect linux
    (Resolution (fun t w => (t, w)) (fun t w => (t, w)) (-2) [refused])
    resolving_thread connecting_socket
  = returned
      (false, set_m_pPort None (set_m_pHost None resolving_thread),
       World 1%nat (Some 2%nat) (-1) closed (Some resolving_thread)
         "127.0.0.1" 1 0 false [Event 1%nat connection None (-2) 2%nat] []
         [Unlock; Lock]).
Proof.
  refine (DoConnect_resolution_failed linux
            (Resolution (fun t w => (t, w)) (fun t w => (t, w)) (-2)
               [refused])
            resolving_thread _ _ connecting_socket _ _
            "127.0.0.1"%string "1"%string eq_refl eq_refl eq_refl
            eq_refl eq_refl eq_refl eq_refl eq_refl eq_refl _).
  discriminate.
Defined.

(** Whatever the owner does meanwhile, a pass of [DoWait] itself does
    nothing to the socket but retake the lock. *)
Lemma DoWait_round_world (P : platform) (r : wait_round) (t : CSocketThread)
    (w : world) :
  snd (SocketThread.DoWait_round P r t w)
  = perform Lock (snd (wait_owner r t (perform Unlock w))).
Proof.
  unfold SocketThread.DoWait_round.
  destruct (msw P).
  - unfold SocketThread.DoWait_events.
    destruct (wait_owner r t (perform Unlock w)) as [t1 w1].
    repeat match goal with
           | |- context [if ?b then _ else _] => destruct b
           end; reflexivity.
  - unfold Select.DoWait_body.
    destruct (wait_owner r t (perform Unlock w)) as [t1 w1].
    destruct (so_error (selected r)) as [ [gres gerr] gerrno].
    repeat match goal with
           | |- snd (if ?b then _ else _) = _ => destruct b
           end; reflexivity.
Qed.

Lemma DoWait_rounds_closes (P : platform) (rounds : list wait_round) :
  forall (t : CSocketThread) (w : world) (ok : bool) (t' : CSocketThread)
         (w' : world) (rest : list wait_round),
    Forall (fun r => closes_nothing (wait_owner r)) rounds ->
    SocketThread.DoWait_rounds P rounds t w = returned (ok, t', w', rest) ->
    (exists effs, effects w' = effects w ++ effs
                  /\ closed_descriptors effs = [])
    /\ Forall (fun r => closes_nothing (wait_owner r)) rest.
Proof.
  induction rounds as [|r rounds IH]; intros t w ok t' w' rest Hc H;
    simpl in H.
  { by destruct (negb (m_pSocket t)). }
  destruct (negb (m_pSocket t)); [discriminate|].
  apply Forall_cons in Hc as [Hr Hc].
  pose proof (DoWait_round_world P r t w) as Hw.
  destruct (Hr t (perform Unlock w)) as (effs & He & Hclosed).
  assert (Hstep : exists effs1,
            effects (snd (SocketThread.DoWait_round P r t w))
            = effects w ++ effs1 /\ closed_descriptors effs1 = []).
  { exists ([Unlock] ++ effs ++ [Lock]). rewrite Hw.
    split.
    - destruct (snd (wait_owner r t (perform Unlock w))); simpl in *.
      rewrite He. destruct w; simpl. by rewrite <- !app_assoc.
    - rewrite !closed_descriptors_app, Hclosed. reflexivity. }
  destruct (SocketThread.DoWait_round P r t w) as [ [ [b|] t1] w1];
    simpl in Hstep.
  - injection H as <- <- <- <-. by split.
  - destruct Hstep as (effs1 & He1 & Hc1).
    destruct (IH t1 w1 ok t' w' rest Hc H) as ((effs2 & He2 & Hc2) & Hrest).
    split; [|done]. exists (effs1 ++ effs2).
    split; [by rewrite He2, He1, <- app_assoc|].
    by rewrite closed_descriptors_app, Hc1, Hc2.
Qed.

Lemma wait_connect_closes (P : platform) (calls : nat) :
  forall (rounds : list wait_round) (t : CSocketThread) (w : world)
         (ok : bool) (t' : CSocketThread) (w' : world)
         (rest : list wait_round),
    Forall (fun r => closes_nothing (wait_owner r)) rounds ->
    SocketThread.wait_connect P calls rounds t w
    = returned (ok, t', w', rest) ->
    exists effs, effects w' = effects w ++ effs
                 /\ closed_descriptors effs = [].
Proof.
  induction calls as [|calls IH];
    intros rounds t w ok t' w' rest Hc H; simpl in H; [discriminate|].
  unfold SocketThread.DoWait in H.
  destruct (SocketThread.DoWait_rounds P rounds _ w)
    as [| |[ [ [b t1] w1] rest1] ] eqn:Hcall; [discriminate|discriminate|].
  destruct (DoWait_rounds_closes P rounds _ w b t1 w1 rest1 Hc Hcall)
    as ((effs & He & Hcl) & Hrest).
  destruct (has_bit (m_triggered t1) WAIT_CONNECT);
    [injection H as <- <- <- <-; by exists effs|].
  destruct b; [|injection H as <- <- <- <-; by exists effs].
  destruct (IH rest1 t1 w1 ok t' w' rest Hrest H) as (effs' & He' & Hcl').
  exists (effs ++ effs'). split; [by rewrite He', He, <- app_assoc|].
  by rewrite closed_descriptors_app, Hcl, Hcl'.
Qed.

Lemma TryConnectHost_descriptor (P : platform) (addr : addrinfo)
    (ai_next : bool) (t t' : CSocketThread) (w w' : world) (res : Z) :
  Forall (fun r => closes_nothing (wait_owner r)) (waits addr) ->
  SocketThread.TryConnectHost P addr ai_next t w = returned (res, t', w') ->
  let fd := fst (sys_socket addr) in
  (res = 1 /\ fd <> -1 /\ m_fd w' = fd /\ m_state w' = connected
   /\ closed_descriptors (effects w') = closed_descriptors (effects w))
  \/ (res = 0 /\ fd = -1 /\ m_fd w' = m_fd w
      /\ closed_descriptors (effects w') = closed_descriptors (effects w))
  \/ (res = 0 /\ fd <> -1 /\ m_fd w' = -1
      /\ closed_descriptors (effects w')
         = closed_descriptors (effects w) ++ [fd])
  \/ (res = -1 /\ fd <> -1
      /\ closed_descriptors (effects w')
         = closed_descriptors (effects w) ++ [fd]).
Proof.
  intros Hcl H. cbv zeta. unfold SocketThread.TryConnectHost in H.
  destruct (negb (m_pSocket t)); [discriminate|].
  destruct (sys_socket addr) as [fd serr]. cbn [fst].
  destruct (fd =? -1) eqn:Hfd.
  { injection H as <- <- <-. apply Z.eqb_eq in Hfd.
    right. left. unfold SocketThread.send_failure.
    destruct w as [self [h|] ? ? ? ? ? ? ? ? ? ?]; simpl; tauto. }
  apply Z.eqb_neq in Hfd.
  destruct (sys_connect addr) as [cres cerr].
  match type of H with
  | context [if ?r =? EINPROGRESS P then _ else _] => set (r0 := r) in H
  end.
  destruct (r0 =? EINPROGRESS P).
  - destruct (SocketThread.wait_connect P _ (waits addr) t _)
      as [| |[ [ [ok t1] w1] rest] ] eqn:Hwait; [discriminate|discriminate|].
    apply (wait_connect_closes _ _ _ _ _ _ _ _ _ Hcl) in Hwait
      as (effs & He & Hc).
    assert (He0 : effects w1
                  = effects
                      (match m_pEvtHandler w with
                       | Some h =>
                           send (CSocketEvent_data h (this w) hostaddress
                                   (AddressToString P (ai_addr addr) true
                                      false)) w
                       | None => w
                       end) ++ effs).
    { rewrite He. by destruct (m_pEvtHandler w), w. }
    assert (He1 : closed_descriptors (effects w1)
                  = closed_descriptors (effects w)).
    { rewrite He0, closed_descriptors_app, Hc, app_nil_r.
      by destruct w as [self [h|] ? ? ? ? ? ? ? ? ? ?]. }
    clear He He0 Hc.
    destruct ok; simpl in H.
    + destruct t1 as [sk ph pp pipe started quit finished waiting trig errs tw].
      simpl in H.
      destruct (nth 0 errs 0 =? 0) eqn:Hz; simpl in H;
        injection H as <- <- <-; [left|right; right; left];
        unfold SocketThread.send_failure;
        destruct w1 as [self [h|] ? ? ? ? ? ? ? ? ? ?]; simpl in *;
        rewrite ?closed_descriptors_app, ?He1; simpl; tauto.
    + injection H as <- <- <-. right. right. right.
      destruct (m_pSocket t1);
        destruct w1 as [self [h|] ? ? ? ? ? ? ? ? ? ?]; simpl in *;
        rewrite ?closed_descriptors_app, ?He1; simpl; tauto.
  - destruct (r0 =? 0) eqn:He; simpl in H;
      injection H as <- <- <-; [left|right; right; left];
      unfold SocketThread.send_failure;
      destruct w as [self [h|] ? ? ? ? ? ? ? ? ? ?]; simpl;
      rewrite ?closed_descriptors_app, ?app_nil_r; simpl; tauto.
Qed.

Lemma opened_cons (addr : addrinfo) (l : list addrinfo) :
  opened (addr :: l)
  = (if bool_decide (fst (sys_socket addr) = -1) then []
     else [fst (sys_socket addr)]) ++ opened l.
Proof.
  unfold opened. rewrite fmap_cons, filter_cons.
  destruct (decide (fst (sys_socket addr) <> -1)) as [Hne|He].
  - by rewrite bool_decide_eq_false_2.
  - rewrite bool_decide_eq_true_2; [done|].
    by destruct (decide (fst (sys_socket addr) = -1)).
Qed.

Lemma connect_loop_closes (P : platform) (l : list addrinfo) :
  forall (t t' : CSocketThread) (w w' : world) (r : option bool),
    owner_closes_nothing l ->
    SocketThread.connect_loop P l t w = returned (r, t', w') ->
    match r with
    | None =>
        closed_descriptors (effects w')
        = closed_descriptors (effects w) ++ opened l
    | Some ok =>
        exists pre addr post,
          l = pre ++ addr :: post
          /\ fst (sys_socket addr) <> -1
          /\ closed_descriptors (effects w')
             = closed_descriptors (effects w) ++ opened pre
                 ++ (if ok then [] else [fst (sys_socket addr)])
          /\ (ok = true ->
              m_fd w' = fst (sys_socket addr) /\ m_state w' = connected)
    end.
Proof.
  induction l as [|addr l IH]; intros t t' w w' r Hcl H; simpl in H.
  - injection H as <- <- <-. unfold opened. simpl. by rewrite app_nil_r.
  - apply Forall_cons in Hcl as [Ha Hcl].
    destruct (SocketThread.TryConnectHost P addr _ t w)
      as [| |[ [res t1] w1] ] eqn:Htry; [discriminate|discriminate|].
    apply (TryConnectHost_descriptor _ _ _ _ _ _ _ _ Ha) in Htry.
    cbv zeta in Htry.
    destruct Htry as [(-> & Hfd & Hm & Hst & Hc)
                     |[(-> & Hfd & Hm & Hc)
                      |[(-> & Hfd & Hm & Hc)|(-> & Hfd & Hc)] ] ];
      simpl in H.
    + injection H as <- <- <-. exists [], addr, l.
      unfold opened. simpl. rewrite app_nil_r. done.
    + apply (IH _ _ _ _ _ Hcl) in H.
      rewrite opened_cons, bool_decide_eq_true_2 by done.
      simpl. destruct r as [ok|].
      * destruct H as (pre & a & post & -> & Ha' & Hcl' & Hok).
        exists (addr :: pre), a, post. split; [done|]. split; [done|].
        rewrite opened_cons, bool_decide_eq_true_2 by done. simpl.
        split; [congruence|done].
      * congruence.
    + apply (IH _ _ _ _ _ Hcl) in H.
      rewrite opened_cons, bool_decide_eq_false_2 by done.
      destruct r as [ok|].
      * destruct H as (pre & a & post & -> & Ha' & Hcl' & Hok).
        exists (addr :: pre), a, post. split; [done|]. split; [done|].
        rewrite opened_cons, bool_decide_eq_false_2 by done.
        rewrite Hcl', Hc, <- !app_assoc. done.
      * rewrite H, Hc, <- !app_assoc. done.
    + injection H as <- <- <-. exists [], addr, l.
      unfold opened. simpl. split; [done|]. split; [done|].
      split; [|done].
      destruct (m_pSocket t1); destruct w1; simpl in *; exact Hc.
Qed.

(** What the owner's [Close] does while the worker has released the
    mutex. *)
Lemma Close_by_owner (t : CSocketThread) (w : world) :
  exists t1 w1 effs,
    owner_calls (fun w => snd (Socket.Close w)) t w = (t1, w1)
    /\ m_pSocket t1 = m_pSocket t
    /\ m_triggered t1 = 0
    /\ m_fd w1 = -1 /\ m_state w1 = none
    /\ effects w1 = effects w ++ effs
    /\ closed_descriptors effs = (if m_fd w =? -1 then [] else [m_fd w]).
Proof.
  unfold owner_calls, Socket.Close, SocketThread.WakeupThread.
  destruct t as [sk ph pp pipe started quit finished wt trig errs tw].
  destruct w as [self hd fd st thr hst prt fam cb q reap effs0].
  cbn -[Z.eqb Dispatcher.RemovePending_handler replicate].
  destruct tw, started, finished;
    cbn -[Z.eqb Dispatcher.RemovePending_handler replicate];
    destruct (fd =? -1);
    cbn -[Z.eqb Dispatcher.RemovePending_handler replicate];
    destruct hd as [h|];
    cbn -[Z.eqb Dispatcher.RemovePending_handler replicate];
    eexists _, _, _; (split; [reflexivity|]);
    cbn -[Z.eqb Dispatcher.RemovePending_handler replicate];
    repeat split;
    rewrite <- ?app_assoc; try reflexivity.
Qed.

(** A pass of [DoWait] after which the descriptor is gone. *)
Lemma DoWait_round_gone (P : platform) (r : wait_round)
    (t t1 : CSocketThread) (w w1 : world) :
  wait_owner r t (perform Unlock w) = (t1, w1) ->
  m_fd w1 = -1 ->
  (msw P = true -> enum_res (enumerated r) <> 0) ->
  SocketThread.DoWait_round P r t w = (Some false, t1, perform Lock w1).
Proof.
  intros Ho Hfd Hev. unfold SocketThread.DoWait_round.
  destruct (msw P).
  - unfold SocketThread.DoWait_events. rewrite Ho.
    destruct (m_quit t1 || negb (m_pSocket t1)); [done|].
    specialize (Hev eq_refl). apply Z.eqb_neq in Hev. by rewrite Hev.
  - unfold Select.DoWait_body. rewrite Ho.
    assert (Hgone : (m_fd (perform Lock w1) =? -1) = true)
      by (apply Z.eqb_eq; by destruct w1).
    by rewrite Hgone, orb_true_r.
Qed.

(** The owner's [Close] while the worker waits for a connect: the wait is
    given up, and the descriptor [Close] has closed is closed again by the
    worker. *)
Lemma TryConnectHost_closed_meanwhile (P : platform) (addr : addrinfo)
    (ai_next : bool) (t : CSocketThread) (w : world) (sel : select_result)
    (ev : network_events) (rest : list wait_round) :
  m_pSocket t = true ->
  fst (sys_socket addr) <> -1 ->
  connect_result P addr = EINPROGRESS P ->
  waits addr
  = WaitRound (owner_calls (fun w => snd (Socket.Close w))) sel ev :: rest ->
  (msw P = true -> enum_res ev <> 0) ->
  exists t' w',
    SocketThread.TryConnectHost P addr ai_next t w = returned (-1, t', w')
    /\ m_pSocket t' = true
    /\ closed_descriptors (effects w')
       = closed_descriptors (effects w)
         ++ [fst (sys_socket addr); fst (sys_socket addr)]
    /\ m_fd w' = -1 /\ m_state w' = none.
Proof.
  intros Hs Hfd Hres Hwaits Hev.
  unfold SocketThread.TryConnectHost. rewrite Hs. cbn [negb].
  unfold connect_result in Hres.
  destruct (sys_socket addr) as [fd serr]. cbn [fst] in *.
  destruct (sys_connect addr) as [cres cerr].
  rewrite Hres, Z.eqb_refl, Hwaits.
  set (w0 := match m_pEvtHandler w with
             | Some h => _
             | None => w
             end).
  assert (Hw0 : effects w0 = effects w)
    by (subst w0; by destruct (m_pEvtHandler w), w).
  clearbody w0.
  set (t0 := set_m_waiting (Z.lor (m_waiting t) WAIT_CONNECT) t).
  assert (Hs0 : m_pSocket t0 = true) by (subst t0; by destruct t).
  destruct (Close_by_owner t0 (perform Unlock (set_m_fd fd w0)))
    as (t1 & w1 & effs & Ho & Hs1 & Htr1 & Hfd1 & Hst1 & He1 & Hc1).
  assert (Hround : SocketThread.DoWait_round P
                     (WaitRound (owner_calls (fun w => snd (Socket.Close w)))
                        sel ev) t0 (set_m_fd fd w0)
                   = (Some false, t1, perform Lock w1))
    by (by apply DoWait_round_gone).
  apply Z.eqb_neq in Hfd. rewrite Hfd.
  cbn [length SocketThread.wait_connect].
  unfold SocketThread.DoWait. fold t0.
  cbn [SocketThread.DoWait_rounds]. rewrite Hs0. cbn [negb].
  rewrite Hround, Htr1.
  change (has_bit 0 WAIT_CONNECT) with false. cbn [negb].
  rewrite Hs1, Hs0.
  eexists _, _. split; [reflexivity|]. split; [congruence|].
  assert (Hfd0 : m_fd (perform Unlock (set_m_fd fd w0)) = fd)
    by (by destruct w0).
  rewrite Hfd0, Hfd in Hc1.
  assert (He0 : effects (perform Unlock (set_m_fd fd w0))
                = effects w ++ [Unlock])
    by (rewrite <- Hw0; by destruct w0).
  rewrite He0 in He1. clear Ho Hround Hres He0 Hfd0.
  destruct w1 as [self hd fd1 st thr hst prt fam cb q reap effs1].
  cbn [effects m_fd m_state perform set_m_fd set_effects] in *. subst effs1.
  rewrite !closed_descriptors_app, Hc1. cbn [closed_descriptors omap].
  by rewrite <- !app_assoc.
Qed.

(** X11. The descriptors of the loop over the resolved addresses.  As long
    as the owner closes nothing while the worker waits, the loop neither
    leaks nor closes twice a descriptor: whichever way it ends, the
    descriptors closed are exactly those [socket()] handed out for the
    addresses it tried, each once and in order, except the descriptor of
    the address that connected, which becomes [m_fd] of the socket, now
    connected; the addresses after that one, or after the one whose wait
    was given up, are never tried.  When the owner's [Close] comes while
    the worker waits for a connect, however, the wait is given up and the
    descriptor is closed twice, by [Close] and by the worker, which then
    marks the socket closed. *)
Theorem connect_loop_descriptors (P : platform) :
  (forall (l : list addrinfo) (t t' : CSocketThread) (w w' : world)
          (r : option bool),
      owner_closes_nothing l ->
      SocketThread.connect_loop P l t w = returned (r, t', w') ->
      match r with
      | None =>
          closed_descriptors (effects w')
          = closed_descriptors (effects w) ++ opened l
      | Some ok =>
          exists pre addr post,
            l = pre ++ addr :: post
            /\ fst (sys_socket addr) <> -1
            /\ closed_descriptors (effects w')
               = closed_descriptors (effects w) ++ opened pre
                   ++ (if ok then [] else [fst (sys_socket addr)])
            /\ (ok = true ->
                m_fd w' = fst (sys_socket addr) /\ m_state w' = connected)
      end)
  /\ (forall (addr : addrinfo) (l : list addrinfo) (t : CSocketThread)
             (w : world) (sel : select_result) (ev : network_events)
             (rest : list wait_round),
      m_pSocket t = true ->
      fst (sys_socket addr) <> -1 ->
      connect_result P addr = EINPROGRESS P ->
      waits addr
      = WaitRound (owner_calls (fun w => snd (Socket.Close w))) sel ev
        :: rest ->
      (msw P = true -> enum_res ev <> 0) ->
      exists t' w',
        SocketThread.connect_loop P (addr :: l) t w
        = returned (Some false, t', w')
        /\ closed_descriptors (effects w')
           = closed_descriptors (effects w)
             ++ [fst (sys_socket addr); fst (sys_socket addr)]
        /\ m_fd w' = -1 /\ m_state w' = closed).
Proof.
  split.
  - intros l t t' w w' r. apply connect_loop_closes.
  - intros addr l t w sel ev rest Hs Hfd Hres Hwaits Hev.
    destruct (TryConnectHost_closed_meanwhile P addr
                (negb (bool_decide (l = []))) t w sel ev rest
                Hs Hfd Hres Hwaits Hev)
      as (t' & w' & Htry & Hs' & Hc & Hm & Hst).
    cbn [SocketThread.connect_loop]. rewrite Htry.
    change (-1 =? -1) with true. cbn match. rewrite Hs'.
    eexists _, _. split; [reflexivity|].
    destruct w'; simpl in *. by repeat split.
Qed.

Lemma connect_loop_descriptors_witness :
  let l := [refused; accepting; refused] in
  (exists t' w',
     SocketThread.connect_loop linux l resolving_thread connecting_socket
     = returned (Some true, t', w')
     /\ exists pre addr post,
          l = pre ++ addr :: post
          /\ fst (sys_socket addr) <> -1
          /\ closed_descriptors (effects w')
             = closed_descriptors (effects connecting_socket) ++ opened pre
                 ++ []
          /\ (true = true ->
              m_fd w' = fst (sys_socket addr) /\ m_state w' = connected))
  /\ (exists t' w',
        SocketThread.connect_loop linux [closed_while_connecting; accepting]
          resolving_thread connecting_socket
        = returned (Some false, t', w')
        /\ closed_descriptors (effects w')
           = closed_descriptors (effects connecting_socket) ++ [5; 5]
        /\ m_fd w' = -1 /\ m_state w' = closed).
Proof.
  cbv zeta. split.
  - eexists _, _. split; [vm_compute; reflexivity|].
    eapply (proj1 (connect_loop_descriptors linux)
              [refused; accepting; refused]
              resolving_thread _ connecting_socket _ (Some true)).
    + repeat constructor.
    + vm_compute. reflexivity.
  - refine (proj2 (connect_loop_descriptors linux) closed_while_connecting
              [accepting] resolving_thread connecting_socket
              (connect_ended 0) no_events [] eq_refl _ eq_refl eq_refl _).
    + discriminate.
    + discriminate.
Defined.

Example connect_loop_run :
  exists t' w',
    SocketThread.connect_loop linux [refused; accepting; refused]
      resolving_thread connecting_socket = returned (Some true, t', w')
    /\ closed_descriptors (effects w') = [5] /\ m_fd w' = 6
    /\ m_type <$> m_pending_events w'
       = [hostaddress; connection_next; hostaddress; connection].
Proof. eexists _, _. vm_compute. repeat split; reflexivity. Qed.

(** ** Proofs about the staged port *)

Lemma utoa_digits_not_NUL (fuel : nat) :
  forall (n : Z) (acc : string),
    0 <= n ->
    Forall (fun c => c <> zero) (list_ascii_of_string acc) ->
    Forall (fun c => c <> zero) (list_ascii_of_string (utoa_digits fuel n acc)).
Proof.
  induction fuel as [|f IH]; intros n acc Hn Hacc; cbn [utoa_digits].
  - simpl. constructor; [|exact Hacc].
    apply digit_char_not_NUL. apply Z.mod_pos_bound. lia.
  - assert (Hacc' : Forall (fun c => c <> zero)
                      (list_ascii_of_string
                         (String (digit_char (n mod 10)) acc))).
    { simpl. constructor; [|exact Hacc].
      apply digit_char_not_NUL. apply Z.mod_pos_bound. lia. }
    destruct (n / 10 =? 0); [exact Hacc'|].
    apply IH; [apply Z.div_pos; lia|exact Hacc'].
Qed.

Lemma write_cstring_c_str (s : string) :
  forall (i : nat) (b b' : buffer),
    write_cstring s i b = Some b' ->
    Forall (fun c => c <> zero) (list_ascii_of_string s) ->
    c_str (drop i b') = s /\ take i b' = take i b.
Proof.
  induction s as [|c s IH]; intros i b b' Hw Hs; simpl in Hw.
  - unfold store in Hw. destruct (decide (i < length b)%nat); [|discriminate].
    injection Hw as <-. split.
    + rewrite drop_insert_ge by lia. replace (i - i)%nat with 0%nat by lia.
      destruct (drop i b) eqn:Hd; [|reflexivity].
      apply (f_equal length) in Hd. rewrite length_drop in Hd. simpl in Hd.
      lia.
    + by rewrite take_insert_ge by lia.
  - unfold store in Hw at 1.
    destruct (decide (i < length b)%nat); [|discriminate].
    simpl in Hs. inversion Hs as [|? ? Hc Hs']. subst.
    destruct (IH (S i) _ b' Hw Hs') as (Hstr & Htake).
    assert (Hi : b' !! i = Some c).
    { rewrite <- (lookup_take_lt b' (S i) i) by lia. rewrite Htake.
      rewrite lookup_take_lt by lia. by apply list_lookup_insert_eq. }
    split.
    + rewrite (drop_S _ _ _ Hi). simpl.
      destruct (Ascii.eqb c zero) eqn:He.
      * apply Ascii.eqb_eq in He. contradiction.
      * by rewrite Hstr.
    + assert (Hmin : take i (take (S i) b') = take i b')
        by (rewrite take_take; f_equal; lia).
      rewrite <- Hmin, Htake, take_take.
      replace (i `min` S i)%nat with i by lia.
      by rewrite take_insert_ge by lia.
Qed.

Lemma c_str_insert_NUL (b : buffer) :
  forall i : nat,
    (String.length (c_str b) <= i)%nat -> c_str (<[i := zero]> b) = c_str b.
Proof.
  induction b as [|c b IH]; intros i Hi; [reflexivity|].
  simpl in Hi. destruct i as [|i]; simpl.
  - destruct (Ascii.eqb c zero); [reflexivity|]. simpl in Hi. lia.
  - destruct (Ascii.eqb c zero); [reflexivity|]. simpl in Hi.
    rewrite IH by lia. reflexivity.
Qed.

Lemma format_port_c_str (m_port : Z) (b : buffer) :
  0 <= m_port <= 65535 ->
  format_port m_port = Some b -> c_str b = format_u m_port.
Proof.
  intros Hp Hf.
  destruct (format_port_in_bounds m_port Hp) as (b0 & b1 & Hw & Hs & Hf' & _).
  rewrite Hf' in Hf. injection Hf as ->.
  unfold store in Hs. destruct (decide (5 < length b0)%nat); [|discriminate].
  injection Hs as <-.
  destruct (write_cstring_c_str _ _ _ _ Hw) as (Hstr & _).
  { apply utoa_digits_not_NUL; [lia|constructor]. }
  rewrite drop_0 in Hstr.
  rewrite c_str_insert_NUL; [exact Hstr|].
  rewrite Hstr. apply format_u_port_length. exact Hp.
Qed.

Lemma Start_keeps_staged (P : platform) (env : connect_env)
    (t : CSocketThread) (w : world) :
  m_pHost (snd (fst (SocketThread.Start P env t w))) = m_pHost t
  /\ m_pPort (snd (fst (SocketThread.Start P env t w))) = m_pPort t.
Proof.
  unfold SocketThread.Start, SocketThread.WakeupThread.
  destruct t as [sk ph pp pipe started quit finished waiting trig errs tw].
  simpl.
  destruct started, finished, tw, pipe, (primitive_errno env =? 0),
    (create_ok env); simpl; done.
Qed.

Lemma SocketThread_Connect_staged (P : platform) (env : connect_env)
    (t : CSocketThread) (w : world) (buf : string) :
  mb_str env (m_host w) = Some buf ->
  0 <= m_port w <= 65535 ->
  exists t' w',
    SocketThread.Connect P env t w = Some (0, t', w')
    /\ m_pHost t' = Some (strcpy buf)
    /\ m_pPort t' = Some (format_u (m_port w)).
Proof.
  intros Hbuf Hport. unfold SocketThread.Connect. rewrite Hbuf.
  destruct (format_port_in_bounds (m_port w) Hport)
    as (b & b' & _ & _ & Hf & _).
  rewrite Hf. rewrite (format_port_c_str _ _ Hport Hf).
  match goal with
  | |- context [SocketThread.Start ?P ?e ?t ?w] =>
      destruct (Start_keeps_staged P e t w) as (Hh & Hp);
      destruct (SocketThread.Start P e t w) as [[r t'] w']
  end.
  simpl in Hh, Hp. exists t', w'. rewrite Hh, Hp.
  split; [reflexivity|]. by destruct t.
Qed.

(** What [strcpy] copies: a string without NUL that is all of [buf] or
    the part of [buf] in front of a NUL. *)
Lemma strcpy_spec (buf : string) :
  Find zero (strcpy buf) = -1
  /\ (buf = strcpy buf
      \/ exists rest, buf = String.append (strcpy buf) (String zero rest)).
Proof.
  induction buf as [|c buf [IHf IHs] ]; [by split; [|left]|].
  cbn [strcpy]. destruct (Ascii.eqb c zero) eqn:Hc.
  - apply Ascii.eqb_eq in Hc. subst c. split; [done|]. right. by exists buf.
  - split.
    + cbn [Find]. by rewrite Hc, IHf.
    + destruct IHs as [Heq|(rest & Heq)].
      * left. by rewrite <- Heq.
      * right. exists rest. cbn [String.append]. by rewrite <- Heq.
Qed.

(** X12. A [Connect] that gets as far as [EINPROGRESS] hands the worker
    the host as [strcpy] takes it from the buffer [mb_str] returned, that
    is the buffer's characters in front of its first NUL (all of them when
    it has none), and the port as its decimal numeral: the string staged in
    [m_pPort] is the [%u] rendering of the port, untruncated, and reads back
    as the port number. *)
Theorem Connect_stages_port (P : platform) (env : connect_env)
    (host buf : string) (port family : Z) (w : world) :
  m_state w = none ->
  1 <= port <= 65535 ->
  family = unspec \/ family = ipv4 \/ family = ipv6 ->
  mb_str env host = Some buf ->
  exists w' t' h s,
    Socket.Connect P env host port family w = Some (EINPROGRESS P, w')
    /\ m_pSocketThread w' = Some t'
    /\ m_pHost t' = Some h
    /\ Find zero h = -1
    /\ (buf = h \/ exists rest, buf = String.append h (String zero rest))
    /\ m_pPort t' = Some s
    /\ s = format_u port
    /\ decimal_value s = port.
Proof.
  intros Hst Hport Hfam Hbuf. unfold Socket.Connect.
  rewrite bool_decide_eq_true_2 by done. simpl.
  replace (port <? 1) with false by (symmetry; apply Z.ltb_ge; lia).
  replace (port >? 65535) with false
    by (symmetry; rewrite Z.gtb_ltb; apply Z.ltb_ge; lia).
  simpl.
  assert (Hsw : exists af, Socket.family_switch P family = Some af).
  { unfold Socket.family_switch.
    destruct Hfam as [-> | [-> | ->] ]; simpl; eexists; reflexivity. }
  destruct Hsw as (af & ->).
  set (w1 := Socket.preempt_worker env (set_m_family af w)).
  destruct (match m_pSocketThread w1 with
            | Some t => (t, w1)
            | None => SocketThread.SetSocket true false new_CSocketThread w1
            end) as [t0 w2].
  set (w3 := set_m_port port (set_m_host host (set_m_state connecting w2))).
  assert (Hh3 : m_host w3 = host) by (by destruct w2).
  assert (Hp3 : m_port w3 = port) by (by destruct w2).
  destruct (SocketThread_Connect_staged P env t0 w3 buf)
    as (t' & w' & Hrun & Hh & Hp); [by rewrite Hh3|lia|].
  rewrite Hrun. simpl. rewrite Hp3 in Hp.
  destruct (strcpy_spec buf) as [Hnul Hfront].
  exists (set_m_pSocketThread (Some t') w'), t', (strcpy buf), (format_u port).
  split; [reflexivity|]. split; [by destruct w'|].
  split; [exact Hh|]. split; [exact Hnul|]. split; [exact Hfront|].
  split; [exact Hp|]. split; [reflexivity|].
  apply format_u_value. lia.
Qed.

Lemma Connect_stages_port_witness :
  exists w' t',
    Socket.Connect linux fine_env "example.org" 65535 ipv4
      (Socket.new_CSocket 1%nat (Some 2%nat) [])
    = Some (EINPROGRESS linux, w')
    /\ m_pSocketThread w' = Some t'
    /\ m_pHost t' = Some "example.org"%string
    /\ m_pPort t' = Some "65535"%string.
Proof.
  destruct (Connect_stages_port linux fine_env "example.org" "example.org"
              65535 ipv4 (Socket.new_CSocket 1%nat (Some 2%nat) []))
    as (w' & t' & h & s & Hrun & Ht & Hh & _ & Hfront & Hp & -> & _).
  - reflexivity.
  - lia.
  - right. by left.
  - reflexivity.
  - exists w', t'. split; [exact Hrun|]. split; [exact Ht|].
    split; [|exact Hp]. rewrite Hh. f_equal.
    vm_compute in Hrun. injection Hrun as <-. injection Ht as <-.
    by injection Hh as <-.
Defined.

Lemma SocketThread_Connect_frame (P : platform) (env : connect_env)
    (t : CSocketThread) (w : world) (buf : string) :
  mb_str env (m_host w) = Some buf ->
  0 <= m_port w <= 65535 ->
  exists t' effs,
    SocketThread.Connect P env t w = Some (0, t', set_effects effs w)
    /\ m_quit t' = m_quit t /\ m_pSocket t' = m_pSocket t
    /\ m_started t' = true.
Proof.
  intros Hbuf Hport. unfold SocketThread.Connect. rewrite Hbuf.
  destruct (format_port_in_bounds (m_port w) Hport)
    as (b & b' & _ & _ & Hf & _).
  rewrite Hf.
  match goal with
  | |- context [SocketThread.Start ?P ?e ?t ?w] =>
      destruct (Start_frame P e t w) as (effs & He);
      assert (Hk : m_quit (snd (fst (SocketThread.Start P e t w))) = m_quit t
                   /\ m_pSocket (snd (fst (SocketThread.Start P e t w)))
                      = m_pSocket t
                   /\ m_started (snd (fst (SocketThread.Start P e t w)))
                      = true);
      [|destruct (SocketThread.Start P e t w) as [[r t'] w'] ]
  end.
  { unfold SocketThread.Start, SocketThread.WakeupThread.
    destruct t as [sk ph pp pipe started quit finished waiting trig errs tw].
    simpl.
    destruct started, finished, tw, pipe, (primitive_errno env =? 0),
      (create_ok env); simpl; done. }
  simpl in He, Hk. subst w'. exists t', effs.
  split; [reflexivity|]. destruct t. exact Hk.
Qed.

(** X13. [Connect] on a socket whose worker is running and busy gives the
    worker a tenth of a second to become idle.  If it has, the worker is
    kept and [waiting_socket_threads] is left alone; if it has not, the
    worker is retired: told to quit, cut off from the socket and appended to
    [waiting_socket_threads] behind the detached workers still running,
    and the socket continues with a fresh worker.  Either way the call
    returns [EINPROGRESS] with a started worker attached. *)
Theorem Connect_keeps_or_retires_worker (P : platform) (env : connect_env)
    (host buf : string) (port family : Z) (w : world) (t : CSocketThread) :
  m_state w = none ->
  1 <= port <= 65535 ->
  family = unspec \/ family = ipv4 \/ family = ipv6 ->
  mb_str env host = Some buf ->
  m_pSocketThread w = Some t -> m_pSocket t = true ->
  m_started t = true -> m_finished t = false -> m_threadwait t = false ->
  exists w' t',
    Socket.Connect P env host port family w = Some (EINPROGRESS P, w')
    /\ m_pSocketThread w' = Some t'
    /\ m_pSocket t' = true /\ m_started t' = true
    /\ if idle_after_sleep env
       then waiting_socket_threads w' = waiting_socket_threads w
            /\ m_quit t' = m_quit t
       else waiting_socket_threads w'
            = List.filter (fun t => negb (m_finished t))
                (waiting_socket_threads w)
              ++ [set_m_quit true
                    (set_m_waiting 0
                       (set_m_pPort None
                          (set_m_pHost None (set_m_pSocket false t))))]
            /\ m_quit t' = false.
Proof.
  intros Hst Hport Hfam Hbuf Ht Hsk Hs Hf Htw. unfold Socket.Connect.
  rewrite bool_decide_eq_true_2 by done. simpl.
  replace (port <? 1) with false by (symmetry; apply Z.ltb_ge; lia).
  replace (port >? 65535) with false
    by (symmetry; rewrite Z.gtb_ltb; apply Z.ltb_ge; lia).
  simpl.
  assert (Hsw : exists af, Socket.family_switch P family = Some af).
  { unfold Socket.family_switch.
    destruct Hfam as [-> | [-> | ->] ]; simpl; eexists; reflexivity. }
  destruct Hsw as (af & ->).
  destruct t as [sk ph pp pipe started quit finished waiting trig errs tw].
  destruct w as [self h fd st thr hst prt fam cb q reap effs].
  simpl in Hst, Ht, Hsk, Hs, Hf, Htw. subst st thr sk started finished tw.
  unfold Socket.preempt_worker, SocketThread.WakeupThread.
  cbn -[Socket.DetachThread SocketThread.Connect List.filter].
  destruct (idle_after_sleep env);
    cbn -[Socket.DetachThread SocketThread.Connect List.filter].
  - match goal with
    | |- context [SocketThread.Connect P env ?t0 ?w0] =>
        destruct (SocketThread_Connect_frame P env t0 w0 buf)
          as (t' & effs' & -> & Hq & Hsk & Hstart); [exact Hbuf|simpl; lia|]
    end.
    simpl. eexists _, t'. split; [reflexivity|].
    split; [reflexivity|]. simpl in *. done.
  - match goal with
    | |- context [Socket.DetachThread ?w0] =>
        destruct (DetachThread_cases w0 _ eq_refl) as (own & joins & _ & Hd)
    end.
    cbv zeta in Hd. simpl in Hd.
    destruct Hd as [(Hx & _)|[(_ & Hx & _)|(_ & _ & _ & ->)] ];
      [discriminate..|].
    cbn -[SocketThread.Connect List.filter].
    match goal with
    | |- context [SocketThread.Connect P env ?t0 ?w0] =>
        destruct (SocketThread_Connect_frame P env t0 w0 buf)
          as (t' & effs' & -> & Hq & Hsk & Hstart); [exact Hbuf|simpl; lia|]
    end.
    simpl. eexists _, t'. split; [reflexivity|].
    split; [reflexivity|]. simpl in *. done.
Qed.

Lemma Connect_keeps_or_retires_worker_witness :
  let w := snd (Socket.Close busy_socket) in
  let stuck := ConnectEnv Some 0 true false in
  exists w' t',
    Socket.Connect linux stuck "example.org" 21 ipv4 w
    = Some (EINPROGRESS linux, w')
    /\ m_pSocketThread w' = Some t'
    /\ (m_quit <$> waiting_socket_threads w') = [true]
    /\ m_quit t' = false.
Proof.
  cbv zeta.
  destruct (Connect_keeps_or_retires_worker linux (ConnectEnv Some 0 true false)
              "example.org" "example.org" 21 ipv4
              (snd (Socket.Close busy_socket)) _
              eq_refl ltac:(lia) (or_intror (or_introl eq_refl)) eq_refl
              eq_refl eq_refl eq_refl eq_refl eq_refl)
    as (w' & t' & Hrun & Ht & _ & _ & Hl & Hq).
  exists w', t'. split; [exact Hrun|]. split; [exact Ht|].
  split; [|exact Hq]. rewrite Hl. reflexivity.
Defined.

(** ** Proofs about [Listen] *)

Lemma Listen_portstring (port : Z) :
  0 <= port <= 65535 ->
  exists b, write_cstring (format_d port) 0 (new_char 6) = Some b
            /\ c_str b = format_u port.
Proof.
  intros Hp. unfold format_d.
  replace (port <? 0) with false by (symmetry; apply Z.ltb_ge; lia).
  pose proof (format_u_port_length port Hp) as Hlen.
  destruct (write_cstring_fits (format_u port) 0 (new_char 6)) as (b & Hw & _).
  { unfold new_char. rewrite length_replicate. lia. }
  exists b. split; [exact Hw|].
  destruct (write_cstring_c_str _ _ _ _ Hw) as (Hstr & _).
  { apply utoa_digits_not_NUL; [lia|constructor]. }
  by rewrite drop_0 in Hstr.
Qed.

(** X14. [Listen] checks, in this order, the state, the port and the
    family: it returns [EALREADY] whenever the state is not [none], and from
    state [none] [EINVAL] for a port outside 0..65535 and for a family that
    is none of the three enumerators, each time leaving the socket as it
    was.  Past these checks [sprintf] stays inside the six bytes of
    [portstring], the resolver is asked for the decimal numeral of the
    port, and a failure of the resolver is returned (converted on Windows)
    before any descriptor is created. *)
Theorem Listen_results (P : platform) (env : connect_env) (family port : Z)
    (getaddrinfo : string -> Z * list bindinfo) (listen_res : Z) (w : world) :
  (m_state w <> none ->
   CSocket.Listen P env family port getaddrinfo listen_res w
   = Some (EALREADY P, w))
  /\ (m_state w = none -> port < 0 \/ port > 65535 ->
      CSocket.Listen P env family port getaddrinfo listen_res w
      = Some (EINVAL P, w))
  /\ (m_state w = none -> 0 <= port <= 65535 ->
      family <> unspec /\ family <> ipv4 /\ family <> ipv6 ->
      CSocket.Listen P env family port getaddrinfo listen_res w
      = Some (EINVAL P, w))
  /\ (exists r,
        CSocket.Listen P env family port getaddrinfo listen_res w = Some r)
  /\ (m_state w = none -> 0 <= port <= 65535 ->
      forall af, Socket.family_switch P family = Some af ->
      decimal_value (format_u port) = port
      /\ (fst (getaddrinfo (format_u port)) <> 0 ->
          CSocket.Listen P env family port getaddrinfo listen_res w
          = Some (last_error P (fst (getaddrinfo (format_u port))),
                  set_m_family af w))).
Proof.
  unfold CSocket.Listen.
  split; [|split; [|split; [|split] ] ].
  - intros Hst. by rewrite bool_decide_eq_false_2.
  - intros Hst Hport. rewrite bool_decide_eq_true_2 by done. simpl.
    destruct Hport as [Hp|Hp].
    + apply Z.ltb_lt in Hp. by rewrite Hp.
    + apply Z.gtb_gt in Hp. rewrite Hp. by rewrite orb_true_r.
  - intros Hst Hport (Hu & H4 & H6).
    rewrite bool_decide_eq_true_2 by done. simpl.
    replace (port <? 0) with false by (symmetry; apply Z.ltb_ge; lia).
    replace (port >? 65535) with false
      by (symmetry; rewrite Z.gtb_ltb; apply Z.ltb_ge; lia).
    simpl. unfold Socket.family_switch.
    apply Z.eqb_neq in Hu, H4, H6. by rewrite Hu, H4, H6.
  - destruct (negb (bool_decide (m_state w = none))); [by eexists|].
    destruct ((port <? 0) || (port >? 65535)) eqn:Hport; [by eexists|].
    apply orb_false_iff in Hport as [Hlo Hhi].
    apply Z.ltb_ge in Hlo. rewrite Z.gtb_ltb in Hhi. apply Z.ltb_ge in Hhi.
    destruct (Socket.family_switch P family) as [af|]; [|by eexists].
    destruct (Listen_portstring port) as (b & -> & ->); [lia|].
    destruct (getaddrinfo (format_u port)) as [res l].
    destruct (negb (res =? 0)); [by eexists|].
    destruct (CSocket.bind_loop P l res (set_m_family af w)) as [res1 w1].
    destruct (m_fd w1 =? -1); [by eexists|].
    destruct (negb (listen_res =? 0)); [by eexists|].
    destruct (SocketThread.SetSocket _ _ _ _) as [t0 w2].
    destruct (SocketThread.Start _ _ _ _) as [ [r0 t1] w3].
    by eexists.
  - intros Hst Hport af Hfam.
    split; [apply format_u_value; lia|]. intros Hgai.
    rewrite bool_decide_eq_true_2 by done. simpl.
    replace (port <? 0) with false by (symmetry; apply Z.ltb_ge; lia).
    replace (port >? 65535) with false
      by (symmetry; rewrite Z.gtb_ltb; apply Z.ltb_ge; lia).
    simpl. rewrite Hfam.
    destruct (Listen_portstring port) as (b & -> & ->); [lia|].
    destruct (getaddrinfo (format_u port)) as [res l]. simpl in *.
    apply Z.eqb_neq in Hgai. rewrite Hgai. reflexivity.
Qed.

Lemma bound_cons (addr : bindinfo) (l : list bindinfo) :
  bound (addr :: l)
  = (if bool_decide (fst (bi_socket addr) = -1) then []
     else [fst (bi_socket addr)]) ++ bound l.
Proof.
  unfold bound. rewrite fmap_cons, filter_cons.
  destruct (decide (fst (bi_socket addr) <> -1)) as [Hne|He].
  - by rewrite bool_decide_eq_false_2.
  - rewrite bool_decide_eq_true_2; [done|].
    by destruct (decide (fst (bi_socket addr) = -1)).
Qed.

Lemma bound_app (l k : list bindinfo) : bound (l ++ k) = bound l ++ bound k.
Proof. unfold bound. by rewrite fmap_app, filter_app. Qed.

Lemma bind_loop_descriptors (P : platform) (l : list bindinfo) :
  forall (res res' : Z) (w w' : world),
    CSocket.bind_loop P l res w = (res', w') ->
    w' = set_effects (effects w') (set_m_fd (m_fd w') w)
    /\ ((l = [] /\ m_fd w' = m_fd w /\ effects w' = effects w)
        \/ (l <> [] /\ m_fd w' = -1
            /\ Forall (fun a => binds a = false) l
            /\ closed_descriptors (effects w')
               = closed_descriptors (effects w) ++ bound l)
        \/ (exists pre addr post,
              l = pre ++ addr :: post
              /\ Forall (fun a => binds a = false) pre
              /\ binds addr = true
              /\ fst (bi_socket addr) <> -1
              /\ m_fd w' = fst (bi_socket addr)
              /\ closed_descriptors (effects w')
                 = closed_descriptors (effects w) ++ bound pre)).
Proof.
  induction l as [|addr l IH]; intros res res' w w' H; simpl in H.
  - injection H as <- <-. split; [by destruct w|]. by left.
  - destruct (bi_socket addr) as [fd serr] eqn:Hsock.
    assert (Hfst : fst (bi_socket addr) = fd) by (by rewrite Hsock).
    destruct (fd =? -1) eqn:Hfd.
    + assert (Hb : binds addr = false)
        by (unfold binds; by rewrite Hfst, Hfd).
      apply Z.eqb_eq in Hfd. subst fd.
      apply IH in H as (Hframe & Hcases).
      split; [destruct w; simpl in *; exact Hframe|].
      right. destruct Hcases as [(-> & Hm & He)
                                |[(Hne & Hm & Hall & Hc)
                                 |(pre & a & post & -> & Hall & Hba & Ha & Hm
                                   & Hc)] ].
      * left. split; [done|]. split; [by rewrite Hm; destruct w|].
        split; [by repeat constructor|].
        rewrite He, bound_cons, bool_decide_eq_true_2 by done.
        unfold bound. simpl. rewrite app_nil_r. by destruct w.
      * left. split; [done|]. split; [exact Hm|].
        split; [by constructor|].
        rewrite Hc, bound_cons, bool_decide_eq_true_2 by done.
        by destruct w.
      * right. exists (addr :: pre), a, post. split; [done|].
        split; [by constructor|]. split; [exact Hba|].
        split; [exact Ha|]. split; [exact Hm|].
        rewrite Hc, bound_cons, bool_decide_eq_true_2 by done.
        by destruct w.
    + destruct (bi_bind addr) as [bres berr] eqn:Hbind.
      destruct (bres =? 0) eqn:Hbres.
      * assert (Hb : binds addr = true)
          by (unfold binds; rewrite Hfst, Hfd, Hbind; cbn [fst];
              by rewrite Hbres).
        apply Z.eqb_neq in Hfd.
        injection H as <- <-. split; [by destruct w|].
        right. right. exists [], addr, l. split; [done|].
        split; [constructor|]. split; [exact Hb|].
        rewrite Hfst. split; [exact Hfd|]. split; [by destruct w|].
        unfold bound. simpl. rewrite app_nil_r. by destruct w.
      * assert (Hb : binds addr = false).
        { unfold binds. rewrite Hbind. cbn [fst]. rewrite Hbres.
          apply andb_false_r. }
        apply Z.eqb_neq in Hfd.
        apply IH in H as (Hframe & Hcases).
        split; [destruct w; simpl in *; exact Hframe|].
        right. destruct Hcases as [(-> & Hm & He)
                                  |[(Hne & Hm & Hall & Hc)
                                   |(pre & a & post & -> & Hall & Hba & Ha
                                     & Hm & Hc)] ].
        -- left. split; [done|]. split; [by rewrite Hm; destruct w|].
           split; [by repeat constructor|].
           rewrite He, bound_cons, bool_decide_eq_false_2 by (by rewrite Hfst).
           rewrite Hfst. unfold bound. simpl.
           destruct w; simpl. by rewrite closed_descriptors_app.
        -- left. split; [done|]. split; [exact Hm|].
           split; [by constructor|].
           rewrite Hc, bound_cons, bool_decide_eq_false_2
             by (by rewrite Hfst).
           rewrite Hfst. destruct w; simpl.
           by rewrite closed_descriptors_app, <- app_assoc.
        -- right. exists (addr :: pre), a, post. split; [done|].
           split; [by constructor|]. split; [exact Hba|].
           split; [exact Ha|]. split; [exact Hm|].
           rewrite Hc, bound_cons, bool_decide_eq_false_2
             by (by rewrite Hfst).
           rewrite Hfst. destruct w; simpl.
           by rewrite closed_descriptors_app, <- app_assoc.
Qed.

Lemma Listen_results_witness :
  let w := Socket.new_CSocket 1%nat (Some 2%nat) [] in
  CSocket.Listen linux fine_env ipv4 65536 two_addresses 0 w = Some (22, w)
  /\ CSocket.Listen linux fine_env 7 21 two_addresses 0 w = Some (22, w)
  /\ CSocket.Listen linux fine_env ipv4 21 two_addresses 0 busy_socket
     = Some (114, busy_socket).
Proof.
  cbv zeta.
  pose proof (Listen_results linux fine_env ipv4 65536 two_addresses 0
                (Socket.new_CSocket 1%nat (Some 2%nat) [])) as (_ & H2 & _).
  pose proof (Listen_results linux fine_env 7 21 two_addresses 0
                (Socket.new_CSocket 1%nat (Some 2%nat) []))
    as (_ & _ & H3 & _).
  pose proof (Listen_results linux fine_env ipv4 21 two_addresses 0
                busy_socket) as (H1 & _).
  split; [apply H2; [reflexivity|lia]|].
  split; [apply H3; [reflexivity|lia|repeat split; discriminate]|].
  apply H1. discriminate.
Defined.

(** X15. [Listen] neither leaks nor closes twice a descriptor.  Started
    on a socket in state [none] without descriptor, it tries the addresses
    in order up to the first one that gives a descriptor that can be bound,
    closing the descriptor of every address it passes.  It ends in one of
    two ways.  Either the socket is listening: [listen] succeeded, the call
    returned 0, [m_fd] is the descriptor of that first address, the
    descriptors closed are exactly those of the addresses in front of it,
    once each and in order, and a worker waiting for [WAIT_ACCEPT] is
    attached.  Or the socket is still in state [none] with [m_fd] = -1 and
    its old worker, and every descriptor obtained has been closed, once and
    in order: none when a check or the resolver failed; those of all
    addresses when none could be bound; those of the addresses in front of
    the bound one followed by the bound one when [listen] failed. *)
Theorem Listen_descriptors (P : platform) (env : connect_env)
    (family port : Z) (getaddrinfo : string -> Z * list bindinfo)
    (listen_res res : Z) (w w' : world) :
  m_state w = none ->
  m_fd w = -1 ->
  CSocket.Listen P env family port getaddrinfo listen_res w = Some (res, w') ->
  let l := snd (getaddrinfo (format_u port)) in
  let checked :=
    0 <= port <= 65535 /\ Socket.family_switch P family <> None
    /\ fst (getaddrinfo (format_u port)) = 0 in
  let first_bound (pre : list bindinfo) (addr : bindinfo)
      (post : list bindinfo) : Prop :=
    l = pre ++ addr :: post
    /\ Forall (fun a => binds a = false) pre /\ binds addr = true in
  (m_state w' = listening /\ res = 0 /\ checked /\ listen_res = 0
   /\ exists pre addr post t,
        first_bound pre addr post
        /\ m_fd w' = fst (bi_socket addr) /\ m_fd w' <> -1
        /\ closed_descriptors (effects w')
           = closed_descriptors (effects w) ++ bound pre
        /\ m_pSocketThread w' = Some t
        /\ m_waiting t = WAIT_ACCEPT /\ m_pSocket t = true)
  \/ (m_state w' = none /\ m_fd w' = -1
      /\ m_pSocketThread w' = m_pSocketThread w
      /\ ((~ checked
           /\ closed_descriptors (effects w') = closed_descriptors (effects w))
          \/ (checked /\ Forall (fun a => binds a = false) l
              /\ closed_descriptors (effects w')
                 = closed_descriptors (effects w) ++ bound l)
          \/ (checked /\ listen_res <> 0
              /\ exists pre addr post,
                   first_bound pre addr post
                   /\ closed_descriptors (effects w')
                      = closed_descriptors (effects w) ++ bound pre
                        ++ [fst (bi_socket addr)]))).
Proof.
  intros Hst Hfd H. cbv zeta. unfold CSocket.Listen in H.
  rewrite bool_decide_eq_true_2 in H by done. simpl in H.
  destruct ((port <? 0) || (port >? 65535)) eqn:Hport.
  { injection H as <- <-. right. repeat split; try done. left.
    split; [|done]. intros ([Hlo Hhi] & _).
    apply orb_true_iff in Hport as [Hp|Hp];
      [apply Z.ltb_lt in Hp|rewrite Z.gtb_ltb in Hp; apply Z.ltb_lt in Hp];
      lia. }
  apply orb_false_iff in Hport as [Hlo Hhi].
  apply Z.ltb_ge in Hlo. rewrite Z.gtb_ltb in Hhi. apply Z.ltb_ge in Hhi.
  destruct (Socket.family_switch P family) as [af|] eqn:Hfam.
  2: { injection H as <- <-. right. repeat split; try done. left.
       split; [|done]. by intros (_ & Hf & _). }
  destruct (Listen_portstring port) as (b & Hb & Hstr); [lia|].
  rewrite Hb, Hstr in H.
  destruct (getaddrinfo (format_u port)) as [gres l]. cbn [fst snd].
  destruct (gres =? 0) eqn:Hgres; cbn [negb] in H.
  2: { injection H as <- <-. apply Z.eqb_neq in Hgres. right.
       repeat split; try (by destruct w). left.
       split; [by intros (_ & _ & Hg)|by destruct w]. }
  apply Z.eqb_eq in Hgres.
  assert (Hchecked : 0 <= port <= 65535 /\ Some af <> None /\ gres = 0)
    by (split; [lia|split; [done|exact Hgres] ]).
  destruct (CSocket.bind_loop P l gres (set_m_family af w)) as [res1 w1]
    eqn:Hloop.
  apply bind_loop_descriptors in Hloop as (Hframe & Hcases).
  assert (He0 : effects (set_m_family af w) = effects w) by (by destruct w).
  assert (Hf0 : m_fd (set_m_family af w) = -1) by (by destruct w).
  rewrite He0, Hf0 in Hcases.
  destruct (m_fd w1 =? -1) eqn:Hfd1.
  { injection H as <- <-. apply Z.eqb_eq in Hfd1. right.
    split; [rewrite Hframe; by destruct w|]. split; [exact Hfd1|].
    split; [rewrite Hframe; by destruct w|].
    right. left. split; [exact Hchecked|].
    destruct Hcases as [(-> & _ & He)
                       |[(_ & _ & Hall & Hc)
                        |(pre & a & post & _ & _ & _ & Ha & Hm & _)] ].
    - split; [constructor|]. rewrite He. unfold bound. simpl.
      by rewrite app_nil_r.
    - done.
    - congruence. }
  apply Z.eqb_neq in Hfd1.
  destruct Hcases as [(_ & Hm & _)
                     |[(_ & Hm & _)
                      |(pre & a & post & -> & Hall & Hba & Ha & Hm & Hc)] ];
    [congruence..|].
  destruct (listen_res =? 0) eqn:Hlisten; cbn [negb] in H.
  2: { injection H as <- <-. apply Z.eqb_neq in Hlisten. right.
       split; [rewrite Hframe; by destruct w|]. split; [by destruct w1|].
       split; [rewrite Hframe; by destruct w|].
       right. right. split; [exact Hchecked|]. split; [exact Hlisten|].
       exists pre, a, post. split; [done|].
       rewrite <- Hm, app_assoc, <- Hc. destruct w1; simpl.
       by rewrite closed_descriptors_app. }
  apply Z.eqb_eq in Hlisten.
  unfold SocketThread.SetSocket in H. simpl in H.
  match type of H with
  | context [SocketThread.Start P env ?t0 ?w0] =>
      destruct (Start_frame P env t0 w0) as (effs & He);
      assert (Hk : m_waiting (snd (fst (SocketThread.Start P env t0 w0)))
                   = WAIT_ACCEPT
                   /\ m_pSocket (snd (fst (SocketThread.Start P env t0 w0)))
                      = true
                   /\ closed_descriptors
                        (effects (snd (SocketThread.Start P env t0 w0)))
                      = closed_descriptors (effects w0));
      [|destruct (SocketThread.Start P env t0 w0) as [ [r0 t1] w2] ]
  end.
  { unfold SocketThread.Start. simpl.
    destruct (primitive_errno env =? 0), (create_ok env); simpl;
      repeat split; try done;
      destruct w1; simpl; by rewrite ?closed_descriptors_app, ?app_nil_r. }
  simpl in He, Hk. destruct Hk as (Hwait & Hsk & Hcl).
  injection H as <- <-. left.
  split; [subst w2; by destruct w1|]. split; [reflexivity|].
  split; [exact Hchecked|]. split; [exact Hlisten|].
  exists pre, a, post, t1. split; [done|].
  split; [subst w2; destruct w1; simpl in *; exact Hm|].
  split; [subst w2; destruct w1; simpl in *; congruence|].
  split.
  { replace (effects (set_m_pSocketThread (Some t1) w2)) with (effects w2)
      by (by destruct w2).
    rewrite Hcl, <- Hc. destruct w1; simpl.
    rewrite !closed_descriptors_app. simpl. by rewrite !app_nil_r. }
  split; [by destruct w2|]. split; [exact Hwait|exact Hsk].
Qed.

Lemma Listen_descriptors_witness :
  (exists w',
     CSocket.Listen linux fine_env ipv4 21 two_addresses 0
       (Socket.new_CSocket 1%nat (Some 2%nat) [])
     = Some (0, w')
     /\ m_state w' = listening /\ m_fd w' = 8
     /\ closed_descriptors (effects w') = [7])
  /\ exists w',
       CSocket.Listen linux fine_env ipv4 21 two_addresses 98
         (Socket.new_CSocket 1%nat (Some 2%nat) [])
       = Some (98, w')
       /\ m_state w' = none /\ m_fd w' = -1
       /\ closed_descriptors (effects w') = [7; 8].
Proof.
  split.
  - eexists. split; [vm_compute; reflexivity|].
    match goal with
    | |- m_state ?w' = _ /\ _ =>
        destruct (Listen_descriptors linux fine_env ipv4 21 two_addresses 0 0
                    (Socket.new_CSocket 1%nat (Some 2%nat) []) w'
                    eq_refl eq_refl eq_refl)
          as [(Hst & _)|(Hst & _)]; [|discriminate]
    end.
    split; [exact Hst|]. split; reflexivity.
  - eexists. split; [vm_compute; reflexivity|].
    match goal with
    | |- m_state ?w' = _ /\ _ =>
        destruct (Listen_descriptors linux fine_env ipv4 21 two_addresses 98
                    98 (Socket.new_CSocket 1%nat (Some 2%nat) []) w'
                    eq_refl eq_refl eq_refl)
          as [(Hst & _)|(Hst & Hfd & _)]; [discriminate|]
    end.
    split; [exact Hst|]. split; [exact Hfd|reflexivity].
Defined.

(** ** Proofs about the send buffer *)

Lemma memcpy_source_take (block : list Byte.byte) (n : Z) :
  0 <= n <= Z.of_nat (length block) ->
  memcpy_source (Some block) n = Some (take (Z.to_nat n) block).
Proof.
  intros Hn. unfold memcpy_source. simpl.
  replace (0 <=? n) with true by (symmetry; apply Z.leb_le; lia).
  replace (n <=? Z.of_nat (length block)) with true
    by (symmetry; apply Z.leb_le; lia).
  reflexivity.
Qed.

(** X16. [OnSend] keeps the byte stream intact and the length field in
    step with the block.  Called with a consistent buffer and a backend
    that takes no more than it is offered, it reads inside the block and
    leaves a consistent buffer; unless the write failed with an error other
    than [EAGAIN], in which case the connection is closed and the buffer
    dropped, the bytes the backend has taken followed by the bytes still
    buffered are the same sequence as before, the backend having taken the
    first [written] of the buffered bytes. *)
Theorem OnSend_conserves (P : platform) (connecting : bool)
    (written error : Z) (s : sender) :
  sender_wf s ->
  written <= m_nSendBufferLen s ->
  exists s',
    RealControlSocket.OnSend P connecting (written, error) s = Some s'
    /\ sender_wf s'
    /\ ((written < 0 /\ error <> EAGAIN P /\ pending s <> []
         /\ pending s' = [] /\ wire s' = wire s /\ m_pBackend s' = false)
        \/ (wire s' ++ pending s' = wire s ++ pending s
            /\ wire s' = wire s ++ take (Z.to_nat written) (pending s)
            /\ m_pBackend s' = m_pBackend s)).
Proof.
  intros Hwf Hw. unfold RealControlSocket.OnSend.
  destruct s as [buf n be tm wr lg].
  unfold sender_wf, pending in *. simpl in *.
  destruct buf as [block|]; simpl in *.
  - destruct (n =? 0) eqn:Hn.
    + apply Z.eqb_eq in Hn. subst n. eexists. split; [reflexivity|].
      simpl. split; [reflexivity|]. right.
      change (Z.to_nat 0) with 0%nat.
      rewrite ?take_0, ?take_nil, ?app_nil_r. done.
    + apply Z.eqb_neq in Hn. rewrite memcpy_source_take by lia.
      unfold RealControlSocket.backend_write. simpl.
      destruct (written <? 0) eqn:Hneg.
      * apply Z.ltb_lt in Hneg.
        replace (Z.to_nat written) with 0%nat by lia.
        rewrite !take_0, app_nil_r.
        destruct (error =? EAGAIN P) eqn:He; simpl.
        -- eexists. split; [reflexivity|]. simpl. split; [lia|]. by right.
        -- apply Z.eqb_neq in He. eexists. split; [reflexivity|].
           destruct connecting; simpl; (split; [reflexivity|]); left;
             repeat split; try done;
             intros Hnil; apply (f_equal length) in Hnil;
             rewrite length_take in Hnil; simpl in Hnil; lia.
      * apply Z.ltb_ge in Hneg.
        assert (Hlen : written <> n ->
                  length (take (Z.to_nat (n - written))
                            (drop (Z.to_nat written) block))
                  = Z.to_nat (n - written)).
        { intros _. rewrite length_take, length_drop. lia. }
        destruct (negb (written =? 0)); simpl;
          (destruct (written =? n) eqn:Hall;
           [ apply Z.eqb_eq in Hall; subst written;
             eexists; (split; [reflexivity|]); simpl;
             (split; [reflexivity|]); right;
             rewrite take_idemp, app_nil_r; done
           | apply Z.eqb_neq in Hall; specialize (Hlen Hall);
             unfold RealControlSocket.memmove_front;
             replace (0 <=? written) with true
               by (symmetry; apply Z.leb_le; lia);
             replace (0 <=? n - written) with true
               by (symmetry; apply Z.leb_le; lia);
             replace (written + (n - written) <=? Z.of_nat (length block))
               with true by (symmetry; apply Z.leb_le; lia);
             simpl; eexists; (split; [reflexivity|]); simpl;
             (split; [rewrite length_app, Hlen, length_drop; lia|]);
             right;
             rewrite take_app_le by lia; rewrite take_idemp, take_take;
             replace (Z.to_nat written `min` Z.to_nat n)%nat
               with (Z.to_nat written) by lia;
             (split; [|done]);
             rewrite <- app_assoc, take_take_drop;
             do 2 f_equal; lia ]).
  - subst n. eexists. split; [reflexivity|]. simpl. split; [reflexivity|].
    right. rewrite !take_nil, app_nil_r. done.
Qed.

Lemma OnSend_conserves_witness :
  exists s',
    RealControlSocket.OnSend linux false (3, 0) buffered_sender = Some s'
    /\ wire s' = [Byte.x41; Byte.x55; Byte.x53; Byte.x45]
    /\ pending s' = [Byte.x52].
Proof.
  destruct (OnSend_conserves linux false 3 0 buffered_sender)
    as (s' & Hrun & _ & [(Hneg & _)|(_ & Hwire & _)]).
  - unfold sender_wf. simpl. lia.
  - simpl. lia.
  - lia.
  - exists s'. split; [exact Hrun|]. split; [exact Hwire|].
    vm_compute in Hrun. injection Hrun as <-. reflexivity.
Defined.

Lemma SetWait_frame (wait : bool) (AddTimer : Z) (s : sender) :
  exists tm lg,
    RealControlSocket.SetWait wait AddTimer s
    = set_control_log lg (set_m_timer tm s).
Proof.
  unfold RealControlSocket.SetWait.
  destruct wait, (negb (m_timer s =? -1)); destruct s; simpl;
    eexists _, _; reflexivity.
Qed.



Example Send_partial_run :
  let msg := [Byte.x50; Byte.x57; Byte.x44] in
  match RealControlSocket.Send linux 9 (1, 0) msg idle_sender with
  | Some (ok, s') =>
      ok = true /\ wire s' = [Byte.x50]
      /\ pending s' = [Byte.x50; Byte.x57]
      /\ m_timer s' = 9
  | None => False
  end.
Proof. vm_compute. repeat split; reflexivity. Qed.

Example Send_then_OnSend_run :
  let msg := [Byte.x50; Byte.x57; Byte.x44] in
  match RealControlSocket.Send linux 9 (-1, 11) msg idle_sender with
  | Some (_, s1) =>
      match RealControlSocket.OnSend linux false (3, 0) s1 with
      | Some s2 => wire s2 = msg /\ m_pSendBuffer s2 = None
                   /\ control_log s2 = [StopWatchStart; SetActive_send]
      | None => False
      end
  | None => False
  end.
Proof. vm_compute. repeat split; reflexivity. Qed.

(** ** Proofs about the cache locks *)

Section LockCacheProofs.

Context {CServer CServerPath locking_reason : Type}.
Context `{!EqDecision CServer, !EqDecision CServerPath,
          !EqDecision locking_reason}.

Implicit Types (w : @lock_world CServer CServerPath locking_reason).
Implicit Types (e info x y : @t_lockInfo CServerPath locking_reason).
Implicit Types (l : list (@t_lockInfo CServerPath locking_reason)).
Implicit Types (inst : nat -> @CControlSocket CServer).

Lemma GetLockStatus_Some (self : nat) l (i : nat) :
  GetLockStatus self l = Some i ->
  exists e, l !! i = Some e /\ pControlSocket e = self
            /\ forall e', e' ∈ take i l -> pControlSocket e' <> self.
Proof.
  revert i. induction l as [|a l IH]; intros i H; simpl in H; [discriminate|].
  case_bool_decide as Ha.
  - injection H as <-. exists a. split; [done|]. split; [done|].
    intros e' He'. simpl in He'. by apply elem_of_nil in He'.
  - destruct (GetLockStatus self l) as [j|] eqn:Hj; [|discriminate].
    injection H as <-. destruct (IH j eq_refl) as (e & He & Hs & Hfront).
    exists e. split; [done|]. split; [done|].
    intros e' He'. simpl in He'. apply elem_of_cons in He' as [->|He'];
      [done|by apply Hfront].
Qed.

Lemma GetLockStatus_None (self : nat) l :
  GetLockStatus self l = None ->
  forall e, e ∈ l -> pControlSocket e <> self.
Proof.
  induction l as [|a l IH]; intros H e He; simpl in H;
    [by apply elem_of_nil in He|].
  case_bool_decide as Ha; [discriminate|].
  destruct (GetLockStatus self l) as [j|] eqn:Hj; [discriminate|].
  apply elem_of_cons in He as [->|He]; [done|by apply IH].
Qed.

Lemma held_by_other_spec (mine : CServer) (d : CServerPath)
    (r : locking_reason) inst l :
  (forall e, e ∈ l -> m_pCurrentServer (inst (pControlSocket e)) <> None) ->
  (held_by_other (Some mine) d r inst l = Some false
   /\ forall e, e ∈ l -> lock_key inst e <> (Some mine, d, r))
  \/ (held_by_other (Some mine) d r inst l = Some true
      /\ exists e, e ∈ l /\ lock_key inst e = (Some mine, d, r)).
Proof.
  induction l as [|a l IH]; intros Hsrv.
  - left. split; [done|]. intros e He. by apply elem_of_nil in He.
  - simpl.
    destruct (m_pCurrentServer (inst (pControlSocket a))) as [other|] eqn:Ho;
      [|exfalso; eapply Hsrv; [apply list_elem_of_here|done] ].
    assert (Hrest : forall e, e ∈ l ->
              m_pCurrentServer (inst (pControlSocket e)) <> None).
    { intros e He. apply Hsrv. by apply list_elem_of_further. }
    specialize (IH Hrest).
    assert (Hskip : lock_key inst a <> (Some mine, d, r) ->
              (held_by_other (Some mine) d r inst l = Some false
               /\ forall e, e ∈ a :: l -> lock_key inst e <> (Some mine, d, r))
              \/ (held_by_other (Some mine) d r inst l = Some true
                  /\ exists e, e ∈ a :: l
                               /\ lock_key inst e = (Some mine, d, r))).
    { intros Hne. destruct IH as [(Hf & Hall)|(Ht & e & He & Hk)].
      - left. split; [done|]. intros e He.
        apply elem_of_cons in He as [->|He]; [done|by apply Hall].
      - right. split; [done|]. exists e. split; [|done].
        by apply list_elem_of_further. }
    unfold lock_key in Hskip. rewrite Ho in Hskip.
    repeat case_bool_decide; simpl; try (apply Hskip; congruence).
    right. split; [done|]. exists a. split; [apply list_elem_of_here|].
    unfold lock_key. rewrite Ho. congruence.
Qed.

Lemma lock_key_ext inst inst' e :
  (forall p, m_pCurrentServer (inst' p) = m_pCurrentServer (inst p)) ->
  lock_key inst' e = lock_key inst e.
Proof. intros H. unfold lock_key. by rewrite H. Qed.

Lemma elem_of_insert_inv {A} (l : list A) (i : nat) (x y : A) :
  y ∈ <[i := x]> l -> y = x \/ y ∈ l.
Proof.
  intros Hy. apply list_elem_of_lookup in Hy as (j & Hj).
  apply list_lookup_insert_Some in Hj as [(_ & -> & _)|(_ & Hj)]; [by left|].
  right. by eapply list_elem_of_lookup_2.
Qed.

Lemma lock_invariant_update w (i : nat) e e' inst (ev : list nat) :
  lock_invariant w ->
  m_lockInfoList w !! i = Some e ->
  pControlSocket e' = pControlSocket e ->
  directory e' = directory e ->
  reason e' = reason e ->
  (if waiting e' then lockcount e' = 0 else 0 < lockcount e') ->
  (waiting e' = false ->
   waiting e = false
   \/ forall x, x ∈ take i (m_lockInfoList w) ->
                lock_key (instances w) x <> lock_key (instances w) e) ->
  (forall p, m_pCurrentServer (inst p) = m_pCurrentServer (instances w p)) ->
  lock_invariant (LockWorld (<[i := e']> (m_lockInfoList w)) inst ev).
Proof.
  intros [Hnd Hsrv Hcnt Hex] Hi Hp Hd Hr Hc Hfront Hinst.
  assert (Hkey : lock_key (instances w) e' = lock_key (instances w) e)
    by (unfold lock_key; by rewrite Hp, Hd, Hr).
  constructor; simpl.
  - rewrite list_fmap_insert, Hp. rewrite list_insert_id; [done|].
    by rewrite list_lookup_fmap, Hi.
  - intros x Hx. rewrite Hinst.
    apply elem_of_insert_inv in Hx as [->|Hx]; [|by apply Hsrv].
    rewrite Hp. apply Hsrv. by eapply list_elem_of_lookup_2.
  - intros x Hx.
    apply elem_of_insert_inv in Hx as [->|Hx]; [done|by apply Hcnt].
  - intros j1 j2 e1 e2 H1 H2 Hlt Hw.
    rewrite !(lock_key_ext (instances w) inst) by done.
    apply list_lookup_insert_Some in H1 as [(<- & <- & _)|(Hn1 & H1)];
      apply list_lookup_insert_Some in H2 as [(<- & <- & _)|(Hn2 & H2)].
    + lia.
    + rewrite Hkey. by eapply (Hex i j2).
    + rewrite Hkey. destruct (Hfront Hw) as [Hwe|Hall].
      * by eapply (Hex j1 i).
      * apply Hall. apply list_elem_of_lookup. exists j1.
        by rewrite lookup_take_lt by lia.
    + by eapply (Hex j1 j2).
Qed.

Lemma lock_invariant_delete w (i : nat) inst (ev : list nat) :
  lock_invariant w ->
  (forall p, m_pCurrentServer (inst p) = m_pCurrentServer (instances w p)) ->
  lock_invariant (LockWorld (delete i (m_lockInfoList w)) inst ev).
Proof.
  intros [Hnd Hsrv Hcnt Hex] Hinst.
  assert (Hsub : forall x, x ∈ delete i (m_lockInfoList w) ->
                           x ∈ m_lockInfoList w).
  { intros x Hx. eapply elem_of_sublist; [exact Hx|apply sublist_delete]. }
  constructor; simpl.
  - rewrite list_fmap_delete. eapply sublist_NoDup; [exact Hnd|].
    apply sublist_delete.
  - intros x Hx. rewrite Hinst. by apply Hsrv, Hsub.
  - intros x Hx. by apply Hcnt, Hsub.
  - intros j1 j2 e1 e2 H1 H2 Hlt Hw.
    rewrite !(lock_key_ext (instances w) inst) by done.
    rewrite list_lookup_delete in H1, H2.
    repeat case_decide; (eapply Hex; [exact H1|exact H2|lia|exact Hw]).
Qed.

Lemma lock_invariant_push_back w (self : nat) (d : CServerPath)
    (r : locking_reason) inst (ev : list nat) :
  lock_invariant w ->
  GetLockStatus self (m_lockInfoList w) = None ->
  m_pCurrentServer (instances w self) <> None ->
  (forall p, m_pCurrentServer (inst p) = m_pCurrentServer (instances w p)) ->
  lock_invariant
    (LockWorld (m_lockInfoList w ++ [LockInfo d self true r 0]) inst ev).
Proof.
  intros [Hnd Hsrv Hcnt Hex] Hnone Hself Hinst.
  pose proof (GetLockStatus_None _ _ Hnone) as Hfresh.
  constructor; simpl.
  - rewrite fmap_app. apply NoDup_app. split; [exact Hnd|]. split.
    + intros p Hp Hin. simpl in Hin. apply list_elem_of_singleton in Hin.
      subst p. apply list_elem_of_fmap in Hp as (x & Hx & Hin).
      by apply (Hfresh x).
    + simpl. apply NoDup_singleton.
  - intros x Hx. rewrite Hinst. apply elem_of_app in Hx as [Hx|Hx].
    + by apply Hsrv.
    + apply list_elem_of_singleton in Hx. by subst x.
  - intros x Hx. apply elem_of_app in Hx as [Hx|Hx].
    + by apply Hcnt.
    + apply list_elem_of_singleton in Hx. by subst x.
  - intros j1 j2 e1 e2 H1 H2 Hlt Hw.
    rewrite !(lock_key_ext (instances w) inst) by done.
    apply lookup_app_Some in H2 as [H2|(Hge & H2)].
    + pose proof (lookup_lt_Some _ _ _ H2) as Hlen.
      rewrite lookup_app_l in H1 by lia. by eapply (Hex j1 j2).
    + apply list_lookup_singleton_Some in H2 as (_ & <-). discriminate.
Qed.

Lemma GetLockStatus_insert (self : nat) l :
  forall (i : nat) e e',
    l !! i = Some e -> pControlSocket e' = pControlSocket e ->
    GetLockStatus self (<[i := e']> l) = GetLockStatus self l.
Proof.
  induction l as [|a l IH]; intros i e e' Hi Hp; [done|].
  destruct i as [|i]; simpl in *.
  - injection Hi as ->. by rewrite Hp.
  - by rewrite (IH i e e').
Qed.

Lemma GetLockStatus_push_back (self : nat) l e :
  GetLockStatus self l = None -> pControlSocket e = self ->
  GetLockStatus self (l ++ [e]) = Some (length l).
Proof.
  intros Hnone He. induction l as [|a l IH]; simpl in *.
  - by rewrite bool_decide_eq_true_2.
  - case_bool_decide; [discriminate|].
    destruct (GetLockStatus self l); [discriminate|]. by rewrite IH.
Qed.

Lemma GetLockStatus_lookup l :
  forall (j : nat) e,
    NoDup (pControlSocket <$> l) -> l !! j = Some e ->
    GetLockStatus (pControlSocket e) l = Some j.
Proof.
  induction l as [|a l IH]; intros j e Hnd Hj; [done|].
  rewrite fmap_cons in Hnd. apply NoDup_cons in Hnd as [Hna Hnd].
  destruct j as [|j]; simpl in *.
  - injection Hj as ->. by rewrite bool_decide_eq_true_2.
  - rewrite bool_decide_eq_false_2.
    + by rewrite (IH j e).
    + intros Heq. apply Hna. rewrite Heq. apply list_elem_of_fmap.
      exists e. split; [done|]. by eapply list_elem_of_lookup_2.
Qed.

Lemma set_holdsLock_server w (self : nat) (v : bool) (p : nat) :
  m_pCurrentServer (instances (set_holdsLock self v w) p)
  = m_pCurrentServer (instances w p).
Proof.
  unfold set_holdsLock. simpl. case_bool_decide; [by subst|done].
Qed.

Lemma set_holdsLock_flag w (self : nat) (v : bool) :
  m_pCurOpData (instances (set_holdsLock self v w) self) = Some v.
Proof. unfold set_holdsLock. simpl. by rewrite bool_decide_eq_true_2. Qed.

Lemma lock_invariant_set_holdsLock w (self : nat) (v : bool) :
  lock_invariant w -> lock_invariant (set_holdsLock self v w).
Proof.
  intros [Hnd Hsrv Hcnt Hex].
  constructor.
  - exact Hnd.
  - intros x Hx. rewrite set_holdsLock_server. by apply Hsrv.
  - exact Hcnt.
  - intros j1 j2 e1 e2 H1 H2 Hlt Hw.
    rewrite !(lock_key_ext (instances w) (instances (set_holdsLock self v w)))
      by apply set_holdsLock_server.
    by eapply (Hex j1 j2).
Qed.


(** X18. [TryLockCache] keeps the lock list consistent and exclusive.
    Called by a control socket with a current server and a current
    operation, and, if it is already waiting, for the directory and reason
    it is waiting for, it dereferences no null pointer and preserves the
    invariant of the list; in particular no two entries hold a lock with the
    same server, directory and reason.  Afterwards the operation is marked
    as holding the lock and the control socket has an entry; the call
    returns false exactly when that entry is left waiting, and then an entry
    of another control socket with the same server, directory and reason is
    in the list. *)
Theorem TryLockCache_exclusive (self : nat) (r : locking_reason)
    (d : CServerPath) w (srv : CServer) (hl : bool) :
  lock_invariant w ->
  m_pCurrentServer (instances w self) = Some srv ->
  m_pCurOpData (instances w self) = Some hl ->
  (forall (i : nat) info,
      GetLockStatus self (m_lockInfoList w) = Some i ->
      m_lockInfoList w !! i = Some info -> waiting info = true ->
      directory info = d /\ reason info = r) ->
  exists ok w',
    TryLockCache self r d w = Some (ok, w')
    /\ lock_invariant w'
    /\ m_pCurOpData (instances w' self) = Some true
    /\ GetLockStatus self (m_lockInfoList w') <> None
    /\ IsWaitingForLock self w' = negb ok
    /\ (ok = false ->
        exists x, x ∈ m_lockInfoList w' /\ pControlSocket x <> self
                  /\ lock_key (instances w') x = (Some srv, d, r)).
Proof.
  intros Hinv Hsrv Hop Hsame. unfold TryLockCache. rewrite Hop.
  destruct (GetLockStatus self (m_lockInfoList w)) as [i|] eqn:Hown.
  - destruct (GetLockStatus_Some _ _ _ Hown) as (e & Hi & Hp & Hfront).
    rewrite Hi.
    assert (He : e ∈ m_lockInfoList w) by (by eapply list_elem_of_lookup_2).
    pose proof (counted _ Hinv e He) as Hcnt.
    destruct (lockcount e =? 0) eqn:Hc; cbn [negb].
    + apply Z.eqb_eq in Hc.
      assert (Hw : waiting e = true) by (destruct (waiting e); [done|lia]).
      destruct (Hsame i e eq_refl Hi Hw) as [Hd Hr].
      set (w1 := set_holdsLock self true
                   (set_m_lockInfoList (m_lockInfoList w) w)).
      assert (Hs1 : forall p, m_pCurrentServer (instances w1 p)
                              = m_pCurrentServer (instances w p))
        by (intros p; unfold w1; by rewrite set_holdsLock_server).
      rewrite Hs1, Hsrv.
      assert (Hke : lock_key (instances w) e = (Some srv, d, r))
        by (unfold lock_key; by rewrite Hp, Hsrv, Hd, Hr).
      destruct (held_by_other_spec srv d r (instances w1)
                  (take i (m_lockInfoList w)))
        as [(-> & Hall)|(-> & x & Hx & Hk)].
      { intros x Hx. rewrite Hs1. apply (has_server _ Hinv).
        eapply elem_of_sublist; [exact Hx|apply sublist_take]. }
      * exists true. eexists. split; [reflexivity|].
        assert (Hinv' : lock_invariant
                  (LockWorld
                     (<[i := set_waiting false
                               (set_lockcount (lockcount e + 1) e)]>
                        (m_lockInfoList w))
                     (instances w1) (obtain_lock_events w))).
        { apply (lock_invariant_update w i e); try done.
          - simpl. lia.
          - intros _. right. intros x Hx. rewrite Hke.
            rewrite <- (lock_key_ext (instances w) (instances w1)) by done.
            by apply Hall. }
        split; [exact Hinv'|].
        split; [apply set_holdsLock_flag|].
        unfold IsWaitingForLock. simpl.
        rewrite (GetLockStatus_insert self _ i e) by done.
        rewrite Hown. split; [done|].
        rewrite list_lookup_insert_eq by (by eapply lookup_lt_Some).
        split; [done|discriminate].
      * exists false. eexists. split; [reflexivity|].
        split; [by apply lock_invariant_set_holdsLock; destruct w|].
        split; [apply set_holdsLock_flag|].
        unfold IsWaitingForLock. simpl. rewrite Hown, Hi.
        split; [done|]. split; [done|]. intros _.
        exists x. split.
        { eapply elem_of_sublist; [exact Hx|apply sublist_take]. }
        split; [by apply Hfront|exact Hk].
    + apply Z.eqb_neq in Hc.
      assert (Hw : waiting e = false) by (destruct (waiting e); [lia|done]).
      rewrite Hw in Hcnt.
      destruct hl; cbn [negb].
      * exists true. eexists. split; [reflexivity|].
        split; [by destruct w|]. split; [by destruct w|].
        unfold IsWaitingForLock. simpl. rewrite Hown, Hi.
        split; [done|]. split; [done|discriminate].
      * exists true. eexists. split; [reflexivity|].
        split.
        { apply (lock_invariant_update w i e); try done.
          - simpl. rewrite Hw. lia.
          - intros _. by left.
          - intros p. apply set_holdsLock_server. }
        split; [apply set_holdsLock_flag|].
        unfold IsWaitingForLock. simpl.
        rewrite (GetLockStatus_insert self _ i e) by done.
        rewrite Hown. split; [done|].
        rewrite list_lookup_insert_eq by (by eapply lookup_lt_Some).
        split; [done|discriminate].
  - pose proof (GetLockStatus_None _ _ Hown) as Hfresh.
    set (new := LockInfo d self true r 0).
    set (l1 := m_lockInfoList w ++ [new]).
    assert (Hnew : l1 !! length (m_lockInfoList w) = Some new).
    { unfold l1. rewrite lookup_app_r by lia.
      by rewrite Nat.sub_diag. }
    rewrite Hnew. cbn [lockcount new Z.eqb negb].
    set (w1 := set_holdsLock self true (set_m_lockInfoList l1 w)).
    assert (Hs1 : forall p, m_pCurrentServer (instances w1 p)
                            = m_pCurrentServer (instances w p))
      by (intros p; unfold w1; by rewrite set_holdsLock_server).
    rewrite Hs1, Hsrv.
    assert (Htake : take (length (m_lockInfoList w)) l1 = m_lockInfoList w)
      by (unfold l1; by rewrite take_app_length).
    rewrite Htake.
    assert (Hinv1 : lock_invariant
              (LockWorld l1 (instances w1) (obtain_lock_events w))).
    { apply lock_invariant_push_back; try done. by rewrite Hsrv. }
    assert (Hown1 : GetLockStatus self l1 = Some (length (m_lockInfoList w)))
      by (by apply GetLockStatus_push_back).
    destruct (held_by_other_spec srv d r (instances w1) (m_lockInfoList w))
      as [(-> & Hall)|(-> & x & Hx & Hk)].
    { intros x Hx. rewrite Hs1. by apply (has_server _ Hinv). }
    * exists true. eexists. split; [reflexivity|].
      split.
      { apply (lock_invariant_update
                 (LockWorld l1 (instances w1) (obtain_lock_events w))
                 (length (m_lockInfoList w)) new); try done.
        intros _. right. cbn [m_lockInfoList instances]. rewrite Htake.
        intros x Hx. unfold lock_key at 2, new.
        cbn [pControlSocket directory reason]. rewrite Hs1, Hsrv.
        by apply Hall. }
      split; [apply set_holdsLock_flag|].
      unfold IsWaitingForLock. simpl.
      rewrite (GetLockStatus_insert self _ _ new) by done.
      rewrite Hown1. split; [done|].
      rewrite list_lookup_insert_eq by (by eapply lookup_lt_Some).
      split; [done|discriminate].
    * exists false. eexists. split; [reflexivity|].
      split; [exact Hinv1|].
      split; [apply set_holdsLock_flag|].
      unfold IsWaitingForLock. simpl. rewrite Hown1, Hnew.
      split; [done|]. split; [done|]. intros _.
      exists x. split; [unfold l1; apply elem_of_app; by left|].
      split; [by apply Hfresh|exact Hk].
Qed.


Lemma ObtainLockFromEvent_cases (lock_unknown : locking_reason) (self : nat)
    w :
  lock_invariant w ->
  (ObtainLockFromEvent lock_unknown self w = Some (lock_unknown, w))
  \/ (exists (i : nat) info,
        GetLockStatus self (m_lockInfoList w) = Some i
        /\ m_lockInfoList w !! i = Some info
        /\ waiting info = true
        /\ (forall x, x ∈ take i (m_lockInfoList w) ->
                      lock_key (instances w) x <> lock_key (instances w) info)
        /\ ObtainLockFromEvent lock_unknown self w
           = Some (reason info,
                   set_m_lockInfoList
                     (<[i := set_lockcount (lockcount info + 1)
                               (set_waiting false info)]>
                        (m_lockInfoList w)) w)).
Proof.
  intros Hinv. unfold ObtainLockFromEvent.
  destruct (m_pCurOpData (instances w self)) as [hl|]; [|by left].
  destruct (GetLockStatus self (m_lockInfoList w)) as [i|] eqn:Hown;
    [|by left].
  destruct (GetLockStatus_Some _ _ _ Hown) as (e & Hi & Hp & Hfront).
  rewrite Hi.
  destruct (waiting e) eqn:Hw; cbn [negb]; [|by left].
  assert (He : e ∈ m_lockInfoList w) by (by eapply list_elem_of_lookup_2).
  pose proof (has_server _ Hinv e He) as Hsrv. rewrite Hp in Hsrv.
  destruct (m_pCurrentServer (instances w self)) as [srv|] eqn:Hs; [|done].
  assert (Hke : lock_key (instances w) e = (Some srv, directory e, reason e))
    by (unfold lock_key; by rewrite Hp, Hs).
  destruct (held_by_other_spec srv (directory e) (reason e) (instances w)
              (take i (m_lockInfoList w)))
    as [(-> & Hall)|(-> & x & Hx & Hk)].
  { intros x Hx. apply (has_server _ Hinv).
    eapply elem_of_sublist; [exact Hx|apply sublist_take]. }
  - right. exists i, e. repeat split; try done.
    intros x Hx. rewrite Hke. by apply Hall.
  - by left.
Qed.

Lemma UnlockCache_invariant (self : nat) w :
  lock_invariant w ->
  lock_invariant (UnlockCache self w)
  /\ (m_pCurOpData (instances w self) <> None ->
      m_pCurOpData (instances (UnlockCache self w) self) = Some false)
  /\ (obtain_lock_events (UnlockCache self w) = obtain_lock_events w
      \/ exists other,
           obtain_lock_events (UnlockCache self w)
           = obtain_lock_events w ++ [other]).
Proof.
  intros Hinv.
  unfold UnlockCache.
  destruct (m_pCurOpData (instances w self)) as [ [|]|] eqn:Hop.
  + set (w1 := set_holdsLock self false w).
    assert (Hinv1 : lock_invariant w1)
      by (by apply lock_invariant_set_holdsLock).
    assert (Hflag : m_pCurOpData (instances w1 self) = Some false)
      by apply set_holdsLock_flag.
    change (m_lockInfoList w1) with (m_lockInfoList w).
    destruct (GetLockStatus self (m_lockInfoList w)) as [i|] eqn:Hown;
      [|split; [done|split; [done|by left] ] ].
    destruct (m_lockInfoList w !! i) as [iter|] eqn:Hi;
      [|split; [done|split; [done|by left] ] ].
    assert (He : iter ∈ m_lockInfoList w)
      by (by eapply list_elem_of_lookup_2).
    pose proof (counted _ Hinv iter He) as Hcnt.
    assert (Herase :
              forall M : lock_world,
                (exists ev',
                    M = LockWorld (delete i (m_lockInfoList w))
                          (instances w1) ev'
                    /\ (ev' = obtain_lock_events w
                        \/ exists other,
                             ev' = obtain_lock_events w ++ [other])) ->
                lock_invariant M
                /\ (Some true <> None ->
                    m_pCurOpData (instances M self) = Some false)
                /\ (obtain_lock_events M = obtain_lock_events w
                    \/ exists other,
                         obtain_lock_events M
                         = obtain_lock_events w ++ [other])).
    { intros M (ev' & -> & Hev). split.
      - apply lock_invariant_delete; [done|].
        intros p. apply set_holdsLock_server.
      - split; [intros _; exact Hflag|exact Hev]. }
    assert (Hfound :
              exists ev',
                match
                  m_pCurrentServer
                    (instances
                       (set_m_lockInfoList (delete i (m_lockInfoList w)) w1)
                       self)
                with
                | Some server =>
                    match
                      next_waiter server (directory iter) (reason iter)
                        (instances
                           (set_m_lockInfoList
                              (delete i (m_lockInfoList w)) w1))
                        (m_lockInfoList
                           (set_m_lockInfoList
                              (delete i (m_lockInfoList w)) w1))
                    with
                    | Some other =>
                        LockWorld
                          (m_lockInfoList
                             (set_m_lockInfoList
                                (delete i (m_lockInfoList w)) w1))
                          (instances
                             (set_m_lockInfoList
                                (delete i (m_lockInfoList w)) w1))
                          (obtain_lock_events
                             (set_m_lockInfoList
                                (delete i (m_lockInfoList w)) w1)
                           ++ [other])
                    | None =>
                        set_m_lockInfoList (delete i (m_lockInfoList w)) w1
                    end
                | None => set_m_lockInfoList (delete i (m_lockInfoList w)) w1
                end
                = LockWorld (delete i (m_lockInfoList w)) (instances w1) ev'
                /\ (ev' = obtain_lock_events w
                    \/ exists other,
                         ev' = obtain_lock_events w ++ [other])).
    { destruct (m_pCurrentServer _); [destruct (next_waiter _ _ _ _ _)|];
        eexists; (split; [reflexivity|]); simpl;
        first [by left|right; by eexists]. }
    destruct (waiting iter) eqn:Hw; cbn [negb andb].
    * by apply Herase.
    * destruct (lockcount (set_lockcount (lockcount iter - 1) iter) =? 0)
        eqn:Hz; cbn [negb].
      -- by apply Herase.
      -- apply Z.eqb_neq in Hz. simpl in Hz.
         split; [|split; [done|by left] ].
         apply (lock_invariant_update w i iter); try done.
         ++ simpl. rewrite Hw. lia.
         ++ intros _. by left.
         ++ intros p. apply set_holdsLock_server.
  + split; [done|split; [by rewrite Hop|by left] ].
  + split; [done|split; [done|by left] ].
Qed.

Lemma ObtainLockFromEvent_acquires (lock_unknown : locking_reason)
    (self : nat) w (i : nat) info :
  lock_invariant w ->
  m_pCurOpData (instances w self) <> None ->
  GetLockStatus self (m_lockInfoList w) = Some i ->
  m_lockInfoList w !! i = Some info ->
  waiting info = true ->
  (forall x, x ∈ take i (m_lockInfoList w) ->
             lock_key (instances w) x <> lock_key (instances w) info) ->
  ObtainLockFromEvent lock_unknown self w
  = Some (reason info,
          set_m_lockInfoList
            (<[i := set_lockcount (lockcount info + 1)
                      (set_waiting false info)]>
               (m_lockInfoList w)) w).
Proof.
  intros Hinv Hop Hown Hi Hw Hfront. unfold ObtainLockFromEvent.
  destruct (m_pCurOpData (instances w self)) as [hl|]; [|done].
  rewrite Hown, Hi, Hw. cbn [negb].
  destruct (GetLockStatus_Some _ _ _ Hown) as (e & Hi' & Hp & _).
  rewrite Hi in Hi'. injection Hi' as <-.
  assert (He : info ∈ m_lockInfoList w)
    by (by eapply list_elem_of_lookup_2).
  pose proof (has_server _ Hinv info He) as Hsrv. rewrite Hp in Hsrv.
  destruct (m_pCurrentServer (instances w self)) as [srv|] eqn:Hs; [|done].
  assert (Hke : lock_key (instances w) info
                = (Some srv, directory info, reason info))
    by (unfold lock_key; by rewrite Hp, Hs).
  destruct (held_by_other_spec srv (directory info) (reason info)
              (instances w) (take i (m_lockInfoList w)))
    as [(-> & Hall)|(-> & x & Hx & Hk)].
  { intros x Hx. apply (has_server _ Hinv).
    eapply elem_of_sublist; [exact Hx|apply sublist_take]. }
  - reflexivity.
  - exfalso. apply (Hfront x Hx). by rewrite Hke.
Qed.

Lemma next_waiter_none (srv : CServer) (d : CServerPath)
    (r : locking_reason) inst l :
  (forall x, x ∈ l -> lock_key inst x <> (Some srv, d, r)) ->
  next_waiter srv d r inst l = None.
Proof.
  induction l as [|a l IH]; intros Hall; [done|]. simpl.
  assert (Ha : lock_key inst a <> (Some srv, d, r))
    by (apply Hall, list_elem_of_here).
  assert (Hl : next_waiter srv d r inst l = None)
    by (apply IH; intros x Hx; by apply Hall, list_elem_of_further).
  unfold lock_key in Ha.
  destruct (m_pCurrentServer (inst (pControlSocket a))) as [other|];
    [|done].
  repeat case_bool_decide; simpl; try done. congruence.
Qed.

Lemma next_waiter_first (srv : CServer) (d : CServerPath)
    (r : locking_reason) inst (pre post : list t_lockInfo) x :
  (forall y, y ∈ pre -> lock_key inst y <> (Some srv, d, r)) ->
  lock_key inst x = (Some srv, d, r) ->
  next_waiter srv d r inst (pre ++ x :: post) = Some (pControlSocket x).
Proof.
  intros Hpre Hx. induction pre as [|a pre IH]; simpl.
  - unfold lock_key in Hx. injection Hx as -> -> ->.
    by rewrite !bool_decide_eq_true_2.
  - assert (Ha : lock_key inst a <> (Some srv, d, r))
      by (apply Hpre, list_elem_of_here).
    assert (Hl : next_waiter srv d r inst (pre ++ x :: post)
                 = Some (pControlSocket x))
      by (apply IH; intros y Hy; by apply Hpre, list_elem_of_further).
    unfold lock_key in Ha.
    destruct (m_pCurrentServer (inst (pControlSocket a))) as [other|];
      [|done].
    repeat case_bool_decide; simpl; try done. congruence.
Qed.

(** X19. [UnlockCache] and [ObtainLockFromEvent] keep the lock list
    consistent and exclusive, and dereference no null pointer on a
    consistent list.  [UnlockCache] clears the [holdsLock] flag of the
    current operation and sends at most one event.  [ObtainLockFromEvent]
    returns [lock_unknown] and changes nothing, unless the control socket
    was waiting, in which case it may stop waiting and return the reason of
    its entry. *)
Theorem Unlock_Obtain_exclusive (lock_unknown : locking_reason) (self : nat)
    w :
  lock_invariant w ->
  (lock_invariant (UnlockCache self w)
   /\ (m_pCurOpData (instances w self) <> None ->
       m_pCurOpData (instances (UnlockCache self w) self) = Some false)
   /\ (obtain_lock_events (UnlockCache self w) = obtain_lock_events w
       \/ exists other,
            obtain_lock_events (UnlockCache self w)
            = obtain_lock_events w ++ [other]))
  /\ exists rsn w',
       ObtainLockFromEvent lock_unknown self w = Some (rsn, w')
       /\ lock_invariant w'
       /\ (rsn = lock_unknown /\ w' = w
           \/ IsWaitingForLock self w = true
              /\ IsWaitingForLock self w' = false).
Proof.
  intros Hinv. split; [by apply UnlockCache_invariant|].
  - destruct (ObtainLockFromEvent_cases lock_unknown self w Hinv)
      as [->|(i & info & Hown & Hi & Hw & Hfront & ->)].
    + eexists _, _. split; [reflexivity|]. split; [done|]. by left.
    + eexists _, _. split; [reflexivity|]. split.
      * apply (lock_invariant_update w i info); try done.
        -- simpl. pose proof (counted _ Hinv info
                                (list_elem_of_lookup_2 _ _ _ Hi)) as Hc.
           rewrite Hw in Hc. lia.
        -- intros _. by right.
      * right. unfold IsWaitingForLock. rewrite Hown, Hi.
        split; [done|]. simpl.
        rewrite (GetLockStatus_insert self _ i info) by done.
        rewrite Hown.
        by rewrite list_lookup_insert_eq by (by eapply lookup_lt_Some).
Qed.


(** X20. The lock is handed over in list order.  When the control
    socket that holds a lock with count 1 unlocks, its entry is erased and
    the [CObtainLockEvent] goes to the first entry left in the list with the
    same server, directory and reason, and to nobody if there is none.  That
    entry was waiting, and if its control socket has a current operation,
    its [ObtainLockFromEvent] succeeds: it returns the reason of the lock,
    the control socket no longer waits, and the list is still consistent
    and exclusive. *)
Theorem UnlockCache_hands_over (lock_unknown : locking_reason) (self : nat)
    w (i : nat) e :
  lock_invariant w ->
  m_pCurOpData (instances w self) = Some true ->
  GetLockStatus self (m_lockInfoList w) = Some i ->
  m_lockInfoList w !! i = Some e ->
  waiting e = false -> lockcount e = 1 ->
  let w' := UnlockCache self w in
  m_lockInfoList w' = delete i (m_lockInfoList w)
  /\ ((forall x, x ∈ delete i (m_lockInfoList w) ->
                 lock_key (instances w) x <> lock_key (instances w) e) ->
      obtain_lock_events w' = obtain_lock_events w)
  /\ (forall (pre post : list t_lockInfo) x,
        delete i (m_lockInfoList w) = pre ++ x :: post ->
        (forall y, y ∈ pre ->
                   lock_key (instances w) y <> lock_key (instances w) e) ->
        lock_key (instances w) x = lock_key (instances w) e ->
        obtain_lock_events w' = obtain_lock_events w ++ [pControlSocket x]
        /\ waiting x = true
        /\ (m_pCurOpData (instances w (pControlSocket x)) <> None ->
            exists w'',
              ObtainLockFromEvent lock_unknown (pControlSocket x) w'
              = Some (reason e, w'')
              /\ IsWaitingForLock (pControlSocket x) w'' = false
              /\ lock_invariant w'')).
Proof.
  intros Hinv Hop Hown Hi Hw Hc. cbv zeta.
  pose proof (UnlockCache_invariant self w Hinv) as (Hinv' & _ & _).
  destruct (GetLockStatus_Some _ _ _ Hown) as (e0 & Hi0 & Hp & _).
  rewrite Hi in Hi0. injection Hi0 as <-.
  assert (He : e ∈ m_lockInfoList w) by (by eapply list_elem_of_lookup_2).
  pose proof (has_server _ Hinv e He) as Hsrv. rewrite Hp in Hsrv.
  destruct (m_pCurrentServer (instances w self)) as [srv|] eqn:Hs; [|done].
  assert (Hke : lock_key (instances w) e = (Some srv, directory e, reason e))
    by (unfold lock_key; by rewrite Hp, Hs).
  set (w1 := set_holdsLock self false w).
  assert (Hs1 : forall p, m_pCurrentServer (instances w1 p)
                          = m_pCurrentServer (instances w p))
    by (intros p; apply set_holdsLock_server).
  assert (Hrun : UnlockCache self w
                 = match next_waiter srv (directory e) (reason e)
                           (instances w1) (delete i (m_lockInfoList w)) with
                   | Some other =>
                       LockWorld (delete i (m_lockInfoList w)) (instances w1)
                         (obtain_lock_events w ++ [other])
                   | None =>
                       LockWorld (delete i (m_lockInfoList w)) (instances w1)
                         (obtain_lock_events w)
                   end).
  { unfold UnlockCache. rewrite Hop. fold w1.
    change (m_lockInfoList w1) with (m_lockInfoList w).
    rewrite Hown, Hi, Hw. cbn [negb andb set_lockcount lockcount].
    rewrite Hc. cbn [Z.sub Z.add Z.opp Z.pos_sub Z.eqb negb].
    cbn [set_m_lockInfoList instances m_lockInfoList obtain_lock_events].
    rewrite Hs1, Hs. reflexivity. }
  rewrite Hrun in Hinv' |- *. clear Hrun.
  assert (Hk1 : forall y, lock_key (instances w1) y = lock_key (instances w) y)
    by (intros y; by apply lock_key_ext).
  split; [by destruct (next_waiter _ _ _ _ _)|]. split.
  - intros Hnone. rewrite next_waiter_none; [done|].
    intros x Hx. rewrite Hk1, <- Hke. by apply Hnone.
  - intros pre post x Hdel Hpre Hx.
    rewrite Hdel in Hinv' |- *.
    assert (Hnw : next_waiter srv (directory e) (reason e) (instances w1)
                    (pre ++ x :: post) = Some (pControlSocket x)).
    { apply next_waiter_first.
      - intros y Hy. rewrite Hk1, <- Hke. by apply Hpre.
      - by rewrite Hk1, Hx. }
    rewrite Hnw in Hinv' |- *.
    split; [done|].
    (* the entry found was waiting *)
    assert (Hxd : delete i (m_lockInfoList w) !! length pre = Some x).
    { rewrite Hdel, lookup_app_r by lia. by rewrite Nat.sub_diag. }
    rewrite list_lookup_delete in Hxd.
    assert (Hwx : waiting x = true).
    { destruct (waiting x) eqn:Hwx; [done|]. exfalso.
      case_decide as Hlt.
      - by apply (exclusive _ Hinv (length pre) i x e).
      - apply (exclusive _ Hinv i (S (length pre)) e x); try done. lia. }
    split; [exact Hwx|]. intros Hopx.
    set (w2 := LockWorld (pre ++ x :: post) (instances w1)
                 (obtain_lock_events w ++ [pControlSocket x])) in *.
    assert (Hj : m_lockInfoList w2 !! length pre = Some x).
    { simpl. rewrite lookup_app_r by lia. by rewrite Nat.sub_diag. }
    assert (Hownx : GetLockStatus (pControlSocket x) (m_lockInfoList w2)
                    = Some (length pre)).
    { apply GetLockStatus_lookup; [apply (one_entry _ Hinv')|exact Hj]. }
    assert (Hrx : reason x = reason e).
    { rewrite Hke in Hx. unfold lock_key in Hx. by injection Hx. }
    eexists. split.
    { rewrite <- Hrx.
      apply (ObtainLockFromEvent_acquires lock_unknown (pControlSocket x) w2
               (length pre) x); try done.
      - simpl. case_bool_decide as Hself; [done|exact Hopx].
      - simpl. rewrite take_app_length. intros y Hy.
        rewrite !Hk1, Hx. by apply Hpre. }
    split.
    + unfold IsWaitingForLock. simpl.
      rewrite (GetLockStatus_insert _ _ (length pre) x) by done.
      simpl in Hownx. rewrite Hownx.
      rewrite list_lookup_insert_eq; [done|].
      rewrite length_app. simpl. lia.
    + apply (lock_invariant_update w2 (length pre) x); try done.
      * simpl. pose proof (counted _ Hinv' x) as Hcx.
        rewrite Hwx in Hcx. rewrite Hcx; [lia|].
        simpl. apply elem_of_app. right. apply list_elem_of_here.
      * intros _. right. simpl. rewrite take_app_length. intros y Hy.
        rewrite !Hk1, Hx. by apply Hpre.
Qed.

End LockCacheProofs.

Lemma two_lockers_invariant : lock_invariant two_lockers.
Proof.
  constructor; simpl.
  - apply NoDup_cons. split; [|apply NoDup_singleton].
    intros Hin. apply list_elem_of_singleton in Hin. discriminate.
  - done.
  - intros e He. repeat (apply elem_of_cons in He as [->|He]); simpl;
      [lia|done|by apply elem_of_nil in He].
  - intros i j e1 e2 H1 H2 Hlt Hw.
    destruct j as [|[|j] ]; simpl in H2; [lia| |done].
    injection H2 as <-. discriminate.
Qed.

Lemma TryLockCache_exclusive_witness :
  exists w',
    TryLockCache 3%nat 1%nat 3%nat two_lockers = Some (false, w')
    /\ lock_invariant w'
    /\ IsWaitingForLock 3%nat w' = true.
Proof.
  destruct (TryLockCache_exclusive 3%nat 1%nat 3%nat two_lockers 7%nat true
              two_lockers_invariant eq_refl eq_refl)
    as (ok & w' & Hrun & Hinv & _ & _ & Hwait & _).
  - intros i info Hi. discriminate.
  - assert (ok = false) as ->.
    { vm_compute in Hrun. by injection Hrun as <- _. }
    exists w'. split; [exact Hrun|]. split; [exact Hinv|exact Hwait].
Defined.

Lemma Unlock_Obtain_exclusive_witness :
  lock_invariant (UnlockCache 1%nat two_lockers)
  /\ obtain_lock_events (UnlockCache 1%nat two_lockers) = [2%nat]
  /\ ObtainLockFromEvent 0%nat 2%nat two_lockers = Some (0%nat, two_lockers).
Proof.
  destruct (Unlock_Obtain_exclusive 0%nat 1%nat two_lockers
              two_lockers_invariant) as ((Hinv & _) & _).
  split; [exact Hinv|]. split; reflexivity.
Defined.

Lemma UnlockCache_hands_over_witness :
  let w' := UnlockCache 1%nat two_lockers in
  obtain_lock_events w' = [2%nat]
  /\ exists w'',
       ObtainLockFromEvent 0%nat 2%nat w' = Some (1%nat, w'')
       /\ IsWaitingForLock 2%nat w'' = false
       /\ lock_invariant w''.
Proof.
  cbv zeta.
  destruct (UnlockCache_hands_over 0%nat 1%nat two_lockers 0%nat
              (LockInfo 3%nat 1%nat false 1%nat 1)
              two_lockers_invariant eq_refl eq_refl eq_refl eq_refl eq_refl)
    as (_ & _ & Hnext).
  destruct (Hnext [] [] (LockInfo 3%nat 2%nat true 1%nat 0) eq_refl)
    as (Hev & _ & Hobtain).
  - intros y Hy. by apply elem_of_nil in Hy.
  - reflexivity.
  - split; [exact Hev|]. by apply Hobtain.
Defined.

(** ** Proofs about the transfer status *)

Lemma advanced_advanced (n m : Z) (s : CTransferStatus) :
  advanced n (advanced m s) = advanced (m + n) s.
Proof. unfold advanced. simpl. f_equal. lia. Qed.

Lemma updates_run (bs : list Z) :
  forall (t : transfer) (s : CTransferStatus),
    m_pTransferStatus t = Some s ->
    (forall k : nat, (k <= length bs)%nat ->
       - 2 ^ 63 <= currentOffset s + total (take k bs) < 2 ^ 63) ->
    TransferStatus.updates bs t
    = Some match bs with
           | [] => t
           | b :: _ =>
               Transfer (Some (advanced (total bs) s)) 2
                 (notifications t
                  ++ (if m_transferStatusSendState t =? 0
                      then [Some (advanced b s)] else []))
           end.
Proof.
  induction bs as [|b bs IH]; intros t s Hs Hrange; [reflexivity|].
  cbn [TransferStatus.updates]. unfold TransferStatus.UpdateTransferStatus.
  rewrite Hs. unfold wxFileOffset_add.
  pose proof (Hrange 1%nat ltac:(simpl; lia)) as H1.
  cbn [take total foldr] in H1. rewrite Z.add_0_r in H1.
  replace (- 2 ^ 63 <=? currentOffset s + b) with true
    by (symmetry; apply Z.leb_le; lia).
  replace (currentOffset s + b <? 2 ^ 63) with true
    by (symmetry; apply Z.ltb_lt; lia).
  cbn [andb]. fold (advanced b s).
  rewrite (IH _ (advanced b s)); [|reflexivity|].
  - f_equal. destruct bs as [|b' bs].
    + unfold total. simpl. rewrite Z.add_0_r.
      by destruct (m_transferStatusSendState t =? 0); rewrite ?app_nil_r.
    + cbn [m_transferStatusSendState notifications Z.eqb].
      rewrite app_nil_r, advanced_advanced.
      by destruct (m_transferStatusSendState t =? 0); rewrite ?app_nil_r.
  - intros k Hk. specialize (Hrange (S k) ltac:(simpl; lia)).
    cbn [take total foldr] in Hrange. unfold total. simpl. lia.
Qed.

(** X21. Status notifications are throttled by polling.  A run of one
    or more [UpdateTransferStatus] calls on a transfer in progress, none of
    which overflows the offset, adds the byte counts up in [currentOffset]
    and leaves the send state at 2; it hands the engine one notification,
    carrying the status after the first update, if the send state was 0
    before, and none otherwise.  The next [GetTransferStatus] then yields
    the accumulated status with [changed] set and moves the send state to 1,
    so that further updates stay silent; a [GetTransferStatus] that follows
    without an update in between reports [changed] as false and returns the
    send state to 0. *)
Theorem transfer_status_throttled (b : Z) (bs : list Z) (t : transfer)
    (s : CTransferStatus) :
  m_pTransferStatus t = Some s ->
  (forall k : nat, (k <= length (b :: bs))%nat ->
     - 2 ^ 63 <= currentOffset s + total (take k (b :: bs)) < 2 ^ 63) ->
  exists t',
    TransferStatus.updates (b :: bs) t = Some t'
    /\ m_pTransferStatus t' = Some (advanced (total (b :: bs)) s)
    /\ m_transferStatusSendState t' = 2
    /\ notifications t'
       = notifications t
         ++ (if m_transferStatusSendState t =? 0
             then [Some (advanced b s)] else [])
    /\ (forall b', TransferStatus.updates [b'] t' <> None ->
        notifications <$> TransferStatus.updates [b'] t'
        = Some (notifications t'))
    /\ let poll := TransferStatus.GetTransferStatus t' in
       poll = (true, Some (advanced (total (b :: bs)) s), true,
               Transfer (m_pTransferStatus t') 1 (notifications t'))
       /\ (forall bs',
             notifications <$> TransferStatus.updates bs' (snd poll)
             = Some (notifications t')
             \/ TransferStatus.updates bs' (snd poll) = None)
       /\ TransferStatus.GetTransferStatus (snd poll)
          = (true, Some (advanced (total (b :: bs)) s), false,
             Transfer (m_pTransferStatus t') 0 (notifications t')).
Proof.
  intros Hs Hrange. rewrite (updates_run (b :: bs) t s Hs Hrange).
  eexists. split; [reflexivity|]. cbn [m_pTransferStatus
    m_transferStatusSendState notifications].
  split; [reflexivity|]. split; [reflexivity|]. split; [reflexivity|].
  split.
  { intros b' Hsome. cbn [TransferStatus.updates] in *.
    unfold TransferStatus.UpdateTransferStatus in *. simpl in *.
    destruct (wxFileOffset_add _ _); [reflexivity|done]. }
  cbv zeta. unfold TransferStatus.GetTransferStatus. simpl.
  split; [reflexivity|]. split; [|reflexivity].
  intros bs'. clear.
  set (t1 := Transfer (Some (advanced (total (b :: bs)) s)) 1
               (notifications t
                ++ (if m_transferStatusSendState t =? 0
                    then [Some (advanced b s)] else []))).
  assert (Hgen : forall (l : list Z) (u : transfer),
            m_transferStatusSendState u <> 0 ->
            notifications <$> TransferStatus.updates l u
            = Some (notifications u)
            \/ TransferStatus.updates l u = None).
  { induction l as [|x l IH]; intros u Hu; [by left|].
    cbn [TransferStatus.updates].
    unfold TransferStatus.UpdateTransferStatus.
    destruct (m_pTransferStatus u) as [su|] eqn:Hsu.
    - destruct (wxFileOffset_add _ _); [|by right].
      apply Z.eqb_neq in Hu. rewrite Hu.
      match goal with
      | |- context [TransferStatus.updates l ?u1] =>
          destruct (IH u1) as [Hq|Hq]; [simpl; lia|by left|by right]
      end.
    - by apply IH. }
  apply (Hgen bs' t1). simpl. lia.
Qed.

Lemma transfer_status_throttled_witness :
  let t := TransferStatus.InitTransferStatus 100 (-5) false
             (TransferStatus.ResetTransferStatus (Transfer None 2 [])) in
  exists t',
    TransferStatus.updates [10; 20] t = Some t'
    /\ (currentOffset <$> m_pTransferStatus t') = Some 30
    /\ notifications t'
       = [None; Some (TransferStatus false 100 0 10 false None)].
Proof.
  cbv zeta.
  destruct (transfer_status_throttled 10 [20]
              (TransferStatus.InitTransferStatus 100 (-5) false
                 (TransferStatus.ResetTransferStatus (Transfer None 2 [])))
              (TransferStatus false 100 0 0 false None) eq_refl)
    as (t' & Hrun & Hs & _ & Hn & _).
  - intros k Hk. destruct k as [|[|[|k] ] ]; simpl in *; lia.
  - exists t'. split; [exact Hrun|]. rewrite Hs, Hn. split; reflexivity.
Defined.

(** ** Proofs about [SetFileExistsAction] *)

(** X22. The answer to a file-exists request decides the transfer in
    one way only.  The call returns false exactly when no transfer is in
    progress or the action is none of the known ones.  For the actions
    overwrite, overwriteNewer, overwriteSize, overwriteSizeOrNewer, resume
    and skip it returns true and either sends the next command or resets the
    operation with [FZ_REPLY_OK], never both and never neither; overwrite
    and resume always go ahead and skip never does.  With
    overwriteSizeOrNewer the transfer goes ahead exactly when it would with
    overwriteSize or with overwriteNewer.  Only resume changes the operation
    data among these, setting the resume flag when the size of the target
    is known. *)
Theorem SetFileExistsAction_policy (env : FileExists.rename_env)
    (n : FileExists.Notification.CFileExistsNotification)
    (pData : FileExists.OpData.CFileTransferOpData) :
  let run := fun a =>
    FileExists.SetFileExistsAction env (with_action a n) (Some pData) in
  (forall m,
      fst (fst (FileExists.SetFileExistsAction env n m)) = false
      <-> m = None
          \/ exists k, FileExists.Notification.overwriteAction n
                       = FileExists.other_action k)
  /\ (forall a,
        a ∈ [ FileExists.overwrite; FileExists.overwriteNewer;
              FileExists.overwriteSize; FileExists.overwriteSizeOrNewer;
              FileExists.resume; FileExists.skip ] ->
        fst (fst (run a)) = true
        /\ (FileExists.SendNextCommand ∈ snd (fst (run a))
            <-> FileExists.ResetOperation_OK ∉ snd (fst (run a)))
        /\ (a <> FileExists.resume -> snd (run a) = Some pData))
  /\ FileExists.proceeds (run FileExists.overwrite) = true
  /\ FileExists.proceeds (run FileExists.resume) = true
  /\ FileExists.proceeds (run FileExists.skip) = false
  /\ FileExists.proceeds (run FileExists.overwriteSizeOrNewer)
     = FileExists.proceeds (run FileExists.overwriteSize)
       || FileExists.proceeds (run FileExists.overwriteNewer)
  /\ (exists rs,
        snd (run FileExists.resume)
        = Some (FileExists.OpData.FileTransferOpData
                  (FileExists.OpData.download pData)
                  (FileExists.OpData.localFile pData)
                  (FileExists.OpData.remoteFile pData)
                  (FileExists.OpData.localFileSize pData)
                  (FileExists.OpData.remoteFileSize pData)
                  (FileExists.OpData.fileTime pData) rs)
        /\ ((if FileExists.OpData.download pData
             then FileExists.OpData.localFileSize pData
             else FileExists.OpData.remoteFileSize pData) <> -1 ->
            rs = true)).
Proof.
  cbv zeta.
  destruct n as [act lt rt dl lsz rsz nn].
  destruct pData as [pdl lf rf plsz prsz ft rs].
  unfold with_action, FileExists.proceeds. simpl.
  split; [|split; [|split; [|split; [|split; [|split] ] ] ] ].
  - intros m. unfold FileExists.SetFileExistsAction. simpl.
    destruct m as [ [pdl' lf' rf' plsz' prsz' ft' rs']|].
    + split.
      * intros H. right.
        destruct act; simpl in H;
          repeat match type of H with
                 | context [if ?b then _ else _] => destruct b; simpl in H
                 | context [match ?o with Some _ => _ | None => _ end] =>
                     destruct o; simpl in H
                 | context [let '(_, _) := ?p in _] => destruct p; simpl in H
                 end; try discriminate.
        by eexists.
      * intros [?|(k & ->)]; [discriminate|reflexivity].
    + split; [by left|reflexivity].
  - intros a Ha.
    repeat (apply elem_of_cons in Ha as [->|Ha]);
      try (by apply elem_of_nil in Ha);
      unfold FileExists.SetFileExistsAction, FileExists.skip_transfer,
        FileExists.earlier, FileExists.later; simpl;
      repeat match goal with
             | |- context [if ?b then _ else _] => destruct b; simpl
             | |- context [match ?o with Some _ => _ | None => _ end] =>
                 destruct o; simpl
             end;
      (split; [reflexivity|]);
      (split; [|done]);
      rewrite ?elem_of_cons, ?elem_of_nil;
      intuition (try discriminate).
  - reflexivity.
  - by destruct pdl, (plsz =? -1), (prsz =? -1).
  - by destruct pdl.
  - unfold FileExists.SetFileExistsAction, FileExists.skip_transfer,
      FileExists.earlier, FileExists.later. simpl.
    destruct lt as [l|], rt as [r|], dl, pdl, (lsz =? rsz), (lsz =? -1);
      simpl; try reflexivity;
      destruct (FileExists.IsEarlierThan l r),
        (FileExists.IsLaterThan l r); reflexivity.
  - unfold FileExists.SetFileExistsAction. simpl.
    eexists. split; [reflexivity|]. intros Hknown.
    destruct pdl; simpl.
    + apply Z.eqb_neq in Hknown. by rewrite Hknown.
    + apply Z.eqb_neq in Hknown. by rewrite Hknown.
Qed.

Example SetFileExistsAction_run :
  let n := FileExists.Notification.FileExistsNotification
             FileExists.overwriteNewer (Some 50) (Some 40) true 10 10
             EmptyString in
  let pData := FileExists.OpData.FileTransferOpData true EmptyString
                 EmptyString 10 10 None false in
  let env := FileExists.RenameEnv (fun _ s => s) (fun _ => None)
               (fun _ => None) (fun _ => true) in
  snd (fst (FileExists.SetFileExistsAction env n (Some pData)))
  = [FileExists.LogSkipDownload; FileExists.ResetOperation_OK]
  /\ snd (fst (FileExists.SetFileExistsAction env
                 (with_action FileExists.overwriteSize n) (Some pData)))
     = [FileExists.LogSkipDownload; FileExists.ResetOperation_OK]
  /\ snd (fst (FileExists.SetFileExistsAction env
                 (with_action FileExists.overwrite n) (Some pData)))
     = [FileExists.SendNextCommand].
Proof. repeat split; reflexivity. Qed.

(** ** Proofs about the socket options *)

Lemma has_bit_lxor_flag (a b bit : Z) :
  bit = flag_nodelay \/ bit = flag_keepalive ->
  has_bit (Z.lxor a b) bit = xorb (has_bit a bit) (has_bit b bit).
Proof.
  intros [->| ->].
  - change flag_nodelay with (2 ^ 0).
    rewrite !has_bit_pow2 by lia. apply Z.lxor_spec.
  - change flag_keepalive with (2 ^ 1).
    rewrite !has_bit_pow2 by lia. apply Z.lxor_spec.
Qed.

(** X23. [SetFlags] keeps the descriptor in step with [m_flags] at the
    cost of one call per changed flag.  On a socket with a descriptor whose
    options agree with [m_flags], and with every [setsockopt] succeeding,
    the call stores the new flags, issues [setsockopt] for exactly the
    options whose flag changes, [TCP_NODELAY] first, after which the options
    agree with the new flags; the buffer sizes are not touched, and calling
    it again with the same flags issues no call at all. *)
Theorem SetFlags_in_sync (P : platform) (answer : sockopt_name -> Z -> Z * Z)
    (flags : Z) (o : socket_options) (w : world) (k : sockopts) :
  m_fd w <> -1 ->
  flags_in_effect (m_flags o) k ->
  (forall name v, fst (answer name v) = 0) ->
  let r := Options.SetFlags P answer flags o w k in
  m_flags (fst (fst r)) = flags
  /\ flags_in_effect flags (snd r)
  /\ calls (snd r) = calls k ++ flag_updates (m_flags o) flags
  /\ rcvbuf (snd r) = rcvbuf k /\ sndbuf (snd r) = sndbuf k
  /\ calls (snd (Options.SetFlags P answer flags (fst (fst r)) (snd (fst r))
                   (snd r)))
     = calls (snd r).
Proof.
  intros Hfd [Hnd Hka] Hok. cbv zeta.
  pose proof (Hok TCP_NODELAY 0) as E1.
  pose proof (Hok TCP_NODELAY 1) as E2.
  pose proof (Hok SO_KEEPALIVE 0) as E3.
  pose proof (Hok SO_KEEPALIVE 1) as E4.
  unfold Options.SetFlags.
  destruct w as [self h fd st thr host port fam cb q reap effs].
  simpl in Hfd. apply Z.eqb_neq in Hfd.
  destruct k as [nd ka rb sb cs]. unfold flags_in_effect in *.
  cbn [nodelay keepalive] in Hnd, Hka. subst nd ka.
  destruct thr as [t|]; cbn -[has_bit Z.lxor Options.DoSetFlags];
    rewrite !Hfd; cbn [negb fst snd m_flags];
    unfold Options.DoSetFlags, setsockopt, flag_updates;
    rewrite !has_bit_lxor_flag by tauto;
    rewrite !xorb_nilpotent;
    destruct (has_bit flags flag_nodelay),
      (has_bit (m_flags o) flag_nodelay),
      (has_bit flags flag_keepalive),
      (has_bit (m_flags o) flag_keepalive);
    cbn [xorb];
    destruct (answer TCP_NODELAY 0) as [r1 e1];
    destruct (answer TCP_NODELAY 1) as [r2 e2];
    destruct (answer SO_KEEPALIVE 0) as [r3 e3];
    destruct (answer SO_KEEPALIVE 1) as [r4 e4];
    cbn [fst] in E1, E2, E3, E4; subst r1 r2 r3 r4;
    cbn [Z.eqb negb fst snd nodelay keepalive rcvbuf sndbuf calls];
    rewrite ?app_nil_r, <- ?app_assoc; repeat split; reflexivity.
Qed.

Lemma SetFlags_in_sync_witness :
  let r := Options.SetFlags linux (fun _ _ => (0, 0)) 3
             (SocketOptions 1 (-1, -1)) busy_socket
             (SockOpts 1 0 (-1) (-1) []) in
  calls (snd r) = [(SO_KEEPALIVE, 1)]
  /\ nodelay (snd r) = 1 /\ keepalive (snd r) = 1.
Proof.
  cbv zeta.
  destruct (SetFlags_in_sync linux (fun _ _ => (0, 0)) 3
              (SocketOptions 1 (-1, -1)) busy_socket
              (SockOpts 1 0 (-1) (-1) []))
    as (_ & (Hnd & Hka) & Hcalls & _).
  - discriminate.
  - split; reflexivity.
  - reflexivity.
  - split; [exact Hcalls|]. split; [exact Hnd|exact Hka].
Defined.

(** ** Proofs about the [select] loop *)

Lemma move_bit (trig wt k : Z) :
  0 <= k ->
  has_bit wt (2 ^ k) = true ->
  Z.lor (Z.lor trig (2 ^ k)) (clear_bit wt (2 ^ k)) = Z.lor trig wt.
Proof.
  intros Hk Hb. rewrite has_bit_pow2 in Hb by done.
  unfold clear_bit. apply Z.bits_inj'. intros n Hn.
  rewrite !Z.lor_spec, Z.land_spec, Z.lnot_spec, Z.pow2_bits_eqb by done.
  destruct (k =? n) eqn:Hkn.
  - apply Z.eqb_eq in Hkn. subst n. rewrite Hb.
    by rewrite orb_true_r, !orb_true_l.
  - by rewrite orb_false_r, andb_true_r.
Qed.

(** X24. One round of the [select] loop moves bits from [m_waiting] to
    [m_triggered] and does nothing else to the worker.  After the owner's
    interference while the mutex was released, the round leaves the union
    of the two masks as it is, never triggers [WAIT_CLOSE], stores an error
    only for a completed connect, and does nothing to the socket but retake
    the lock.  While a connect is awaited neither read nor accept is
    triggered.  It returns true only when something is triggered or nothing
    is awaited, and false exactly when the worker must quit, has lost its
    socket or the descriptor, or [select] failed with an error other than
    [EINTR]. *)
Theorem DoWait_body_moves_bits (P : platform)
    (meanwhile : CSocketThread -> world -> CSocketThread * world)
    (sel : select_result) (t : CSocketThread) (w : world) :
  let '(t1, w1) := meanwhile t (perform Unlock w) in
  let '(r, t', w') := Select.DoWait_body P meanwhile sel t w in
  Z.lor (m_triggered t') (m_waiting t')
  = Z.lor (m_triggered t1) (m_waiting t1)
  /\ has_bit (m_triggered t') WAIT_CLOSE = has_bit (m_triggered t1) WAIT_CLOSE
  /\ (forall i : nat, (1 <= i)%nat ->
        nth i (m_triggered_errors t') 0 = nth i (m_triggered_errors t1) 0)
  /\ w' = perform Lock w1
  /\ (has_bit (m_waiting t1) WAIT_CONNECT = true ->
      has_bit (m_triggered t') WAIT_READ = has_bit (m_triggered t1) WAIT_READ
      /\ has_bit (m_triggered t') WAIT_ACCEPT
         = has_bit (m_triggered t1) WAIT_ACCEPT)
  /\ (r = Some true -> m_triggered t' <> 0 \/ m_waiting t' = 0)
  /\ (r = Some false <->
      m_quit t1 = true \/ m_pSocket t1 = false \/ m_fd w1 = -1
      \/ sel_res sel = -1 /\ sel_errno sel <> EINTR P).
Proof.
  unfold Select.DoWait_body.
  destruct (meanwhile t (perform Unlock w)) as [t1 w1].
  assert (Hfd : m_fd (perform Lock w1) = m_fd w1) by (by destruct w1).
  rewrite Hfd.
  destruct t1 as [sk ph pp pipe started quit finished wt trig errs tw].
  cbn [m_quit m_pSocket m_waiting m_triggered m_triggered_errors].
  destruct quit; cbn [orb negb];
    [repeat split; try done; try (intros; by left); intros ?; by left|].
  destruct sk; cbn [orb negb];
    [|repeat split; try done; intros ?; right; by left].
  destruct (m_fd w1 =? -1) eqn:Hgone.
  { apply Z.eqb_eq in Hgone. repeat split; try done.
    intros _. right. right. by left. }
  apply Z.eqb_neq in Hgone.
  assert (Hno : forall A : Prop,
            (false = true \/ true = false \/ m_fd w1 = -1 \/ A) -> A)
    by (intros A [?|[?|[?|?] ] ]; done).
  destruct (sel_res sel =? 0) eqn:Hzero.
  { apply Z.eqb_eq in Hzero. repeat split; try done.
    intros H. apply Hno in H. lia. }
  destruct (sel_res sel =? -1) eqn:Hfail.
  { apply Z.eqb_eq in Hfail.
    destruct (sel_errno sel =? EINTR P) eqn:Hintr.
    - apply Z.eqb_eq in Hintr. repeat split; try done.
      intros H. apply Hno in H. tauto.
    - apply Z.eqb_neq in Hintr. repeat split; try done.
      intros _. right. right. right. done. }
  apply Z.eqb_neq in Hfail.
  set (rd := negb (has_bit (m_waiting t) WAIT_CONNECT) && ready_read sel).
  set (wr := has_bit (m_waiting t) (Z.lor WAIT_WRITE WAIT_CONNECT)
             && ready_write sel).
  clearbody rd wr.
  destruct (so_error sel) as [ [gres gerr] gerrno].
  change WAIT_CONNECT with (2 ^ 0). change WAIT_READ with (2 ^ 1).
  change WAIT_WRITE with (2 ^ 2). change WAIT_ACCEPT with (2 ^ 3).
  change WAIT_CLOSE with (2 ^ 4).
  assert (Hend : forall (t' : CSocketThread),
            Z.lor (m_triggered t') (m_waiting t') = Z.lor trig wt ->
            has_bit (m_triggered t') (2 ^ 4) = has_bit trig (2 ^ 4) ->
            (forall i : nat, (1 <= i)%nat ->
               nth i (m_triggered_errors t') 0 = nth i errs 0) ->
            (has_bit wt (2 ^ 0) = true ->
             has_bit (m_triggered t') (2 ^ 1) = has_bit trig (2 ^ 1)
             /\ has_bit (m_triggered t') (2 ^ 3) = has_bit trig (2 ^ 3)) ->
            let '(r, t'', w') :=
              if negb (m_triggered t' =? 0) || (m_waiting t' =? 0)
              then (Some true, t', perform Lock w1)
              else (None, t', perform Lock w1) in
            Z.lor (m_triggered t'') (m_waiting t'') = Z.lor trig wt
            /\ has_bit (m_triggered t'') (2 ^ 4) = has_bit trig (2 ^ 4)
            /\ (forall i : nat, (1 <= i)%nat ->
                  nth i (m_triggered_errors t'') 0 = nth i errs 0)
            /\ w' = perform Lock w1
            /\ (has_bit wt (2 ^ 0) = true ->
                has_bit (m_triggered t'') (2 ^ 1) = has_bit trig (2 ^ 1)
                /\ has_bit (m_triggered t'') (2 ^ 3) = has_bit trig (2 ^ 3))
            /\ (r = Some true -> m_triggered t'' <> 0 \/ m_waiting t'' = 0)
            /\ (r = Some false <->
                false = true \/ true = false \/ m_fd w1 = -1
                \/ sel_res sel = -1 /\ sel_errno sel <> EINTR P)).
  { intros t' H1 H2 H3 H4.
    destruct (m_triggered t' =? 0) eqn:Ht; cbn [negb orb].
    - destruct (m_waiting t' =? 0) eqn:Hw.
      + apply Z.eqb_eq in Hw. repeat split; try done; try (by apply H4).
        * intros _. by right.
        * intros H. apply Hno in H. lia.
      + repeat split; try done; try (by apply H4).
        intros H. apply Hno in H. lia.
    - apply Z.eqb_neq in Ht. repeat split; try done; try (by apply H4).
      + intros _. by left.
      + intros H. apply Hno in H. lia. }
  destruct (has_bit wt (2 ^ 0)) eqn:Hc;
    [|destruct (has_bit wt (2 ^ 3)) eqn:Ha;
      [|destruct (has_bit wt (2 ^ 1)) eqn:Hr] ];
    destruct wr, rd;
    cbn [set_m_waiting set_m_triggered set_m_triggered_errors m_waiting
         m_triggered m_triggered_errors];
    rewrite ?has_bit_clear_other by reflexivity;
    destruct (has_bit wt (2 ^ 2)) eqn:Hw;
    cbn [set_m_waiting set_m_triggered set_m_triggered_errors m_waiting
         m_triggered m_triggered_errors];
    match goal with
    | |- context [(Some true, ?t0, _)] => apply (Hend t0)
    end;
    cbn [set_m_waiting set_m_triggered set_m_triggered_errors m_waiting
         m_triggered m_triggered_errors];
    rewrite ?move_bit by (rewrite ?has_bit_clear_other by reflexivity; done);
    rewrite ?has_bit_lor_other by lia;
    try done;
    try (intros i Hi; destruct i as [|i]; [lia|];
         destruct errs; reflexivity).
Qed.

Lemma select_quiet_change (t t' : CSocketThread) :
  select_quiet t ->
  has_bit (m_triggered t') WAIT_CLOSE = has_bit (m_triggered t) WAIT_CLOSE ->
  (forall i : nat, (1 <= i)%nat ->
     nth i (m_triggered_errors t') 0 = nth i (m_triggered_errors t) 0) ->
  select_quiet t'.
Proof.
  intros [Hq1 Hq2] Hb He. split; [congruence|].
  intros i Hi. rewrite He by done. by apply Hq2.
Qed.

Lemma DoWait_body_quiet (P : platform)
    (meanwhile : CSocketThread -> world -> CSocketThread * world)
    (sel : select_result) (t : CSocketThread) (w : world) :
  select_quiet (fst (meanwhile t (perform Unlock w))) ->
  select_quiet (snd (fst (Select.DoWait_body P meanwhile sel t w))).
Proof.
  intros Hq. unfold Select.DoWait_body.
  destruct (meanwhile t (perform Unlock w)) as [t1 w1]. simpl in Hq.
  destruct (m_quit t1 || negb (m_pSocket t1) || (m_fd (perform Lock w1) =? -1));
    [exact Hq|].
  destruct (sel_res sel =? 0); [exact Hq|].
  destruct (sel_res sel =? -1);
    [by destruct (sel_errno sel =? EINTR P)|].
  destruct (so_error sel) as [ [gres gerr] gerrno].
  destruct t1 as [sk ph pp pipe started quit finished wt trig errs tw].
  cbv zeta.
  cbn [m_waiting m_triggered m_triggered_errors set_m_waiting
       set_m_triggered set_m_triggered_errors].
  repeat match goal with
         | |- context [if ?b then _ else _] =>
             destruct b;
             cbn [m_waiting m_triggered m_triggered_errors set_m_waiting
                  set_m_triggered set_m_triggered_errors fst snd]
         end;
    apply (select_quiet_change _ _ Hq);
    cbn [m_waiting m_triggered m_triggered_errors];
    rewrite ?has_bit_close_lor by tauto; try done;
    intros i Hi; rewrite ?nth_insert_0 by done; done.
Qed.

Lemma connect_rounds_quiet (P : platform) (rounds : list wait_round) :
  forall (t : CSocketThread) (w : world) (ok : bool) (t' : CSocketThread)
         (w' : world) (rest : list wait_round),
    msw P = false ->
    Forall (fun rd => stays_quiet (wait_owner rd)) rounds ->
    select_quiet t ->
    SocketThread.DoWait_rounds P rounds t w = returned (ok, t', w', rest) ->
    select_quiet t' /\ Forall (fun rd => stays_quiet (wait_owner rd)) rest.
Proof.
  induction rounds as [|rd rounds IH];
    intros t w ok t' w' rest Hmsw Hown Hq H; simpl in H.
  { by destruct (negb (m_pSocket t)). }
  destruct (negb (m_pSocket t)); [discriminate|].
  apply Forall_cons in Hown as [Hrd Hown].
  unfold SocketThread.DoWait_round in H. rewrite Hmsw in H.
  pose proof (DoWait_body_quiet P (wait_owner rd) (selected rd) t w
                (Hrd _ _ Hq)) as Hq1.
  destruct (Select.DoWait_body P (wait_owner rd) (selected rd) t w)
    as [ [ [b|] t1] w1]; simpl in Hq1.
  - injection H as <- <- <- <-. by split.
  - by apply (IH t1 w1 ok t' w' rest).
Qed.

Lemma wait_connect_quiet (P : platform) (calls : nat) :
  forall (rounds : list wait_round) (t : CSocketThread) (w : world)
         (ok : bool) (t' : CSocketThread) (w' : world)
         (rest : list wait_round),
    msw P = false ->
    Forall (fun rd => stays_quiet (wait_owner rd)) rounds ->
    select_quiet t ->
    SocketThread.wait_connect P calls rounds t w
    = returned (ok, t', w', rest) ->
    select_quiet t'.
Proof.
  induction calls as [|calls IH];
    intros rounds t w ok t' w' rest Hmsw Hown Hq H; simpl in H;
    [discriminate|].
  unfold SocketThread.DoWait in H.
  assert (Hq0 : select_quiet
                  (set_m_waiting (Z.lor (m_waiting t) WAIT_CONNECT) t))
    by (by destruct t).
  destruct (SocketThread.DoWait_rounds P rounds _ w)
    as [| |[ [ [b t1] w1] rest1] ] eqn:Hcall; [discriminate|discriminate|].
  destruct (connect_rounds_quiet P rounds _ w b t1 w1 rest1 Hmsw Hown Hq0
              Hcall) as (Hq1 & Hrest).
  destruct (has_bit (m_triggered t1) WAIT_CONNECT);
    [by injection H as <- <- <- <-|].
  destruct b; [by eapply IH|by injection H as <- <- <- <-].
Qed.

Lemma TryConnectHost_quiet (P : platform) (addr : addrinfo) (ai_next : bool)
    (t t' : CSocketThread) (w w' : world) (res : Z) :
  msw P = false ->
  Forall (fun rd => stays_quiet (wait_owner rd)) (waits addr) ->
  select_quiet t ->
  SocketThread.TryConnectHost P addr ai_next t w = returned (res, t', w') ->
  select_quiet t'.
Proof.
  intros Hmsw Hown Hq H. unfold SocketThread.TryConnectHost in H.
  destruct (negb (m_pSocket t)); [discriminate|].
  destruct (sys_socket addr) as [fd serr].
  destruct (fd =? -1); [by injection H as <- <- <-|].
  destruct (sys_connect addr) as [cres cerr].
  match type of H with
  | context [if ?r =? EINPROGRESS P then _ else _] => set (r0 := r) in H
  end.
  assert (Harm : forall t0 : CSocketThread,
            select_quiet t0 ->
            select_quiet
              (set_m_waiting
                 (Z.lor (m_waiting t0) (Z.lor WAIT_READ WAIT_WRITE)) t0))
    by (intros t0 Hq0; by destruct t0).
  destruct (r0 =? EINPROGRESS P).
  - destruct (SocketThread.wait_connect P _ (waits addr) t _)
      as [| |[ [ [ok t1] w1] rest] ] eqn:Hwait; [discriminate|discriminate|].
    apply (wait_connect_quiet _ _ _ _ _ _ _ _ _ Hmsw Hown Hq) in Hwait.
    destruct ok; simpl in H; [|by injection H as <- <- <-].
    assert (Hq2 : select_quiet
                    (set_m_triggered
                       (clear_bit (m_triggered t1) WAIT_CONNECT) t1)).
    { apply (select_quiet_change _ _ Hwait); destruct t1; simpl; [|done].
      by apply has_bit_clear_other. }
    destruct t1 as [sk ph pp pipe started quit finished waiting trig errs tw].
    simpl in H.
    destruct (nth 0 errs 0 =? 0); simpl in H; injection H as <- <- <-;
      [by apply (Harm _ Hq2)|exact Hq2].
  - destruct (r0 =? 0); simpl in H; injection H as <- <- <-;
      [by apply Harm|exact Hq].
Qed.

Lemma connect_loop_quiet (P : platform) (l : list addrinfo) :
  forall (t t' : CSocketThread) (w w' : world) (r : option bool),
    msw P = false ->
    Forall (fun addr =>
              Forall (fun rd => stays_quiet (wait_owner rd)) (waits addr)) l ->
    select_quiet t ->
    SocketThread.connect_loop P l t w = returned (r, t', w') ->
    select_quiet t'.
Proof.
  induction l as [|addr l IH]; intros t t' w w' r Hmsw Hown Hq H;
    simpl in H.
  - by injection H as <- <- <-.
  - apply Forall_cons in Hown as [Ha Hown].
    destruct (SocketThread.TryConnectHost P addr _ t w)
      as [| |[ [res t1] w1] ] eqn:Htry; [discriminate|discriminate|].
    apply (TryConnectHost_quiet _ _ _ _ _ _ _ _ Hmsw Ha Hq) in Htry.
    destruct (res =? -1); [by injection H as <- <- <-|].
    destruct (negb (res =? 0)); [by injection H as <- <- <-|].
    by eapply IH.
Qed.

Lemma DoConnect_quiet (P : platform) (r : resolution) (t t' : CSocketThread)
    (w w' : world) (b : bool) :
  msw P = false ->
  stays_quiet (before_hints r) ->
  stays_quiet (meanwhile r) ->
  Forall (fun addr =>
            Forall (fun rd => stays_quiet (wait_owner rd)) (waits addr))
    (addressList r) ->
  select_quiet t ->
  SocketThread.DoConnect P r t w = returned (b, t', w') ->
  select_quiet t'.
Proof.
  intros Hmsw Hbefore Hmean Hown Hq H. unfold SocketThread.DoConnect in H.
  destruct (m_pHost t) as [host|] eqn:Hh;
    [|destruct (negb (m_pSocket t)); [discriminate|];
      by injection H as <- <- <-].
  destruct (m_pPort t) as [port|] eqn:Hp;
    [|destruct (negb (m_pSocket t)); [discriminate|];
      by injection H as <- <- <-].
  assert (Hq0 : select_quiet (set_m_pPort None (set_m_pHost None t)))
    by (by destruct t).
  pose proof (Hbefore _ (perform Unlock w) Hq0) as Hqa.
  destruct (before_hints r _ _) as [ta wa]. simpl in Hqa.
  destruct (negb (m_pSocket ta)); [discriminate|].
  pose proof (Hmean _ wa Hqa) as Hq1.
  destruct (meanwhile r _ _) as [t1 w1]. simpl in Hq1.
  unfold SocketThread.Lock_ in H.
  destruct (negb (negb (m_quit t1 || negb (m_pSocket t1))));
    [by injection H as <- <- <-|].
  destruct (negb (bool_decide (m_state (perform Lock w1) = connecting))
            || bool_decide (m_pHost t1 <> None));
    [by injection H as <- <- <-|].
  destruct (negb (gai_result r =? 0)); [by injection H as <- <- <-|].
  unfold SocketThread.try_addresses in H.
  destruct (SocketThread.connect_loop P (addressList r) t1 _)
    as [| |[ [ [ok|] t2] w2] ] eqn:Hloop; [discriminate|discriminate| |];
    apply (connect_loop_quiet _ _ _ _ _ _ _ Hmsw Hown Hq1) in Hloop;
    by injection H as <- <- <-.
Qed.

Lemma SendEvents_quiet (P : platform) (peek : Z) (t : CSocketThread)
    (w : world) :
  select_quiet t ->
  select_quiet (fst (SocketThread.SendEvents P peek t w))
  /\ exists sent,
       m_pending_events (snd (SocketThread.SendEvents P peek t w))
       = m_pending_events w ++ sent
       /\ Forall (fun e => m_type e <> close /\ m_error e = 0) sent.
Proof.
  intros [Hc He]. unfold SocketThread.SendEvents.
  destruct t as [sk ph pp pipe started quit finished wt trig errs tw].
  destruct w as [self hd fd st thr host port fam cb q reap effs].
  simpl in Hc, He.
  pose proof (He 1%nat ltac:(lia)) as H1.
  pose proof (He 2%nat ltac:(lia)) as H2.
  pose proof (He 3%nat ltac:(lia)) as H3.
  assert (Hnil : forall x : CSocketThread * world,
            select_quiet (fst x) ->
            m_pending_events (snd x) = q ->
            select_quiet (fst x)
            /\ exists sent, m_pending_events (snd x) = q ++ sent
                 /\ Forall (fun e => m_type e <> close /\ m_error e = 0) sent).
  { intros x Hx Hq. split; [exact Hx|]. exists []. by rewrite app_nil_r. }
  cbn [m_pSocket m_pEvtHandler negb].
  destruct sk; cbn [negb]; [|by apply Hnil].
  destruct hd as [h|]; [|by apply Hnil].
  cbn [m_triggered m_triggered_errors m_synchronous_read_cb].
  destruct cb;
    destruct (has_bit trig WAIT_READ) eqn:Hr;
    destruct (has_bit trig WAIT_WRITE) eqn:Hw;
    destruct (has_bit trig WAIT_ACCEPT) eqn:Ha;
    repeat (cbn -[has_bit clear_bit nth];
            rewrite ?has_bit_clear_other by reflexivity;
            rewrite ?has_bit_clear_same;
            rewrite ?Hr, ?Hw, ?Ha, ?Hc, ?H1, ?H2, ?H3).
  all: split;
    [ split; simpl;
      [ rewrite ?has_bit_clear_other by reflexivity; exact Hc
      | exact He ]
    | eexists; split;
      [ rewrite <- ?app_assoc; simpl; try reflexivity;
        by rewrite app_nil_r
      | repeat constructor; simpl; done ] ].
Qed.

(** X25. The worker that waits with [select] never reports a close.
    Call a worker quiet when [WAIT_CLOSE] is not triggered and no error is
    recorded for anything but a connect; a fresh worker is quiet and
    [Close] leaves the worker quiet.  A quiet worker stays quiet through a
    round of the [select] loop and through [DoConnect], its waits for a
    connect included, as long as the owner's interference keeps it quiet,
    and through the re-arming done by [Read] and [Write].  Its [SendEvents] leaves it quiet and sends no close
    event, and every event it sends carries the error 0. *)
Theorem select_worker_never_closes (P : platform) (t : CSocketThread) :
  select_quiet t ->
  select_quiet new_CSocketThread
  /\ (forall meanwhile sel w,
        select_quiet (fst (meanwhile t (perform Unlock w))) ->
        select_quiet (snd (fst (Select.DoWait_body P meanwhile sel t w))))
  /\ (forall r w b t' w',
        msw P = false ->
        stays_quiet (before_hints r) ->
        stays_quiet (meanwhile r) ->
        Forall (fun addr =>
                  Forall (fun rd => stays_quiet (wait_owner rd)) (waits addr))
          (addressList r) ->
        SocketThread.DoConnect P r t w = returned (b, t', w') ->
        select_quiet t')
  /\ (forall peek w,
        select_quiet (fst (SocketThread.SendEvents P peek t w))
        /\ exists sent,
             m_pending_events (snd (SocketThread.SendEvents P peek t w))
             = m_pending_events w ++ sent
             /\ Forall (fun e => m_type e <> close /\ m_error e = 0) sent)
  /\ (forall bit w,
        bit = WAIT_READ \/ bit = WAIT_WRITE ->
        m_pSocketThread w = Some t ->
        exists t1, m_pSocketThread (Socket.arm bit w) = Some t1
                   /\ select_quiet t1)
  /\ (forall w t0,
        m_pSocketThread w = Some t0 ->
        exists t1, m_pSocketThread (snd (Socket.Close w)) = Some t1
                   /\ select_quiet t1).
Proof.
  intros Hq.
  split; [split; [reflexivity|] |].
  { intros i Hi. destruct i as [|[|[|[|[|[|i] ] ] ] ] ]; reflexivity. }
  split; [intros meanwhile sel w; apply DoWait_body_quiet|].
  split; [intros r w b t' w' Hmsw Hbefore Hmean Hown; by apply DoConnect_quiet|].
  split; [intros peek w; by apply SendEvents_quiet|].
  split.
  - intros bit w Hbit Ht. unfold Socket.arm. rewrite Ht.
    unfold SocketThread.WakeupThread.
    destruct t as [sk ph pp pipe started quit finished wt trig errs tw].
    destruct w as [self hd fd st thr host port fam cb q reap effs].
    simpl.
    destruct (has_bit wt bit), started, finished, tw; simpl;
      eexists; (split; [reflexivity|exact Hq]).
  - intros w t0 Ht. unfold Socket.Close. rewrite Ht.
    unfold SocketThread.WakeupThread.
    destruct t0 as [sk ph pp pipe started quit finished wt trig errs tw].
    destruct w as [self hd fd st thr host port fam cb q reap effs].
    simpl.
    destruct tw, started, finished, (fd =? -1), hd; simpl;
      eexists; (split; [reflexivity|]);
      (split; [reflexivity|]);
      intros i Hi; destruct i as [|[|[|[|[|[|i] ] ] ] ] ]; reflexivity.
Qed.

Lemma select_worker_never_closes_witness :
  let t := set_m_triggered (Z.lor WAIT_READ WAIT_WRITE) resolving_thread in
  m_type <$> m_pending_events
               (snd (SocketThread.SendEvents linux 0 t busy_socket))
  = [read; read; read; write]
  /\ select_quiet (fst (SocketThread.SendEvents linux 0 t busy_socket)).
Proof.
  cbv zeta.
  assert (Hq : select_quiet
                 (set_m_triggered (Z.lor WAIT_READ WAIT_WRITE)
                    resolving_thread)).
  { split; [reflexivity|].
    intros i Hi. destruct i as [|[|[|[|[|[|i] ] ] ] ] ]; reflexivity. }
  destruct (select_worker_never_closes linux _ Hq)
    as (_ & _ & _ & Hsend & _).
  destruct (Hsend 0 busy_socket) as (Hquiet & _).
  split; [reflexivity|exact Hquiet].
Defined.

(** ** Proofs about the worker's loops *)

Lemma IdleLoop_while_returns (wakes : list interference) :
  forall (t : CSocketThread) (w : world) b t' w',
    m_quit t = false ->
    Worker.IdleLoop_while wakes t w = Some (b, t', w') ->
    if b then m_quit t' = false /\ m_pSocket t' = true
              /\ (m_waiting t' <> 0 \/ m_pHost t' <> None)
    else m_quit t' = true.
Proof.
  induction wakes as [|wake wakes IH]; intros t w b t' w' Hq H;
    cbn [Worker.IdleLoop_while] in H.
  - destruct (m_pSocket t) eqn:Hs; cbn [negb orb] in H; [|done].
    destruct (m_waiting t =? 0) eqn:Hw; cbn [andb] in H.
    + destruct (m_pHost t) eqn:Hh; cbn [non_null negb] in H; [|done].
      inversion H; subst. repeat split; try done. right. by rewrite Hh.
    + inversion H; subst. apply Z.eqb_neq in Hw. by repeat split; try left.
  - destruct (negb (m_pSocket t)
              || (m_waiting t =? 0) && negb (non_null (m_pHost t))) eqn:Hc.
    + destruct (wake (set_m_threadwait true t) w) as [t1 w1].
      destruct (m_quit t1) eqn:Hq1.
      * by inversion H; subst.
      * by apply (IH t1 w1 b t' w').
    + inversion H; subst.
      destruct (m_pSocket t') eqn:Hs; cbn [negb orb] in Hc; [|done].
      destruct (m_waiting t' =? 0) eqn:Hw; cbn [andb] in Hc.
      * destruct (m_pHost t') eqn:Hh; cbn [non_null negb] in Hc; [|done].
        repeat split; try done. by right.
      * apply Z.eqb_neq in Hw. by repeat split; try left.
Qed.

Lemma IdleLoop_returns (wakes : list interference) (t : CSocketThread)
    (w : world) b t' w' :
  Worker.IdleLoop wakes t w = Some (b, t', w') ->
  if b then m_quit t' = false /\ m_pSocket t' = true
            /\ (m_waiting t' <> 0 \/ m_pHost t' <> None)
  else m_quit t' = true.
Proof.
  unfold Worker.IdleLoop. destruct (m_quit t) eqn:Hq.
  - intros H. by inversion H; subst.
  - by apply (IdleLoop_while_returns wakes t w b t' w').
Qed.

Lemma DoWait_body_socket (P : platform) (meanwhile : interference)
    (sel : select_result) (t : CSocketThread) (w : world) t' w' :
  Select.DoWait_body P meanwhile sel t w = (None, t', w') ->
  m_pSocket t' = true.
Proof.
  unfold Select.DoWait_body.
  destruct (meanwhile t (perform Unlock w)) as [t1 w1].
  destruct t1 as [sk ph pp pipe started quit finished wt trig errs tw].
  cbn [m_quit m_pSocket].
  destruct quit; cbn [orb]; [done|].
  destruct sk; cbn [negb orb]; [|done].
  intros H.
  repeat match type of H with
         | (if ?c then _ else _) = _ => destruct c
         | (let '(_, _) := ?x in _) = _ => destruct x
         | context [if ?c then _ else _] => destruct c
         | context [let '(_, _) := ?x in _] => destruct x
         end;
    by inversion H.
Qed.

Lemma DoWait_rounds_safe (P : platform)
    (rounds : list (interference * select_result)) :
  forall (t : CSocketThread) (w : world),
    m_pSocket t = true ->
    Worker.DoWait_rounds P rounds t w <> null_dereference.
Proof.
  induction rounds as [|[meanwhile sel] rounds IH]; intros t w Hs;
    cbn [Worker.DoWait_rounds]; rewrite Hs; cbn [negb]; [done|].
  destruct (Select.DoWait_body P meanwhile sel t w) as [ [ [res|] t1] w1]
    eqn:Hbody; [done|].
  apply IH. eapply DoWait_body_socket. exact Hbody.
Qed.

Lemma DoWait_body_world (P : platform) (meanwhile : interference)
    (sel : select_result) (t : CSocketThread) (w : world) :
  snd (Select.DoWait_body P meanwhile sel t w)
  = perform Lock (snd (meanwhile t (perform Unlock w))).
Proof.
  unfold Select.DoWait_body.
  destruct (meanwhile t (perform Unlock w)) as [t1 w1]. cbn [snd].
  repeat match goal with
         | |- snd (if ?c then _ else _) = _ => destruct c
         | |- context [if ?c then _ else _] => destruct c
         | |- context [let '(_, _) := ?x in _] => destruct x
         end; reflexivity.
Qed.

Lemma m_state_perform (e : effect) (w : world) :
  m_state (perform e w) = m_state w.
Proof. by destruct w. Qed.

Lemma select_quiet_threadwait (v : bool) (t : CSocketThread) :
  select_quiet t -> select_quiet (set_m_threadwait v t).
Proof. by destruct t. Qed.

Lemma select_quiet_waiting (v : Z) (t : CSocketThread) :
  select_quiet t -> select_quiet (set_m_waiting v t).
Proof. by destruct t. Qed.

Lemma IdleLoop_quiet (wakes : list interference) :
  forall (t : CSocketThread) (w : world) b t' w',
    Forall keeps_quiet wakes ->
    select_quiet t -> m_state w <> closing ->
    Worker.IdleLoop_while wakes t w = Some (b, t', w') ->
    select_quiet t' /\ m_state w' <> closing.
Proof.
  induction wakes as [|wake wakes IH]; intros t w b t' w' Hk Hq Hst H;
    cbn [Worker.IdleLoop_while] in H.
  - destruct (negb (m_pSocket t)
              || (m_waiting t =? 0) && negb (non_null (m_pHost t)));
      [done|]. by inversion H; subst.
  - destruct (negb (m_pSocket t)
              || (m_waiting t =? 0) && negb (non_null (m_pHost t)));
      [|by inversion H; subst].
    apply Forall_cons in Hk as [Hwake Hk].
    destruct (Hwake (set_m_threadwait true t) w) as [Hq1 Hst1];
      [by apply select_quiet_threadwait|done|].
    destruct (wake (set_m_threadwait true t) w) as [t1 w1].
    cbn [fst snd] in Hq1, Hst1.
    destruct (m_quit t1); [by inversion H; subst|].
    by apply (IH t1 w1 b t' w').
Qed.

Lemma DoWait_rounds_quiet (P : platform)
    (rounds : list (interference * select_result)) :
  forall (t : CSocketThread) (w : world) b t' w',
    Forall (fun r => keeps_quiet (fst r)) rounds ->
    select_quiet t -> m_state w <> closing ->
    Worker.DoWait_rounds P rounds t w = returned (b, t', w') ->
    select_quiet t' /\ m_state w' <> closing.
Proof.
  induction rounds as [|[meanwhile sel] rounds IH];
    intros t w b t' w' Hk Hq Hst H; cbn [Worker.DoWait_rounds] in H;
    destruct (m_pSocket t); cbn [negb] in H; try done.
  apply Forall_cons in Hk as [Hm Hk]. cbn [fst] in Hm.
  destruct (Hm t (perform Unlock w)) as [Hq1 Hst1];
    [done|by rewrite m_state_perform|].
  pose proof (DoWait_body_quiet P meanwhile sel t w Hq1) as Hq2.
  pose proof (DoWait_body_world P meanwhile sel t w) as Hw2.
  destruct (Select.DoWait_body P meanwhile sel t w) as [ [res t2] w2].
  cbn [fst snd] in Hq2, Hw2.
  assert (Hst2 : m_state w2 <> closing)
    by (by rewrite Hw2, m_state_perform).
  destruct res as [res|].
  - by inversion H; subst.
  - by apply (IH t2 w2 b t' w').
Qed.

(** X27. A turn of the worker's loops in [Entry] never dereferences
    [m_pSocket] while it is null, whatever the owner does to the worker
    while the mutex is released in the idle wait or around [select]: the
    checks after every wait are enough.  A turn of the loop for a socket
    that is not listening, entered by a quiet worker whose socket is not
    closing, ends with a quiet worker and a socket that is not closing, as
    long as the owner keeps it that way: on a platform other than Windows
    the worker never moves the socket to the state closing. *)
Theorem Entry_rounds_safe (P : platform) (idle : list interference)
    (rounds : list (interference * select_result)) (peek : Z)
    (t : CSocketThread) (w : world) :
  Worker.listen_round P idle rounds peek t w <> null_dereference
  /\ Worker.serve_round P idle rounds peek t w <> null_dereference
  /\ (Forall keeps_quiet idle ->
      Forall (fun r => keeps_quiet (fst r)) rounds ->
      select_quiet t -> m_state w <> closing ->
      forall b t' w',
        Worker.serve_round P idle rounds peek t w = returned (b, t', w') ->
        select_quiet t' /\ m_state w' <> closing).
Proof.
  split; [|split].
  - unfold Worker.listen_round.
    destruct (Worker.IdleLoop idle t w) as [ [ [ [|] t1] w1]|] eqn:Hidle;
      try done.
    apply IdleLoop_returns in Hidle as (_ & Hs & _).
    rewrite Hs. cbn [negb].
    destruct (m_fd w1 =? -1); [done|].
    pose proof (DoWait_rounds_safe P rounds
                  (set_m_waiting (Z.lor (m_waiting t1) 0) t1) w1) as Hsafe.
    unfold Worker.DoWait.
    destruct (Worker.DoWait_rounds P rounds _ w1) as [| |[ [res t2] w2] ];
      [done|by apply Hsafe; destruct t1|].
    destruct res; cbn [negb]; [|done].
    by destruct (SocketThread.SendEvents P peek t2 w2).
  - unfold Worker.serve_round.
    destruct (Worker.IdleLoop idle t w) as [ [ [ [|] t1] w1]|] eqn:Hidle;
      try done.
    apply IdleLoop_returns in Hidle as (_ & Hs & _).
    rewrite Hs. cbn [negb].
    destruct (m_fd w1 =? -1); [done|].
    pose proof (DoWait_rounds_safe P rounds
                  (set_m_waiting (Z.lor (m_waiting t1) 0) t1) w1) as Hsafe.
    unfold Worker.DoWait.
    destruct (Worker.DoWait_rounds P rounds _ w1) as [| |[ [res t2] w2] ];
      [done|by apply Hsafe; destruct t1|].
    destruct res; cbn [negb]; [|done].
    by destruct (SocketThread.SendEvents P peek t2 _).
  - intros Hidle Hrounds Hq Hst b t' w' H.
    unfold Worker.serve_round in H.
    destruct (Worker.IdleLoop idle t w) as [ [ [b1 t1] w1]|] eqn:Hloop;
      [|done].
    assert (Hq1 : select_quiet t1 /\ m_state w1 <> closing).
    { unfold Worker.IdleLoop in Hloop. destruct (m_quit t).
      - by inversion Hloop; subst.
      - by apply (IdleLoop_quiet idle t w b1 t1 w1). }
    destruct Hq1 as [Hq1 Hst1].
    destruct b1; [|by inversion H; subst].
    destruct (m_pSocket t1); cbn [negb] in H; [|done].
    destruct (m_fd w1 =? -1).
    { inversion H; subst. split; [by apply select_quiet_waiting|done]. }
    unfold Worker.DoWait in H.
    destruct (Worker.DoWait_rounds P rounds _ w1) as [| |[ [res t2] w2] ]
      eqn:Hwait; try done.
    apply DoWait_rounds_quiet in Hwait as [Hq2 Hst2];
      [|done|by apply select_quiet_waiting|done].
    assert (Hno : has_bit (m_triggered t2) WAIT_CLOSE = false)
      by apply Hq2.
    rewrite Hno in H. cbn [andb] in H.
    destruct res; cbn [negb] in H; [|by inversion H; subst].
    pose proof (SendEvents_quiet P peek t2 w2 Hq2) as [Hq3 _].
    destruct (SendEvents_frame P peek t2 w2) as (q & effs & Hw3).
    destruct (SocketThread.SendEvents P peek t2 w2) as [t3 w3].
    cbn [fst snd] in Hq3, Hw3. inversion H; subst.
    split; [done|]. by destruct w2.
Qed.

(** Evaluation of the bit operations on masks that are known. *)
Ltac closed_bits :=
  repeat match goal with
         | |- context [Z.land ?a ?b] =>
             let v := eval vm_compute in (Z.land a b) in
             lazymatch v with
             | Z0 => idtac | Zpos _ => idtac | Zneg _ => idtac
             end;
             progress change (Z.land a b) with v
         | |- context [Z.lor ?a ?b] =>
             let v := eval vm_compute in (Z.lor a b) in
             lazymatch v with
             | Z0 => idtac | Zpos _ => idtac | Zneg _ => idtac
             end;
             progress change (Z.lor a b) with v
         | |- context [Z.lnot ?a] =>
             let v := eval vm_compute in (Z.lnot a) in
             lazymatch v with
             | Z0 => idtac | Zpos _ => idtac | Zneg _ => idtac
             end;
             progress change (Z.lnot a) with v
         | |- context [Z.eqb ?a ?b] =>
             let v := eval vm_compute in (Z.eqb a b) in
             lazymatch v with true => idtac | false => idtac end;
             progress change (Z.eqb a b) with v
         end.

(** X26. A [Read] that would block is answered by exactly one read event.
    When the worker of a socket with an event handler rests in its idle
    wait and the owner's [Read] reports [EAGAIN], the worker is woken
    through the condition (one [Signal], nothing posted to the pipe), waits
    in [select] for readability, and once the descriptor is readable sends
    one read event with error 0 to the handler, behind the pending events;
    it then rests again, with nothing awaited or triggered, and its next
    idle wait blocks until the owner calls again.  The state of the socket
    is left alone.  The same holds for [Write], writability and the write
    event; readiness for the direction not asked for sends nothing. *)
Theorem would_block_then_one_event (P : platform) (reading : bool)
    (raw peek : Z) (sel : select_result) (h : handler) (t : CSocketThread)
    (w : world) :
  last_error P raw = EAGAIN P ->
  resting t -> select_quiet t ->
  m_pEvtHandler w = Some h -> m_fd w <> -1 ->
  0 < sel_res sel ->
  (if reading then ready_read sel else ready_write sel) = true ->
  exists t' w',
    Worker.serve_round P [owner_calls (retry P reading raw)]
      [(fun t w => (t, w), sel)] peek t w
    = returned (true, t', w')
    /\ m_pending_events w'
       = m_pending_events w
         ++ [CSocketEvent_error h (this w) (if reading then read else write)
               0]
    /\ effects w'
       = effects w ++ [Lock; Signal; Unlock; Unlock; Lock]
         ++ (if reading && m_synchronous_read_cb w then [ReadCallback]
             else [])
    /\ m_state w' = m_state w
    /\ resting t' /\ select_quiet t'
    /\ Worker.IdleLoop [] t' w' = None.
Proof.
  intros Hraw (Hst & Hfin & Hquit & Hsock & Hhost & Hwait & Htrig) Hq Hh Hfd
    Hres Hready.
  destruct t as [sk ph pp pipe started quit finished wt trig errs tw].
  destruct w as [self hd fd st thr host port fam cb q reap effs].
  simpl in Hst, Hfin, Hquit, Hsock, Hhost, Hwait, Htrig, Hh, Hfd. subst.
  destruct Hq as [_ He]. simpl in He.
  pose proof (He 1%nat ltac:(lia)) as H1.
  pose proof (He 2%nat ltac:(lia)) as H2.
  assert (Hfd' : (fd =? -1) = false) by (by apply Z.eqb_neq).
  assert (Hres0 : (sel_res sel =? 0) = false) by (apply Z.eqb_neq; lia).
  assert (Hres1 : (sel_res sel =? -1) = false) by (apply Z.eqb_neq; lia).
  unfold Worker.serve_round, Worker.IdleLoop, owner_calls, retry.
  cbn [m_quit Worker.IdleLoop_while m_pSocket m_waiting m_pHost negb orb
       andb Z.eqb non_null].
  destruct reading.
  - unfold Socket.Read. cbn [Z.eqb Pos.eqb]. rewrite Hraw, Z.eqb_refl.
    cbn [snd].
    unfold Socket.arm, SocketThread.WakeupThread, Worker.DoWait,
      Worker.DoWait_rounds, Select.DoWait_body, SocketThread.SendEvents.
    unfold has_bit, clear_bit, WAIT_CONNECT, WAIT_READ, WAIT_WRITE,
      WAIT_ACCEPT, WAIT_CLOSE.
    repeat (progress (cbn -[nth]; closed_bits;
                      rewrite ?Hfd', ?Hres0, ?Hres1, ?Hready, ?H1, ?H2)).
    destruct cb; (eexists _, _; split; [reflexivity|]);
      unfold send, Dispatcher.SendEvent; cbn -[nth];
      rewrite <- ?app_assoc;
      (split; [reflexivity|]); (split; [reflexivity|]);
      (split; [reflexivity|]); (split; [by repeat split|]);
      (split; [by split|reflexivity]).
  - unfold Socket.Write. cbn [Z.eqb Pos.eqb]. rewrite Hraw, Z.eqb_refl.
    cbn [snd].
    unfold Socket.arm, SocketThread.WakeupThread, Worker.DoWait,
      Worker.DoWait_rounds, Select.DoWait_body, SocketThread.SendEvents.
    unfold has_bit, clear_bit, WAIT_CONNECT, WAIT_READ, WAIT_WRITE,
      WAIT_ACCEPT, WAIT_CLOSE.
    repeat (progress (cbn -[nth]; closed_bits;
                      rewrite ?Hfd', ?Hres0, ?Hres1, ?Hready, ?H1, ?H2)).
    (eexists _, _; split; [reflexivity|]); cbn -[nth];
      rewrite <- ?app_assoc;
      (split; [reflexivity|]); (split; [reflexivity|]);
      (split; [reflexivity|]); (split; [by repeat split|]);
      (split; [by split|reflexivity]).
Qed.

Lemma would_block_then_one_event_witness :
  exists t' w',
    Worker.serve_round linux [owner_calls (retry linux true 11)]
      [(fun t w => (t, w), ready)] 0 idle_thread idle_socket
    = returned (true, t', w')
    /\ m_type <$> m_pending_events w' = [read].
Proof.
  destruct (would_block_then_one_event linux true 11 0 ready 2%nat
              idle_thread idle_socket)
    as (t' & w' & H & Hp & _).
  - reflexivity.
  - by repeat split.
  - split; [reflexivity|].
    intros i Hi. destruct i as [|[|[|[|[|[|i] ] ] ] ] ]; reflexivity.
  - reflexivity.
  - done.
  - reflexivity.
  - reflexivity.
  - exists t', w'. split; [exact H|]. rewrite Hp. reflexivity.
Defined.

Lemma retry_keeps_quiet (P : platform) (reading : bool) (raw : Z) :
  keeps_quiet (owner_calls (retry P reading raw)).
Proof.
  intros t w Hq Hst. unfold owner_calls, retry, Socket.Read, Socket.Write.
  assert (Harm : forall bit,
            select_quiet
              (default t (m_pSocketThread
                 (Socket.arm bit (set_m_pSocketThread (Some t) w))))
            /\ m_state (Socket.arm bit (set_m_pSocketThread (Some t) w))
               <> closing).
  { intros bit. unfold Socket.arm, SocketThread.WakeupThread.
    destruct t as [sk ph pp pipe started quit finished wt trig errs tw].
    destruct w as [self hd fd st thr host port fam cb q reap effs].
    cbn -[has_bit Z.lor].
    destruct (has_bit wt bit), started, finished, tw; cbn -[Z.lor];
      by split. }
  assert (Hsame : select_quiet
                    (default t (m_pSocketThread
                                  (set_m_pSocketThread (Some t) w)))
                  /\ m_state (set_m_pSocketThread (Some t) w) <> closing)
    by (by destruct w).
  change (-1 =? -1) with true. cbn [fst snd].
  destruct reading; destruct (last_error P raw =? EAGAIN P);
    cbn [snd]; auto.
Qed.

Lemma Entry_rounds_safe_witness :
  let r := Worker.serve_round linux [owner_calls (retry linux true 11)]
             [(fun t w => (t, w), ready)] 0 idle_thread idle_socket in
  r <> null_dereference
  /\ forall b t' w',
       r = returned (b, t', w') -> select_quiet t' /\ m_state w' <> closing.
Proof.
  cbv zeta.
  destruct (Entry_rounds_safe linux [owner_calls (retry linux true 11)]
              [(fun t w => (t, w), ready)] 0 idle_thread idle_socket)
    as (_ & Hsafe & Hq).
  split; [exact Hsafe|]. apply Hq.
  - apply Forall_cons. split; [apply retry_keeps_quiet|apply Forall_nil_2].
  - apply Forall_cons. split; [|apply Forall_nil_2].
    intros t w Ht Hw. by split.
  - split; [reflexivity|].
    intros i Hi. destruct i as [|[|[|[|[|[|i] ] ] ] ] ]; reflexivity.
  - done.
Defined.

(** ** Proofs about [Accept] *)

Lemma DoSetBufferSizes_calls (P : platform)
    (answer : sockopt_name -> Z -> Z * Z) (size_read size_write : Z)
    (k : sockopts) :
  exists more,
    calls (snd (Options.DoSetBufferSizes P answer size_read size_write k))
    = calls k ++ more
    /\ Forall (fun c => fst c = SO_RCVBUF \/ fst c = SO_SNDBUF) more
    /\ nodelay (snd (Options.DoSetBufferSizes P answer size_read size_write
                       k)) = nodelay k
    /\ keepalive (snd (Options.DoSetBufferSizes P answer size_read
                         size_write k)) = keepalive k.
Proof.
  unfold Options.DoSetBufferSizes, setsockopt.
  destruct k as [nd ka rb sb cs].
  destruct (size_read =? -1), (size_write =? -1); cbn [negb].
  - exists []. rewrite app_nil_r. by repeat split.
  - destruct (answer SO_SNDBUF size_write) as [res err].
    destruct (res =? 0) eqn:E; simpl; rewrite ?E; simpl;
      (eexists; split; [reflexivity|]);
      (split; [repeat first [apply Forall_nil_2|apply Forall_cons_2; [simpl; auto|] ]|done]).
  - destruct (answer SO_RCVBUF size_read) as [res err].
    destruct (res =? 0) eqn:E; simpl; rewrite ?E; simpl;
      (eexists; split; [reflexivity|]);
      (split; [repeat first [apply Forall_nil_2|apply Forall_cons_2; [simpl; auto|] ]|done]).
  - destruct (answer SO_RCVBUF size_read) as [res err].
    destruct (res =? 0) eqn:E; simpl; rewrite ?E; simpl.
    + destruct (answer SO_SNDBUF size_write) as [res' err'].
      destruct (res' =? 0) eqn:E'; simpl; rewrite ?E'; simpl;
        rewrite <- app_assoc;
        (eexists; split; [reflexivity|]);
        (split; [repeat first [apply Forall_nil_2|apply Forall_cons_2; [simpl; auto|] ]|done]).
    + eexists; split; [reflexivity|].
      split; [repeat first [apply Forall_nil_2|apply Forall_cons_2; [simpl; auto|] ]|done].
Qed.

Lemma setsockopt_NOSIGPIPE (answer : sockopt_name -> Z -> Z * Z)
    (k : sockopts) :
  calls (snd (setsockopt answer SO_NOSIGPIPE 1 k))
  = calls k ++ [(SO_NOSIGPIPE, 1)]
  /\ nodelay (snd (setsockopt answer SO_NOSIGPIPE 1 k)) = nodelay k
  /\ keepalive (snd (setsockopt answer SO_NOSIGPIPE 1 k)) = keepalive k.
Proof.
  unfold setsockopt. destruct (answer SO_NOSIGPIPE 1) as [res err].
  destruct k as [nd ka rb sb cs]. by destruct (res =? 0).
Qed.

(** X28. What [CSocket::Accept] leaves behind.  The listening socket
    keeps its state, descriptor, handler and pending events, and its worker,
    if it has one, waits for [WAIT_ACCEPT] again whether or not [accept]
    succeeded.  When [accept] fails, no socket is created, [error] is the
    system's error code and no option is set.  When it succeeds, [error] is
    not written; the new socket is connected on the accepted descriptor, has
    no event handler and a worker of its own that waits for [WAIT_READ] and
    [WAIT_WRITE], whose [SendEvents] sends nothing as long as no handler is
    set.  The options set on the descriptor are [SO_NOSIGPIPE], first and
    only on a platform that has it and has no [MSG_NOSIGNAL], and then the
    buffer sizes; the listening socket's flags are not passed on. *)
Theorem Accept_results (P : platform) (env : connect_env)
    (answer : sockopt_name -> Z -> Z * Z) (o : socket_options)
    (accepted : Z * Z) (fresh : source) (error : Z) (k : sockopts)
    (w : world) :
  let '(new, error', k', w1) :=
    Acceptor.Accept P env answer o accepted fresh error k w in
  m_state w1 = m_state w /\ m_fd w1 = m_fd w
  /\ m_pEvtHandler w1 = m_pEvtHandler w
  /\ m_pending_events w1 = m_pending_events w
  /\ (forall t, m_pSocketThread w = Some t ->
        exists t1, m_pSocketThread w1 = Some t1
                   /\ has_bit (m_waiting t1) WAIT_ACCEPT = true)
  /\ (fst accepted = -1 ->
      new = None /\ error' = last_error P (snd accepted) /\ k' = k)
  /\ (fst accepted <> -1 ->
      error' = error
      /\ nodelay k' = nodelay k /\ keepalive k' = keepalive k
      /\ (exists more,
            calls k'
            = calls k
              ++ (if macro_defined P "SO_NOSIGPIPE"
                     && negb (macro_defined P "MSG_NOSIGNAL")
                  then [(SO_NOSIGPIPE, 1)] else [])
              ++ more
            /\ Forall (fun c => fst c = SO_RCVBUF \/ fst c = SO_SNDBUF) more)
      /\ exists nw nt,
           new = Some nw /\ this nw = fresh
           /\ m_state nw = connected /\ m_fd nw = fst accepted
           /\ m_pEvtHandler nw = None
           /\ m_pending_events nw = m_pending_events w
           /\ m_pSocketThread nw = Some nt
           /\ m_pSocket nt = true
           /\ m_waiting nt = Z.lor WAIT_READ WAIT_WRITE
           /\ forall peek, SocketThread.SendEvents P peek nt nw = (nt, nw)).
Proof.
  unfold Acceptor.Accept.
  set (w1 := match m_pSocketThread w with Some _ => _ | None => w end).
  assert (Hw1 : m_state w1 = m_state w /\ m_fd w1 = m_fd w
                /\ m_pEvtHandler w1 = m_pEvtHandler w
                /\ m_pending_events w1 = m_pending_events w
                /\ forall t, m_pSocketThread w = Some t ->
                     exists t1, m_pSocketThread w1 = Some t1
                       /\ has_bit (m_waiting t1) WAIT_ACCEPT = true).
  { subst w1. destruct (m_pSocketThread w) as [t|] eqn:Ht;
      [|by repeat split].
    unfold SocketThread.WakeupThread.
    destruct t as [sk ph pp pipe started quit finished wt trig errs tw].
    destruct w as [self hd fd st thr host port fam cb q reap effs].
    cbn -[has_bit Z.lor WAIT_ACCEPT].
    destruct started, finished, tw; cbn -[has_bit Z.lor WAIT_ACCEPT];
      (repeat split; try done); intros t _; eexists;
      (split; [reflexivity|]); by apply has_bit_lor. }
  clearbody w1. destruct Hw1 as (Hst & Hfd & Hh & Hq & Ht).
  destruct accepted as [fd' raw]. cbn [fst snd].
  destruct (fd' =? -1) eqn:Hfail.
  { apply Z.eqb_eq in Hfail. by repeat split. }
  apply Z.eqb_neq in Hfail.
  set (nosig := macro_defined P "SO_NOSIGPIPE"
                && negb (macro_defined P "MSG_NOSIGNAL")).
  set (k0 := if nosig then snd (setsockopt answer SO_NOSIGPIPE 1 k) else k).
  assert (Hk0 : calls k0
                = calls k ++ (if nosig then [(SO_NOSIGPIPE, 1)] else [])
                /\ nodelay k0 = nodelay k /\ keepalive k0 = keepalive k).
  { subst k0. destruct nosig; [apply setsockopt_NOSIGPIPE|].
    by rewrite app_nil_r. }
  clearbody k0. destruct Hk0 as (Hc0 & Hnd0 & Hka0).
  destruct (DoSetBufferSizes_calls P answer (fst (m_buffer_sizes o))
              (snd (m_buffer_sizes o)) k0) as (more & Hc & Hmore & Hnd & Hka).
  rewrite Hc0, <- app_assoc in Hc. rewrite Hnd0 in Hnd. rewrite Hka0 in Hka.
  unfold SocketThread.SetSocket, SocketThread.Start, Socket.new_CSocket.
  destruct w1 as [self hd fd st thr host port fam cb q reap effs].
  cbn -[Z.lor Options.DoSetBufferSizes].
  cbn -[Z.lor Options.DoSetBufferSizes] in Hst, Hfd, Hh, Hq.
  destruct (primitive_errno env =? 0), (create_ok env);
    cbn -[Z.lor Options.DoSetBufferSizes];
    (repeat split; try done; try (by exists more));
    eexists _, _; repeat split; first [reflexivity|simpl; congruence].
Qed.



(** ** Proofs about [ParsePwdReply] *)

Lemma Find_lower (ch : ascii) (s : string) : -1 <= Find ch s.
Proof.
  induction s as [|c s IH]; cbn [Find]; [lia|].
  destruct (Ascii.eqb c ch); [lia|].
  destruct (Find ch s =? -1) eqn:E; [lia|]. apply Z.eqb_neq in E. lia.
Qed.

Lemma Find_cons_miss (ch c : ascii) (s : string) :
  Find ch (String c s) = -1 ->
  Ascii.eqb c ch = false /\ Find ch s = -1.
Proof.
  cbn [Find]. destruct (Ascii.eqb c ch); [lia|].
  destruct (Find ch s =? -1) eqn:E.
  - apply Z.eqb_eq in E. done.
  - pose proof (Find_lower ch s). apply Z.eqb_neq in E. lia.
Qed.

Lemma Find_append_hit (ch : ascii) (a s : string) :
  Find ch a = -1 ->
  Find ch (String.append a (String ch s)) = Z.of_nat (String.length a).
Proof.
  induction a as [|c a IH]; intros Ha.
  - cbn [String.append Find String.length]. by rewrite Ascii.eqb_refl.
  - apply Find_cons_miss in Ha as [Hc Ha].
    cbn [String.append Find String.length]. rewrite Hc, (IH Ha).
    destruct (Z.of_nat (String.length a) =? -1) eqn:E; [|lia].
    apply Z.eqb_eq in E. lia.
Qed.

Lemma Find_append_miss (ch : ascii) (a b : string) :
  Find ch (String.append a b) = -1 -> Find ch a = -1 /\ Find ch b = -1.
Proof.
  induction a as [|c a IH]; intros H; [done|].
  cbn [String.append] in H. apply Find_cons_miss in H as [Hc H].
  destruct (IH H) as [Ha Hb]. split; [|done].
  cbn [Find]. by rewrite Hc, Ha.
Qed.

Lemma Find_fromEnd_miss (ch : ascii) (s : string) :
  Find ch s = -1 -> Find_fromEnd ch s = -1.
Proof.
  induction s as [|c s IH]; intros H; [done|].
  apply Find_cons_miss in H as [Hc H].
  cbn [Find_fromEnd]. by rewrite (IH H), Hc.
Qed.

Lemma Find_fromEnd_append (ch : ascii) (s b : string) :
  Find ch b = -1 ->
  Find_fromEnd ch (String.append s (String ch b))
  = Z.of_nat (String.length s).
Proof.
  intros Hb. induction s as [|c s IH].
  - cbn [String.append Find_fromEnd String.length].
    by rewrite (Find_fromEnd_miss _ _ Hb), Ascii.eqb_refl.
  - cbn [String.append Find_fromEnd String.length]. rewrite IH.
    destruct (Z.of_nat (String.length s) =? -1) eqn:E; [|lia].
    apply Z.eqb_eq in E. lia.
Qed.

Lemma substring_skip (a s : string) (c : ascii) (m : nat) :
  substring (S (String.length a)) m (String.append a (String c s))
  = substring 0 m s.
Proof.
  induction a as [|x a IH]; cbn [String.append String.length substring].
  - by destruct m.
  - exact IH.
Qed.

Lemma substring_all (s : string) :
  forall m : nat, (String.length s <= m)%nat -> substring 0 m s = s.
Proof.
  induction s as [|c s IH]; intros m Hm.
  - by destruct m.
  - destruct m as [|m]; cbn [String.length] in Hm; [lia|].
    cbn [substring]. rewrite IH; [done|lia].
Qed.

Lemma substring_front (e s : string) :
  substring 0 (String.length e) (String.append e s) = e.
Proof.
  induction e as [|c e IH]; cbn [String.append String.length substring].
  - by destruct s.
  - by rewrite IH.
Qed.

Lemma length_append (a b : string) :
  String.length (String.append a b)
  = (String.length a + String.length b)%nat.
Proof. induction a as [|c a IH]; cbn; [done|by rewrite IH]. Qed.

Lemma Replace_doubled (p : string) :
  Replace_dquotes (doubled_quotes p) = p.
Proof.
  induction p as [|c p IH]; [done|].
  cbn [doubled_quotes]. destruct (Ascii.eqb c dquote) eqn:Hc.
  - apply Ascii.eqb_eq in Hc. subst c.
    cbn [Replace_dquotes]. rewrite Ascii.eqb_refl. cbn [andb].
    by rewrite IH.
  - cbn [Replace_dquotes]. destruct (doubled_quotes p) as [|b s] eqn:E.
    + cbn in IH. by rewrite <- IH.
    + rewrite Hc. cbn [andb]. by rewrite IH.
Qed.

Lemma Replace_none (s : string) :
  Find dquote s = -1 -> Replace_dquotes s = s.
Proof.
  induction s as [|a t IH]; intros H; [done|].
  apply Find_cons_miss in H as [Ha H].
  cbn [Replace_dquotes]. destruct t as [|b s']; [done|].
  rewrite Ha. cbn [andb]. by rewrite (IH H).
Qed.

(** The segment between two marks [ch]: [Mid(pos1 + 1, pos2 - pos1 - 1)]
    with the positions [Find] reports. *)
Lemma Mid_between (ch : ascii) (a e b : string) :
  Find ch a = -1 -> Find ch b = -1 ->
  let reply := String.append a (String ch (String.append e (String ch b))) in
  Find ch reply = Z.of_nat (String.length a)
  /\ Find_fromEnd ch reply
     = Z.of_nat (String.length a) + 1 + Z.of_nat (String.length e)
  /\ Mid (Find ch reply + 1)
       (Some (Find_fromEnd ch reply - Find ch reply - 1)) reply
     = e.
Proof.
  intros Ha Hb reply.
  assert (H1 : Find ch reply = Z.of_nat (String.length a))
    by (by apply Find_append_hit).
  assert (H2 : Find_fromEnd ch reply
               = Z.of_nat (String.length a) + 1
                 + Z.of_nat (String.length e)).
  { subst reply.
    replace (String.append a (String ch (String.append e (String ch b))))
      with (String.append (String.append a (String ch e)) (String ch b)).
    - rewrite Find_fromEnd_append by done.
      rewrite length_append. cbn [String.length]. lia.
    - clear. induction a as [|x a IH]; cbn [String.append]; [done|].
      by rewrite IH. }
  split; [done|]. split; [done|].
  unfold Mid. rewrite H1, H2.
  replace (Z.to_nat (Z.of_nat (String.length a) + 1))
    with (S (String.length a)) by lia.
  replace (Z.to_nat (Z.of_nat (String.length a) + 1
                     + Z.of_nat (String.length e)
                     - Z.of_nat (String.length a) - 1))
    with (String.length e) by lia.
  subst reply. rewrite substring_skip.
  rewrite (substring_all (String.append e (String ch b))).
  - apply substring_front.
  - rewrite !length_append. cbn [String.length].
    rewrite !length_append. cbn [String.length]. lia.
Qed.

Lemma path_text_log (reply : string) (unquoted : bool) :
  Assuming_default_path ∉ snd (PwdReply.path_text reply unquoted).
Proof.
  unfold PwdReply.path_text. cbv zeta.
  destruct unquoted; [apply not_elem_of_nil|].
  repeat match goal with
         | |- context [if ?c then _ else _] => destruct c
         end;
    intros H; cbn in H; rewrite ?elem_of_cons, ?elem_of_nil in H;
    intuition discriminate.
Qed.


